(* ===== verification/_CoqProject ===== *)
-Q . S2P
Prelude.v
Frame.v
StreamFsm.v
Ring.v
Resume.v
Store.v
StoreSpec.v
Hub.v
Registry.v
RegistryConc.v
Policy.v
Observe.v
AuditLog.v
Identity.v
Rotator.v
Pki.v
Transport.v
Carrier.v
GoPath.v
DebugHttp.v
GoFlag.v
DevPki.v
Controller.v
Process.v
Cli.v
Correlate.v
