(* ===== verification/Prelude.v ===== *)
(** * OutRelay: a verification development

    OutRelay connects agents through relays.  The repository holds the wire
    protocol (ORP), the libraries agents and relays share, and the controller with
    its registry, policy, audit and PKI services.  This library translates the Go
    code under src/ into executable Rocq definitions and proves what makes each part
    correct, and, where the code or a comment promises more than the code does, what
    it does instead.

    ** The parts of the program and the files that model them

    - [Prelude] (this file): results of fallible functions, machine integers with
      their wrap-around, bytes, the stable sort, the tactics and hints the other files
      share.
    - [Frame]: lib/orp/frame.go, codec.go, version.go.  The 8-byte header, MarshalBinary,
      ParseFrame and io.ReadFull over a reader that delivers its bytes in arbitrary
      fragments and may fail, and MarshalProto, UnmarshalProto and WriteFrame over the
      class [ProtoCodec] that stands for the protobuf runtime.
    - [StreamFsm]: lib/orp/stream.go, the life cycle of a stream; the inductive
      [fsm_edge] is the documented table.
    - [Ring]: lib/resume/ringbuffer.go, the replay buffer, fixed and adaptive.
      [ring_rep] relates it to the history of all bytes written.
    - [Resume]: lib/resume/stream.go and streamid.go.  Per-stream counters over a ring;
      [session_step] composes a sender and a receiver into the checkpoint and resume
      protocol.  The hash of stream ids is a parameter, its input is modelled exactly.
    - [Store]: pkg/registry/store/sqlite.go.  The five tables as lists of rows, [Open] on
      a new or an existing file, each method as the meaning of its SQL text; driver faults
      are arguments, ORDER BY is the class [OrderBy] with its laws [OrderByLaws].
    - [StoreSpec]: what the store promises, as finite maps ([spec_step]), and the
      refinement by the rows.
    - [Hub]: the watch fan-out that pkg/registry/server.go and pkg/policy/server.go both
      contain: a set of watchers with 64-slot channels, broadcast that drops a slow
      watcher, the receiving loop.  The class [Watch] is its interface to the two
      servers: which events a watcher wants.  Sending on a closed channel and closing
      twice are panics, modelled as [None].
    - [Registry]: pkg/registry/server.go, every handler over [Store] and [Hub], with the
      messages of lib/control/v1/registry.pb.go.
    - [RegistryConc]: the same handlers split at their SQL statements and broadcasts and
      run interleaved, any number of them at a time ([conf_step]).
    - [Policy]: pkg/policy/server.go, every handler, and Watch statement by statement,
      with the messages and enumerations of lib/control/v1/policy.pb.go.
    - [AuditLog]: pkg/audit/server.go over [Store], with a counter of [Observe].
    - [Observe]: lib/observe/metric.go and dumper.go.  Metric objects live in a heap, the
      registry maps names to them; Quantile computes in IEEE binary64 ([SpecFloat]).
    - [Identity]: lib/identity/name.go with the part of net/url it goes through; UUIDs are
      the class [UUIDPkg] with [UUIDLaws].
    - [Rotator]: lib/identity/rotator.go, the refresh loop as a list of turns.
    - [Pki]: pkg/pki/enroll.go and ca.go; the JWT package is the class [JwtPkg] with
      [JwtLaws], X.509 calls appear through their outcomes.
    - [Transport]: lib/transport/conn.go, quic.go, tcp.go: configuration defaults, the
      dial, listen and accept paths with what they close on failure, and the goroutine
      protocol of AcceptStream as the step relation [se_step].
    - [Carrier]: the package's interfaces.  The class [Dialer] with [DialerLaws] and its
      three instances, the class [Stream] with the QUIC and the yamux stream, and the
      goroutine protocol of OpenStream ([os_step]).
    - [GoPath], [GoFlag]: what the programs use of Go's path and flag packages, with
      number and duration parsing; the Standard Library, so no part of src/.
    - [DebugHttp]: lib/observe/http.go, the routes of the debug listener through the
      request multiplexer of net/http, and ServeDebug as a state machine.
    - [DevPki]: tools/dev-pki/main.go, the whole command as a computation over the files
      on disk that may exit, and the PEM export of pkg/pki/ca.go.  [WriteFile] keeps the
      mode of an existing file and can fail half-way.
    - [Controller]: cmd/outrelay-controller/main.go.  The class [Service] is the interface
      between one server and the process: [ServiceLaws] says that a request does not
      panic, keeps the schema and writes only the tables of its service.  Three servers
      over one database, and the flags and failures of start-up.
    - [Process]: the signals, goroutines and shutdown of that program ([pr_step]); the gRPC
      server is the class [GrpcServer] with its documented behaviour [GrpcLaws].
    - [Cli]: cmd/outrelay-cli/main.go, every command from its arguments through the
      controller to the exit status and the printed lines.  A call or a message of a
      stream arrives, breaks off or never comes ([delivery]); with no deadline the command
      would wait for ever ([Hang]).
    - [Correlate]: tools/correlate/main.go.

    ** What the theorems show

    - Wire format: encoding and parsing are inverse under any fragmentation
      ([ParseFrame_MarshalBinary], [ParseFrame_canonical]), messages survive the trip
      ([WriteFrame_UnmarshalProto]), which stream ends look like io.EOF
      ([ParseFrame_EOF]).
    - Streams: the state machine implements its table and is monotone; splicing
      happens exactly after open, accept and splice.
    - Resume: the ring returns exactly the history from a position
      ([BytesFrom_run]), stays within its capacity, and the adaptive policy retains the
      same bytes as a fixed ring; over all executions of the protocol a resumed
      stream loses nothing unless the ring overflowed ([resume_exact]).
    - Controller state: the store implements finite maps over all sequences of
      operations with faults ([store_refines]); register, resolve, deregister, policy and
      audit operations are specified on every branch.
    - Watches: no execution panics and delivery has no gap ([hub_gapless]); a dropped
      watcher is told ([missed_event_reported]); replaying the events gives exactly the
      database ([watch_refines_store]) and the stored rules up to creation times and
      unnamed enumeration numbers ([watch_rebuilds_policies], [same_rule]) when handlers
      run one at a time.  With handlers interleaved, [interleaved_watch_converges] gives a
      condition under which watchers end with the database; the interleavings that break
      it are theorems too ([snapshot_gap_loses_rule], [add_remove_race],
      [deregister_race], [reconnect_race]).
    - The controller as a whole: with the three services over one database all
      watchers stay exact and no request panics ([controller_watchers_exact]); start-up
      fails with a status or serves the given settings ([controller_start]); a signal
      ends the process once nothing is pending on the server, with which status
      ([shutdown_outcome]), and no later signal can hurry it ([later_signals_ignored]).
    - Command line: every command line ends within its deadline whatever the network does
      ([cli_terminates]); a rule goes from the flags
      to the database, to the listing, and away again ([cli_add_list_remove]); flags
      round trip ([add_flags_roundtrip]); what is silently ignored or done twice
      ([trailing_arguments_ignored], [add_retry_duplicates]).  dev-pki writes the
      documented files, with which contents and modes, and no others
      ([dev_run_succeeds], [dev_files_in_dir]).
    - Identity and PKI: names round trip through their URIs and only valid names
      parse; enrollment tokens are single-use; certificates take only the key from the
      CSR and name the claimed identity and localhost.
    - Metrics, rotation, transport, tools: counters and histograms are exact, what
      Quantile returns, what the debug listener answers to every path ([debug_routes]), the
      current certificate after any run, no leaked socket on a failed dial, one contract
      for all dialers ([dialers_agree]), the stream a cancelled AcceptStream swallows and
      the one a cancelled OpenStream leaks, exact log correlation.

    ** Bounds and fuel

    Recursion is structural except for [TrimSpace] and [ToLower] in [Cli] and the loops
    of flag and duration parsing in [GoFlag], whose fuel is the length of the string or of
    the argument list, which every step shortens ([cli_terminates] covers them).  A
    handler of [RegistryConc] running alone takes the steps [handlers_alone] names.  Reads
    consume the script of the reader.  Loops that wait for events take the list of events.  Go integers keep
    their width: a ring of fewer than 2^61 bytes and a history of fewer than 2^63 bytes keep
    the ring's arithmetic in range; counters wrap.  A conversion of an out-of-range float,
    which Go leaves open, is a parameter.

    ** What is not modelled

    The generated protobuf and gRPC plumbing (lib/control/v1, lib/orp/v1) beyond the
    messages and enumerations the handlers use; log lines and the text commands print
    on standard error; the accessors of connections and listeners that only forward a
    call (addresses, TLS state, Close); the pprof handlers of the Standard Library; the
    scripts under tests/; in dev-pki, links between paths and the mode of the directory.
    [Process] starts just before the call of Serve: a signal during start-up is not
    followed into store.Open.

    ** Plan

    Next: the policy and the audit handlers interleaved as the registry's are; the
    resume protocol with both directions in one session; a concurrent account of
    Observe and Snapshot on one histogram. *)

From Stdlib Require Import ZArith Lia Strings.Byte Sorted.
From stdpp Require Import base tactics list numbers strings sorting pretty gmap.

(** ** Results of fallible Go functions

    A Go function returning [(T, error)] is modelled by [res E T]: exactly one
    of the two is meaningful. *)
Inductive res (E A : Type) : Type :=
| Ok (a : A)
| Err (e : E).
Arguments Ok {E A} a.
Arguments Err {E A} e.

Definition res_bind {E A B} (m : res E A) (f : A -> res E B) : res E B :=
  match m with Ok a => f a | Err e => Err e end.

Declare Scope go_scope.
Delimit Scope go_scope with go.
Notation "x <-? m ;; k" := (res_bind m (fun x => k))
  (at level 100, m at next level, right associativity) : go_scope.

(** ** Machine integers

    Go integers of width [w] are integers [Z]; every operation that can leave
    the range is followed by the wrap-around of its type. *)
Definition u8 (z : Z) : Z := (z mod 256)%Z.
Definition u16 (z : Z) : Z := (z mod 65536)%Z.
Definition u32 (z : Z) : Z := (z mod 4294967296)%Z.
Definition u64 (z : Z) : Z := (z mod 18446744073709551616)%Z.
Definition i32 (z : Z) : Z :=
  ((z + 2147483648) mod 4294967296 - 2147483648)%Z.
Definition i64 (z : Z) : Z :=
  ((z + 9223372036854775808) mod 18446744073709551616 - 9223372036854775808)%Z.

(** The length of a slice as a Go [int]. *)
Definition zlen {A} (l : list A) : Z := Z.of_nat (length l).

Definition is_i64 (z : Z) : Prop :=
  (-9223372036854775808 <= z <= 9223372036854775807)%Z.

(** ** Bytes *)
Definition byte_val (b : byte) : Z := Z.of_N (Byte.to_N b).
Definition byte_of (z : Z) : byte :=
  match Byte.of_N (Z.to_N (z mod 256)) with
  | Some b => b
  | None => Byte.x00
  end.

#[global] Instance byte_eq_dec : EqDecision byte := Byte.byte_eq_dec.

(** Go strings are byte strings; [string] is a list of [ascii]. *)
Definition str_bytes (s : string) : list byte := String.list_byte_of_string s.

(** ** Stable sorting

    The model of [sort.SliceStable] and of an SQL [ORDER BY] evaluated over the
    rows in scan order: insertion sort, which keeps elements of equal key in
    their original order. *)
Section StableSort.
Context {A : Type} (leb : A -> A -> bool).

Fixpoint sinsert (x : A) (l : list A) : list A :=
  match l with
  | [] => [x]
  | y :: l' => if leb x y then x :: l else y :: sinsert x l'
  end.

Fixpoint stable_sort (l : list A) : list A :=
  match l with
  | [] => []
  | x :: l' => sinsert x (stable_sort l')
  end.
End StableSort.

(** ** Automation *)
Create HintDb outrelay.

(** [zunfold] exposes the arithmetic of the machine-integer definitions. *)
Ltac zunfold := unfold u8, u16, u32, u64, i32, i64, zlen, is_i64 in *.

(** [res_inv] uses an equation between results. *)
Ltac res_inv :=
  repeat match goal with
  | H : Ok _ = Ok _ |- _ => injection H as H; subst
  | H : Err _ = Err _ |- _ => injection H as H; subst
  | H : Ok _ = Err _ |- _ => discriminate H
  | H : Err _ = Ok _ |- _ => discriminate H
  | H : Some _ = Some _ |- _ => injection H as H; subst
  | H : Some _ = None |- _ => discriminate H
  | H : None = Some _ |- _ => discriminate H
  end.

(** [bool_split] turns the boolean guards of the code into propositions. *)
Ltac bool_split :=
  repeat match goal with
  | H : _ && _ = true |- _ => apply andb_prop in H; destruct H
  | H : _ || _ = false |- _ => apply orb_false_elim in H; destruct H
  | H : negb _ = true |- _ => apply negb_true_iff in H
  | H : negb _ = false |- _ => apply negb_false_iff in H
  | H : (_ <=? _)%Z = true |- _ => apply Z.leb_le in H
  | H : (_ <=? _)%Z = false |- _ => apply Z.leb_gt in H
  | H : (_ <? _)%Z = true |- _ => apply Z.ltb_lt in H
  | H : (_ <? _)%Z = false |- _ => apply Z.ltb_ge in H
  | H : (_ =? _)%Z = true |- _ => apply Z.eqb_eq in H
  | H : (_ =? _)%Z = false |- _ => apply Z.eqb_neq in H
  | H : String.eqb _ _ = true |- _ => apply String.eqb_eq in H
  | H : String.eqb _ _ = false |- _ => apply String.eqb_neq in H
  end.

(** [zcase] splits on the first integer comparison the goal branches on. *)
Ltac zcase :=
  match goal with
  | |- context [if (?a <? ?b)%Z then _ else _] => destruct (Z.ltb_spec a b)
  | |- context [if (?a <=? ?b)%Z then _ else _] => destruct (Z.leb_spec a b)
  | |- context [if (?a =? ?b)%Z then _ else _] => destruct (Z.eqb_spec a b)
  end.

(** ** Lemmas on machine integers *)
Lemma i64_small (z : Z) : is_i64 z -> i64 z = z.
Proof. zunfold. intros. rewrite Z.mod_small; lia. Qed.

Lemma i64_range (z : Z) : is_i64 (i64 z).
Proof.
  zunfold. pose proof (Z.mod_pos_bound (z + 9223372036854775808) 18446744073709551616).
  lia.
Qed.

Lemma u16_small (z : Z) : (0 <= z < 65536)%Z -> u16 z = z.
Proof. zunfold. intros. apply Z.mod_small. lia. Qed.

Lemma u32_small (z : Z) : (0 <= z < 4294967296)%Z -> u32 z = z.
Proof. zunfold. intros. apply Z.mod_small. lia. Qed.

(** [no_wrap] removes the [int64] wrap-around where the range is known. *)
Ltac no_wrap := rewrite !i64_small by (unfold is_i64; lia).

Lemma zlen_nonneg {A} (l : list A) : (0 <= zlen l)%Z.
Proof. zunfold. lia. Qed.

Lemma zlen_app {A} (l k : list A) : zlen (l ++ k) = (zlen l + zlen k)%Z.
Proof. zunfold. rewrite length_app. lia. Qed.

Lemma zlen_cons {A} (x : A) (l : list A) : zlen (x :: l) = (1 + zlen l)%Z.
Proof. zunfold. rewrite length_cons. lia. Qed.

Lemma zlen_drop {A} (n : nat) (l : list A) :
  zlen (drop n l) = Z.max 0 (zlen l - Z.of_nat n).
Proof. zunfold. rewrite length_drop. lia. Qed.

Lemma Forall_uncons {A} (P : A -> Prop) x l : Forall P (x :: l) -> P x /\ Forall P l.
Proof. by inversion 1. Qed.

(** ** Lemmas on bytes *)
Lemma byte_of_val (b : byte) : byte_of (byte_val b) = b.
Proof. destruct b; reflexivity. Qed.

Lemma byte_val_range (b : byte) : (0 <= byte_val b < 256)%Z.
Proof.
  unfold byte_val. pose proof (Byte.to_N_bounded b). lia.
Qed.

Lemma byte_val_of (z : Z) : byte_val (byte_of z) = (z mod 256)%Z.
Proof.
  unfold byte_of. pose proof (Z.mod_pos_bound z 256 ltac:(lia)) as Hr.
  destruct (Byte.of_N (Z.to_N (z mod 256))) as [b|] eqn:E.
  - apply Byte.to_of_N in E. unfold byte_val. rewrite E. lia.
  - apply Byte.of_N_None_iff in E. lia.
Qed.

Lemma byte_val_inj (a b : byte) : byte_val a = byte_val b -> a = b.
Proof. intros H. rewrite <- (byte_of_val a), <- (byte_of_val b), H. done. Qed.

(** ** Lemmas on stable sorting *)
Section StableSortFacts.
Context {A : Type} (leb : A -> A -> bool).
Context (leb_total : forall x y, leb x y = true \/ leb y x = true).
Context (leb_trans : forall x y z, leb x y = true -> leb y z = true -> leb x z = true).
Local Abbreviation R := (fun x y => leb x y = true).

Lemma sinsert_perm x l : Permutation (sinsert leb x l) (x :: l).
Proof.
  induction l as [|y l IH]; simpl; [done|].
  destruct (leb x y); [done|]. rewrite IH. constructor.
Qed.

Lemma stable_sort_perm l : Permutation (stable_sort leb l) l.
Proof.
  induction l as [|x l IH]; simpl; [done|]. rewrite sinsert_perm. by constructor.
Qed.

Lemma sinsert_sorted x l :
  StronglySorted R l -> StronglySorted R (sinsert leb x l).
Proof using leb_total leb_trans.
  induction 1 as [|y l Hl IH Hy]; simpl.
  - repeat constructor.
  - destruct (leb x y) eqn:E.
    + constructor; [by constructor|]. constructor; [done|].
      eapply Forall_impl; [exact Hy|]. intros z Hz. by eapply leb_trans.
    + constructor; [done|]. rewrite sinsert_perm. constructor; [|done].
      destruct (leb_total x y); congruence.
Qed.

Lemma stable_sort_sorted l : StronglySorted R (stable_sort leb l).
Proof using leb_total leb_trans.
  induction l; simpl; [constructor|by apply sinsert_sorted].
Qed.

(** Stability: restricted to a class [P] of pairwise equivalent elements, the
    sorted list is the original one. *)
Lemma sinsert_filter (P : A -> bool) x l :
  (forall y z, P y = true -> P z = true -> leb y z = true) ->
  List.filter P (sinsert leb x l) = List.filter P (x :: l).
Proof.
  intros HP. induction l as [|y l IH]; simpl in *; [done|].
  destruct (leb x y) eqn:E; [done|]. simpl. rewrite IH.
  destruct (P x) eqn:Px, (P y) eqn:Py; try done. rewrite HP in E; done.
Qed.

Lemma stable_sort_stable (P : A -> bool) l :
  (forall y z, P y = true -> P z = true -> leb y z = true) ->
  List.filter P (stable_sort leb l) = List.filter P l.
Proof.
  intros HP. induction l as [|x l IH]; [done|].
  simpl stable_sort. rewrite sinsert_filter by done. simpl. by rewrite IH.
Qed.
End StableSortFacts.

#[export] Hint Resolve zlen_nonneg byte_val_range i64_range : outrelay.
