(* ===== verification/Frame.v ===== *)
(** * The ORP frame codec: lib/orp/frame.go, codec.go and version.go

    The 8-byte big-endian frame header, [MarshalBinary] and [ParseFrame] over
    an [io.Reader] that may deliver its bytes in any fragmentation, and the
    protobuf wrappers [MarshalProto], [UnmarshalProto] and [WriteFrame].  The
    protobuf runtime is a third-party library: it is the class [ProtoCodec]. *)

From Stdlib Require Import ZArith Lia Strings.Byte.
From stdpp Require Import base tactics list numbers strings.
From S2P Require Import Prelude.

Local Open Scope Z_scope.

(** ** Constants (frame.go) *)
Definition HeaderSize : nat := 8.
Definition MaxPayload : Z := Z.shiftl 1 24.
Definition Version1 : Z := 1.
Definition CurrentVersion : Z := Version1.
Definition maxType : Z := 0x07FF.
Definition maxVersion : Z := 0x07.

(** [FrameType] is a [uint16] whose named values are these. *)
Definition FrameTypeHello : Z := 0x001.
Definition FrameTypeHelloAck : Z := 0x002.
Definition FrameTypeRegister : Z := 0x003.
Definition FrameTypeRegisterAck : Z := 0x004.
Definition FrameTypeResolve : Z := 0x005.
Definition FrameTypeResolveResp : Z := 0x006.
Definition FrameTypeOpenStream : Z := 0x010.
Definition FrameTypeIncomingStream : Z := 0x011.
Definition FrameTypeStreamAccept : Z := 0x012.
Definition FrameTypeStreamReject : Z := 0x013.
Definition FrameTypePing : Z := 0x020.
Definition FrameTypePong : Z := 0x021.
Definition FrameTypePolicyUpdate : Z := 0x030.
Definition FrameTypeMetricReport : Z := 0x040.
Definition FrameTypeGoaway : Z := 0x0FF.
Definition FrameTypeStreamInit : Z := 0x100.
Definition FrameTypeStreamData : Z := 0x101.
Definition FrameTypeStreamFin : Z := 0x102.
Definition FrameTypeStreamReset : Z := 0x103.
Definition FrameTypeStreamCheckpoint : Z := 0x110.
Definition FrameTypeStreamResume : Z := 0x111.
Definition FrameTypeObservedAddrQuery : Z := 0x120.
Definition FrameTypeObservedAddrResp : Z := 0x121.
Definition FrameTypeCandidateOffer : Z := 0x122.
Definition FrameTypeCandidateAnswer : Z := 0x123.
Definition FrameTypeMigrateToP2P : Z := 0x124.
Definition FrameTypeMigrateToRelay : Z := 0x125.
Definition FrameTypeForwardStream : Z := 0x140.
Definition FrameTypeAllocGranted : Z := 0x151.
Definition FrameTypeStreamReady : Z := 0x152.

(** Every named frame type, in the order of the source's const blocks. *)
Definition frame_types : list Z :=
  [FrameTypeHello; FrameTypeHelloAck; FrameTypeRegister; FrameTypeRegisterAck;
   FrameTypeResolve; FrameTypeResolveResp; FrameTypeOpenStream;
   FrameTypeIncomingStream; FrameTypeStreamAccept; FrameTypeStreamReject;
   FrameTypePing; FrameTypePong; FrameTypePolicyUpdate; FrameTypeMetricReport;
   FrameTypeGoaway; FrameTypeStreamInit; FrameTypeStreamData;
   FrameTypeStreamFin; FrameTypeStreamReset; FrameTypeStreamCheckpoint;
   FrameTypeStreamResume; FrameTypeObservedAddrQuery; FrameTypeObservedAddrResp;
   FrameTypeCandidateOffer; FrameTypeCandidateAnswer; FrameTypeMigrateToP2P;
   FrameTypeMigrateToRelay; FrameTypeForwardStream; FrameTypeAllocGranted;
   FrameTypeStreamReady].

(** [IsSupportedVersion] (version.go). *)
Definition IsSupportedVersion (v : Z) : bool := v =? Version1.

(** ** Errors

    [io_err] are the errors of a reader or writer; [OtherErr] stands for any
    transport error.  [IOErr] is an error passed through unwrapped,
    [ReadHeaderErr] and [ReadPayloadErr] the two [fmt.Errorf] wrappers. *)
Inductive io_err := EOF | ErrUnexpectedEOF | OtherErr (code : Z).

#[export] Instance io_err_eq_dec : EqDecision io_err.
Proof. solve_decision. Defined.

Inductive orp_err :=
| ErrInvalidVersion
| ErrInvalidType
| ErrPayloadTooLarge
| IOErr (e : io_err)
| ReadHeaderErr (e : io_err)
| ReadPayloadErr (e : io_err)
| ErrTypeMismatch (got want : Z)
| MarshalErr (typ : Z)
| UnmarshalErr (typ : Z).

(** [errors.Is(err, target)] for an io error [target]: wrapping with [%w]
    keeps the identity of the wrapped error. *)
Definition errors_Is (err : orp_err) (target : io_err) : bool :=
  match err with
  | IOErr e | ReadHeaderErr e | ReadPayloadErr e => bool_decide (e = target)
  | _ => false
  end.

(** ** Frames *)
Record Frame := mkFrame {
  f_Version : Z;
  f_Type : Z;
  f_Flags : Z;
  f_Payload : list byte
}.

(** The widths of the Go fields: [uint8], [uint16], [uint16]. *)
Definition frame_typed (f : Frame) : Prop :=
  0 <= f_Version f < 256 /\ 0 <= f_Type f < 65536 /\ 0 <= f_Flags f < 65536.

(** The frames the codec can put on the wire. *)
Definition frame_ok (f : Frame) : Prop :=
  0 <= f_Version f <= maxVersion /\ 0 <= f_Type f <= maxType /\
  0 <= f_Flags f < 65536 /\ zlen (f_Payload f) <= MaxPayload.

(** [binary.BigEndian.PutUint16], [PutUint32], [Uint16] and [Uint32]. *)
Definition PutUint16 (v : Z) : list byte :=
  [byte_of (Z.shiftr v 8); byte_of v].
Definition PutUint32 (v : Z) : list byte :=
  [byte_of (Z.shiftr v 24); byte_of (Z.shiftr v 16);
   byte_of (Z.shiftr v 8); byte_of v].
Definition Uint16 (b0 b1 : byte) : Z :=
  Z.lor (byte_val b1) (Z.shiftl (byte_val b0) 8).
Definition Uint32 (b0 b1 b2 b3 : byte) : Z :=
  Z.lor (byte_val b3)
    (Z.lor (Z.shiftl (byte_val b2) 8)
       (Z.lor (Z.shiftl (byte_val b1) 16) (Z.shiftl (byte_val b0) 24))).

(** Word 0 of the header: [(uint16(v & maxVersion) << 13) | uint16(t & maxType)]. *)
Definition word0_of (version typ : Z) : Z :=
  Z.lor (u16 (Z.shiftl (Z.land version maxVersion) 13)) (Z.land typ maxType).

Definition MarshalBinary (f : Frame) : res orp_err (list byte) :=
  if maxVersion <? f_Version f then Err ErrInvalidVersion
  else if maxType <? f_Type f then Err ErrInvalidType
  else if MaxPayload <? zlen (f_Payload f) then Err ErrPayloadTooLarge
  else Ok (PutUint16 (word0_of (f_Version f) (f_Type f)) ++
           PutUint16 (f_Flags f) ++
           PutUint32 (u32 (zlen (f_Payload f))) ++
           f_Payload f).

(** ** Readers

    An [io.Reader] is the script of what its successive [Read] calls make
    available: a chunk of bytes with an optional error delivered with the
    chunk's last byte; when the script is used up every [Read] returns
    [rd_final].  A chunk larger than the caller's buffer is handed out in
    pieces. *)
Definition script := list (list byte * option io_err).

Record reader := mkReader { rd_script : script; rd_final : io_err }.

Definition set_script (r : reader) (s : script) : reader :=
  mkReader s (rd_final r).

(** The bytes still to be delivered, and the readers that fail only at the end. *)
Definition script_bytes (s : script) : list byte := concat (map fst s).
Definition clean (r : reader) : Prop := Forall (fun c => snd c = None) (rd_script r).

(** How [io.ReadAtLeast] ends a read that stopped short with [err]. *)
Definition short_read_err (got : list byte) (err : io_err) : io_err :=
  match got, err with
  | _ :: _, EOF => ErrUnexpectedEOF
  | _, _ => err
  end.

(** The loop of [io.ReadFull]: [need] bytes are missing, [got] have been read.
    Returns what was read, the error, and the rest of the script. *)
Fixpoint read_loop (s : script) (final : io_err) (need : nat) (got : list byte)
  : list byte * option io_err * script :=
  match need with
  | O => (got, None, s)
  | _ =>
    match s with
    | [] => (got, Some (short_read_err got final), [])
    | (d, e) :: s' =>
      if (length d <? need)%nat then
        match e with
        | None => read_loop s' final (need - length d) (got ++ d)
        | Some err => (got ++ d, Some (short_read_err (got ++ d) err), s')
        end
      else if (length d =? need)%nat then (got ++ d, None, s')
      else (got ++ take need d, None, (drop need d, e) :: s')
    end
  end.

Definition ReadFull (r : reader) (n : nat) : list byte * option io_err * reader :=
  let '(got, err, s) := read_loop (rd_script r) (rd_final r) n [] in
  (got, err, set_script r s).

(** ** ParseFrame *)
Definition header_err (n : nat) (err : io_err) : orp_err :=
  if bool_decide (err = ErrUnexpectedEOF) ||
     ((n =? 0)%nat && bool_decide (err = EOF))
  then IOErr err else ReadHeaderErr err.

Definition parse_body (hdr : list byte) (r : reader) : res orp_err Frame * reader :=
  match hdr with
  | [h0; h1; h2; h3; h4; h5; h6; h7] =>
    let word0 := Uint16 h0 h1 in
    let flags := Uint16 h2 h3 in
    let length := Uint32 h4 h5 h6 h7 in
    let version := u8 (Z.shiftr word0 13) in
    let typ := Z.land word0 maxType in
    if MaxPayload <? length then (Err ErrPayloadTooLarge, r)
    else if 0 <? length then
      let '(payload, err, r') := ReadFull r (Z.to_nat length) in
      match err with
      | Some e => (Err (ReadPayloadErr e), r')
      | None => (Ok (mkFrame version typ flags payload), r')
      end
    else (Ok (mkFrame version typ flags []), r)
  | _ => (Err (ReadHeaderErr ErrUnexpectedEOF), r)
  end.

Definition ParseFrame (r : reader) : res orp_err Frame * reader :=
  let '(hdr, err, r') := ReadFull r HeaderSize in
  match err with
  | Some e => (Err (header_err (length hdr) e), r')
  | None => parse_body hdr r'
  end.

(** ** The protobuf wrappers (codec.go) *)
Class ProtoCodec (msg : Type) := {
  proto_Marshal : msg -> option (list byte);
  proto_Unmarshal : list byte -> option msg
}.

(** The documented contract of the protobuf runtime for one message type:
    decoding what was encoded gives the message back. *)
Class ProtoLaws (msg : Type) `{ProtoCodec msg} := {
  proto_round : forall m bs, proto_Marshal m = Some bs -> proto_Unmarshal bs = Some m
}.

Section Codec.
Context {msg : Type} `{ProtoCodec msg}.

Definition MarshalProto (typ : Z) (m : msg) : res orp_err Frame :=
  match proto_Marshal m with
  | None => Err (MarshalErr typ)
  | Some payload => Ok (mkFrame CurrentVersion typ 0 payload)
  end.

Definition UnmarshalProto (f : Frame) (expectedType : Z) : res orp_err msg :=
  if negb (expectedType =? 0) && negb (f_Type f =? expectedType)
  then Err (ErrTypeMismatch (f_Type f) expectedType)
  else match proto_Unmarshal (f_Payload f) with
       | None => Err (UnmarshalErr (f_Type f))
       | Some m => Ok m
       end.

(** [WriteFrame] hands the encoded frame to the writer in one [Write] call.
    The writer is its [Write] method, which returns an optional error; the
    result is the error and the arguments of the [Write] calls made. *)
Definition WriteFrame (Write : list byte -> option io_err) (typ : Z) (m : msg)
  : option orp_err * list (list byte) :=
  match MarshalProto typ m with
  | Err e => (Some e, [])
  | Ok f =>
    match MarshalBinary f with
    | Err e => (Some e, [])
    | Ok data => (IOErr <$> Write data, [data])
    end
  end.
End Codec.

(** ** Bit-level lemmas *)
Lemma lor_disjoint (a b n : Z) :
  0 <= n -> 0 <= a < 2 ^ n -> (2 ^ n | b) -> Z.lor a b = a + b.
Proof.
  intros Hn Ha [k ->].
  assert (Hl : Z.land a (k * 2 ^ n) = 0).
  { rewrite <- Z.shiftl_mul_pow2 by done. apply Z.bits_inj'. intros i Hi.
    rewrite Z.land_spec, Z.bits_0. destruct (Z.ltb_spec i n).
    - rewrite (Z.shiftl_spec_low k n i) by lia. apply andb_false_r.
    - rewrite <- (Z.mod_small a (2 ^ n)) by lia.
      rewrite Z.mod_pow2_bits_high by lia. done. }
  rewrite Z.add_nocarry_lxor, Z.lxor_lor by done. done.
Qed.

Lemma Uint16_val b0 b1 : Uint16 b0 b1 = byte_val b0 * 256 + byte_val b1.
Proof.
  unfold Uint16. pose proof (byte_val_range b1). rewrite Z.shiftl_mul_pow2 by lia.
  rewrite (lor_disjoint _ _ 8); [lia|lia|lia|]. exists (byte_val b0). lia.
Qed.

Lemma Uint32_val b0 b1 b2 b3 :
  Uint32 b0 b1 b2 b3 =
  byte_val b0 * 16777216 + byte_val b1 * 65536 + byte_val b2 * 256 + byte_val b3.
Proof.
  unfold Uint32. pose proof (byte_val_range b1). pose proof (byte_val_range b2).
  pose proof (byte_val_range b3). rewrite !Z.shiftl_mul_pow2 by lia.
  rewrite (lor_disjoint (byte_val b1 * 2 ^ 16) _ 24);
    [|lia|lia|by exists (byte_val b0)].
  rewrite (lor_disjoint (byte_val b2 * 2 ^ 8) _ 16);
    [|lia|lia|exists (byte_val b1 + byte_val b0 * 256); lia].
  rewrite (lor_disjoint (byte_val b3) _ 8); [lia|lia|lia|].
  exists (byte_val b2 + byte_val b1 * 256 + byte_val b0 * 65536). lia.
Qed.

Lemma Uint16_range b0 b1 : 0 <= Uint16 b0 b1 < 65536.
Proof.
  rewrite Uint16_val. pose proof (byte_val_range b0). pose proof (byte_val_range b1). lia.
Qed.

Lemma Uint32_range b0 b1 b2 b3 : 0 <= Uint32 b0 b1 b2 b3 < 4294967296.
Proof.
  rewrite Uint32_val. pose proof (byte_val_range b0). pose proof (byte_val_range b1).
  pose proof (byte_val_range b2). pose proof (byte_val_range b3). lia.
Qed.

(** Reading back what [PutUint16] and [PutUint32] wrote. *)
Lemma Uint16_Put v :
  0 <= v < 65536 -> Uint16 (byte_of (Z.shiftr v 8)) (byte_of v) = v.
Proof.
  intros. rewrite Uint16_val, !byte_val_of, Z.shiftr_div_pow2 by lia.
  change (2 ^ 8) with 256. Z.div_mod_to_equations. lia.
Qed.

Lemma Uint32_Put v :
  0 <= v < 4294967296 ->
  Uint32 (byte_of (Z.shiftr v 24)) (byte_of (Z.shiftr v 16))
         (byte_of (Z.shiftr v 8)) (byte_of v) = v.
Proof.
  intros. rewrite Uint32_val, !byte_val_of, !Z.shiftr_div_pow2 by lia.
  change (2 ^ 24) with 16777216. change (2 ^ 16) with 65536. change (2 ^ 8) with 256.
  Z.div_mod_to_equations. lia.
Qed.

(** Writing back what was read. *)
Lemma Put_Uint16 b0 b1 : PutUint16 (Uint16 b0 b1) = [b0; b1].
Proof.
  unfold PutUint16. pose proof (byte_val_range b0). pose proof (byte_val_range b1).
  rewrite Uint16_val, Z.shiftr_div_pow2 by lia. change (2 ^ 8) with 256.
  f_equal; [|f_equal]; apply byte_val_inj; rewrite byte_val_of;
    Z.div_mod_to_equations; lia.
Qed.

Lemma Put_Uint32 b0 b1 b2 b3 : PutUint32 (Uint32 b0 b1 b2 b3) = [b0; b1; b2; b3].
Proof.
  unfold PutUint32. pose proof (byte_val_range b0). pose proof (byte_val_range b1).
  pose proof (byte_val_range b2). pose proof (byte_val_range b3).
  rewrite Uint32_val, !Z.shiftr_div_pow2 by lia.
  change (2 ^ 24) with 16777216. change (2 ^ 16) with 65536. change (2 ^ 8) with 256.
  repeat f_equal; apply byte_val_inj; rewrite byte_val_of; Z.div_mod_to_equations; lia.
Qed.

(** The header word packs version and type without overlap. *)
Lemma land_maxVersion v : Z.land v maxVersion = v mod 8.
Proof. change maxVersion with (Z.ones 3). by rewrite Z.land_ones. Qed.

Lemma land_maxType t : Z.land t maxType = t mod 2048.
Proof. change maxType with (Z.ones 11). by rewrite Z.land_ones. Qed.

Lemma word0_val v t : word0_of v t = (v mod 8) * 8192 + t mod 2048.
Proof.
  unfold word0_of. rewrite land_maxVersion, land_maxType, Z.shiftl_mul_pow2 by lia.
  pose proof (Z.mod_pos_bound v 8). pose proof (Z.mod_pos_bound t 2048).
  rewrite u16_small by lia. rewrite Z.lor_comm, (lor_disjoint _ _ 13); try lia.
  by exists (v mod 8).
Qed.

(** ** Lemmas on readers *)
Lemma read_loop_enough s final need got :
  Forall (fun c => snd c = None) s -> (need <= length (script_bytes s))%nat ->
  exists s', read_loop s final need got = (got ++ take need (script_bytes s), None, s') /\
    script_bytes s' = drop need (script_bytes s) /\
    Forall (fun c => snd c = None) s'.
Proof.
  revert need got. induction s as [|[d e] s IH]; intros need got Hc Hn.
  - simpl in Hn. destruct need; [|lia]. exists []. by rewrite app_nil_r.
  - apply Forall_uncons in Hc as [He Hs]; simpl in He; subst e. unfold script_bytes in *. simpl in Hn |- *. rewrite length_app in Hn.
    destruct need as [|need].
    { exists ((d, None) :: s). rewrite app_nil_r. repeat split; by constructor. }
    simpl read_loop. destruct (Nat.ltb_spec (length d) (S need)) as [Hlt|Hge].
    + destruct (IH (S need - length d)%nat (got ++ d) Hs) as (s' & Hr & Hb & Hc'); [lia|].
      exists s'. rewrite Hr, take_app_ge, drop_app_ge, <- app_assoc by lia. done.
    + destruct (Nat.eqb_spec (length d) (S need)) as [Heq|Hne].
      * exists s. rewrite <- Heq, take_app_length, drop_app_length. done.
      * exists ((drop (S need) d, None) :: s).
        rewrite take_app_le, drop_app_le by lia. split; [done|]. split; [done|].
        by constructor.
Qed.

Lemma read_loop_short s final need got :
  Forall (fun c => snd c = None) s -> (length (script_bytes s) < need)%nat ->
  read_loop s final need got =
  (got ++ script_bytes s, Some (short_read_err (got ++ script_bytes s) final), []).
Proof.
  revert need got. induction s as [|[d e] s IH]; intros need got Hc Hn;
    (destruct need as [|need]; [lia|]).
  - simpl. by rewrite app_nil_r.
  - apply Forall_uncons in Hc as [He Hs]; simpl in He; subst e. unfold script_bytes in *. simpl in Hn |- *. rewrite length_app in Hn.
    simpl read_loop. destruct (Nat.ltb_spec (length d) (S need)); [|lia].
    rewrite IH by (done || lia). by rewrite <- app_assoc.
Qed.

Lemma ReadFull_enough r n :
  clean r -> (n <= length (script_bytes (rd_script r)))%nat ->
  exists r', ReadFull r n = (take n (script_bytes (rd_script r)), None, r') /\
    clean r' /\ rd_final r' = rd_final r /\
    script_bytes (rd_script r') = drop n (script_bytes (rd_script r)).
Proof.
  intros Hc Hn. unfold ReadFull.
  destruct (read_loop_enough (rd_script r) (rd_final r) n [] Hc Hn) as (s' & -> & Hb & Hc').
  exists (set_script r s'). by rewrite app_nil_l.
Qed.

Lemma ReadFull_short r n :
  clean r -> (length (script_bytes (rd_script r)) < n)%nat ->
  ReadFull r n = (script_bytes (rd_script r),
                  Some (short_read_err (script_bytes (rd_script r)) (rd_final r)),
                  set_script r []).
Proof. intros Hc Hn. unfold ReadFull. by rewrite read_loop_short. Qed.

(** ** Lemmas on ParseFrame: the header and the payload phase *)
Lemma ParseFrame_short_header r :
  clean r -> (length (script_bytes (rd_script r)) < HeaderSize)%nat ->
  fst (ParseFrame r) =
  Err (header_err (length (script_bytes (rd_script r)))
                  (short_read_err (script_bytes (rd_script r)) (rd_final r))).
Proof. intros Hc Hn. unfold ParseFrame. by rewrite ReadFull_short. Qed.

(** With a whole header [h0 .. h7] available, [ParseFrame] runs [parse_body]
    on a reader left at the first payload byte. *)
Lemma ParseFrame_header r h0 h1 h2 h3 h4 h5 h6 h7 rest :
  clean r -> script_bytes (rd_script r) = [h0; h1; h2; h3; h4; h5; h6; h7] ++ rest ->
  exists r1, ParseFrame r = parse_body [h0; h1; h2; h3; h4; h5; h6; h7] r1 /\
    clean r1 /\ rd_final r1 = rd_final r /\ script_bytes (rd_script r1) = rest.
Proof.
  intros Hc Hb. unfold ParseFrame.
  destruct (ReadFull_enough r HeaderSize Hc) as (r1 & -> & Hc1 & Hf1 & Hb1).
  { rewrite Hb. unfold HeaderSize. simpl. lia. }
  exists r1. rewrite Hb in *. by simpl in *.
Qed.

Lemma script_split_header r :
  (HeaderSize <= length (script_bytes (rd_script r)))%nat ->
  exists h0 h1 h2 h3 h4 h5 h6 h7 rest,
    script_bytes (rd_script r) = [h0; h1; h2; h3; h4; h5; h6; h7] ++ rest.
Proof.
  generalize (script_bytes (rd_script r)). unfold HeaderSize.
  intros [|h0 [|h1 [|h2 [|h3 [|h4 [|h5 [|h6 [|h7 rest]]]]]]]] Hl; simpl in Hl; try lia.
  by exists h0, h1, h2, h3, h4, h5, h6, h7, rest.
Qed.

(** The payload phase, on a declared length within bounds. *)
Lemma parse_body_payload h0 h1 h2 h3 h4 h5 h6 h7 r :
  clean r -> Uint32 h4 h5 h6 h7 <= MaxPayload ->
  Uint32 h4 h5 h6 h7 <= zlen (script_bytes (rd_script r)) ->
  exists r', parse_body [h0; h1; h2; h3; h4; h5; h6; h7] r =
    (Ok (mkFrame (Uint16 h0 h1 / 8192) (Uint16 h0 h1 mod 2048) (Uint16 h2 h3)
       (take (Z.to_nat (Uint32 h4 h5 h6 h7)) (script_bytes (rd_script r)))), r') /\
    clean r' /\
    script_bytes (rd_script r') =
      drop (Z.to_nat (Uint32 h4 h5 h6 h7)) (script_bytes (rd_script r)).
Proof.
  intros Hc Hmax Hlen. unfold parse_body. pose proof (Uint16_range h0 h1) as Hw.
  pose proof (Uint32_range h4 h5 h6 h7) as Hl32.
  rewrite land_maxType, Z.shiftr_div_pow2 by lia. change (2 ^ 13) with 8192.
  replace (u8 (Uint16 h0 h1 / 8192)) with (Uint16 h0 h1 / 8192)
    by (unfold u8; Z.div_mod_to_equations; lia).
  destruct (Z.ltb_spec MaxPayload (Uint32 h4 h5 h6 h7)); [lia|].
  destruct (Z.ltb_spec 0 (Uint32 h4 h5 h6 h7)).
  - destruct (ReadFull_enough r (Z.to_nat (Uint32 h4 h5 h6 h7)) Hc)
      as (r' & -> & Hc' & _ & Hb'); [unfold zlen in *; lia|].
    by exists r'.
  - replace (Uint32 h4 h5 h6 h7) with 0 by lia. by exists r.
Qed.

Lemma parse_body_truncated h0 h1 h2 h3 h4 h5 h6 h7 r :
  clean r -> Uint32 h4 h5 h6 h7 <= MaxPayload ->
  zlen (script_bytes (rd_script r)) < Uint32 h4 h5 h6 h7 ->
  fst (parse_body [h0; h1; h2; h3; h4; h5; h6; h7] r) =
  Err (ReadPayloadErr (short_read_err (script_bytes (rd_script r)) (rd_final r))).
Proof.
  intros Hc Hmax Hlen. unfold parse_body.
  destruct (Z.ltb_spec MaxPayload (Uint32 h4 h5 h6 h7)); [lia|].
  pose proof (zlen_nonneg (script_bytes (rd_script r))).
  destruct (Z.ltb_spec 0 (Uint32 h4 h5 h6 h7)); [|lia].
  rewrite ReadFull_short; [done|done|unfold zlen in *; lia].
Qed.

(** The header bytes of an encoded frame. *)
Lemma MarshalBinary_ok f :
  frame_ok f ->
  MarshalBinary f = Ok (PutUint16 (f_Version f * 8192 + f_Type f) ++
                        PutUint16 (f_Flags f) ++
                        PutUint32 (zlen (f_Payload f)) ++ f_Payload f).
Proof.
  unfold MarshalBinary, frame_ok, maxVersion, maxType, MaxPayload. intros (Hv & Ht & Hf & Hp).
  change (Z.shiftl 1 24) with 16777216 in *. pose proof (zlen_nonneg (f_Payload f)).
  repeat (zcase; [lia|]).
  rewrite word0_val, u32_small by lia.
  rewrite (Z.mod_small (f_Version f)), (Z.mod_small (f_Type f)) by lia. done.
Qed.

Lemma MarshalBinary_ok_inv f bs : frame_typed f -> MarshalBinary f = Ok bs -> frame_ok f.
Proof.
  intros (Hv & Ht & Hf). unfold MarshalBinary. repeat (zcase; [done|]).
  unfold frame_ok. lia.
Qed.

(** Clearing the reserved bits of the first header byte. *)
Lemma land_0xE7 b : Z.land (byte_val b) 0xE7 = byte_val b / 32 * 32 + byte_val b mod 8.
Proof. destruct b; reflexivity. Qed.

(** Re-encoding the fields of a header and the payload that follows it. *)
Lemma parsed_frame_canonical h0 h1 h2 h3 h4 h5 h6 h7 rest :
  let n := Z.to_nat (Uint32 h4 h5 h6 h7) in
  let f := mkFrame (Uint16 h0 h1 / 8192) (Uint16 h0 h1 mod 2048) (Uint16 h2 h3) (take n rest) in
  Uint32 h4 h5 h6 h7 <= MaxPayload -> Uint32 h4 h5 h6 h7 <= zlen rest ->
  frame_ok f /\
  exists b0 bs, [h0; h1; h2; h3; h4; h5; h6; h7] ++ rest = b0 :: bs ++ drop n rest /\
    MarshalBinary f = Ok (byte_of (Z.land (byte_val b0) 0xE7) :: bs).
Proof.
  intros n f Hm Hz. pose proof (Uint16_range h0 h1). pose proof (Uint16_range h2 h3).
  pose proof (Uint32_range h4 h5 h6 h7).
  assert (Hn : zlen (take n rest) = Uint32 h4 h5 h6 h7)
    by (unfold n, zlen in *; rewrite length_take; lia).
  assert (Hok : frame_ok f).
  { unfold frame_ok, f, maxVersion, maxType. simpl. rewrite Hn.
    repeat split; try lia; Z.div_mod_to_equations; lia. }
  split; [done|]. exists h0, ([h1; h2; h3; h4; h5; h6; h7] ++ take n rest). split.
  { simpl. by rewrite take_drop. }
  rewrite MarshalBinary_ok by done. unfold f. simpl f_Flags. simpl f_Payload.
  rewrite Hn, Put_Uint16, Put_Uint32. simpl f_Version. simpl f_Type. simpl.
  unfold PutUint16. simpl. f_equal. f_equal; [|f_equal]; apply byte_val_inj.
  - rewrite !byte_val_of, land_0xE7, Uint16_val, Z.shiftr_div_pow2 by lia.
    pose proof (byte_val_range h0). pose proof (byte_val_range h1).
    change (2 ^ 8) with 256. Z.div_mod_to_equations. lia.
  - rewrite byte_val_of, Uint16_val. pose proof (byte_val_range h0).
    pose proof (byte_val_range h1). Z.div_mod_to_equations. lia.
Qed.

(** ** Properties *)

(** Parsing the bytes of an encoded frame. *)
Lemma ParseFrame_MarshalBinary_lem (f : Frame) (bs rest : list byte) (r : reader) :
  frame_ok f -> MarshalBinary f = Ok bs -> clean r ->
  script_bytes (rd_script r) = bs ++ rest ->
  exists r', ParseFrame r = (Ok f, r') /\ clean r' /\
    script_bytes (rd_script r') = rest.
Proof.
  intros Hok Hm Hc Hb. rewrite MarshalBinary_ok in Hm by done. res_inv.
  unfold PutUint16, PutUint32 in Hb. simpl in Hb.
  destruct Hok as (Hv & Ht & Hf & Hp). unfold maxVersion, maxType in *.
  pose proof (zlen_nonneg (f_Payload f)). change MaxPayload with 16777216 in Hp.
  eapply ParseFrame_header in Hb as (r1 & -> & Hc1 & _ & Hb1); [|done].
  pose proof (Uint32_Put (zlen (f_Payload f)) ltac:(lia)) as H32.
  edestruct parse_body_payload as (r' & -> & Hc' & Hb'); [done|..].
  - rewrite H32. done.
  - rewrite H32, Hb1, zlen_app. pose proof (zlen_nonneg rest). lia.
  - exists r'. rewrite Hb', H32, Hb1. unfold zlen. rewrite Nat2Z.id.
    rewrite drop_app_length, take_app_length, !Uint16_Put by lia.
    destruct f as [v t fl p]; simpl in *. split_and!; [|done|done].
    do 2 f_equal; f_equal; Z.div_mod_to_equations; lia.
Qed.

(** C1. Round trip under any fragmentation: a reader that delivers the bytes of
    an encodable frame followed by [rest], cut into chunks in any way, makes
    [ParseFrame] return exactly that frame and leaves the reader at [rest]. *)
Theorem ParseFrame_MarshalBinary (f : Frame) (bs rest : list byte) (r : reader) :
  frame_ok f -> MarshalBinary f = Ok bs -> clean r ->
  script_bytes (rd_script r) = bs ++ rest ->
  exists r', ParseFrame r = (Ok f, r') /\ clean r' /\
    script_bytes (rd_script r') = rest.
Proof. apply ParseFrame_MarshalBinary_lem. Qed.

(** A PING frame whose bytes arrive in three chunks, followed by two bytes of
    the next frame. *)
Lemma ParseFrame_MarshalBinary_witness :
  exists r', ParseFrame
    (mkReader [([Byte.x20], None); ([Byte.x20; Byte.xab; Byte.xcd; Byte.x00], None);
               ([Byte.x00; Byte.x00; Byte.x02; Byte.x68; Byte.x69; Byte.x01], None);
               ([Byte.x02], None)] EOF)
    = (Ok (mkFrame 1 FrameTypePing 0xABCD [Byte.x68; Byte.x69]), r') /\ clean r' /\
      script_bytes (rd_script r') = [Byte.x01; Byte.x02].
Proof.
  apply (ParseFrame_MarshalBinary (mkFrame 1 FrameTypePing 0xABCD [Byte.x68; Byte.x69])
    [Byte.x20; Byte.x20; Byte.xab; Byte.xcd; Byte.x00; Byte.x00; Byte.x00; Byte.x02;
     Byte.x68; Byte.x69] [Byte.x01; Byte.x02]).
  - repeat split; vm_compute; discriminate.
  - reflexivity.
  - repeat constructor.
  - reflexivity.
Defined.

(** C9. Whatever [ParseFrame] accepts is a frame the codec can encode, and
    encoding it gives back the very bytes that were consumed except that the
    two reserved bits (bits 3 and 4 of the first byte) come out as zero: the
    parser ignores them. *)
Theorem ParseFrame_canonical (r r' : reader) (f : Frame) :
  clean r -> ParseFrame r = (Ok f, r') ->
  frame_ok f /\
  exists b0 bs, script_bytes (rd_script r) = b0 :: bs ++ script_bytes (rd_script r') /\
    MarshalBinary f = Ok (byte_of (Z.land (byte_val b0) 0xE7) :: bs).
Proof.
  intros Hc Hp. destruct (decide (HeaderSize <= length (script_bytes (rd_script r)))%nat)
    as [Hl|Hl].
  2:{ apply (f_equal fst) in Hp. rewrite ParseFrame_short_header in Hp by (done || lia).
      discriminate. }
  destruct (script_split_header r Hl) as (h0&h1&h2&h3&h4&h5&h6&h7&rest&Hb).
  rewrite Hb. eapply ParseFrame_header in Hb as (r1 & Heq & Hc1 & Hf1 & Hb1); [|done].
  rewrite Heq in Hp. clear Heq.
  destruct (decide (Uint32 h4 h5 h6 h7 <= MaxPayload)) as [Hm|Hm].
  2:{ unfold parse_body in Hp. destruct (Z.ltb_spec MaxPayload (Uint32 h4 h5 h6 h7)); [|lia].
      discriminate. }
  destruct (decide (Uint32 h4 h5 h6 h7 <= zlen (script_bytes (rd_script r1)))) as [Hz|Hz].
  2:{ apply (f_equal fst) in Hp. rewrite parse_body_truncated in Hp by (done || lia).
      discriminate. }
  destruct (parse_body_payload h0 h1 h2 h3 h4 h5 h6 h7 r1 Hc1 Hm Hz) as (r2 & Heq & _ & Hb2).
  rewrite Heq in Hp. injection Hp as <- <-. rewrite Hb2, Hb1 in *.
  apply parsed_frame_canonical; done.
Qed.

Lemma ParseFrame_canonical_witness :
  frame_ok (mkFrame 1 2 0 []) /\
  exists b0 bs, script_bytes [([Byte.x38; Byte.x02], None);
      ([Byte.x00; Byte.x00; Byte.x00; Byte.x00; Byte.x00; Byte.x00], None)]
    = b0 :: bs ++ script_bytes [] /\
    MarshalBinary (mkFrame 1 2 0 []) = Ok (byte_of (Z.land (byte_val b0) 0xE7) :: bs).
Proof.
  apply (ParseFrame_canonical
    (mkReader [([Byte.x38; Byte.x02], None);
      ([Byte.x00; Byte.x00; Byte.x00; Byte.x00; Byte.x00; Byte.x00], None)] EOF)
    (mkReader [] EOF)).
  - repeat constructor.
  - vm_compute. reflexivity.
Defined.

(** [MarshalBinary] accepts exactly the frames whose fields fit the wire
    layout: a 3-bit version, an 11-bit type and at most [MaxPayload] payload
    bytes; it reports the first violation in that order, and on success the
    message is the 8 header bytes followed by the payload. *)
Theorem MarshalBinary_cases (f : Frame) :
  frame_typed f ->
  (frame_ok f /\
   exists hdr, length hdr = HeaderSize /\ MarshalBinary f = Ok (hdr ++ f_Payload f)) \/
  (maxVersion < f_Version f /\ MarshalBinary f = Err ErrInvalidVersion) \/
  (f_Version f <= maxVersion /\ maxType < f_Type f /\
   MarshalBinary f = Err ErrInvalidType) \/
  (f_Version f <= maxVersion /\ f_Type f <= maxType /\
   MaxPayload < zlen (f_Payload f) /\ MarshalBinary f = Err ErrPayloadTooLarge).
Proof.
  intros (Hv & Ht & Hf). unfold MarshalBinary.
  zcase; [by right; left|]. zcase; [by right; right; left|].
  zcase; [by right; right; right|]. left. split.
  { unfold frame_ok. lia. }
  eexists (PutUint16 _ ++ PutUint16 _ ++ PutUint32 _). split; [done|].
  by rewrite <- !app_assoc.
Qed.

Lemma MarshalBinary_cases_witness :
  MarshalBinary (mkFrame 8 1 0 []) = Err ErrInvalidVersion.
Proof.
  destruct (MarshalBinary_cases (mkFrame 8 1 0 [])) as [[H _]|[[_ H]|[[H _]|[H _]]]].
  - repeat split; vm_compute; discriminate || reflexivity.
  - vm_compute in H. destruct H as [[_ H] _]. by destruct H.
  - exact H.
  - by destruct H.
  - by destruct H.
Defined.

(** When [ParseFrame] on a cleanly ending stream fails with an error that
    [errors.Is] identifies as [io.EOF]. *)
Definition declared_length (bs : list byte) : option Z :=
  match bs with
  | [_; _; _; _; h4; h5; h6; h7] => Some (Uint32 h4 h5 h6 h7)
  | _ => None
  end.

Lemma header_err_EOF n err :
  errors_Is (header_err n err) EOF = true <-> err = EOF.
Proof.
  unfold header_err. destruct (_ || _); simpl; apply bool_decide_eq_true.
Qed.

Lemma short_read_err_EOF got : short_read_err got EOF = EOF <-> got = [].
Proof. destruct got; simpl; naive_solver. Qed.

Lemma parse_body_EOF h0 h1 h2 h3 h4 h5 h6 h7 r :
  clean r -> rd_final r = EOF ->
  (exists e, fst (parse_body [h0; h1; h2; h3; h4; h5; h6; h7] r) = Err e /\
             errors_Is e EOF = true) <->
  script_bytes (rd_script r) = [] /\ 0 < Uint32 h4 h5 h6 h7 <= MaxPayload.
Proof.
  intros Hc Hf. destruct (decide (Uint32 h4 h5 h6 h7 <= MaxPayload)) as [Hm|Hm].
  2:{ split; [|lia]. unfold parse_body. zcase; [|lia]. intros (e & [= <-] & [=]). }
  destruct (decide (Uint32 h4 h5 h6 h7 <= zlen (script_bytes (rd_script r)))) as [Hz|Hz].
  - destruct (parse_body_payload h0 h1 h2 h3 h4 h5 h6 h7 r Hc Hm Hz) as (r' & -> & _).
    split; [by intros (e & [=] & _)|]. intros [He Hp]. rewrite He in Hz. unfold zlen in Hz. simpl in Hz. lia.
  - rewrite parse_body_truncated, Hf by (done || lia).
    pose proof (zlen_nonneg (script_bytes (rd_script r))). split.
    + intros (e & He & His). res_inv. simpl in His.
      apply bool_decide_eq_true, short_read_err_EOF in His. split; [done|lia].
    + intros [He _]. eexists. split; [done|]. by rewrite He.
Qed.

(** On a stream that ends with [io.EOF], [ParseFrame] reports an error that
    is [io.EOF] exactly when the stream is empty, or when it ends right after a
    header that announces a non-empty payload: a frame cut between header and
    payload is not distinguishable by [errors.Is(err, io.EOF)] from a clean end
    of stream, although the doc comment reserves [io.EOF] for the latter. *)
Theorem ParseFrame_EOF (r : reader) :
  clean r -> rd_final r = EOF ->
  (exists e, fst (ParseFrame r) = Err e /\ errors_Is e EOF = true) <->
  script_bytes (rd_script r) = [] \/
  exists n, declared_length (script_bytes (rd_script r)) = Some n /\ 0 < n <= MaxPayload.
Proof.
  intros Hc Hf. destruct (decide (HeaderSize <= length (script_bytes (rd_script r)))%nat) as [Hl|Hl].
  - destruct (script_split_header r Hl) as (h0&h1&h2&h3&h4&h5&h6&h7&rest&Hb). rewrite Hb.
    eapply ParseFrame_header in Hb as (r1 & -> & Hc1 & Hf1 & Hb1); [|done].
    rewrite parse_body_EOF, Hb1 by congruence. split.
    + intros [-> Hn]. right. eexists. split; [reflexivity|done].
    + intros [He|(n & Hd & Hn)]; [done|]. destruct rest; [|done]. simpl in Hd. by res_inv.
  - rewrite ParseFrame_short_header by (done || lia). rewrite Hf. split.
    + intros (e & He & His). res_inv.
      apply header_err_EOF, short_read_err_EOF in His. by left.
    + intros [He|(n & Hd & _)].
      * rewrite He. eexists. split; [reflexivity|done].
      * destruct (script_bytes (rd_script r)) as [|? [|? [|? [|? [|? [|? [|? [|? []]]]]]]]];
          unfold HeaderSize in Hl; simpl in Hl; done || lia.
Qed.

Lemma ParseFrame_EOF_witness :
  exists e, fst (ParseFrame (mkReader [([Byte.x20; Byte.x01; Byte.x00; Byte.x00;
      Byte.x00; Byte.x00; Byte.x00; Byte.x64], None)] EOF)) = Err e /\
    errors_Is e EOF = true.
Proof.
  refine (proj2 (ParseFrame_EOF (mkReader [([Byte.x20; Byte.x01; Byte.x00; Byte.x00;
      Byte.x00; Byte.x00; Byte.x00; Byte.x64], None)] EOF) _ eq_refl) _).
  - repeat constructor.
  - right. exists 100. split; [reflexivity|]. change MaxPayload with 16777216. lia.
Defined.

(** End to end: when [WriteFrame] succeeds, the bytes it wrote, delivered to
    the peer in any fragmentation, parse to a frame of the current version from
    which [UnmarshalProto] recovers the message; with a different non-zero
    expected type it reports the mismatch. *)
Theorem WriteFrame_UnmarshalProto {msg} `{ProtoLaws msg}
    (Write : list byte -> option io_err) (typ other : Z) (m : msg) (ws : list (list byte)) (r : reader) :
  0 <= typ <= maxType -> other <> 0 -> other <> typ ->
  WriteFrame Write typ m = (None, ws) -> clean r ->
  script_bytes (rd_script r) = concat ws ->
  exists f r', ParseFrame r = (Ok f, r') /\ script_bytes (rd_script r') = [] /\
    IsSupportedVersion (f_Version f) = true /\
    UnmarshalProto f typ = Ok m /\ UnmarshalProto f 0 = Ok m /\
    UnmarshalProto (msg := msg) f other = Err (ErrTypeMismatch typ other).
Proof.
  intros Htyp Ho0 Hot Hw Hc Hb. unfold WriteFrame, MarshalProto in Hw.
  destruct (proto_Marshal m) as [payload|] eqn:Hpm; [|done].
  destruct (MarshalBinary _) as [data|] eqn:Hmb; [|done].
  injection Hw as _ <-. simpl in Hb.
  assert (Hok : frame_ok (mkFrame CurrentVersion typ 0 payload)).
  { eapply MarshalBinary_ok_inv; [|done].
    unfold frame_typed, CurrentVersion, Version1, maxType in *. simpl. lia. }
  destruct (ParseFrame_MarshalBinary_lem _ _ _ _ Hok Hmb Hc Hb) as (r' & Hp & _ & Hr').
  exists (mkFrame CurrentVersion typ 0 payload), r'. unfold UnmarshalProto. simpl.
  rewrite (proto_round _ _ Hpm), Z.eqb_refl. rewrite andb_false_r. split_and!; try done.
  destruct (Z.eqb_spec other 0); [done|]. destruct (Z.eqb_spec typ other); [congruence|done].
Qed.

(** A message type of one byte, encoded as itself. *)
#[local] Instance byte_codec : ProtoCodec byte := {
  proto_Marshal b := Some [b];
  proto_Unmarshal bs := match bs with [b] => Some b | _ => None end
}.

#[local] Instance byte_codec_laws : ProtoLaws byte.
Proof. constructor. intros m bs [= <-]. reflexivity. Defined.

Lemma WriteFrame_UnmarshalProto_witness :
  exists f r', ParseFrame (mkReader [([Byte.x20; Byte.x21; Byte.x00], None);
      ([Byte.x00; Byte.x00; Byte.x00; Byte.x00; Byte.x01; Byte.x2a], None)] EOF) = (Ok f, r') /\
    script_bytes (rd_script r') = [] /\ IsSupportedVersion (f_Version f) = true /\
    UnmarshalProto f FrameTypePong = Ok Byte.x2a /\ UnmarshalProto f 0 = Ok Byte.x2a /\
    UnmarshalProto (msg := byte) f FrameTypePing
      = Err (ErrTypeMismatch FrameTypePong FrameTypePing).
Proof.
  apply (WriteFrame_UnmarshalProto (fun _ => None) FrameTypePong FrameTypePing Byte.x2a
    [[Byte.x20; Byte.x21; Byte.x00; Byte.x00; Byte.x00; Byte.x00; Byte.x00; Byte.x01; Byte.x2a]]);
    [vm_compute; split; discriminate|discriminate|discriminate|reflexivity|
     repeat constructor|reflexivity].
Defined.

(** The wire codes of the named frame types are pairwise distinct and fit
    the 11-bit type field, so a named frame is never rejected for its type and
    never parsed as another one. *)
Theorem frame_types_distinct :
  NoDup frame_types /\
  forall t p, t ∈ frame_types -> zlen p <= MaxPayload ->
    frame_ok (mkFrame CurrentVersion t 0 p).
Proof.
  split; [apply (bool_decide_unpack _); vm_compute; done|].
  intros t p Ht Hp. assert (0 <= t <= maxType).
  { revert t Ht. apply Forall_forall. apply (bool_decide_unpack _). vm_compute. done. }
  unfold frame_ok, CurrentVersion, Version1, maxVersion. simpl. lia.
Qed.
