(* ===== verification/StreamFsm.v ===== *)
(** * The per-stream lifecycle state machine: lib/orp/stream.go

    [StreamState] and [StreamEvent] are Go [int]s with named values, so they are
    integers here too; [transition] and [Apply] are the code's functions.  The
    documented table is the inductive relation [fsm_edge], which [transition] is
    proved to implement, and every reachable state is one of the six named
    ones. *)

From Stdlib Require Import ZArith Lia.
From stdpp Require Import base tactics list numbers strings pretty relations.
From S2P Require Import Prelude.

Local Open Scope Z_scope.

Definition StateInit : Z := 0.
Definition StateOpening : Z := 1.
Definition StateAccepted : Z := 2.
Definition StateSpliced : Z := 3.
Definition StateClosing : Z := 4.
Definition StateClosed : Z := 5.

Definition EventOpen : Z := 0.
Definition EventAccept : Z := 1.
Definition EventSplice : Z := 2.
Definition EventFin : Z := 3.
Definition EventReset : Z := 4.

(** [StreamState.String] and [StreamEvent.String]. *)
Definition StreamState_String (s : Z) : string :=
  if s =? StateInit then "Init"
  else if s =? StateOpening then "Opening"
  else if s =? StateAccepted then "Accepted"
  else if s =? StateSpliced then "Spliced"
  else if s =? StateClosing then "Closing"
  else if s =? StateClosed then "Closed"
  else ("Unknown(" +:+ pretty s +:+ ")")%string.

Definition StreamEvent_String (e : Z) : string :=
  if e =? EventOpen then "Open"
  else if e =? EventAccept then "Accept"
  else if e =? EventSplice then "Splice"
  else if e =? EventFin then "Fin"
  else if e =? EventReset then "Reset"
  else ("Unknown(" +:+ pretty e +:+ ")")%string.

(** [transition]: the next state and whether the transition is allowed. *)
Definition transition (s e : Z) : Z * bool :=
  if e =? EventReset then (StateClosed, true)
  else if s =? StateInit then
    if e =? EventOpen then (StateOpening, true) else (s, false)
  else if s =? StateOpening then
    if e =? EventAccept then (StateAccepted, true)
    else if e =? EventFin then (StateClosing, true) else (s, false)
  else if s =? StateAccepted then
    if e =? EventSplice then (StateSpliced, true)
    else if e =? EventFin then (StateClosing, true) else (s, false)
  else if s =? StateSpliced then
    if e =? EventFin then (StateClosing, true) else (s, false)
  else if s =? StateClosing then
    if e =? EventFin then (StateClosed, true) else (s, false)
  else (s, false).

(** The FSM object; [Apply] returns the error message, if any, and the object
    after the call. *)
Record StreamFSM := mkFSM { fsm_state : Z }.

Definition NewStreamFSM : StreamFSM := mkFSM StateInit.
Definition State (f : StreamFSM) : Z := fsm_state f.

Definition Apply (e : Z) (f : StreamFSM) : option string * StreamFSM :=
  let '(next, ok) := transition (fsm_state f) e in
  if ok then (None, mkFSM next)
  else (Some ("orp: invalid transition " +:+ StreamState_String (fsm_state f) +:+
              " --" +:+ StreamEvent_String e +:+ "--> ?")%string, f).

(** A caller's sequence of [Apply] calls, errors ignored. *)
Definition apply_all (es : list Z) (f : StreamFSM) : StreamFSM :=
  fold_left (fun g e => snd (Apply e g)) es f.

(** The events of a sequence that [Apply] accepts. *)
Fixpoint accepted (es : list Z) (f : StreamFSM) : list Z :=
  match es with
  | [] => []
  | e :: es' =>
    match fst (Apply e f) with
    | None => e :: accepted es' (snd (Apply e f))
    | Some _ => accepted es' (snd (Apply e f))
    end
  end.

(** ** The documented transition table *)
Inductive fsm_edge : Z -> Z -> Z -> Prop :=
| edge_open : fsm_edge StateInit EventOpen StateOpening
| edge_accept : fsm_edge StateOpening EventAccept StateAccepted
| edge_opening_fin : fsm_edge StateOpening EventFin StateClosing
| edge_splice : fsm_edge StateAccepted EventSplice StateSpliced
| edge_accepted_fin : fsm_edge StateAccepted EventFin StateClosing
| edge_spliced_fin : fsm_edge StateSpliced EventFin StateClosing
| edge_closing_fin : fsm_edge StateClosing EventFin StateClosed
| edge_reset s : fsm_edge s EventReset StateClosed.

Definition named_state (s : Z) : Prop := 0 <= s <= 5.

#[export] Hint Constructors fsm_edge : outrelay.

Ltac fsm_unfold :=
  unfold StateInit, StateOpening, StateAccepted, StateSpliced, StateClosing, StateClosed,
    EventOpen, EventAccept, EventSplice, EventFin, EventReset, named_state in *.

Lemma transition_edge s e s' : transition s e = (s', true) <-> fsm_edge s e s'.
Proof.
  split.
  - unfold transition. repeat (zcase; [subst|]); intros [= <-]; subst; auto with outrelay.
  - destruct 1; reflexivity.
Qed.

Lemma fsm_edge_named s e s' : fsm_edge s e s' -> named_state s'.
Proof. destruct 1; fsm_unfold; lia. Qed.

Lemma fsm_edge_rank s e s' : fsm_edge s e s' -> named_state s -> s < s' \/ (s = StateClosed /\ s' = StateClosed).
Proof. destruct 1; fsm_unfold; lia. Qed.

Lemma Apply_cases e f :
  (exists s', fsm_edge (fsm_state f) e s' /\ Apply e f = (None, mkFSM s')) \/
  ((forall s', ~ fsm_edge (fsm_state f) e s') /\
   exists msg, Apply e f = (Some msg, f)).
Proof.
  unfold Apply. destruct (transition (fsm_state f) e) as [s' []] eqn:Ht.
  - left. exists s'. split; [by apply transition_edge|done].
  - right. split; [|by eexists]. intros s'' He. apply transition_edge in He. congruence.
Qed.

(** The events accepted so far determine, and are determined by, how far an
    open stream got. *)
Definition history_ok (s : Z) (acc : list Z) : Prop :=
  if s =? StateInit then acc = []
  else if s =? StateOpening then acc = [EventOpen]
  else if s =? StateAccepted then acc = [EventOpen; EventAccept]
  else if s =? StateSpliced then acc = [EventOpen; EventAccept; EventSplice]
  else (exists acc', acc = acc' ++ [EventFin] \/ acc = acc' ++ [EventReset]).

Lemma history_step s e s' acc :
  history_ok s acc -> fsm_edge s e s' -> history_ok s' (acc ++ [e]).
Proof.
  intros Hh He. destruct He; unfold history_ok in *; simpl in *; subst; eauto.
Qed.

Lemma accepted_history es f acc :
  history_ok (State f) acc ->
  history_ok (State (apply_all es f)) (acc ++ accepted es f).
Proof.
  revert f acc. induction es as [|e es IH]; intros f acc Hh; [by rewrite app_nil_r|].
  change (apply_all (e :: es) f) with (apply_all es (snd (Apply e f))). simpl.
  destruct (Apply_cases e f) as [(s1 & He & ->)|(_ & msg & ->)]; simpl; [|by apply IH].
  replace (acc ++ e :: accepted es (mkFSM s1)) with ((acc ++ [e]) ++ accepted es (mkFSM s1))
    by by rewrite <- app_assoc.
  apply IH. by eapply history_step.
Qed.

(** ** Properties *)

(** [Apply] implements the documented table exactly: it succeeds and moves
    to the table's target state when the table has an edge for the event, and
    otherwise it returns an error and leaves the FSM as it was. *)
Theorem Apply_table (e : Z) (f : StreamFSM) :
  (forall s', fst (Apply e f) = None /\ State (snd (Apply e f)) = s' <->
              fsm_edge (State f) e s') /\
  (fst (Apply e f) <> None -> snd (Apply e f) = f).
Proof.
  unfold State. destruct (Apply_cases e f) as [(s1 & He & ->)|(Hno & msg & ->)]; simpl.
  - split; [|done]. intros s'. split.
    + by intros [_ <-].
    + intros He'. split; [done|]. apply transition_edge in He, He'. congruence.
  - split; [|done]. intros s'. split; [by intros [? _]|]. intros He. by destruct (Hno s').
Qed.

(** Lifecycle safety over any sequence of events: a fresh FSM is always in
    one of the six named states, never moves backwards, and once it is closed it
    stays closed. *)
Theorem apply_all_monotone (es es' : list Z) :
  let s := State (apply_all es NewStreamFSM) in
  let s' := State (apply_all es' (apply_all es NewStreamFSM)) in
  named_state s /\ named_state s' /\ s <= s' /\ (s = StateClosed -> s' = StateClosed).
Proof.
  assert (Hrun : forall l f, named_state (State f) ->
    named_state (State (apply_all l f)) /\ State f <= State (apply_all l f)).
  { induction l as [|e l IH]; intros f Hf; [split; [done|apply Z.le_refl]|].
    change (apply_all (e :: l) f) with (apply_all l (snd (Apply e f))).
    destruct (Apply_cases e f) as [(s1 & He & ->)|(_ & msg & ->)]; simpl; [|by apply IH].
    destruct (IH (mkFSM s1)) as [H1 H2]; [by eapply fsm_edge_named|]. split; [done|].
    pose proof (fsm_edge_rank _ _ _ He Hf). unfold State in *. simpl in H2.
    fsm_unfold. lia. }
  intros s s'. destruct (Hrun es NewStreamFSM) as [H1 _]; [vm_compute; split; discriminate|].
  destruct (Hrun es' _ H1) as [H2 H3]. fold s s' in H1, H2, H3. fsm_unfold. lia.
Qed.

(** C10. Splice discipline: after any sequence of events a fresh stream is
    spliced exactly when the events the FSM accepted so far are open, accept and
    splice, in that order and nothing else; no stream is spliced again once it
    began to close. *)
Theorem spliced_iff_open_accept_splice (es : list Z) :
  State (apply_all es NewStreamFSM) = StateSpliced <->
  accepted es NewStreamFSM = [EventOpen; EventAccept; EventSplice].
Proof.
  pose proof (accepted_history es NewStreamFSM [] eq_refl) as Hh.
  rewrite app_nil_l in Hh. unfold history_ok in Hh. split.
  - intros Hs. rewrite Hs in Hh. by vm_compute in Hh.
  - intros Ha. rewrite Ha in Hh.
    repeat match type of Hh with context [if ?b then _ else _] => destruct b eqn:? end;
      bool_split; try done.
    destruct Hh as [acc' [H|H]]; apply (f_equal last) in H; by rewrite last_snoc in H.
Qed.
