(* ===== verification/Ring.v ===== *)
(** * The per-stream resume buffer: lib/resume/ringbuffer.go

    [RingBuffer] with its five fields and one definition per method.  Every
    method holds the mutex for its whole body, so a call is one atomic step and
    a concurrent execution is a sequence of calls ([ring_op]).  The abstract
    specification is the whole history of written bytes together with the
    position of the oldest byte still held; [ring_rep] relates the two. *)

From Stdlib Require Import ZArith Lia Strings.Byte.
From stdpp Require Import base tactics list numbers.
From S2P Require Import Prelude.

Local Open Scope Z_scope.

Definition DefaultRingCapacity : Z := 16 * 1024 * 1024.
Definition DefaultMinRingCapacity : Z := 64 * 1024.

Inductive ring_err := ErrBeforeRing.

Record RingBuffer := mkRing {
  rb_buf : list byte;
  rb_cap : Z;
  rb_minCap : Z;
  rb_maxCap : Z;
  rb_head : Z
}.

Definition NewRingBuffer (capacity : Z) : RingBuffer :=
  let capacity := if capacity <=? 0 then DefaultRingCapacity else capacity in
  mkRing [] capacity capacity capacity 0.

Definition NewAdaptiveRingBuffer (minCap maxCap : Z) : RingBuffer :=
  let minCap := if minCap <=? 0 then DefaultMinRingCapacity else minCap in
  let maxCap := if maxCap <=? 0 then DefaultRingCapacity else maxCap in
  let minCap := if maxCap <? minCap then maxCap else minCap in
  mkRing [] minCap minCap maxCap 0.

(** The adaptive growth of [Write], before the bytes are stored. *)
Definition grown_cap (r : RingBuffer) (n : Z) : Z :=
  if (rb_cap r <? rb_maxCap r) && (rb_cap r <? i64 (zlen (rb_buf r) + n)) then
    let needed := i64 (zlen (rb_buf r) + n) in
    let newCap := Z.min (Z.max (i64 (rb_cap r * 2)) needed) (rb_maxCap r) in
    if rb_cap r <? newCap then newCap else rb_cap r
  else rb_cap r.

(** [Write] returns the number of bytes accepted (its error is always nil). *)
Definition Write (p : list byte) (r : RingBuffer) : Z * RingBuffer :=
  let n := zlen p in
  let head := i64 (rb_head r + n) in
  let cap := grown_cap r n in
  let len := zlen (rb_buf r) in
  let buf :=
    if cap <=? n then drop (Z.to_nat (n - cap)) p
    else if i64 (len + n) <=? cap then rb_buf r ++ p
    else drop (Z.to_nat (i64 (len + n - cap))) (rb_buf r) ++ p in
  (n, mkRing buf cap (rb_minCap r) (rb_maxCap r) head).

Definition Head (r : RingBuffer) : Z := rb_head r.
Definition Tail (r : RingBuffer) : Z := i64 (rb_head r - zlen (rb_buf r)).
Definition Len (r : RingBuffer) : Z := zlen (rb_buf r).
Definition Cap (r : RingBuffer) : Z := rb_cap r.

Definition BytesFrom (pos : Z) (r : RingBuffer) : res ring_err (list byte) :=
  let tail := i64 (rb_head r - zlen (rb_buf r)) in
  if pos <? tail then Err ErrBeforeRing
  else if rb_head r <? pos then Ok []
  else Ok (drop (Z.to_nat (i64 (pos - tail))) (rb_buf r)).

(** The adaptive shrink at the end of [Discard]. *)
Definition shrunk_cap (cap minCap len : Z) : Z :=
  if (minCap <? cap) && (i64 (len * 4) <? cap) then
    let newCap := Z.max (Z.max (cap / 2) minCap) len in
    if newCap <? cap then newCap else cap
  else cap.

Definition Discard (before : Z) (r : RingBuffer) : RingBuffer :=
  let tail := i64 (rb_head r - zlen (rb_buf r)) in
  if before <=? tail then r
  else
    let drop_n := i64 (before - tail) in
    let buf := if zlen (rb_buf r) <=? drop_n then []
               else drop (Z.to_nat drop_n) (rb_buf r) in
    mkRing buf (shrunk_cap (rb_cap r) (rb_minCap r) (zlen buf))
           (rb_minCap r) (rb_maxCap r) (rb_head r).

Arguments Write : simpl never.
Arguments Discard : simpl never.

(** ** Executions *)
Inductive ring_op := OpWrite (p : list byte) | OpDiscard (before : Z).

Definition ring_step (r : RingBuffer) (o : ring_op) : RingBuffer :=
  match o with
  | OpWrite p => snd (Write p r)
  | OpDiscard before => Discard before r
  end.

Definition ring_run (ops : list ring_op) (r : RingBuffer) : RingBuffer :=
  fold_left ring_step ops r.

(** The bytes written and the largest position discarded by an execution. *)
Definition op_bytes (o : ring_op) : list byte :=
  match o with OpWrite p => p | OpDiscard _ => [] end.
Definition written (ops : list ring_op) : list byte := concat (map op_bytes ops).
Fixpoint discarded (ops : list ring_op) : Z :=
  match ops with
  | [] => 0
  | OpWrite _ :: ops' => discarded ops'
  | OpDiscard b :: ops' => Z.max b (discarded ops')
  end.

(** ** Well-formedness and the abstraction relation

    The bound on [maxCap] keeps the code's [cap*2] and [len*4] within [int];
    no slice of 2^61 bytes can be allocated. *)
Definition ring_wf (r : RingBuffer) : Prop :=
  0 < rb_minCap r /\ rb_minCap r <= rb_cap r /\ rb_cap r <= rb_maxCap r /\
  rb_maxCap r < 2305843009213693952 /\ zlen (rb_buf r) <= rb_cap r.

(** [hist] is everything ever written; the buffer is the part of it from
    [tail] on. *)
Definition ring_rep (r : RingBuffer) (hist : list byte) (tail : Z) : Prop :=
  zlen hist <= 9223372036854775807 /\ rb_head r = zlen hist /\
  0 <= tail <= zlen hist /\ rb_buf r = drop (Z.to_nat tail) hist.

(** ** Lemmas *)
Lemma NewRingBuffer_wf capacity :
  capacity < 2305843009213693952 -> ring_wf (NewRingBuffer capacity).
Proof.
  intros. unfold ring_wf, NewRingBuffer, DefaultRingCapacity, zlen. simpl. zcase; lia.
Qed.

Lemma NewAdaptiveRingBuffer_wf minCap maxCap :
  maxCap < 2305843009213693952 -> ring_wf (NewAdaptiveRingBuffer minCap maxCap).
Proof.
  intros. unfold ring_wf, NewAdaptiveRingBuffer, DefaultRingCapacity,
    DefaultMinRingCapacity, zlen. simpl. repeat zcase; lia.
Qed.

Lemma ring_rep_len r hist tail :
  ring_rep r hist tail -> zlen (rb_buf r) = zlen hist - tail.
Proof. intros (_ & _ & Ht & ->). rewrite zlen_drop. lia. Qed.

Lemma ring_rep_tail r hist tail : ring_rep r hist tail -> Tail r = tail.
Proof.
  intros Hr. unfold Tail. rewrite (ring_rep_len r hist tail Hr).
  destruct Hr as (Hb & -> & Ht & _). rewrite i64_small; [lia|]. unfold is_i64. lia.
Qed.

(** What [Write] computes, freed from the case analysis: the buffer keeps the
    last [maxCap] bytes of the old contents followed by [p]. *)
Lemma Write_spec p r :
  ring_wf r -> zlen (rb_buf r) + zlen p <= 9223372036854775807 ->
  ring_wf (snd (Write p r)) /\ rb_maxCap (snd (Write p r)) = rb_maxCap r /\
  rb_head (snd (Write p r)) = i64 (rb_head r + zlen p) /\
  rb_buf (snd (Write p r)) =
    drop (Z.to_nat (zlen (rb_buf r) + zlen p - rb_maxCap r)) (rb_buf r ++ p).
Proof.
  intros (Hmin & Hcap & Hmax & Hbig & Hlen) Hsum. unfold Write, ring_wf. simpl.
  pose proof (zlen_nonneg (rb_buf r)). pose proof (zlen_nonneg p).
  assert (Hg : rb_minCap r <= grown_cap r (zlen p) <= rb_maxCap r /\
    (zlen (rb_buf r) + zlen p <= grown_cap r (zlen p) \/
     grown_cap r (zlen p) = rb_maxCap r)).
  { unfold grown_cap. no_wrap.
    destruct (_ && _) eqn:Hb; bool_split; [zcase; lia|].
    apply andb_false_iff in Hb as [Hb|Hb]; bool_split; lia. }
  revert Hg. generalize (grown_cap r (zlen p)). intros c [Hc1 Hc2].
  no_wrap.
  zcase; [|zcase].
  - rewrite zlen_drop. split_and!; try lia.
    rewrite drop_app_ge by (unfold zlen in *; lia). f_equal. unfold zlen in *. lia.
  - rewrite zlen_app. split_and!; try lia.
    replace (Z.to_nat _) with 0%nat by lia. by rewrite drop_0.
  - rewrite zlen_app, zlen_drop. split_and!; try lia.
    rewrite drop_app_le by (unfold zlen in *; lia). do 2 f_equal. lia.
Qed.

Lemma Discard_spec before r :
  ring_wf r -> is_i64 (rb_head r) -> 0 <= rb_head r - zlen (rb_buf r) ->
  is_i64 before ->
  ring_wf (Discard before r) /\ rb_maxCap (Discard before r) = rb_maxCap r /\
  rb_head (Discard before r) = rb_head r /\
  rb_buf (Discard before r) =
    drop (Z.to_nat (before - (rb_head r - zlen (rb_buf r)))) (rb_buf r).
Proof.
  intros (Hmin & Hcap & Hmax & Hbig & Hlen) Hh Ht Hb. unfold Discard, is_i64 in *.
  pose proof (zlen_nonneg (rb_buf r)).
  rewrite !(i64_small (rb_head r - _)) by (unfold is_i64; lia). zcase.
  { replace (Z.to_nat _) with 0%nat by lia. unfold ring_wf. by split_and!. }
  no_wrap. simpl.
  assert (Hbuf : (if zlen (rb_buf r) <=? before - (rb_head r - zlen (rb_buf r)) then []
    else drop (Z.to_nat (before - (rb_head r - zlen (rb_buf r)))) (rb_buf r)) =
    drop (Z.to_nat (before - (rb_head r - zlen (rb_buf r)))) (rb_buf r)).
  { zcase; [|done]. rewrite drop_ge; [done|]. unfold zlen in *. lia. }
  rewrite Hbuf. split; [|done]. unfold ring_wf, shrunk_cap. simpl.
  rewrite zlen_drop. no_wrap.
  destruct (_ && _) eqn:Hc; [|lia]. bool_split. zcase; [|lia].
  assert (rb_cap r / 2 <= rb_cap r) by (apply Z.div_le_upper_bound; lia). lia.
Qed.

Lemma Write_rep p r hist tail :
  ring_wf r -> ring_rep r hist tail -> zlen (hist ++ p) <= 9223372036854775807 ->
  ring_rep (snd (Write p r)) (hist ++ p)
    (Z.max tail (zlen (hist ++ p) - rb_maxCap r)).
Proof.
  intros Hwf Hrep Hb. pose proof (ring_rep_len _ _ _ Hrep) as Hl.
  destruct Hrep as (Hh & Hhead & Ht & Hbuf). rewrite zlen_app in *.
  pose proof (zlen_nonneg p).
  destruct (Write_spec p r Hwf) as (Hwf' & Hm & Hhead' & Hbuf'); [lia|].
  destruct Hwf as (? & ? & ? & ? & ?).
  unfold ring_rep. rewrite Hhead', Hhead, zlen_app, Hbuf', Hl, Hbuf.
  no_wrap. split_and!; try lia.
  rewrite <- drop_app_le by (unfold zlen in *; lia).
  rewrite drop_drop. f_equal. lia.
Qed.

Lemma Discard_rep before r hist tail :
  ring_wf r -> ring_rep r hist tail -> is_i64 before ->
  ring_rep (Discard before r) hist (Z.max tail (Z.min before (zlen hist))).
Proof.
  intros Hwf Hrep Hb. pose proof (ring_rep_len _ _ _ Hrep) as Hl.
  destruct Hrep as (Hh & Hhead & Ht & Hbuf). pose proof (zlen_nonneg hist).
  destruct (Discard_spec before r Hwf) as (Hwf' & Hm & Hhead' & Hbuf');
    [unfold is_i64; lia|lia|done|].
  unfold ring_rep. rewrite Hhead', Hbuf', Hl, Hhead. split_and!; try lia.
  rewrite Hbuf, drop_drop. destruct (decide (before <= zlen hist)).
  - f_equal. lia.
  - rewrite !drop_ge; [done|unfold zlen in *; lia..].
Qed.

(** One step of an execution. *)
Definition op_ok (o : ring_op) : Prop :=
  match o with OpWrite _ => True | OpDiscard b => is_i64 b end.

Lemma ring_step_rep o r hist tail :
  ring_wf r -> ring_rep r hist tail -> op_ok o ->
  zlen (hist ++ op_bytes o) <= 9223372036854775807 ->
  ring_wf (ring_step r o) /\ rb_maxCap (ring_step r o) = rb_maxCap r /\
  exists tail', ring_rep (ring_step r o) (hist ++ op_bytes o) tail' /\
    tail <= tail' <= Z.max (Z.max tail (discarded [o]))
                           (zlen (hist ++ op_bytes o) - rb_maxCap r).
Proof.
  intros Hwf Hrep Hok Hb. pose proof (ring_rep_len _ _ _ Hrep) as Hl.
  destruct o as [p|b]; simpl in *.
  - split; [|split; [by unfold Write|]].
    + apply Write_spec; [done|]. rewrite zlen_app in Hb. destruct Hrep as (?&?&?&?). lia.
    + eexists. split; [by apply Write_rep|]. lia.
  - rewrite app_nil_r in *. pose proof (zlen_nonneg (rb_buf r)).
    assert (Hpre : is_i64 (rb_head r) /\ 0 <= rb_head r - zlen (rb_buf r)).
    { destruct Hrep as (?&?&?&?). unfold is_i64. lia. }
    destruct Hpre. destruct (Discard_spec b r) as (Hwf' & Hm' & _ & _); try done.
    split_and!; [done|done|]. eexists. split; [by apply Discard_rep|]. destruct Hrep as (?&?&?&?). lia.
Qed.

Lemma ring_run_rep ops r hist tail :
  ring_wf r -> ring_rep r hist tail -> Forall op_ok ops ->
  zlen (hist ++ written ops) <= 9223372036854775807 ->
  ring_wf (ring_run ops r) /\ rb_maxCap (ring_run ops r) = rb_maxCap r /\
  exists tail', ring_rep (ring_run ops r) (hist ++ written ops) tail' /\
    tail <= tail' <= Z.max (Z.max tail (discarded ops))
                           (zlen (hist ++ written ops) - rb_maxCap r).
Proof.
  revert r hist tail. induction ops as [|o ops IH]; intros r hist tail Hwf Hrep Hok Hb.
  - unfold written in *. simpl. rewrite app_nil_r in *. split_and!; [done|done|].
    exists tail. split; [done|lia].
  - apply Forall_uncons in Hok as [Ho Hok]. unfold written in *. simpl in *.
    fold (written ops) in *. rewrite app_assoc in *.
    destruct (ring_step_rep o r hist tail Hwf Hrep Ho) as (Hwf1 & Hm1 & t1 & Hrep1 & Ht1).
    { rewrite zlen_app in Hb |- *. pose proof (zlen_nonneg (written ops)).
      rewrite zlen_app in *. lia. }
    destruct (IH _ _ _ Hwf1 Hrep1 Hok Hb) as (Hwf2 & Hm2 & t2 & Hrep2 & Ht2).
    split_and!; [done|unfold ring_run in *; simpl; congruence|]. exists t2.
    split; [done|]. rewrite Hm1 in Ht2.
    pose proof (zlen_app (hist ++ op_bytes o) (written ops)).
    pose proof (zlen_nonneg (written ops)). destruct Hrep as (_ & _ & Ht & _).
    destruct o; simpl in *; lia.
Qed.

Lemma ring_rep_new_adaptive minCap maxCap :
  ring_rep (NewAdaptiveRingBuffer minCap maxCap) [] 0.
Proof. repeat split; vm_compute; try discriminate; done. Qed.

(** [BytesFrom] on a represented history. *)
Lemma BytesFrom_rep pos r hist tail :
  ring_rep r hist tail ->
  BytesFrom pos r =
    if pos <? tail then Err ErrBeforeRing
    else Ok (drop (Z.to_nat pos) hist).
Proof.
  intros Hrep. pose proof (ring_rep_tail _ _ _ Hrep) as Htail. unfold Tail in Htail.
  unfold BytesFrom. rewrite Htail. destruct Hrep as (Hb & Hh & Ht & Hbuf).
  zcase; [done|]. rewrite Hh. zcase.
  - rewrite drop_ge; [done|]. unfold zlen in *. lia.
  - rewrite Hbuf, drop_drop, i64_small by (unfold is_i64; lia). do 2 f_equal. lia.
Qed.

(** Rings with the same [maxCap] and contents evolve alike. *)
Lemma ring_run_equiv ops a f hist tail :
  ring_wf a -> ring_wf f -> ring_rep a hist tail ->
  rb_buf a = rb_buf f -> rb_head a = rb_head f -> rb_maxCap a = rb_maxCap f ->
  Forall op_ok ops -> zlen (hist ++ written ops) <= 9223372036854775807 ->
  rb_buf (ring_run ops a) = rb_buf (ring_run ops f) /\
  rb_head (ring_run ops a) = rb_head (ring_run ops f).
Proof.
  revert a f hist tail.
  induction ops as [|o ops IH]; intros a f hist tail Ha Hf Hrep Hb Hh Hm Hok Hlen; [done|].
  apply Forall_uncons in Hok as [Ho Hok]. unfold written in Hlen. simpl in Hlen.
  fold (written ops) in Hlen. rewrite app_assoc in Hlen.
  assert (Hlen1 : zlen (hist ++ op_bytes o) <= 9223372036854775807).
  { rewrite zlen_app in Hlen. pose proof (zlen_nonneg (written ops)). lia. }
  assert (Hrepf : ring_rep f hist tail)
    by (destruct Hrep as (? & ? & ? & ?); unfold ring_rep; by rewrite <- Hb, <- Hh).
  destruct (ring_step_rep o a hist tail Ha Hrep Ho Hlen1) as (Ha1 & Hma & t1 & Hrep1 & _).
  destruct (ring_step_rep o f hist tail Hf Hrepf Ho Hlen1) as (Hf1 & Hmf & _).
  pose proof (ring_rep_len _ _ _ Hrep) as Hl. destruct Hrep as (Hz & Hhd & Ht & _).
  rewrite zlen_app in Hlen1.
  apply (IH (ring_step a o) (ring_step f o) (hist ++ op_bytes o) t1); try done; [..|congruence].
  - destruct o as [p|b]; cbn [ring_step op_bytes op_ok] in *.
    + destruct (Write_spec p a Ha) as (_ & _ & _ & ->); [lia|].
      destruct (Write_spec p f Hf) as (_ & _ & _ & ->); [rewrite <- Hb; lia|].
      by rewrite Hb, Hm.
    + destruct (Discard_spec b a Ha) as (_ & _ & _ & ->); [unfold is_i64; lia|lia|done|].
      destruct (Discard_spec b f Hf) as (_ & _ & _ & ->);
        [rewrite <- Hh; unfold is_i64; lia|rewrite <- Hh, <- Hb; lia|done|].
      by rewrite Hb, Hh.
  - destruct o as [p|b]; simpl; [unfold Write; simpl; by rewrite Hh|].
    unfold Discard. repeat case_match; simpl; done.
Qed.

(** ** Properties *)

(** C6. Replay correctness: after any sequence of writes and discards on a fresh
    ring (fixed or adaptive), [BytesFrom pos] either reports [ErrBeforeRing],
    exactly when [pos] is below [Tail], or returns precisely the bytes written
    at position [pos] and later (none beyond the head); [Head] counts all bytes
    ever written. *)
Theorem BytesFrom_run (minCap maxCap pos : Z) (ops : list ring_op) :
  let r := ring_run ops (NewAdaptiveRingBuffer minCap maxCap) in
  maxCap < 2305843009213693952 -> Forall op_ok ops ->
  zlen (written ops) <= 9223372036854775807 ->
  Head r = zlen (written ops) /\ 0 <= Tail r <= Head r /\
  BytesFrom pos r = if pos <? Tail r then Err ErrBeforeRing
                    else Ok (drop (Z.to_nat pos) (written ops)).
Proof.
  intros r Hm Hok Hb.
  destruct (ring_run_rep ops _ [] 0 (NewAdaptiveRingBuffer_wf minCap maxCap Hm)
              (ring_rep_new_adaptive minCap maxCap) Hok Hb) as (_ & _ & t & Hrep & _).
  fold r in Hrep. rewrite (ring_rep_tail _ _ _ Hrep), (BytesFrom_rep _ _ _ _ Hrep).
  destruct Hrep as (_ & Hh & Ht & _). unfold Head. rewrite Hh. simpl in Ht |- *.
  by split; [|split].
Qed.

Lemma BytesFrom_run_witness :
  let r := ring_run [OpWrite [Byte.x01; Byte.x02; Byte.x03]; OpDiscard 1;
                     OpWrite [Byte.x04; Byte.x05]] (NewAdaptiveRingBuffer 2 4) in
  BytesFrom 2 r = Ok [Byte.x03; Byte.x04; Byte.x05].
Proof.
  destruct (BytesFrom_run 2 4 2 [OpWrite [Byte.x01; Byte.x02; Byte.x03]; OpDiscard 1;
    OpWrite [Byte.x04; Byte.x05]]) as (_ & _ & H);
    [lia|repeat constructor; vm_compute; discriminate|vm_compute; discriminate|].
  refine (eq_trans H _). vm_compute. reflexivity.
Defined.

(** C24. Capacity discipline: [cap] always stays within [minCap] and [maxCap], the
    buffer never holds more than [cap] bytes, and nothing is lost that was
    neither discarded nor older than the last [maxCap] bytes: [Tail] is at most
    the larger of the highest discarded position and [Head - maxCap]. *)
Theorem ring_run_bounds (minCap maxCap : Z) (ops : list ring_op) :
  let r := ring_run ops (NewAdaptiveRingBuffer minCap maxCap) in
  maxCap < 2305843009213693952 -> Forall op_ok ops ->
  zlen (written ops) <= 9223372036854775807 ->
  rb_minCap r <= Cap r <= rb_maxCap r /\ Len r <= Cap r /\
  Len r = Head r - Tail r /\ Tail r <= Z.max (discarded ops) (Head r - rb_maxCap r).
Proof.
  intros r Hm Hok Hb.
  destruct (ring_run_rep ops _ [] 0 (NewAdaptiveRingBuffer_wf minCap maxCap Hm)
              (ring_rep_new_adaptive minCap maxCap) Hok Hb)
    as ((? & ? & ? & ? & ?) & Hmax & t & Hrep & Ht).
  fold r in Hrep, Hmax, H, H0, H1, H2, H3. simpl in Ht.
  pose proof (ring_rep_len _ _ _ Hrep) as Hlen.
  rewrite (ring_rep_tail _ _ _ Hrep). destruct Hrep as (_ & Hh & Ht' & _).
  unfold Cap, Len, Head. rewrite Hh, Hmax, Hlen. simpl in *.
  assert (0 <= discarded ops) by (clear; induction ops as [|[]]; simpl; lia). lia.
Qed.

Lemma ring_run_bounds_witness :
  let r := ring_run [OpWrite (replicate 40 Byte.x01)] (NewAdaptiveRingBuffer 8 64) in
  Tail r <= Z.max (discarded [OpWrite (replicate 40 Byte.x01)]) (Head r - rb_maxCap r).
Proof.
  destruct (ring_run_bounds 8 64 [OpWrite (replicate 40 Byte.x01)]) as (_ & _ & _ & H);
    [lia|repeat constructor|vm_compute; discriminate|].
  exact H.
Defined.

(** C25. The adaptive policy only changes memory use, never what is retained: over
    any execution an adaptive ring holds exactly the same bytes, at the same
    positions, as a fixed ring of its maximal capacity. *)
Theorem adaptive_equiv_fixed (minCap maxCap : Z) (ops : list ring_op) :
  0 < maxCap < 2305843009213693952 -> Forall op_ok ops ->
  zlen (written ops) <= 9223372036854775807 ->
  let a := ring_run ops (NewAdaptiveRingBuffer minCap maxCap) in
  let f := ring_run ops (NewRingBuffer maxCap) in
  rb_buf a = rb_buf f /\ Head a = Head f /\ Tail a = Tail f /\
  (forall pos, BytesFrom pos a = BytesFrom pos f).
Proof.
  intros Hm Hok Hb.
  pose proof (ring_run_equiv ops (NewAdaptiveRingBuffer minCap maxCap) (NewRingBuffer maxCap) [] 0) as He.
  destruct He as [Hbuf Hhead]; try done.
  - apply NewAdaptiveRingBuffer_wf. lia.
  - apply NewRingBuffer_wf. lia.
  - intros a f. fold a f in Hbuf, Hhead. unfold Head, Tail, BytesFrom.
    rewrite Hbuf, Hhead. done.
Qed.

Lemma adaptive_equiv_fixed_witness :
  let ops := [OpWrite (replicate 5 Byte.x01); OpDiscard 4; OpWrite [Byte.x02]] in
  rb_buf (ring_run ops (NewAdaptiveRingBuffer 2 4)) = rb_buf (ring_run ops (NewRingBuffer 4)).
Proof.
  apply (adaptive_equiv_fixed 2 4 [OpWrite (replicate 5 Byte.x01); OpDiscard 4; OpWrite [Byte.x02]]);
    [lia|repeat constructor; vm_compute; discriminate|vm_compute; discriminate].
Defined.

(** An idle stream does not shrink: repeating a discard that was already
    done is a no-op, so after the checkpoint that acknowledges everything up to
    [before] the capacity is halved at most once, and further checkpoints at the
    same position leave it, however far above [minCap] it is. *)
Theorem Discard_again_noop (before : Z) (r : RingBuffer) (hist : list byte) (tail : Z) :
  ring_wf r -> ring_rep r hist tail -> is_i64 before -> before <= zlen hist ->
  Discard before (Discard before r) = Discard before r /\
  (Cap r <= 2 * Cap (Discard before r) + 1).
Proof.
  intros Hwf Hrep Hb Hle. pose proof (Discard_rep before r hist tail Hwf Hrep Hb) as Hrep'.
  split.
  - pose proof (ring_rep_tail _ _ _ Hrep') as Ht. unfold Tail in Ht.
    unfold Discard at 1. rewrite Ht. destruct (Z.leb_spec before (Z.max tail (Z.min before (zlen hist)))); [done|lia].
  - destruct Hwf as (? & ? & ? & ? & ?). unfold Discard, Cap. zcase; [lia|]. simpl.
    unfold shrunk_cap. destruct (_ && _); [|lia].
    zcase; [|lia]. Z.div_mod_to_equations. lia.
Qed.

Lemma Discard_again_noop_witness :
  let r := snd (Write (replicate 30 Byte.x01) (NewAdaptiveRingBuffer 2 64)) in
  Discard 30 (Discard 30 r) = Discard 30 r /\ (Cap r <= 2 * Cap (Discard 30 r) + 1).
Proof.
  apply (Discard_again_noop 30 _ (replicate 30 Byte.x01) 0).
  - vm_compute. repeat split; discriminate.
  - repeat split; vm_compute; try discriminate; reflexivity.
  - vm_compute. split; discriminate.
  - vm_compute. discriminate.
Defined.
