(* ===== verification/Resume.v ===== *)
(** * Stream ids and per-stream resume state: lib/resume/streamid.go, stream.go

    [NewStreamID] feeds a byte string into [maphash], whose seeded hash function
    is a parameter ([hash]); the byte string is modelled exactly.  [State]
    bundles the ring of [Ring] with the three byte counters.  The section
    [Session] composes a sending and a receiving [State] into the resume
    protocol and proves that a resumed stream loses nothing. *)

From Stdlib Require Import ZArith Lia Strings.Byte Strings.Ascii.
From stdpp Require Import base tactics list numbers strings relations.
From S2P Require Import Prelude Ring.

Local Open Scope Z_scope.

(** ** Stream ids *)

(** The 8-byte little-endian rendering of a [uint64]. *)
Definition le_bytes8 (c : Z) : list byte :=
  map (fun i => byte_of (Z.shiftr c (8 * i))) [0; 1; 2; 3; 4; 5; 6; 7].

(** The bytes written into the hash: tenant, the sorted agent pair, the
    counter, the clock. *)
Definition stream_id_input (tenant agentA agentB : string) (c now : Z) : list byte :=
  let '(a, b) := if String.ltb agentB agentA then (agentB, agentA) else (agentA, agentB) in
  str_bytes tenant ++ str_bytes "|" ++ str_bytes a ++ str_bytes "|" ++ str_bytes b ++
  le_bytes8 c ++ le_bytes8 (u64 now).

(** One call: [ctr] is [monotonicCounter] before the call, the result is the id
    and the counter after it. *)
Definition NewStreamID (hash : list byte -> Z) (tenant agentA agentB : string)
    (now ctr : Z) : Z * Z :=
  let c := u64 (ctr + 1) in
  (u64 (hash (stream_id_input tenant agentA agentB c now)), c).

(** [StreamID.String]: sixteen hexadecimal digits, high nibble first. *)
Definition hex_digit (d : Z) : ascii :=
  match d with
  | 0 => "0" | 1 => "1" | 2 => "2" | 3 => "3" | 4 => "4" | 5 => "5" | 6 => "6" | 7 => "7"
  | 8 => "8" | 9 => "9" | 10 => "a" | 11 => "b" | 12 => "c" | 13 => "d" | 14 => "e"
  | _ => "f"
  end%char.

Definition StreamID_String (s : Z) : string :=
  String.string_of_list_ascii
    (map (fun i => hex_digit (Z.land (Z.shiftr s i) 0xf))
       [60; 56; 52; 48; 44; 40; 36; 32; 28; 24; 20; 16; 12; 8; 4; 0]).

(** A sequence of calls in one process: the hash inputs they use. *)
Definition id_call : Type := string * string * string * Z.

Fixpoint id_inputs (calls : list id_call) (ctr : Z) : list (list byte) :=
  match calls with
  | [] => []
  | (t, a, b, now) :: calls' =>
    let c := snd (NewStreamID (fun _ => 0) t a b now ctr) in
    stream_id_input t a b c now :: id_inputs calls' c
  end.

(** ** Per-stream state *)
Definition CheckpointPeriodMs : Z := 100.

Record Counters := mkCounters { SentPos : Z; RecvPos : Z; PeerAckPos : Z }.

Record State := mkState { st_ID : Z; st_Ring : RingBuffer; st_Counters : Counters }.

Definition NewState (id ringCap : Z) : State :=
  mkState id (NewRingBuffer ringCap) (mkCounters 0 0 0).

Definition Sent (s : State) : Z := SentPos (st_Counters s).
Definition Received (s : State) : Z := RecvPos (st_Counters s).
Definition PeerAck (s : State) : Z := PeerAckPos (st_Counters s).

Definition OnWrite (p : list byte) (s : State) : State :=
  if zlen p =? 0 then s
  else
    let c := st_Counters s in
    mkState (st_ID s) (snd (Write p (st_Ring s)))
      (mkCounters (i64 (SentPos c + zlen p)) (RecvPos c) (PeerAckPos c)).

Definition OnRead (n : Z) (s : State) : State :=
  if n <=? 0 then s
  else
    let c := st_Counters s in
    mkState (st_ID s) (st_Ring s)
      (mkCounters (SentPos c) (i64 (RecvPos c + n)) (PeerAckPos c)).

Definition OnCheckpointFromPeer (peerAck : Z) (s : State) : State :=
  let c := st_Counters s in
  let prev := PeerAckPos c in
  if prev <? peerAck then
    mkState (st_ID s) (Discard peerAck (st_Ring s))
      (mkCounters (SentPos c) (RecvPos c) peerAck)
  else s.

Definition ResumePayload (s : State) : Z * Z := (Sent s, Received s).

Definition RetransmitFrom (peerPos : Z) (s : State) : res ring_err (list byte) :=
  BytesFrom peerPos (st_Ring s).

(** ** The resume protocol between two agents

    One direction of a stream: [ses_out] are the bytes the sending application
    wrote, [ses_in] the bytes the receiving application got.  The transport
    delivers a prefix; a checkpoint from the receiver may arrive late, so it
    carries any position the receiver had reached. *)
Record session := mkSession {
  ses_snd : State;
  ses_rcv : State;
  ses_out : list byte;
  ses_in : list byte
}.

Definition new_session (id1 id2 ringCap : Z) : session :=
  mkSession (NewState id1 ringCap) (NewState id2 ringCap) [] [].

Inductive session_step : session -> session -> Prop :=
| step_write ses p :
    zlen (ses_out ses ++ p) <= 9223372036854775807 ->
    session_step ses
      (mkSession (OnWrite p (ses_snd ses)) (ses_rcv ses) (ses_out ses ++ p) (ses_in ses))
| step_read ses p rest :
    ses_out ses = ses_in ses ++ p ++ rest ->
    session_step ses
      (mkSession (ses_snd ses) (OnRead (zlen p) (ses_rcv ses)) (ses_out ses) (ses_in ses ++ p))
| step_checkpoint ses pos :
    0 <= pos <= Received (ses_rcv ses) ->
    session_step ses
      (mkSession (OnCheckpointFromPeer pos (ses_snd ses)) (ses_rcv ses)
         (ses_out ses) (ses_in ses)).

Definition session_inv (ringCap : Z) (ses : session) : Prop :=
  exists tail rest,
    ring_wf (st_Ring (ses_snd ses)) /\
    rb_maxCap (st_Ring (ses_snd ses)) = ringCap /\
    ring_rep (st_Ring (ses_snd ses)) (ses_out ses) tail /\
    Sent (ses_snd ses) = zlen (ses_out ses) /\
    Received (ses_rcv ses) = zlen (ses_in ses) /\
    ses_out ses = ses_in ses ++ rest /\
    0 <= PeerAck (ses_snd ses) <= Received (ses_rcv ses) /\
    tail <= Z.max (PeerAck (ses_snd ses)) (zlen (ses_out ses) - ringCap).

Ltac ses_simpl :=
  unfold Sent, Received, PeerAck in *;
  cbn [ses_snd ses_rcv ses_out ses_in st_Ring st_Counters SentPos RecvPos PeerAckPos] in *.

Lemma session_inv_init id1 id2 ringCap :
  0 < ringCap < 2305843009213693952 -> session_inv ringCap (new_session id1 id2 ringCap).
Proof.
  intros Hc. exists 0, []. simpl. split_and!; try done.
  - apply NewRingBuffer_wf. lia.
  - unfold NewRingBuffer. simpl. zcase; lia.
  - unfold zlen, PeerAck. simpl. lia.
Qed.

Lemma OnWrite_inv ringCap ses p :
  session_inv ringCap ses -> zlen (ses_out ses ++ p) <= 9223372036854775807 ->
  session_inv ringCap
    (mkSession (OnWrite p (ses_snd ses)) (ses_rcv ses) (ses_out ses ++ p) (ses_in ses)).
Proof.
  intros (tail & rest & Hwf & Hmax & Hrep & Hsent & Hrecv & Hpre & Hack & Htail) Hb.
  unfold OnWrite. zcase.
  { assert (p = []) as -> by (destruct p; [done|unfold zlen in *; simpl in *; lia]).
    exists tail, rest. by rewrite app_nil_r. }
  destruct (ring_step_rep (OpWrite p) _ _ _ Hwf Hrep I Hb) as (Hwf' & Hmax' & t' & Hrep' & Ht').
  cbn [ring_step op_bytes discarded] in *.
  exists t', (rest ++ p). ses_simpl. rewrite Hmax in Ht'.
  pose proof (zlen_nonneg (ses_out ses)). pose proof (zlen_nonneg p).
  pose proof (zlen_app (ses_out ses) p). split_and!; try done; try lia.
  - rewrite Hsent, i64_small; [lia|unfold is_i64; lia].
  - by rewrite Hpre, <- app_assoc.
Qed.

Lemma OnRead_inv ringCap ses p rest :
  session_inv ringCap ses -> ses_out ses = ses_in ses ++ p ++ rest ->
  session_inv ringCap
    (mkSession (ses_snd ses) (OnRead (zlen p) (ses_rcv ses)) (ses_out ses) (ses_in ses ++ p)).
Proof.
  intros (tail & rest' & Hwf & Hmax & Hrep & Hsent & Hrecv & Hpre & Hack & Htail) Hp.
  exists tail, rest. cbn [ses_snd ses_out ses_in ses_rcv].
  assert (Hr : Received (OnRead (zlen p) (ses_rcv ses)) = zlen (ses_in ses ++ p)).
  { unfold OnRead. zcase.
    - rewrite Hrecv, zlen_app. pose proof (zlen_nonneg p). lia.
    - unfold Received in *. simpl. rewrite Hrecv, <- zlen_app. apply i64_small.
      destruct Hrep as (Hb & _). rewrite Hp, app_assoc, zlen_app in Hb.
      pose proof (zlen_nonneg rest). pose proof (zlen_nonneg (ses_in ses ++ p)).
      unfold is_i64. lia. }
  rewrite Hr. split_and!; try done; [by rewrite <- app_assoc|lia|].
  rewrite zlen_app. pose proof (zlen_nonneg p). lia.
Qed.

Lemma OnCheckpoint_inv ringCap ses pos :
  session_inv ringCap ses -> 0 <= pos <= Received (ses_rcv ses) ->
  session_inv ringCap
    (mkSession (OnCheckpointFromPeer pos (ses_snd ses)) (ses_rcv ses)
       (ses_out ses) (ses_in ses)).
Proof.
  intros (tail & rest & Hwf & Hmax & Hrep & Hsent & Hrecv & Hpre & Hack & Htail) Hpos.
  unfold OnCheckpointFromPeer. zcase; [|by exists tail, rest].
  assert (Hin : is_i64 pos).
  { destruct Hrep as (Hb & _). rewrite Hpre, zlen_app in Hb.
    pose proof (zlen_nonneg rest). unfold is_i64. lia. }
  destruct (ring_step_rep (OpDiscard pos) _ _ _ Hwf Hrep Hin) as (Hwf' & Hmax' & t' & Hrep' & Ht').
  { simpl. rewrite app_nil_r. by destruct Hrep. }
  cbn [ring_step op_bytes discarded] in *. rewrite app_nil_r in *.
  exists t', rest. ses_simpl. rewrite Hmax in Ht'. split_and!; try done; lia.
Qed.

Lemma session_reachable_inv id1 id2 ringCap ses :
  0 < ringCap < 2305843009213693952 ->
  rtc session_step (new_session id1 id2 ringCap) ses -> session_inv ringCap ses.
Proof.
  intros Hc Hr. pose proof (session_inv_init id1 id2 ringCap Hc) as Hi. revert Hi.
  induction Hr as [|? ? ? Hs _ IH]; [done|]. intros Hi. apply IH. destruct Hs.
  - by apply OnWrite_inv.
  - by eapply OnRead_inv.
  - by apply OnCheckpoint_inv.
Qed.

(** Agreement on the next byte extends agreement modulo [x]. *)
Lemma mod_next_byte a b x :
  0 < x -> a mod x = b mod x -> (a / x) mod 256 = (b / x) mod 256 ->
  a mod (x * 256) = b mod (x * 256).
Proof. intros. rewrite !Z.rem_mul_r by lia. congruence. Qed.

(** The [i]-th byte read back. *)
Lemma le_bytes8_nth c i :
  (i < 8)%nat ->
  byte_val (nth i (le_bytes8 c) Byte.x00) = (c / 2 ^ (8 * Z.of_nat i)) mod 256.
Proof.
  intros Hi. rewrite <- Z.shiftr_div_pow2, <- byte_val_of by lia. f_equal.
  do 8 (destruct i as [|i]; [reflexivity|]). lia.
Qed.
#[local] Opaque le_bytes8.

Lemma le_bytes8_inj a b :
  0 <= a < 18446744073709551616 -> 0 <= b < 18446744073709551616 ->
  le_bytes8 a = le_bytes8 b -> a = b.
Proof.
  intros Ha Hb H.
  assert (Hn : forall i, (i < 8)%nat ->
    (a / 2 ^ (8 * Z.of_nat i)) mod 256 = (b / 2 ^ (8 * Z.of_nat i)) mod 256).
  { intros i Hi. rewrite <- (le_bytes8_nth a), <- (le_bytes8_nth b), H by exact Hi. reflexivity. }
  pose proof (Hn 0%nat ltac:(lia)) as K0.
  change (2 ^ (8 * Z.of_nat 0)) with 1 in K0. rewrite !Z.div_1_r in K0.
  pose proof (mod_next_byte a b 256 ltac:(lia) K0 (Hn 1%nat ltac:(lia))) as K1.
  pose proof (mod_next_byte a b 65536 ltac:(lia) K1 (Hn 2%nat ltac:(lia))) as K2.
  pose proof (mod_next_byte a b 16777216 ltac:(lia) K2 (Hn 3%nat ltac:(lia))) as K3.
  pose proof (mod_next_byte a b 4294967296 ltac:(lia) K3 (Hn 4%nat ltac:(lia))) as K4.
  pose proof (mod_next_byte a b 1099511627776 ltac:(lia) K4 (Hn 5%nat ltac:(lia))) as K5.
  pose proof (mod_next_byte a b 281474976710656 ltac:(lia) K5 (Hn 6%nat ltac:(lia))) as K6.
  pose proof (mod_next_byte a b 72057594037927936 ltac:(lia) K6 (Hn 7%nat ltac:(lia))) as K7.
  change (72057594037927936 * 256) with 18446744073709551616 in K7.
  rewrite !Z.mod_small in K7; done.
Qed.

Lemma stream_id_input_split t a b c now :
  exists pre, stream_id_input t a b c now = pre ++ le_bytes8 c ++ le_bytes8 (u64 now).
Proof.
  unfold stream_id_input. generalize (le_bytes8 c ++ le_bytes8 (u64 now)). intros l.
  destruct (String.ltb b a); generalize (str_bytes t), (str_bytes "|"), (str_bytes a), (str_bytes b);
    intros lt lb la lb'.
  - exists (lt ++ lb ++ lb' ++ lb ++ la). by rewrite <- !app_assoc.
  - exists (lt ++ lb ++ la ++ lb ++ lb'). by rewrite <- !app_assoc.
Qed.

(** Equal hash inputs come from equal counter values, whatever the other
    arguments are: the counter sits at a fixed distance from the end. *)
Lemma stream_id_input_ctr t a b c now t' a' b' c' now' :
  0 <= c < 18446744073709551616 -> 0 <= c' < 18446744073709551616 ->
  stream_id_input t a b c now = stream_id_input t' a' b' c' now' -> c = c'.
Proof.
  intros Hc Hc'. destruct (stream_id_input_split t a b c now) as [p ->].
  destruct (stream_id_input_split t' a' b' c' now') as [p' ->]. intros He.
  apply app_inj_2 in He as [_ He]; [|done].
  apply app_inj_1 in He as [He _]; [|done]. by apply le_bytes8_inj.
Qed.

Lemma id_inputs_elem calls ctr x :
  0 <= ctr -> ctr + zlen calls < 18446744073709551616 -> x ∈ id_inputs calls ctr ->
  exists c t a b now, ctr < c <= ctr + zlen calls /\ x = stream_id_input t a b c now.
Proof.
  revert ctr. induction calls as [|[[[t a] b] now] calls IH]; intros ctr H0 Hb Hx.
  { by apply elem_of_nil in Hx. }
  pose proof (@zlen_cons id_call (t, a, b, now) calls) as Hz.
  pose proof (zlen_nonneg calls). rewrite Hz in *.
  simpl in Hx. unfold u64 in Hx. rewrite Z.mod_small in Hx by lia.
  apply elem_of_cons in Hx as [->|Hx].
  - exists (ctr + 1), t, a, b, now. split; [lia|done].
  - apply IH in Hx as (c & t' & a' & b' & now' & Hc & ->); [|lia|lia].
    exists c, t', a', b', now'. split; [lia|done].
Qed.

(** ** Lemmas on the hexadecimal rendering *)
Definition hex_value (c : ascii) : Z :=
  match c with
  | "0" => 0 | "1" => 1 | "2" => 2 | "3" => 3 | "4" => 4 | "5" => 5 | "6" => 6 | "7" => 7
  | "8" => 8 | "9" => 9 | "a" => 10 | "b" => 11 | "c" => 12 | "d" => 13 | "e" => 14
  | _ => 15
  end%char.

(** Reading the digits back, most significant first. *)
Definition parse_hex (s : string) : Z :=
  fold_left (fun acc c => acc * 16 + hex_value c) (String.list_ascii_of_string s) 0.

Lemma hex_value_digit d : 0 <= d < 16 -> hex_value (hex_digit d) = d.
Proof.
  intros Hd.
  assert (d = 0 \/ d = 1 \/ d = 2 \/ d = 3 \/ d = 4 \/ d = 5 \/ d = 6 \/ d = 7 \/ d = 8 \/
    d = 9 \/ d = 10 \/ d = 11 \/ d = 12 \/ d = 13 \/ d = 14 \/ d = 15) as Hc by lia.
  repeat destruct Hc as [->|Hc]; try reflexivity. by subst.
Qed.

Lemma nibble_val s i : 0 <= i -> hex_value (hex_digit (Z.land (Z.shiftr s i) 0xf)) = (s / 2 ^ i) mod 16.
Proof.
  intros. change 0xf with (Z.ones 4). rewrite Z.land_ones, Z.shiftr_div_pow2 by lia.
  apply hex_value_digit. apply Z.mod_pos_bound. lia.
Qed.

(** One more digit of a Horner evaluation. *)
Lemma horner_digit s i j :
  0 <= i -> j = i + 4 -> s / 2 ^ j * 16 + (s / 2 ^ i) mod 16 = s / 2 ^ i.
Proof.
  intros ? ->. rewrite Z.pow_add_r, <- Z.div_div by lia. change (2 ^ 4) with 16.
  pose proof (Z.div_mod (s / 2 ^ i) 16). lia.
Qed.

Lemma parse_hex_String s :
  0 <= s < 18446744073709551616 -> parse_hex (StreamID_String s) = s.
Proof.
  intros Hs. unfold parse_hex, StreamID_String.
  rewrite String.list_ascii_of_string_of_list_ascii.
  cbn [map fold_left]. rewrite !nibble_val by lia.
  assert (H64 : 0 * 16 + (s / 2 ^ 60) mod 16 = s / 2 ^ 60).
  { rewrite Z.mod_small; [lia|]. change (2 ^ 60) with 1152921504606846976.
    Z.div_mod_to_equations. lia. }
  rewrite H64. do 15 (rewrite horner_digit by lia).
  apply Z.div_1_r.
Qed.

(** ** Properties *)

(** C2. Resume loses nothing: in every reachable state of the two agents, when
    the sender retransmits from the position the receiver announces in its
    resume payload, either the retransmitted bytes complete what the receiver
    already got to exactly what was written, or [ErrBeforeRing] is reported;
    the latter only when more than the ring capacity is outstanding. *)
Theorem resume_exact (id1 id2 ringCap : Z) (ses : session) :
  0 < ringCap < 2305843009213693952 ->
  rtc session_step (new_session id1 id2 ringCap) ses ->
  let peer_ack := snd (ResumePayload (ses_rcv ses)) in
  match RetransmitFrom peer_ack (ses_snd ses) with
  | Ok gap => ses_in ses ++ gap = ses_out ses
  | Err ErrBeforeRing => ringCap < fst (ResumePayload (ses_snd ses)) - peer_ack
  end.
Proof.
  intros Hc Hr. destruct (session_reachable_inv id1 id2 ringCap ses Hc Hr)
    as (tail & rest & Hwf & Hmax & Hrep & Hsent & Hrecv & Hpre & Hack & Htail).
  simpl. unfold RetransmitFrom. rewrite (BytesFrom_rep _ _ _ _ Hrep), Hsent, Hrecv.
  zcase.
  - lia.
  - rewrite Hpre. unfold zlen. rewrite Nat2Z.id. by rewrite drop_app_length.
Qed.

(** Two bytes written, one of them delivered, nothing acknowledged. *)
Lemma resume_exact_witness :
  let ses := mkSession (OnWrite [Byte.x01; Byte.x02] (NewState 7 4)) (OnRead 1 (NewState 9 4))
               [Byte.x01; Byte.x02] [Byte.x01] in
  match RetransmitFrom (snd (ResumePayload (ses_rcv ses))) (ses_snd ses) with
  | Ok gap => ses_in ses ++ gap = ses_out ses
  | Err ErrBeforeRing => 4 < fst (ResumePayload (ses_snd ses)) - snd (ResumePayload (ses_rcv ses))
  end.
Proof.
  apply (resume_exact 7 9 4); [lia|].
  eapply rtc_l; [apply (step_write (new_session 7 9 4) [Byte.x01; Byte.x02]); vm_compute; discriminate|].
  eapply rtc_l; [apply (step_read _ [Byte.x01] [Byte.x02]); reflexivity|].
  apply rtc_refl.
Defined.

(** Counter discipline in every reachable state: the sender's [SentPos] is the
    ring's head, the acknowledged position never passes what the receiver
    consumed, which never passes what was sent, and the ring releases no byte
    the receiver has not consumed unless the ring overflowed. *)
Theorem session_counters (id1 id2 ringCap : Z) (ses : session) :
  0 < ringCap < 2305843009213693952 ->
  rtc session_step (new_session id1 id2 ringCap) ses ->
  Sent (ses_snd ses) = Head (st_Ring (ses_snd ses)) /\
  0 <= PeerAck (ses_snd ses) <= Received (ses_rcv ses) /\
  Received (ses_rcv ses) <= Sent (ses_snd ses) /\
  (Sent (ses_snd ses) - PeerAck (ses_snd ses) <= ringCap ->
   Tail (st_Ring (ses_snd ses)) <= Received (ses_rcv ses)).
Proof.
  intros Hc Hr. destruct (session_reachable_inv id1 id2 ringCap ses Hc Hr)
    as (tail & rest & Hwf & Hmax & Hrep & Hsent & Hrecv & Hpre & Hack & Htail).
  rewrite (ring_rep_tail _ _ _ Hrep), Hsent. destruct Hrep as (_ & Hh & _). unfold Head.
  rewrite Hh, Hrecv in *. rewrite Hpre, zlen_app in *. pose proof (zlen_nonneg rest).
  split_and!; lia.
Qed.

Lemma session_counters_witness :
  Received (NewState 9 4) <= Sent (NewState 7 4).
Proof.
  refine (proj1 (proj2 (proj2 (session_counters 7 9 4 (new_session 7 9 4) _ _)))).
  - lia.
  - apply rtc_refl.
Defined.

(** An acknowledgement is trusted: a peer that claims a position beyond what
    was sent empties the ring, and no later honest acknowledgement up to that
    position releases anything any more. *)
Theorem bogus_ack_disables_release (s : State) (hist : list byte) (tail bogus ack : Z) :
  ring_wf (st_Ring s) -> ring_rep (st_Ring s) hist tail -> is_i64 bogus ->
  PeerAck s < bogus -> zlen hist <= bogus -> ack <= bogus ->
  let s1 := OnCheckpointFromPeer bogus s in
  rb_buf (st_Ring s1) = [] /\
  forall p, OnCheckpointFromPeer ack (OnWrite p s1) = OnWrite p s1.
Proof.
  intros Hwf Hrep Hb Hlt Hle Hack s1. unfold s1, OnCheckpointFromPeer at 1.
  unfold PeerAck in Hlt. destruct (Z.ltb_spec (PeerAckPos (st_Counters s)) bogus); [|lia].
  split.
  - destruct (Discard_rep bogus _ hist tail Hwf Hrep Hb) as (_ & _ & Ht & Hbuf).
    simpl. rewrite Hbuf. apply drop_ge. unfold zlen in *. lia.
  - intros p. unfold OnCheckpointFromPeer at 2.
    assert (Hp : forall q, PeerAckPos (st_Counters (OnWrite p q)) = PeerAckPos (st_Counters q)).
    { intros q. unfold OnWrite. by zcase. }
    destruct (Z.ltb_spec (PeerAckPos (st_Counters s)) bogus); [|lia].
    unfold OnCheckpointFromPeer. rewrite !Hp. simpl.
    destruct (Z.ltb_spec (PeerAckPos (st_Counters s)) bogus); [|lia]. simpl.
    destruct (Z.ltb_spec bogus ack); [lia|done].
Qed.

Lemma bogus_ack_disables_release_witness :
  rb_buf (st_Ring (OnCheckpointFromPeer 1000 (OnWrite [Byte.x01] (NewState 1 4)))) = [] /\
  forall p, OnCheckpointFromPeer 900
      (OnWrite p (OnCheckpointFromPeer 1000 (OnWrite [Byte.x01] (NewState 1 4)))) =
    OnWrite p (OnCheckpointFromPeer 1000 (OnWrite [Byte.x01] (NewState 1 4))).
Proof.
  apply (bogus_ack_disables_release _ [Byte.x01] 0 1000 900);
    try (vm_compute; done); try (vm_compute; repeat split; done || discriminate).
Defined.

(** Stream ids: the agent pair is unordered (swapping the two agents feeds
    the same bytes to the hash), and over fewer than 2^64 calls in one process,
    whatever their arguments and clock readings, no two calls hash the same
    bytes: ids can collide only through the hash function itself. *)
Theorem stream_id_inputs_distinct (calls : list id_call) (t a b : string) (c now : Z) :
  stream_id_input t a b c now = stream_id_input t b a c now /\
  (zlen calls < 18446744073709551616 -> NoDup (id_inputs calls 0)).
Proof.
  split.
  { unfold stream_id_input. destruct (String.ltb b a) eqn:E1, (String.ltb a b) eqn:E2; try done.
    - unfold String.ltb in *. rewrite String.compare_antisym in E2. by destruct (b ?= a)%string.
    - replace b with a; [done|]. unfold String.ltb in *. rewrite String.compare_antisym in E2.
      destruct (b ?= a)%string eqn:E; try done. symmetry. by apply String.compare_eq_iff. }
  intros Hb. assert (Hg : forall ctr, 0 <= ctr -> ctr + zlen calls < 18446744073709551616 ->
    NoDup (id_inputs calls ctr)); [|apply Hg; lia].
  clear Hb. induction calls as [|[[[t' a'] b'] now'] calls IH]; intros ctr H0 Hz; [constructor|].
  pose proof (@zlen_cons id_call (t', a', b', now') calls) as Hl.
  pose proof (zlen_nonneg calls). rewrite Hl in Hz.
  simpl. unfold u64. rewrite Z.mod_small by lia. constructor; [|apply IH; lia].
  intros Hx. apply id_inputs_elem in Hx as (c' & t1 & a1 & b1 & now1 & Hc & He); [|lia|lia].
  apply stream_id_input_ctr in He; lia.
Qed.

(** The text form of a stream id is a sixteen-character string from which the
    id can be read back, so distinct ids have distinct texts. *)
Theorem StreamID_String_roundtrip (s : Z) :
  0 <= s < 18446744073709551616 ->
  String.length (StreamID_String s) = 16%nat /\ parse_hex (StreamID_String s) = s.
Proof. intros Hs. split; [done|by apply parse_hex_String]. Qed.

Lemma StreamID_String_roundtrip_witness :
  String.length (StreamID_String 0xdeadbeef) = 16%nat /\
  parse_hex (StreamID_String 0xdeadbeef) = 0xdeadbeef.
Proof. apply StreamID_String_roundtrip. lia. Defined.
