(* ===== verification/Store.v ===== *)
(** * The controller's persistence layer: pkg/registry/store/sqlite.go

    The five tables of [Schema] are lists of rows in rowid order; each method of
    [Store] is a state-passing function over them that evaluates the SQL text
    of the source: conflict targets, [UNIQUE] and [CHECK] constraints, joins,
    filters, [ORDER BY] and [LIMIT].

    SQLite itself is not part of the repository.  What a statement may do
    besides its SQL meaning is explicit: every statement takes the fault the
    driver reports for it, if any (a cancelled context, an I/O error), and a
    faulty statement changes nothing.  The order in which [ORDER BY] returns
    rows of equal key is unspecified, so sorting is the class [OrderBy], of
    which only the documented laws are used. *)

From Stdlib Require Import ZArith Lia Sorted Ascii.
From stdpp Require Import base tactics list strings.
From S2P Require Import Prelude.

Local Open Scope Z_scope.

(** ** What the queries assume of the SQL engine *)
Class OrderBy := order_by : forall {A : Type}, (A -> A -> bool) -> list A -> list A.

Class OrderByLaws `{OrderBy} := {
  order_by_perm : forall A (leb : A -> A -> bool) l, Permutation (order_by leb l) l;
  order_by_sorted : forall A (leb : A -> A -> bool) l,
    (forall x y, leb x y = true \/ leb y x = true) ->
    (forall x y z, leb x y = true -> leb y z = true -> leb x z = true) ->
    StronglySorted (fun x y => leb x y = true) (order_by leb l)
}.

(** A stable sort is one such engine. *)
#[global] Instance stable_order_by : OrderBy := fun A leb l => stable_sort leb l.

#[global] Instance stable_order_by_laws : OrderByLaws.
Proof.
  split.
  - intros. apply stable_sort_perm.
  - intros. by apply stable_sort_sorted.
Qed.

Inductive sql_err :=
| ErrUnique (cols : string)
| ErrCheck (col : string)
| ErrDriver (code : Z).

Inductive store_err :=
| ErrNotFound
| ErrWrap (prefix : string) (e : sql_err)
| ErrRaw (e : sql_err).

#[global] Instance sql_err_eq_dec : EqDecision sql_err.
Proof. solve_decision. Defined.
#[global] Instance store_err_eq_dec : EqDecision store_err.
Proof. solve_decision. Defined.

(** ** The tables *)
Record agent_row := mkAgent {
  ag_uri : string;
  ag_tenant : string;
  ag_last_seen_unix_ms : Z;
  ag_metadata : option string
}.

Record service_row := mkServiceRow {
  sv_id : string;
  sv_tenant : string;
  sv_name : string;
  sv_agent_uri : string;
  sv_relay_id : string;
  sv_local_addr : option string;
  sv_health : string;
  sv_updated_at_unix_ms : Z
}.

Record relay_row := mkRelay {
  rl_id : string;
  rl_region : option string;
  rl_endpoint : string;
  rl_last_heartbeat_unix_ms : Z
}.

(** The Go struct [Service]. *)
Record Service := mkService {
  ID : string;
  Tenant : string;
  Name : string;
  AgentURI : string;
  RelayID : string;
  RelayEndpoint : string;
  LocalAddr : string;
  Health : string;
  UpdatedAtUnixMs : Z
}.

(** The Go struct [Policy], also the row of the policies table. *)
Record Policy := mkPolicy {
  p_ID : string;
  p_Tenant : string;
  p_CallerPattern : string;
  p_TargetPattern : string;
  p_MethodPattern : string;
  p_Decision : string;
  p_ExpiresUnixMs : Z;
  p_CreatedAtUnixMs : Z;
  p_P2PMode : string;
  p_RelayMode : string
}.

(** The Go struct [AuditEvent], also the row of the audit_events table. *)
Record AuditEvent := mkAudit {
  a_TsUnixMs : Z;
  a_Tenant : string;
  a_Caller : string;
  a_Target : string;
  a_Method : string;
  a_Decision : string;
  a_Reason : string;
  a_StreamID : string
}.

Record db := mkDb {
  db_agents : list agent_row;
  db_services : list service_row;
  db_relays : list relay_row;
  db_policies : list Policy;
  db_audit : list AuditEvent
}.

Definition empty_db : db := mkDb [] [] [] [] [].

(** The error the driver reports for a statement, if any. *)
Definition fault := option sql_err.

(** [Open]: [fopen] and [fschema] are the driver's errors for opening and for the
    schema, [file] the tables found under the DSN (none for a new file or a database
    in memory).  The schema creates what is missing and leaves existing tables alone. *)
Definition Open (fopen fschema : fault) (file : option db) : res store_err db :=
  match fopen with
  | Some e => Err (ErrWrap "store: open" e)
  | None =>
    match fschema with
    | Some e => Err (ErrWrap "store: apply schema" e)
    | None => Ok (default empty_db file)
    end
  end.

(** ** Statements

    [exec] runs a statement that changes the database, unless the driver
    reports a fault or the statement violates a constraint; then the database
    is unchanged. *)

Definition exec {A} (f : fault) (run : db -> res sql_err (A * db)) (d : db)
  : res sql_err A * db :=
  match f with
  | Some e => (Err e, d)
  | None =>
    match run d with
    | Ok (a, d') => (Ok a, d')
    | Err e => (Err e, d)
    end
  end.

Definition wrap {A} (prefix : string) (r : res sql_err A) : res store_err A :=
  match r with
  | Ok a => Ok a
  | Err e => Err (ErrWrap prefix e)
  end.

(** [upsert key upd row l]: the row of [l] with the key of [row] is replaced in
    place, or [row] is appended. *)
Definition upsert {A K} `{EqDecision K} (key : A -> K) (upd : A -> A -> A) (row : A)
    (l : list A) : list A :=
  if existsb (fun r => bool_decide (key r = key row)) l
  then map (fun r => if decide (key r = key row) then upd r row else r) l
  else l ++ [row].

(** ** Agents and relays *)
Definition upsert_agent_row (old new : agent_row) : agent_row :=
  mkAgent (ag_uri old) (ag_tenant new) (ag_last_seen_unix_ms new) (ag_metadata old).

Definition UpsertAgent (f : fault) (now : Z) (tenant agentURI : string) (d : db)
  : res store_err unit * db :=
  let '(r, d') := exec f (fun d =>
    Ok (tt, mkDb (upsert ag_uri upsert_agent_row (mkAgent agentURI tenant now None) (db_agents d))
              (db_services d) (db_relays d) (db_policies d) (db_audit d))) d in
  (wrap "store: upsert agent" r, d').

Definition upsert_relay_row (old new : relay_row) : relay_row :=
  mkRelay (rl_id old) (rl_region new) (rl_endpoint new) (rl_last_heartbeat_unix_ms new).

Definition UpsertRelay (f : fault) (now : Z) (id region endpoint : string) (d : db)
  : res store_err unit * db :=
  let '(r, d') := exec f (fun d =>
    Ok (tt, mkDb (db_agents d) (db_services d)
              (upsert rl_id upsert_relay_row (mkRelay id (Some region) endpoint now) (db_relays d))
              (db_policies d) (db_audit d))) d in
  (wrap "store: upsert relay" r, d').

(** ** Services *)
Definition with_services (l : list service_row) (d : db) : db :=
  mkDb (db_agents d) l (db_relays d) (db_policies d) (db_audit d).

Definition sv_key (r : service_row) : string * string := (sv_tenant r, sv_name r).

Definition update_service_row (old new : service_row) : service_row :=
  mkServiceRow (sv_id old) (sv_tenant old) (sv_name old) (sv_agent_uri new)
    (sv_relay_id new) (sv_local_addr new) "healthy" (sv_updated_at_unix_ms new).

(** [INSERT ... ON CONFLICT(tenant, name) DO UPDATE]: the conflict target is
    checked first; any other uniqueness violation (here the primary key) is an
    error. *)
Definition insert_service (row : service_row) (d : db) : res sql_err (unit * db) :=
  let l := db_services d in
  if existsb (fun r => bool_decide (sv_key r = sv_key row)) l then
    Ok (tt, with_services (upsert sv_key update_service_row row l) d)
  else if existsb (fun r => String.eqb (sv_id r) (sv_id row)) l then
    Err (ErrUnique "services.id")
  else Ok (tt, with_services (upsert sv_key update_service_row row l) d).

Definition service_id (svc : Service) : string :=
  if String.eqb (ID svc) "" then (Tenant svc ++ "/" ++ Name svc)%string else ID svc.

Definition RegisterService (f : fault) (now : Z) (svc : Service) (d : db)
  : res store_err string * db :=
  let id := service_id svc in
  let '(r, d') := exec f (insert_service
    (mkServiceRow id (Tenant svc) (Name svc) (AgentURI svc) (RelayID svc)
       (Some (LocalAddr svc)) "healthy" now)) d in
  match r with
  | Ok _ => (Ok id, d')
  | Err e => (Err (ErrWrap "store: register service" e), d')
  end.

Definition coalesce (o : option string) : string := default ""%string o.

Definition find_relays (id : string) (d : db) : list relay_row :=
  List.filter (fun r => String.eqb (rl_id r) id) (db_relays d).

(** [services s LEFT JOIN relay_instances r ON r.id = s.relay_id]. *)
Definition left_join (l : list service_row) (d : db) : list (service_row * option relay_row) :=
  flat_map (fun s =>
    match find_relays (sv_relay_id s) d with
    | [] => [(s, None)]
    | rs => map (fun r => (s, Some r)) rs
    end) l.

(** [CASE WHEN ? != '' AND r.region = ? THEN 0 ELSE 1 END]; a NULL region
    compares as not equal. *)
Definition region_rank (callerRegion : string) (r : option relay_row) : Z :=
  match r with
  | Some r =>
    match rl_region r with
    | Some g => if negb (String.eqb callerRegion "") && String.eqb g callerRegion then 0 else 1
    | None => 1
    end
  | None => 1
  end.

Definition resolve_leb (callerRegion : string) (x y : service_row * option relay_row) : bool :=
  let rx := region_rank callerRegion (snd x) in
  let ry := region_rank callerRegion (snd y) in
  (rx <? ry) || ((rx =? ry) &&
    (sv_updated_at_unix_ms (fst y) <=? sv_updated_at_unix_ms (fst x))).

Definition scan_service (s : service_row) (endpoint : string) : Service :=
  mkService (sv_id s) (sv_tenant s) (sv_name s) (sv_agent_uri s) (sv_relay_id s) endpoint
    (coalesce (sv_local_addr s)) (sv_health s) (sv_updated_at_unix_ms s).

Definition ResolveService `{OrderBy} (f : fault) (tenant name callerRegion : string) (d : db)
  : res store_err Service :=
  match f with
  | Some e => Err (ErrWrap "store: resolve" e)
  | None =>
    let rows := List.filter (fun x => String.eqb (sv_tenant (fst x)) tenant &&
                                      String.eqb (sv_name (fst x)) name)
                  (left_join (db_services d) d) in
    match take 1 (order_by (resolve_leb callerRegion) rows) with
    | (s, r) :: _ => Ok (scan_service s (coalesce (rl_endpoint <$> r)))
    | [] => Err ErrNotFound
    end
  end.

Definition dereg_match (tenant agentURI relayID : string) (s : service_row) : bool :=
  String.eqb (sv_tenant s) tenant && String.eqb (sv_agent_uri s) agentURI &&
  String.eqb (sv_relay_id s) relayID.

(** The two statements of [DeregisterAgent]: no transaction encloses them. *)
Definition dereg_select (fq frows : fault) (tenant agentURI relayID : string) (d : db)
  : res store_err (list Service) :=
  match fq with
  | Some e => Err (ErrWrap "store: list before deregister" e)
  | None =>
    match frows with
    | Some e => Err (ErrRaw e)
    | None => Ok (map (fun s => scan_service s "")
                    (List.filter (dereg_match tenant agentURI relayID) (db_services d)))
    end
  end.

Definition dereg_delete (f : fault) (tenant agentURI relayID : string) (d : db)
  : res sql_err unit * db :=
  exec f (fun d => Ok (tt, with_services
    (List.filter (fun s => negb (dereg_match tenant agentURI relayID s)) (db_services d)) d)) d.

Definition DeregisterAgent (fq frows fd : fault) (tenant agentURI relayID : string) (d : db)
  : res store_err (list Service) * db :=
  match dereg_select fq frows tenant agentURI relayID d with
  | Err e => (Err e, d)
  | Ok removed =>
    let '(r, d') := dereg_delete fd tenant agentURI relayID d in
    match r with
    | Err e => (Err (ErrWrap "store: delete services" e), d')
    | Ok _ => (Ok removed, d')
    end
  end.

Definition CountServices (f : fault) (d : db) : res store_err Z :=
  match f with
  | Some e => Err (ErrRaw e)
  | None => Ok (zlen (db_services d))
  end.

(** ** Policies *)
Definition with_policies (l : list Policy) (d : db) : db :=
  mkDb (db_agents d) (db_services d) (db_relays d) l (db_audit d).

Definition one_of (s : string) (l : list string) : bool := existsb (String.eqb s) l.

Definition policy_checks (p : Policy) : option string :=
  if negb (one_of (p_Decision p) ["allow"; "deny"]) then Some "decision"%string
  else if negb (one_of (p_P2PMode p) ["allowed"; "forbidden"; "required"]) then Some "p2p_mode"%string
  else if negb (one_of (p_RelayMode p) ["splice"; "forward"]) then Some "relay_mode"%string
  else None.

Definition insert_policy (p : Policy) (d : db) : res sql_err (unit * db) :=
  match policy_checks p with
  | Some col => Err (ErrCheck col)
  | None =>
    if existsb (fun q => String.eqb (p_ID q) (p_ID p)) (db_policies d)
    then Err (ErrUnique "policies.id")
    else Ok (tt, with_policies (db_policies d ++ [p]) d)
  end.

(** The defaults [AddPolicy] fills in before the insert. *)
Definition policy_defaults (now : Z) (p : Policy) : Policy :=
  mkPolicy (p_ID p) (p_Tenant p) (p_CallerPattern p) (p_TargetPattern p) (p_MethodPattern p)
    (p_Decision p) (p_ExpiresUnixMs p)
    (if p_CreatedAtUnixMs p =? 0 then now else p_CreatedAtUnixMs p)
    (if String.eqb (p_P2PMode p) "" then "allowed" else p_P2PMode p)%string
    (if String.eqb (p_RelayMode p) "" then "splice" else p_RelayMode p)%string.

Definition AddPolicy (f : fault) (now : Z) (p : Policy) (d : db) : res store_err unit * db :=
  let '(r, d') := exec f (insert_policy (policy_defaults now p)) d in
  (wrap "store: add policy" r, d').

Definition policy_match (tenant id : string) (p : Policy) : bool :=
  String.eqb (p_Tenant p) tenant && String.eqb (p_ID p) id.

(** [n > 0] for the number [n] of deleted rows. *)
Definition RemovePolicy (f : fault) (tenant id : string) (d : db) : res store_err bool * db :=
  let '(r, d') := exec f (fun d =>
    let n := zlen (List.filter (policy_match tenant id) (db_policies d)) in
    Ok (0 <? n, with_policies
      (List.filter (fun p => negb (policy_match tenant id p)) (db_policies d)) d)) d in
  (wrap "store: remove policy" r, d').

Definition created_leb (p q : Policy) : bool := p_CreatedAtUnixMs p <=? p_CreatedAtUnixMs q.

Definition ListPolicies `{OrderBy} (fq frows : fault) (tenant : string) (d : db)
  : res store_err (list Policy) :=
  match fq with
  | Some e => Err (ErrWrap "store: list policies" e)
  | None =>
    match frows with
    | Some e => Err (ErrRaw e)
    | None => Ok (order_by created_leb
                    (List.filter (fun p => String.eqb (p_Tenant p) tenant) (db_policies d)))
    end
  end.

(** ** Audit events *)
Definition RecordAudit (f : fault) (now : Z) (ev : AuditEvent) (d : db)
  : res store_err unit * db :=
  let ev' := mkAudit (if a_TsUnixMs ev =? 0 then now else a_TsUnixMs ev) (a_Tenant ev)
    (a_Caller ev) (a_Target ev) (a_Method ev) (a_Decision ev) (a_Reason ev) (a_StreamID ev) in
  let '(r, d') := exec f (fun d =>
    Ok (tt, mkDb (db_agents d) (db_services d) (db_relays d) (db_policies d)
              (db_audit d ++ [ev']))) d in
  (wrap "store: record audit" r, d').

(** The [WHERE] clause [QueryAudit] assembles. *)
Definition audit_match (tenant caller target : string) (sinceUnixMs : Z) (e : AuditEvent) : bool :=
  String.eqb (a_Tenant e) tenant &&
  (String.eqb caller "" || String.eqb (a_Caller e) caller) &&
  (String.eqb target "" || String.eqb (a_Target e) target) &&
  (negb (0 <? sinceUnixMs) || (sinceUnixMs <=? a_TsUnixMs e)).

Definition newer_leb (x y : AuditEvent) : bool := a_TsUnixMs y <=? a_TsUnixMs x.

Definition QueryAudit `{OrderBy} (fq frows : fault) (tenant caller target : string)
    (sinceUnixMs limit : Z) (d : db) : res store_err (list AuditEvent) :=
  match fq with
  | Some e => Err (ErrWrap "store: query audit" e)
  | None =>
    match frows with
    | Some e => Err (ErrRaw e)
    | None =>
      let rows := order_by newer_leb
        (List.filter (audit_match tenant caller target sinceUnixMs) (db_audit d)) in
      Ok (if 0 <? limit then take (Z.to_nat limit) rows else rows)
    end
  end.

(** ** Sequences of operations and the schema invariant *)
Inductive db_op :=
| OpUpsertAgent (f : fault) (now : Z) (tenant agentURI : string)
| OpUpsertRelay (f : fault) (now : Z) (id region endpoint : string)
| OpRegister (f : fault) (now : Z) (svc : Service)
| OpDeregister (fq frows fd : fault) (tenant agentURI relayID : string)
| OpDeregDelete (f : fault) (tenant agentURI relayID : string)
| OpAddPolicy (f : fault) (now : Z) (p : Policy)
| OpRemovePolicy (f : fault) (tenant id : string)
| OpRecordAudit (f : fault) (now : Z) (ev : AuditEvent).

Definition db_step (d : db) (op : db_op) : db :=
  match op with
  | OpUpsertAgent f now tenant uri => snd (UpsertAgent f now tenant uri d)
  | OpUpsertRelay f now id region endpoint => snd (UpsertRelay f now id region endpoint d)
  | OpRegister f now svc => snd (RegisterService f now svc d)
  | OpDeregister fq frows fd tenant uri relay => snd (DeregisterAgent fq frows fd tenant uri relay d)
  | OpDeregDelete f tenant uri relay => snd (dereg_delete f tenant uri relay d)
  | OpAddPolicy f now p => snd (AddPolicy f now p d)
  | OpRemovePolicy f tenant id => snd (RemovePolicy f tenant id d)
  | OpRecordAudit f now ev => snd (RecordAudit f now ev d)
  end.

Definition db_run (ops : list db_op) (d : db) : db := fold_left db_step ops d.

(** The uniqueness and check constraints of [Schema]. *)
Record db_wf (d : db) : Prop := {
  wf_agents : NoDup (ag_uri <$> db_agents d);
  wf_service_ids : NoDup (sv_id <$> db_services d);
  wf_service_keys : NoDup (sv_key <$> db_services d);
  wf_relays : NoDup (rl_id <$> db_relays d);
  wf_policies : NoDup (p_ID <$> db_policies d);
  wf_policy_checks : Forall (fun p => policy_checks p = None) (db_policies d)
}.

(** ** Lemmas on rows *)
Section Rows.
Context {A K : Type} `{EqDecision K} (key : A -> K).

Lemma existsb_key (row : A) (l : list A) :
  existsb (fun r => bool_decide (key r = key row)) l = true <-> key row ∈ key <$> l.
Proof.
  rewrite existsb_exists, list_elem_of_fmap. split.
  - intros (r & Hin & Hk%bool_decide_eq_true). exists r. split; [done|by apply list_elem_of_In].
  - intros (r & Hk & Hin). exists r. split; [by apply list_elem_of_In|by apply bool_decide_eq_true].
Qed.

(** Where the update keeps a projection, the projected column only grows. *)
Lemma upsert_proj {B} (proj : A -> B) upd row l :
  (forall old new, proj (upd old new) = proj old) ->
  proj <$> upsert key upd row l =
    if bool_decide (key row ∈ key <$> l) then proj <$> l else (proj <$> l) ++ [proj row].
Proof.
  intros Hu. unfold upsert. destruct (existsb _ l) eqn:E.
  - apply existsb_key in E. rewrite bool_decide_eq_true_2 by done.
    rewrite <- list_fmap_compose. apply list_fmap_ext. intros i x _. simpl.
    case_decide; [apply Hu|done].
  - rewrite bool_decide_eq_false_2; [by rewrite fmap_app|].
    rewrite <- existsb_key, E. done.
Qed.

Lemma NoDup_snoc {B} (x : B) l : NoDup l -> x ∉ l -> NoDup (l ++ [x]).
Proof.
  intros Hl Hx. apply NoDup_app. split; [done|]. split; [|apply NoDup_singleton].
  intros y Hy ->%list_elem_of_singleton. done.
Qed.

Lemma upsert_NoDup upd row l :
  (forall old new, key (upd old new) = key old) ->
  NoDup (key <$> l) -> NoDup (key <$> upsert key upd row l).
Proof.
  intros Hu Hl. rewrite upsert_proj by done. case_bool_decide; [done|by apply NoDup_snoc].
Qed.

Lemma filter_NoDup {B} (proj : A -> B) (P : A -> bool) (l : list A) :
  NoDup (proj <$> l) -> NoDup (proj <$> List.filter P l).
Proof.
  induction l as [|x l IH]; [done|]. rewrite fmap_cons, NoDup_cons. intros [Hx Hl]. simpl.
  destruct (P x); [|by apply IH]. rewrite fmap_cons, NoDup_cons. split; [|by apply IH].
  intros (y & Hy & Hin)%list_elem_of_fmap. apply Hx. rewrite Hy. apply list_elem_of_fmap_2.
  apply list_elem_of_In, filter_In in Hin as [Hin _]. by apply list_elem_of_In.
Qed.

(** A key selects at most one row. *)
Lemma key_filter_le1 (P : A -> bool) (k : K) (l : list A) :
  (forall x, P x = true -> key x = k) -> NoDup (key <$> l) ->
  List.filter P l = [] \/ exists x, List.filter P l = [x] /\ x ∈ l /\ P x = true.
Proof.
  intros HP. induction l as [|x l IH]; [by left|]. rewrite fmap_cons, NoDup_cons.
  intros [Hx Hl]. simpl. destruct (P x) eqn:E.
  - right. exists x. split; [|split; [by left|done]]. f_equal.
    destruct (IH Hl) as [->|(y & _ & Hin & Py)]; [done|].
    exfalso. apply Hx. rewrite (HP x E), <- (HP y Py). by apply list_elem_of_fmap_2.
  - destruct (IH Hl) as [->|(y & -> & Hin & Py)]; [by left|].
    right. exists y. split; [done|]. split; [by right|done].
Qed.

(** Selecting by a key after an upsert. *)
Lemma upsert_filter_same upd row l (P : A -> bool) :
  (forall x, P x = true <-> key x = key row) ->
  (forall old new, key (upd old new) = key old) -> NoDup (key <$> l) ->
  exists r, List.filter P (upsert key upd row l) = [r] /\
    (r = row \/ exists old, old ∈ l /\ key old = key row /\ r = upd old row).
Proof.
  intros HP Hu Hl.
  assert (Hnd := upsert_NoDup upd row l Hu Hl).
  assert (Hin : exists r, r ∈ upsert key upd row l /\ key r = key row /\
    (r = row \/ exists old, old ∈ l /\ key old = key row /\ r = upd old row)).
  { unfold upsert. destruct (existsb _ l) eqn:E.
    - apply existsb_key, list_elem_of_fmap in E as (old & Hk & Hin).
      exists (upd old row). split; [|split; [by rewrite Hu|right; by exists old]].
      apply list_elem_of_fmap. exists old. split; [|done]. simpl. by rewrite decide_True.
    - exists row. split; [|split; [done|by left]]. apply elem_of_app. right. by apply list_elem_of_singleton. }
  destruct Hin as (r & Hin & Hk & Hr). exists r. split; [|done].
  destruct (key_filter_le1 P (key row) _ ltac:(intros; by apply HP) Hnd) as [He|(x & He & Hx & Px)].
  - exfalso. assert (r ∈ List.filter P (upsert key upd row l)) as Hf.
    { apply list_elem_of_In, filter_In. split; [by apply list_elem_of_In|by apply HP]. }
    rewrite He in Hf. by apply elem_of_nil in Hf.
  - rewrite He. f_equal. assert (r ∈ List.filter P (upsert key upd row l)) as Hf.
    { apply list_elem_of_In, filter_In. split; [by apply list_elem_of_In|by apply HP]. }
    rewrite He in Hf. symmetry. by apply list_elem_of_singleton.
Qed.

Lemma upsert_filter_other upd row l (P : A -> bool) :
  (forall x, key x = key row -> P x = false) ->
  (forall old new, key (upd old new) = key old) ->
  List.filter P (upsert key upd row l) = List.filter P l.
Proof.
  intros HP Hu. unfold upsert. destruct (existsb _ l) eqn:_E.
  - clear _E. induction l as [|x l IH]; [done|]. simpl. rewrite IH. case_decide as Hk; [|done].
    rewrite (HP x Hk), HP; [done|]. by rewrite Hu.
  - rewrite List.filter_app. simpl. rewrite HP by done. by rewrite app_nil_r.
Qed.
End Rows.

(** ** Lemmas: the invariant is kept *)
Lemma exec_cases {A} (f : fault) (run : db -> res sql_err (A * db)) (d : db) (P : db -> Prop) :
  P d -> (forall a d', run d = Ok (a, d') -> P d') -> P (snd (exec f run d)).
Proof.
  intros Hd Hrun. unfold exec. destruct f; [done|].
  destruct (run d) as [[a d']|e] eqn:E; [|done]. simpl. by eapply Hrun.
Qed.

Lemma insert_service_wf row d a d' :
  db_wf d -> insert_service row d = Ok (a, d') -> db_wf d'.
Proof.
  intros [Ha Hi Hk Hr Hp Hc]. unfold insert_service.
  assert (Hwf : forall l, NoDup (sv_id <$> l) -> NoDup (sv_key <$> l) -> db_wf (with_services l d))
    by (intros; by split).
  assert (Hkeep : NoDup (sv_key <$> upsert sv_key update_service_row row (db_services d)))
    by (by apply upsert_NoDup).
  destruct (existsb _ _) eqn:E; [|destruct (existsb (fun r => (sv_id r =? _)%string) _) eqn:E2];
    intros; res_inv; simplify_eq; apply Hwf; try done; rewrite upsert_proj by done.
  - apply existsb_key in E. by rewrite bool_decide_eq_true_2.
  - rewrite bool_decide_eq_false_2 by (rewrite <- existsb_key, E; done).
    apply NoDup_snoc; [done|]. intros (s & Hs & Hin)%list_elem_of_fmap.
    assert (existsb (fun r => (sv_id r =? sv_id row)%string) (db_services d) = true); [|congruence].
    apply existsb_exists. exists s. split; [by apply list_elem_of_In|]. apply String.eqb_eq. done.
Qed.

Lemma insert_policy_wf p d a d' : db_wf d -> insert_policy p d = Ok (a, d') -> db_wf d'.
Proof.
  intros [Ha Hi Hk Hr Hp Hc]. unfold insert_policy.
  destruct (policy_checks p) eqn:Ec; [done|].
  destruct (existsb _ _) eqn:E; intros; res_inv; simplify_eq. split; simpl; try done.
  - rewrite fmap_app. apply NoDup_snoc; [done|].
    intros (s & Hs & Hin)%list_elem_of_fmap.
    assert (existsb (fun q => (p_ID q =? p_ID p)%string) (db_policies d) = true); [|congruence].
    apply existsb_exists. exists s. split; [by apply list_elem_of_In|]. by apply String.eqb_eq.
  - apply Forall_app. split; [done|]. by constructor.
Qed.

Lemma filter_services_wf P d :
  db_wf d -> db_wf (with_services (List.filter P (db_services d)) d).
Proof. intros [Ha Hi Hk Hr Hp Hc]. by split; simpl; try apply filter_NoDup. Qed.

Lemma filter_policies_wf P d :
  db_wf d -> db_wf (with_policies (List.filter P (db_policies d)) d).
Proof.
  intros [Ha Hi Hk Hr Hp Hc]. split; simpl; try done; [by apply filter_NoDup|].
  rewrite Forall_forall in *. intros p Hin. apply Hc.
  apply list_elem_of_In, filter_In in Hin as [Hin _]. by apply list_elem_of_In.
Qed.

Lemma dereg_delete_wf f t a r d : db_wf d -> db_wf (snd (dereg_delete f t a r d)).
Proof.
  intros Hd. apply (exec_cases f _ d db_wf); [done|]. intros; simplify_eq/=. by apply filter_services_wf.
Qed.

(** [snd_exec] moves the state of an operation to the state of its statement. *)
Ltac snd_exec :=
  match goal with
  | |- context [let '(r, d') := exec ?f ?run ?d in _] =>
    let H := fresh "Hex" in
    pose proof (exec_cases f run d db_wf) as H; destruct (exec f run d) as [? ?] eqn:?; simpl in *
  end.

Lemma db_step_wf d op : db_wf d -> db_wf (db_step d op).
Proof.
  intros Hd. destruct op; simpl; unfold UpsertAgent, UpsertRelay, RegisterService,
    AddPolicy, RemovePolicy, RecordAudit, DeregisterAgent; try snd_exec.
  - apply Hex; [done|]. intros; simplify_eq. destruct Hd. split; simpl; try done. by apply upsert_NoDup.
  - apply Hex; [done|]. intros; simplify_eq. destruct Hd. split; simpl; try done. by apply upsert_NoDup.
  - match goal with |- db_wf (snd (match ?r with _ => _ end)) => destruct r end; simpl;
      (apply Hex; [done|]; intros; by eapply insert_service_wf).
  - destruct (dereg_select fq frows tenant agentURI relayID d); [|done].
    pose proof (dereg_delete_wf fd tenant agentURI relayID d Hd).
    by destruct (dereg_delete fd tenant agentURI relayID d) as [[] ?].
  - by apply dereg_delete_wf.
  - apply Hex; [done|]. intros. by eapply insert_policy_wf.
  - apply Hex; [done|]. intros; simplify_eq. by apply filter_policies_wf.
  - apply Hex; [done|]. intros; simplify_eq. by destruct Hd.
Qed.

Lemma db_run_keeps_wf ops d : db_wf d -> db_wf (db_run ops d).
Proof. revert d. induction ops; intros d Hd; [done|]. apply IHops, db_step_wf, Hd. Qed.

Lemma empty_db_wf : db_wf empty_db.
Proof. split; simpl; constructor. Qed.

(** ** Resolution against an abstract specification

    With the constraints of the schema, [(tenant, name)] determines the row:
    the [ORDER BY] and the [LIMIT] of the query have nothing to choose from. *)
Definition service_match (tenant name : string) (s : service_row) : bool :=
  String.eqb (sv_tenant s) tenant && String.eqb (sv_name s) name.

Definition resolve_spec (tenant name : string) (d : db) : res store_err Service :=
  match List.filter (service_match tenant name) (db_services d) with
  | s :: _ => Ok (scan_service s (coalesce (rl_endpoint <$> head (find_relays (sv_relay_id s) d))))
  | [] => Err ErrNotFound
  end.

Lemma service_match_key t n s : service_match t n s = true <-> sv_key s = (t, n).
Proof.
  unfold service_match, sv_key. rewrite andb_true_iff, !String.eqb_eq. split.
  - by intros [-> ->].
  - by intros [= -> ->].
Qed.

Lemma left_join_filter P l d :
  List.filter (fun x => P (fst x)) (left_join l d) = left_join (List.filter P l) d.
Proof.
  unfold left_join. induction l as [|s l IH]; [done|]. cbn [flat_map]. rewrite List.filter_app, IH.
  set (js := match find_relays _ d with [] => _ | _ => _ end).
  assert (Hjs : Forall (fun x => fst x = s) js).
  { subst js. destruct (find_relays (sv_relay_id s) d); [by repeat constructor|].
    apply Forall_fmap, Forall_true. done. }
  assert (Hf : List.filter (fun x => P (fst x)) js = if P s then js else []).
  { clearbody js. induction Hjs as [|x js Hx _ IHj]; simpl; [by destruct (P s)|].
    rewrite Hx, IHj. by destruct (P s). }
  rewrite Hf. cbn [List.filter]. by destruct (P s).
Qed.

Lemma find_relays_le1 id d : db_wf d ->
  find_relays id d = [] \/ exists r, find_relays id d = [r].
Proof.
  intros Hd. destruct (key_filter_le1 rl_id (fun r => (rl_id r =? id)%string) id (db_relays d))
    as [He|(r & He & _)]; [|apply Hd|by left|right; by exists r].
  intros x. by rewrite String.eqb_eq.
Qed.

Lemma lookup_service_le1 t n d : db_wf d ->
  List.filter (service_match t n) (db_services d) = [] \/
  exists s, List.filter (service_match t n) (db_services d) = [s].
Proof.
  intros Hd. destruct (key_filter_le1 sv_key (service_match t n) (t, n) (db_services d))
    as [He|(s & He & _)]; [|apply Hd|by left|right; by exists s].
  intros x. by rewrite service_match_key.
Qed.

Lemma order_by_nil `{OrderByLaws} {A} (leb : A -> A -> bool) : order_by leb [] = [].
Proof. apply Permutation_nil. symmetry. apply order_by_perm. Qed.

Lemma order_by_one `{OrderByLaws} {A} (leb : A -> A -> bool) x : order_by leb [x] = [x].
Proof. apply Permutation_length_1_inv. symmetry. apply order_by_perm. Qed.

Lemma ResolveService_spec `{OrderByLaws} t n region d :
  db_wf d -> ResolveService None t n region d = resolve_spec t n d.
Proof.
  intros Hd. unfold ResolveService, resolve_spec.
  rewrite (left_join_filter (service_match t n)).
  destruct (lookup_service_le1 t n d Hd) as [->|(s & ->)].
  - unfold left_join. simpl. by rewrite order_by_nil.
  - unfold left_join. simpl. rewrite app_nil_r.
    destruct (find_relays_le1 (sv_relay_id s) d Hd) as [->|(r & ->)]; simpl;
      by rewrite order_by_one.
Qed.

Lemma resolve_spec_ext t n d d' :
  List.filter (service_match t n) (db_services d) =
    List.filter (service_match t n) (db_services d') ->
  db_relays d = db_relays d' -> resolve_spec t n d = resolve_spec t n d'.
Proof. intros H1 H2. unfold resolve_spec, find_relays. by rewrite H1, H2. Qed.

(** ** What a registration does *)
Definition new_row (now : Z) (svc : Service) : service_row :=
  mkServiceRow (service_id svc) (Tenant svc) (Name svc) (AgentURI svc) (RelayID svc)
    (Some (LocalAddr svc)) "healthy" now.

Lemma RegisterService_ok f now svc d id d' :
  RegisterService f now svc d = (Ok id, d') ->
  id = service_id svc /\
  d' = with_services (upsert sv_key update_service_row (new_row now svc) (db_services d)) d.
Proof.
  unfold RegisterService, exec. destruct f; [done|]. unfold insert_service.
  fold (new_row now svc). repeat case_match; intros; simplify_eq; done.
Qed.

Lemma RegisterService_wf f now svc d r d' :
  db_wf d -> RegisterService f now svc d = (r, d') -> db_wf d'.
Proof.
  intros Hd E. pose proof (db_step_wf d (OpRegister f now svc) Hd) as Hw. simpl in Hw.
  by rewrite E in Hw.
Qed.

(** A registration succeeds exactly when the statement does not fault and the
    name is already bound or the id is free. *)
Lemma RegisterService_error f now svc d e d' :
  RegisterService f now svc d = (Err e, d') ->
  d' = d /\
  (f <> None \/
   (e = ErrWrap "store: register service" (ErrUnique "services.id") /\
    ~ (Tenant svc, Name svc) ∈ (sv_key <$> db_services d) /\
    service_id svc ∈ (sv_id <$> db_services d))).
Proof.
  unfold RegisterService, exec. destruct f as [fe|].
  { intros. simplify_eq. split; [done|by left]. }
  unfold insert_service. fold (new_row now svc).
  destruct (existsb _ _) eqn:E1; [done|].
  destruct (existsb (fun r => (sv_id r =? _)%string) _) eqn:E2; [|done].
  intros. simplify_eq. split; [done|]. right. split; [done|]. split.
  - intros Hin. apply (existsb_key sv_key (new_row now svc)) in Hin. by rewrite E1 in Hin.
  - apply existsb_exists in E2 as (s & Hs & He%String.eqb_eq).
    apply list_elem_of_fmap. exists s. split; [by rewrite He|by apply list_elem_of_In].
Qed.

Lemma service_filter_upsert_other now svc l t n :
  (t, n) <> (Tenant svc, Name svc) ->
  List.filter (service_match t n) (upsert sv_key update_service_row (new_row now svc) l) =
    List.filter (service_match t n) l.
Proof.
  intros Hne. apply upsert_filter_other; [|done]. intros x Hk.
  apply not_true_iff_false. rewrite service_match_key. intros Hx. apply Hne.
  rewrite <- Hx, Hk. done.
Qed.

(** ** Service ids

    Ids default to tenant, slash, name; they identify the pair only when the
    tenant has no slash. *)
Fixpoint no_slash (s : string) : bool :=
  match s with
  | EmptyString => true
  | String c s' => negb (Ascii.eqb c "/"%char) && no_slash s'
  end.

Lemma default_id_inj t1 n1 t2 n2 :
  no_slash t1 = true -> no_slash t2 = true ->
  (t1 ++ "/" ++ n1)%string = (t2 ++ "/" ++ n2)%string -> t1 = t2 /\ n1 = n2.
Proof.
  revert t2. induction t1 as [|c t1 IH]; intros [|c2 t2] H1 H2; simpl in *; intros Heq; simplify_eq/=; try done.
  - apply andb_prop in H1 as [_ H1], H2 as [_ H2].
    destruct (IH t2 H1 H2) as [-> ->]; done.
Qed.

(** The ids the registry server uses: never given by the caller, and tenants
    without a slash. *)
Definition op_default_id (op : db_op) : Prop :=
  match op with
  | OpRegister _ _ svc => ID svc = ""%string /\ no_slash (Tenant svc) = true
  | _ => True
  end.

Definition row_default_id (s : service_row) : Prop :=
  sv_id s = (sv_tenant s ++ "/" ++ sv_name s)%string /\ no_slash (sv_tenant s) = true.

Lemma Forall_list_filter {A} (P : A -> Prop) (b : A -> bool) l :
  Forall P l -> Forall P (List.filter b l).
Proof.
  rewrite !Forall_forall. intros H x [Hx _]%list_elem_of_In%filter_In.
  apply H. by apply list_elem_of_In.
Qed.

Lemma upsert_default_id now svc l :
  ID svc = ""%string -> no_slash (Tenant svc) = true -> Forall row_default_id l ->
  Forall row_default_id (upsert sv_key update_service_row (new_row now svc) l).
Proof.
  intros Hid Hns Hl. unfold upsert. destruct (existsb _ _).
  - apply Forall_fmap, (Forall_impl _ _ _ Hl). intros x Hx. unfold compose. by case_decide.
  - apply Forall_app. split; [done|]. constructor; [|done].
    split; [|done]. simpl. unfold service_id. by rewrite Hid.
Qed.

Lemma db_step_default_id d op :
  op_default_id op -> Forall row_default_id (db_services d) ->
  Forall row_default_id (db_services (db_step d op)).
Proof.
  intros Ho Hd.
  assert (Hdel : forall f t a r,
    Forall row_default_id (db_services (snd (dereg_delete f t a r d)))).
  { intros [] ? ? ?; simpl; [done|by apply Forall_list_filter]. }
  destruct op; simpl; try apply Hdel;
    unfold UpsertAgent, UpsertRelay, AddPolicy, RemovePolicy, RecordAudit, DeregisterAgent.
  - by destruct f.
  - by destruct f.
  - destruct Ho as [Hi Hn]. destruct (RegisterService f now svc d) as [[id|e] d'] eqn:E; simpl.
    + apply RegisterService_ok in E as [_ ->]. by apply upsert_default_id.
    + by apply RegisterService_error in E as [-> _].
  - destruct (dereg_select fq frows tenant agentURI relayID d); [|done].
    pose proof (Hdel fd tenant agentURI relayID) as Hx.
    by destruct (dereg_delete fd tenant agentURI relayID d) as [[] ?].
  - destruct f; [done|]. simpl. unfold insert_policy. by repeat case_match; simplify_eq/=.
  - by destruct f.
  - by destruct f.
Qed.

Lemma db_run_default_id ops d :
  Forall op_default_id ops -> Forall row_default_id (db_services d) ->
  Forall row_default_id (db_services (db_run ops d)).
Proof.
  revert d. induction ops as [|op ops IH]; intros d Ho Hd; [done|].
  apply Forall_uncons in Ho as [Ho Hos]. apply IH; [done|]. by apply db_step_default_id.
Qed.

(** ** Lemmas on deregistration *)
Lemma filter_swap {A} (P Q : A -> bool) l :
  List.filter Q (List.filter P l) = List.filter P (List.filter Q l).
Proof.
  induction l as [|x l IH]; [done|]. simpl. destruct (P x) eqn:EP, (Q x) eqn:EQ; simpl;
    rewrite ?EP, ?EQ, ?IH; done.
Qed.

Lemma existsb_andb_filter {A} (P Q : A -> bool) l :
  existsb (fun x => Q x && P x) l = existsb P (List.filter Q l).
Proof. induction l as [|x l IH]; [done|]. simpl. rewrite IH. by destruct (Q x). Qed.

Lemma existsb_scan P t n l :
  existsb (fun s => String.eqb (Tenant s) t && String.eqb (Name s) n)
    (map (fun s => scan_service s "") (List.filter P l)) =
  existsb (fun s => service_match t n s && P s) l.
Proof.
  induction l as [|s l IH]; simpl; [done|].
  destruct (P s); simpl; rewrite IH; [by rewrite andb_true_r|by rewrite andb_false_r].
Qed.

(** ** Lemmas on the policies *)
Lemma AddPolicy_ok f now p d d' :
  AddPolicy f now p d = (Ok tt, d') ->
  d' = with_policies (db_policies d ++ [policy_defaults now p]) d /\
  ~ p_ID p ∈ (p_ID <$> db_policies d).
Proof.
  unfold AddPolicy, exec. destruct f; [done|]. unfold insert_policy.
  destruct (policy_checks _); [done|]. destruct (existsb _ _) eqn:E; intros; simplify_eq/=.
  split; [done|]. intros (q & Hq & Hin)%list_elem_of_fmap.
  assert (existsb (fun q => (p_ID q =? p_ID p)%string) (db_policies d) = true); [|congruence].
  apply existsb_exists. exists q. split; [by apply list_elem_of_In|]. by apply String.eqb_eq.
Qed.

(** No row carries a fresh id. *)
Lemma filter_fresh_id t id l :
  ~ id ∈ (p_ID <$> l) ->
  List.filter (policy_match t id) l = [] /\
  List.filter (fun p => negb (policy_match t id p)) l = l.
Proof.
  induction l as [|q l IH]; [done|]. rewrite fmap_cons, not_elem_of_cons. intros [Hq Hl].
  destruct (IH Hl) as [H1 H2]. simpl.
  assert (policy_match t id q = false) as ->.
  { unfold policy_match. apply andb_false_iff. right. apply String.eqb_neq. congruence. }
  simpl. by rewrite H1, H2.
Qed.

Lemma created_leb_total x y : created_leb x y = true \/ created_leb y x = true.
Proof. unfold created_leb. rewrite !Z.leb_le. lia. Qed.
Lemma created_leb_trans x y z :
  created_leb x y = true -> created_leb y z = true -> created_leb x z = true.
Proof. unfold created_leb. rewrite !Z.leb_le. lia. Qed.
Lemma newer_leb_total x y : newer_leb x y = true \/ newer_leb y x = true.
Proof. unfold newer_leb. rewrite !Z.leb_le. lia. Qed.
Lemma newer_leb_trans x y z :
  newer_leb x y = true -> newer_leb y z = true -> newer_leb x z = true.
Proof. unfold newer_leb. rewrite !Z.leb_le. lia. Qed.

Lemma StronglySorted_weaken {A} (R S : A -> A -> Prop) l :
  (forall x y, R x y -> S x y) -> StronglySorted R l -> StronglySorted S l.
Proof.
  intros HRS. induction 1 as [|x l _ IH Hx]; constructor; [done|].
  eapply Forall_impl; [exact Hx|]. intros y. apply HRS.
Qed.

(** Every element of a prefix of a sorted list precedes every later one. *)
Lemma StronglySorted_app_rel {A} (R : A -> A -> Prop) (l k : list A) :
  StronglySorted R (l ++ k) -> StronglySorted R l /\ forall x y, x ∈ l -> y ∈ k -> R x y.
Proof.
  induction l as [|a l IH]; simpl.
  { intros _. split; [constructor|]. intros x y Hx. by apply elem_of_nil in Hx. }
  intros Hs. apply StronglySorted_inv in Hs as [Hs Ha]. destruct (IH Hs) as [Hl Hlk].
  apply Forall_app in Ha as [Hal Hak]. split; [by constructor|].
  intros x y [->|Hx]%elem_of_cons Hy; [|by apply Hlk]. rewrite Forall_forall in Hak. by apply Hak.
Qed.

(** ** Properties *)

(** C8. Register then resolve: after a successful registration, resolving the same
    tenant and name returns the agent, relay, address and time just registered and
    the endpoint the relay advertised, so a later registration replaces an earlier
    one; every other pair resolves as before. *)
Theorem register_then_resolve `{OrderByLaws} (f : fault) (now : Z) (svc : Service)
    (region id : string) (d d' : db) :
  db_wf d -> RegisterService f now svc d = (Ok id, d') ->
  (exists id0,
    ResolveService None (Tenant svc) (Name svc) region d' =
      Ok (mkService id0 (Tenant svc) (Name svc) (AgentURI svc) (RelayID svc)
            (coalesce (rl_endpoint <$> head (find_relays (RelayID svc) d)))
            (LocalAddr svc) "healthy" now) /\
    (id0 = id \/ id0 ∈ (sv_id <$> List.filter (service_match (Tenant svc) (Name svc)) (db_services d)))) /\
  (forall t n, (t, n) <> (Tenant svc, Name svc) ->
    ResolveService None t n region d' = ResolveService None t n region d).
Proof.
  intros Hd E. assert (Hd' := RegisterService_wf _ _ _ _ _ _ Hd E).
  apply RegisterService_ok in E as [-> ->]. split.
  - rewrite ResolveService_spec by done. unfold resolve_spec. simpl.
    destruct (upsert_filter_same sv_key update_service_row (new_row now svc) (db_services d)
      (service_match (Tenant svc) (Name svc))) as (r & -> & [->|(old & Hin & Hk & ->)]).
    + intros x. by rewrite service_match_key.
    + done.
    + apply Hd.
    + exists (service_id svc). split; [done|by left].
    + unfold sv_key in Hk. simpl in Hk. injection Hk as Ht Hn. exists (sv_id old). split.
      * unfold scan_service. simpl. by rewrite Ht, Hn.
      * right. apply list_elem_of_fmap_2. apply list_elem_of_In, filter_In.
        split; [by apply list_elem_of_In|]. apply service_match_key. unfold sv_key. by rewrite Ht, Hn.
  - intros t n Hne. rewrite !ResolveService_spec by done. apply resolve_spec_ext; [|done].
    simpl. by apply service_filter_upsert_other.
Qed.

Definition demo_svc (t n a r : string) : Service := mkService "" t n a r "" "" "" 0.

Lemma register_then_resolve_witness :
  exists id0,
    ResolveService None "acme" "db" "eu" (snd (RegisterService None 7 (demo_svc "acme" "db" "a1" "r1") empty_db)) =
      Ok (mkService id0 "acme" "db" "a1" "r1" "" "" "healthy" 7) /\
    (id0 = "acme/db"%string \/ id0 ∈ (sv_id <$> @nil service_row)).
Proof.
  refine (proj1 (register_then_resolve None 7 (demo_svc "acme" "db" "a1" "r1") "eu" "acme/db"
    empty_db _ empty_db_wf _)). reflexivity.
Defined.

(** The caller's region never changes the outcome of a resolution: at most one
    row matches a tenant and name, so the region preference of the query has
    nothing to order. *)
Theorem resolve_region_irrelevant `{OrderByLaws} (ops : list db_op) (t n region1 region2 : string) :
  ResolveService None t n region1 (db_run ops empty_db) =
  ResolveService None t n region2 (db_run ops empty_db).
Proof. rewrite !ResolveService_spec by apply db_run_keeps_wf, empty_db_wf. done. Qed.

Lemma resolve_region_irrelevant_witness :
  let ops := [OpUpsertRelay None 1 "r1" "eu" "e1"; OpRegister None 7 (demo_svc "acme" "db" "a1" "r1")] in
  ResolveService None "acme" "db" "eu" (db_run ops empty_db) =
  ResolveService None "acme" "db" "us" (db_run ops empty_db).
Proof. apply resolve_region_irrelevant. Defined.

(** With default ids and tenants that contain no slash, a registration whose
    statement does not fault always succeeds and returns tenant, slash, name. *)
Theorem register_total (ops : list db_op) (now : Z) (svc : Service) :
  Forall op_default_id ops -> ID svc = ""%string -> no_slash (Tenant svc) = true ->
  fst (RegisterService None now svc (db_run ops empty_db)) =
    Ok (Tenant svc ++ "/" ++ Name svc)%string.
Proof.
  intros Ho Hid Hns. pose proof (db_run_default_id ops empty_db Ho (List.Forall_nil _)) as Hd.
  destruct (RegisterService None now svc (db_run ops empty_db)) as [[id|e] d'] eqn:E; simpl.
  - apply RegisterService_ok in E as [-> _]. unfold service_id. by rewrite Hid.
  - exfalso. apply RegisterService_error in E as (_ & [?|(_ & Hk & Hi)]); [done|].
    apply list_elem_of_fmap in Hi as (s & Hs & Hin). apply Hk.
    rewrite Forall_forall in Hd. destruct (Hd s Hin) as [Hsid Hsns].
    unfold service_id in Hs. rewrite Hid in Hs. simpl in Hs. rewrite Hsid in Hs.
    apply default_id_inj in Hs as [-> ->]; [|done..].
    by apply (list_elem_of_fmap_2 sv_key).
Qed.

Lemma register_total_witness :
  fst (RegisterService None 9 (demo_svc "acme" "web" "a1" "r1")
    (db_run [OpRegister None 7 (demo_svc "acme" "db" "a1" "r1")] empty_db)) = Ok "acme/web"%string.
Proof. apply register_total; [by repeat constructor|reflexivity|reflexivity]. Defined.

(** Without that restriction default ids collide: once the pair of tenant
    "t/x" and name "y" is registered, registering tenant "t" and name "x/y" fails
    with a primary-key violation. *)
Theorem register_slash_collision (t x y a1 r1 a2 r2 : string) (now1 now2 : Z) :
  let d1 := snd (RegisterService None now1 (demo_svc (t ++ "/" ++ x) y a1 r1) empty_db) in
  RegisterService None now2 (demo_svc t (x ++ "/" ++ y) a2 r2) d1 =
    (Err (ErrWrap "store: register service" (ErrUnique "services.id")), d1).
Proof.
  intros d1. subst d1. unfold RegisterService, insert_service, exec. simpl.
  unfold upsert, sv_key, service_id. simpl.
  rewrite bool_decide_eq_false_2.
  - assert (((t ++ "/" ++ x) ++ "/" ++ y)%string = (t ++ "/" ++ x ++ "/" ++ y)%string) as ->.
    { clear. induction t as [|c t IH]; [done|]. exact (f_equal (String c) IH). }
    by rewrite String.eqb_refl.
  - intros [= Ht _]. clear -Ht. induction t as [|c t IH]; [done|]. injection Ht. exact IH.
Qed.

(** Deregistration removes exactly what it reports: afterwards the reported
    services resolve to [ErrNotFound] and every other pair resolves as before;
    the reported services are those of the agent on that relay. *)
Theorem deregister_exact `{OrderByLaws} (fq fr fd : fault) (t a r region : string)
    (removed : list Service) (d d' : db) :
  db_wf d -> DeregisterAgent fq fr fd t a r d = (Ok removed, d') ->
  Forall (fun s => Tenant s = t /\ AgentURI s = a /\ RelayID s = r) removed /\
  forall t' n',
    ResolveService None t' n' region d' =
      if existsb (fun s => String.eqb (Tenant s) t' && String.eqb (Name s) n') removed
      then Err ErrNotFound else ResolveService None t' n' region d.
Proof.
  intros Hd E. unfold DeregisterAgent, dereg_select in E. destruct fq, fr; try done.
  unfold dereg_delete, exec in E. destruct fd; simplify_eq. split.
  { apply Forall_fmap, Forall_forall. intros s [_ Hs]%list_elem_of_In%filter_In. simpl.
    unfold dereg_match in Hs. bool_split. done. }
  intros t' n'. rewrite !ResolveService_spec by (done || by apply filter_services_wf).
  unfold resolve_spec. simpl.
  rewrite existsb_scan, filter_swap, existsb_andb_filter.
  destruct (lookup_service_le1 t' n' d Hd) as [->|[s ->]]; simpl; [done|].
  by destruct (dereg_match t a r s).
Qed.

Lemma deregister_exact_witness :
  let d := db_run [OpRegister None 7 (demo_svc "acme" "db" "a1" "r1")] empty_db in
  Forall (fun s => Tenant s = "acme" /\ AgentURI s = "a1" /\ RelayID s = "r1")%string
    [mkService "acme/db" "acme" "db" "a1" "r1" "" "" "healthy" 7] /\
  forall t' n',
    ResolveService None t' n' "" (snd (DeregisterAgent None None None "acme" "a1" "r1" d)) =
      if existsb (fun s => String.eqb (Tenant s) t' && String.eqb (Name s) n')
           [mkService "acme/db" "acme" "db" "a1" "r1" "" "" "healthy" 7]
      then Err ErrNotFound else ResolveService None t' n' "" d.
Proof.
  intros d. apply (deregister_exact None None None "acme" "a1" "r1" "" _ d _).
  - apply db_run_keeps_wf, empty_db_wf.
  - reflexivity.
Defined.

(** The select and the delete of [DeregisterAgent] are not one transaction: a
    service the same agent registers between them is deleted, yet it is not among
    the services reported to the caller, so no watcher hears of its removal. *)
Theorem deregister_race `{OrderByLaws} (now : Z) (svc : Service) (t a r region id : string)
    (removed : list Service) (d d1 : db) :
  db_wf d -> dereg_select None None t a r d = Ok removed ->
  RegisterService None now svc d = (Ok id, d1) ->
  Tenant svc = t -> AgentURI svc = a -> RelayID svc = r ->
  ResolveService None t (Name svc) region d = Err ErrNotFound ->
  ResolveService None t (Name svc) region (snd (dereg_delete None t a r d1)) = Err ErrNotFound /\
  Forall (fun s => Name s <> Name svc) removed.
Proof.
  intros Hd Hsel Hreg Ht Ha Hr Hres. assert (Hd1 := RegisterService_wf _ _ _ _ _ _ Hd Hreg).
  apply RegisterService_ok in Hreg as [-> ->].
  rewrite ResolveService_spec in Hres by done.
  assert (Hnone : List.filter (service_match t (Name svc)) (db_services d) = []).
  { unfold resolve_spec in Hres. by destruct (List.filter _ (db_services d)). }
  split.
  - rewrite ResolveService_spec by (by apply dereg_delete_wf).
    unfold resolve_spec. simpl. rewrite filter_swap.
    destruct (upsert_filter_same sv_key update_service_row (new_row now svc) (db_services d)
      (service_match t (Name svc))) as (x & -> & Hx); [|done|apply Hd|].
    { intros x. rewrite service_match_key, <- Ht. done. }
    assert (dereg_match t a r x = true) as Hm.
    { unfold dereg_match. destruct Hx as [->|(old & Hin & Hk & ->)]; simpl.
      - by rewrite Ht, Ha, Hr, !String.eqb_refl.
      - injection Hk as -> Hn. by rewrite Ht, Ha, Hr, !String.eqb_refl. }
    simpl. by rewrite Hm.
  - simpl in Hsel. injection Hsel as <-. apply Forall_fmap, Forall_forall.
    intros s [Hin Hs]%list_elem_of_In%filter_In. simpl. intros Hn.
    assert (s ∈ List.filter (service_match t (Name svc)) (db_services d)) as Hf.
    { apply list_elem_of_In, filter_In. split; [done|]. unfold dereg_match in Hs. bool_split.
      apply service_match_key. unfold sv_key. congruence. }
    rewrite Hnone in Hf. by apply elem_of_nil in Hf.
Qed.

Lemma deregister_race_witness :
  let d1 := snd (RegisterService None 9 (demo_svc "acme" "web" "a1" "r1") empty_db) in
  ResolveService None "acme" "web" "" (snd (dereg_delete None "acme" "a1" "r1" d1)) = Err ErrNotFound /\
  Forall (fun s => Name s <> "web"%string) [].
Proof.
  apply (deregister_race 9 (demo_svc "acme" "web" "a1" "r1") "acme" "a1" "r1" "" "acme/web" [] empty_db);
    try reflexivity. apply empty_db_wf.
Defined.

Lemma ListPolicies_added `{OrderByLaws} f now p d d1 :
  AddPolicy f now p d = (Ok tt, d1) ->
  exists l l1,
    ListPolicies None None (p_Tenant p) d = Ok l /\
    ListPolicies None None (p_Tenant p) d1 = Ok l1 /\
    Permutation l1 (policy_defaults now p :: l) /\
    StronglySorted (fun x y => p_CreatedAtUnixMs x <= p_CreatedAtUnixMs y) l1.
Proof.
  intros [-> _]%AddPolicy_ok. eexists _, _. split; [done|]. split; [done|]. split.
  - rewrite !order_by_perm. simpl. rewrite List.filter_app. simpl. rewrite String.eqb_refl.
    by rewrite Permutation_app_comm.
  - apply (StronglySorted_weaken (fun x y => created_leb x y = true)).
    + intros x y. unfold created_leb. lia.
    + apply order_by_sorted; [apply created_leb_total|apply created_leb_trans].
Qed.

Lemma RemovePolicy_added f now p d d1 :
  AddPolicy f now p d = (Ok tt, d1) -> RemovePolicy None (p_Tenant p) (p_ID p) d1 = (Ok true, d).
Proof.
  intros [-> Hfresh]%AddPolicy_ok. unfold RemovePolicy, exec. simpl.
  destruct (filter_fresh_id (p_Tenant p) _ _ Hfresh) as [H1 H2].
  rewrite !List.filter_app, H1, H2. simpl.
  assert (policy_match (p_Tenant p) (p_ID p) (policy_defaults now p) = true) as ->.
  { unfold policy_match. simpl. by rewrite !String.eqb_refl. }
  simpl. rewrite app_nil_r. by destruct d.
Qed.

(** C29. Life of a policy: an added rule is listed for its tenant with its defaults
    filled in, among the rules listed before, in order of creation; a removal under
    another tenant reports false and changes nothing; the removal under its own
    tenant reports true and restores the policies table. *)
Theorem policy_lifecycle `{OrderByLaws} (f : fault) (now : Z) (p : Policy) (d d1 : db) :
  AddPolicy f now p d = (Ok tt, d1) ->
  (exists l l1,
    ListPolicies None None (p_Tenant p) d = Ok l /\
    ListPolicies None None (p_Tenant p) d1 = Ok l1 /\
    Permutation l1 (policy_defaults now p :: l) /\
    StronglySorted (fun x y => p_CreatedAtUnixMs x <= p_CreatedAtUnixMs y) l1) /\
  (forall t, t <> p_Tenant p -> RemovePolicy None t (p_ID p) d1 = (Ok false, d1)) /\
  RemovePolicy None (p_Tenant p) (p_ID p) d1 = (Ok true, d).
Proof.
  intros E. split; [by apply (ListPolicies_added f)|]. split; [|by apply (RemovePolicy_added f now)].
  apply AddPolicy_ok in E as [-> Hfresh]. unfold RemovePolicy, exec. simpl.
  intros t Ht. destruct (filter_fresh_id t _ _ Hfresh) as [H1 H2].
  rewrite !List.filter_app, H1, H2. simpl.
  assert (policy_match t (p_ID p) (policy_defaults now p) = false) as ->.
  { unfold policy_match. simpl. by rewrite (proj2 (String.eqb_neq _ _)). }
  done.
Qed.

Definition demo_policy (id t : string) : Policy := mkPolicy id t "*" "db" "" "deny" 0 5 "" "".

Lemma policy_lifecycle_witness :
  RemovePolicy None "acme" "p1" (snd (AddPolicy None 7 (demo_policy "p1" "acme") empty_db)) = (Ok true, empty_db).
Proof.
  refine (proj2 (proj2 (policy_lifecycle None 7 (demo_policy "p1" "acme") empty_db _ _))).
  reflexivity.
Defined.

(** C30. Audit history: a query returns the newest matching events, newest first;
    nothing that matches is left out unless the limit is positive and reached, and
    what is left out is no newer than anything returned. *)
Theorem QueryAudit_exact `{OrderByLaws} (tenant caller target : string) (since limit : Z) (d : db) :
  exists out rest,
    QueryAudit None None tenant caller target since limit d = Ok out /\
    Permutation (out ++ rest) (List.filter (audit_match tenant caller target since) (db_audit d)) /\
    StronglySorted (fun x y => a_TsUnixMs y <= a_TsUnixMs x) out /\
    (forall x y, x ∈ out -> y ∈ rest -> a_TsUnixMs y <= a_TsUnixMs x) /\
    (limit <= 0 -> rest = []) /\
    (0 < limit -> zlen out <= limit /\ (rest <> [] -> zlen out = limit)).
Proof.
  unfold QueryAudit. set (all := List.filter _ (db_audit d)).
  set (rows := order_by newer_leb all).
  assert (Hs : StronglySorted (fun x y => a_TsUnixMs y <= a_TsUnixMs x) rows).
  { apply (StronglySorted_weaken (fun x y => newer_leb x y = true)).
    - intros x y. unfold newer_leb. lia.
    - apply order_by_sorted; [apply newer_leb_total|apply newer_leb_trans]. }
  assert (Hp : Permutation rows all) by apply order_by_perm.
  eexists _, (if 0 <? limit then drop (Z.to_nat limit) rows else []). split; [done|].
  destruct (Z.ltb_spec 0 limit) as [Hl|Hl].
  - rewrite take_drop. rewrite <- (take_drop (Z.to_nat limit) rows) in Hs.
    destruct (StronglySorted_app_rel _ _ _ Hs) as [H1 H2].
    split_and!; try done; [lia|]. intros _. unfold zlen. rewrite length_take. split; [lia|].
    intros Hne. assert (~ (length rows <= Z.to_nat limit)%nat); [|lia].
    intros Hle. apply Hne. by apply drop_ge.
  - rewrite app_nil_r. split_and!; try done; [|lia..].
    intros x y _ Hy. by apply elem_of_nil in Hy.
Qed.

Lemma QueryAudit_exact_witness :
  exists out rest,
    let d := db_run [OpRecordAudit None 3 (mkAudit 0 "acme" "c" "g" "" "deny" "" "")] empty_db in
    QueryAudit None None "acme" "" "" 0 1 d = Ok out /\
    Permutation (out ++ rest) (List.filter (audit_match "acme" "" "" 0) (db_audit d)).
Proof.
  destruct (QueryAudit_exact "acme" "" "" 0 1
    (db_run [OpRecordAudit None 3 (mkAudit 0 "acme" "c" "g" "" "deny" "" "")] empty_db))
    as (out & rest & H1 & H2 & _).
  exists out, rest. split; [exact H1|exact H2].
Defined.
