(* ===== verification/StoreSpec.v ===== *)
(** * What the controller's store promises: finite maps

    [Store] translates the SQL statements of pkg/registry/store/sqlite.go as functions on
    lists of rows.  This file states what they are for, without rows: agents, relays and
    policies are finite maps, a service is the provider bound to a tenant and a name, the
    audit log is a sequence.  [store_refines] proves that every sequence of statements
    answers as the maps do and leaves what the maps hold. *)

From Stdlib Require Import ZArith Lia.
From stdpp Require Import base tactics list strings gmap sets.
From S2P Require Import Prelude Store.

Local Open Scope Z_scope.

(** ** The abstract store *)
Record provider := mkProvided {
  pv_id : string;
  pv_agent : string;
  pv_relay : string;
  pv_addr : option string;
  pv_health : string;
  pv_updated : Z
}.

Record store_spec := mkSpec {
  (** tenant, time last seen, metadata *)
  sp_agents : gmap string (string * Z * option string);
  sp_services : gmap (string * string) provider;
  (** region, endpoint, time of the last heartbeat *)
  sp_relays : gmap string (option string * string * Z);
  sp_policies : gmap string Policy;
  sp_audit : list AuditEvent
}.

(** What a call answers: errors are not told apart. *)
Inductive answer :=
| Refused
| Done
| Registered (id : string)
| Removed (names : gset string)
| WasThere (b : bool).

Definition in_domains (decision p2p relay : string) : Prop :=
  decision ∈ ["allow"; "deny"]%string /\ p2p ∈ ["allowed"; "forbidden"; "required"]%string /\
  relay ∈ ["splice"; "forward"]%string.

#[export] Instance in_domains_dec d p r : Decision (in_domains d p r) := _.

Definition or_default (s d : string) : string := if decide (s = ""%string) then d else s.

Definition held (t a r : string) (kp : string * string * provider) : Prop :=
  kp.1.1 = t /\ pv_agent kp.2 = a /\ pv_relay kp.2 = r.

Definition spec_register (now : Z) (svc : Service) (m : gmap (string * string) provider)
  : answer * gmap (string * string) provider :=
  let key := (Tenant svc, Name svc) in
  let id := or_default (ID svc) (Tenant svc ++ "/" ++ Name svc) in
  let bind id0 := <[key := mkProvided id0 (AgentURI svc) (RelayID svc) (Some (LocalAddr svc)) "healthy" now]> m in
  match m !! key with
  | Some old => (Registered id, bind (pv_id old))
  | None => if decide (map_Exists (fun _ p => pv_id p = id) m) then (Refused, m) else (Registered id, bind id)
  end.

Definition spec_deregister (t a r : string) (m : gmap (string * string) provider)
  : gset string * gmap (string * string) provider :=
  (set_map snd (dom (filter (held t a r) m)), filter (fun kp => ~ held t a r kp) m).

Definition spec_add (now : Z) (p : Policy) (m : gmap string Policy) : answer * gmap string Policy :=
  let p2p := or_default (p_P2PMode p) "allowed" in
  let relay := or_default (p_RelayMode p) "splice" in
  if decide (in_domains (p_Decision p) p2p relay /\ m !! p_ID p = None)
  then (Done, <[p_ID p := mkPolicy (p_ID p) (p_Tenant p) (p_CallerPattern p) (p_TargetPattern p)
         (p_MethodPattern p) (p_Decision p) (p_ExpiresUnixMs p)
         (if decide (p_CreatedAtUnixMs p = 0) then now else p_CreatedAtUnixMs p) p2p relay]> m)
  else (Refused, m).

Definition spec_remove (t id : string) (m : gmap string Policy) : bool * gmap string Policy :=
  match m !! id with
  | Some p => if decide (p_Tenant p = t) then (true, delete id m) else (false, m)
  | None => (false, m)
  end.

Definition spec_record (now : Z) (ev : AuditEvent) : AuditEvent :=
  mkAudit (if decide (a_TsUnixMs ev = 0) then now else a_TsUnixMs ev) (a_Tenant ev) (a_Caller ev)
    (a_Target ev) (a_Method ev) (a_Decision ev) (a_Reason ev) (a_StreamID ev).

(** A call with a driver error is refused and changes nothing. *)
Definition spec_step (s : store_spec) (op : db_op) : answer * store_spec :=
  let '(mkSpec ag sv rl po au) := s in
  match op with
  | OpUpsertAgent None now t uri =>
    (Done, mkSpec (<[uri := (t, now, x ← ag !! uri; snd x)]> ag) sv rl po au)
  | OpUpsertRelay None now id region endpoint =>
    (Done, mkSpec ag sv (<[id := (Some region, endpoint, now)]> rl) po au)
  | OpRegister None now svc =>
    let '(r, sv') := spec_register now svc sv in (r, mkSpec ag sv' rl po au)
  | OpDeregister None None None t a r =>
    let '(names, sv') := spec_deregister t a r sv in (Removed names, mkSpec ag sv' rl po au)
  | OpDeregDelete None t a r => (Done, mkSpec ag (snd (spec_deregister t a r sv)) rl po au)
  | OpAddPolicy None now p => let '(r, po') := spec_add now p po in (r, mkSpec ag sv rl po' au)
  | OpRemovePolicy None t id => let '(b, po') := spec_remove t id po in (WasThere b, mkSpec ag sv rl po' au)
  | OpRecordAudit None now ev => (Done, mkSpec ag sv rl po (au ++ [spec_record now ev]))
  | _ => (Refused, s)
  end.

Fixpoint spec_run (ops : list db_op) (s : store_spec) : list answer * store_spec :=
  match ops with
  | [] => ([], s)
  | op :: ops' =>
    let '(a, s1) := spec_step s op in let '(l, s2) := spec_run ops' s1 in (a :: l, s2)
  end.

Definition spec_resolve (t n : string) (s : store_spec) : res store_err Service :=
  match sp_services s !! (t, n) with
  | None => Err ErrNotFound
  | Some p =>
    Ok (mkService (pv_id p) t n (pv_agent p) (pv_relay p)
          (match sp_relays s !! pv_relay p with Some (_, endpoint, _) => endpoint | None => "" end)
          (default "" (pv_addr p)) (pv_health p) (pv_updated p))%string
  end.

(** ** The answers of the methods *)
Definition answer_of {A} (k : A -> answer) (r : res store_err A) : answer :=
  match r with Ok a => k a | Err _ => Refused end.

Definition db_answer (d : db) (op : db_op) : answer :=
  match op with
  | OpUpsertAgent f now t uri => answer_of (fun _ => Done) (fst (UpsertAgent f now t uri d))
  | OpUpsertRelay f now id region endpoint => answer_of (fun _ => Done) (fst (UpsertRelay f now id region endpoint d))
  | OpRegister f now svc => answer_of Registered (fst (RegisterService f now svc d))
  | OpDeregister fq fr fd t a r =>
    answer_of (fun l => Removed (list_to_set (map Name l))) (fst (DeregisterAgent fq fr fd t a r d))
  | OpDeregDelete f t a r => match fst (dereg_delete f t a r d) with Ok _ => Done | Err _ => Refused end
  | OpAddPolicy f now p => answer_of (fun _ => Done) (fst (AddPolicy f now p d))
  | OpRemovePolicy f t id => answer_of WasThere (fst (RemovePolicy f t id d))
  | OpRecordAudit f now ev => answer_of (fun _ => Done) (fst (RecordAudit f now ev d))
  end.

Fixpoint db_answers (ops : list db_op) (d : db) : list answer :=
  match ops with
  | [] => []
  | op :: ops' => db_answer d op :: db_answers ops' (db_step d op)
  end.

(** ** Abstraction *)
Definition index {A K V} `{Countable K} (key : A -> K) (val : A -> V) (l : list A) : gmap K V :=
  list_to_map ((fun r => (key r, val r)) <$> l).

Definition agent_val (r : agent_row) : string * Z * option string :=
  (ag_tenant r, ag_last_seen_unix_ms r, ag_metadata r).
Definition service_val (r : service_row) : provider :=
  mkProvided (sv_id r) (sv_agent_uri r) (sv_relay_id r) (sv_local_addr r) (sv_health r) (sv_updated_at_unix_ms r).
Definition relay_val (r : relay_row) : option string * string * Z :=
  (rl_region r, rl_endpoint r, rl_last_heartbeat_unix_ms r).

Definition abs (d : db) : store_spec :=
  mkSpec (index ag_uri agent_val (db_agents d)) (index sv_key service_val (db_services d))
    (index rl_id relay_val (db_relays d)) (index p_ID id (db_policies d)) (db_audit d).

(** ** Lemmas on indexed rows *)
Section Index.
Context {A K V : Type} `{Countable K} (key : A -> K) (val : A -> V).

Lemma index_Some l k v : NoDup (key <$> l) ->
  index key val l !! k = Some v <-> exists r, r ∈ l /\ key r = k /\ val r = v.
Proof.
  intros Hnd. unfold index. rewrite <- elem_of_list_to_map.
  - rewrite list_elem_of_fmap. naive_solver.
  - by rewrite <- list_fmap_compose.
Qed.

Lemma index_None l k : index key val l !! k = None <-> k ∉ (key <$> l).
Proof. unfold index. rewrite <- not_elem_of_list_to_map. by rewrite <- list_fmap_compose. Qed.

(** Two lists with the same rows have the same index. *)
Lemma index_ext l (m : gmap K V) : NoDup (key <$> l) ->
  (forall k v, m !! k = Some v <-> exists r, r ∈ l /\ key r = k /\ val r = v) -> index key val l = m.
Proof. intros Hnd Hm. apply map_eq. intros k. apply option_eq. intros v. rewrite Hm. by apply index_Some. Qed.

Lemma index_snoc l r : key r ∉ (key <$> l) -> index key val (l ++ [r]) = <[key r := val r]> (index key val l).
Proof.
  intros Hr. unfold index. rewrite fmap_app. simpl. apply list_to_map_snoc. by rewrite <- list_fmap_compose.
Qed.

(** An upsert is an insertion that may look at the old value. *)
Lemma index_upsert upd row l (u : option V -> V) :
  NoDup (key <$> l) -> (forall r, key r = key row -> key (upd r row) = key row) ->
  val row = u None -> (forall r, r ∈ l -> key r = key row -> val (upd r row) = u (Some (val r))) ->
  index key val (upsert key upd row l) = <[key row := u (index key val l !! key row)]> (index key val l).
Proof.
  intros Hnd Hk H0 Hu. unfold upsert. destruct (existsb _ l) eqn:E.
  - apply existsb_key in E. apply list_elem_of_fmap in E as (old & Hold & Hin).
    assert (Hl : index key val l !! key row = Some (val old)) by (apply index_Some; [done|eauto]).
    rewrite Hl. revert Hl. induction l as [|r l IH]; intros Hl; [by apply elem_of_nil in Hin|].
    rewrite fmap_cons, NoDup_cons in Hnd. destruct Hnd as [Hr Hnd]. simpl. unfold index in *. simpl in *.
    destruct (decide (key r = key row)) as [Er|Hne].
    + rewrite Hk, Er, insert_insert_eq by done. rewrite Er, lookup_insert_eq in Hl. injection Hl as Hl.
      rewrite Hu by (done || left). rewrite Hl. f_equal. f_equal. f_equal.
      rewrite <- (map_id l) at 2. apply map_ext_in. intros x Hx. destruct (decide _) as [Ex|]; [|done].
      destruct Hr. rewrite Er, <- Ex. by apply list_elem_of_fmap_2, list_elem_of_In.
    + rewrite lookup_insert_ne in Hl by done. rewrite insert_insert_ne by done. f_equal. apply IH; auto.
      * intros x Hx. apply Hu. by right.
      * apply elem_of_cons in Hin as [->|Hin]; [done|done].
  - assert (Hn : key row ∉ (key <$> l)) by (rewrite <- existsb_key, E; done).
    rewrite index_snoc by done. rewrite (proj2 (index_None l (key row)) Hn), H0. done.
Qed.

Lemma index_filter (P : A -> bool) (Q : K * V -> Prop) `{!forall x, Decision (Q x)} l :
  NoDup (key <$> l) -> (forall r, P r = true <-> Q (key r, val r)) ->
  index key val (List.filter P l) = filter Q (index key val l).
Proof.
  intros Hnd HP. apply index_ext; [by apply filter_NoDup|]. intros k v. rewrite map_lookup_filter_Some, index_Some by done.
  split.
  - intros [(r & Hin & <- & <-) HQ]. exists r. split; [|done]. apply list_elem_of_In, filter_In.
    split; [by apply list_elem_of_In|by apply HP].
  - intros (r & [Hin%list_elem_of_In Hp%HP]%list_elem_of_In%filter_In & <- & <-). split; [by exists r|done].
Qed.
End Index.

(** ** One statement at a time *)
Lemma or_default_eqb s d : or_default s d = if String.eqb s "" then d else s.
Proof. unfold or_default. destruct (decide _), (String.eqb_spec s ""); congruence. Qed.

Lemma register_refines now svc d : db_wf d ->
  spec_register now svc (index sv_key service_val (db_services d)) =
  (answer_of Registered (fst (RegisterService None now svc d)),
   index sv_key service_val (db_services (snd (RegisterService None now svc d)))).
Proof.
  intros Hd. set (m := index sv_key service_val (db_services d)). set (row := new_row now svc).
  assert (Hup : index sv_key service_val (upsert sv_key update_service_row row (db_services d)) =
    <[(Tenant svc, Name svc) := mkProvided
        (match m !! (Tenant svc, Name svc) with Some old => pv_id old | None => service_id svc end)
        (AgentURI svc) (RelayID svc) (Some (LocalAddr svc)) "healthy" now]> m).
  { apply (index_upsert sv_key service_val update_service_row row (db_services d) (fun o => mkProvided
      (match o with Some old => pv_id old | None => service_id svc end)
      (AgentURI svc) (RelayID svc) (Some (LocalAddr svc)) "healthy" now)); [apply Hd|by intros|done|by intros]. }
  unfold spec_register. rewrite or_default_eqb. change (if String.eqb (ID svc) "" then _ else _) with (service_id svc).
  unfold RegisterService, exec, insert_service. change (mkServiceRow _ _ _ _ _ _ _ _) with row.
  destruct (m !! (Tenant svc, Name svc)) as [old|] eqn:Em.
  - assert (existsb (fun r => bool_decide (sv_key r = sv_key row)) (db_services d) = true) as ->.
    { apply existsb_key. apply index_Some in Em as (r & Hin & Hk & _); [|apply Hd].
      apply list_elem_of_fmap. exists r. by rewrite Hk. }
    simpl. by rewrite Hup.
  - assert (existsb (fun r => bool_decide (sv_key r = sv_key row)) (db_services d) = false) as ->.
    { apply not_true_iff_false. rewrite existsb_key. by apply index_None in Em. }
    assert (Hex : existsb (fun r => String.eqb (sv_id r) (sv_id row)) (db_services d) =
      bool_decide (map_Exists (fun _ p => pv_id p = service_id svc) m)).
    { apply eq_bool_prop_intro. rewrite !Is_true_true, existsb_exists, bool_decide_eq_true. split.
      - intros (r & Hin & He%String.eqb_eq). exists (sv_key r), (service_val r). split; [|done].
        apply index_Some; [apply Hd|]. exists r. split; [by apply list_elem_of_In|done].
      - intros (k & v & Hv & He). apply index_Some in Hv as (r & Hin & _ & <-); [|apply Hd].
        exists r. split; [by apply list_elem_of_In|]. by apply String.eqb_eq. }
    rewrite Hex. destruct (decide _) as [Hm|Hm].
    + by rewrite bool_decide_eq_true_2.
    + rewrite bool_decide_eq_false_2 by done. simpl. by rewrite Hup.
Qed.

Lemma dereg_match_held t a r s : dereg_match t a r s = true <-> held t a r (sv_key s, service_val s).
Proof. unfold dereg_match, held. rewrite !andb_true_iff, !String.eqb_eq. simpl. tauto. Qed.

Lemma deregister_refines t a r d : db_wf d ->
  spec_deregister t a r (index sv_key service_val (db_services d)) =
  (list_to_set (map Name (map (fun s => scan_service s "") (List.filter (dereg_match t a r) (db_services d)))),
   index sv_key service_val (List.filter (fun s => negb (dereg_match t a r s)) (db_services d))).
Proof.
  intros Hd. unfold spec_deregister. f_equal.
  - apply set_eq. intros n. rewrite elem_of_map, elem_of_list_to_set. setoid_rewrite elem_of_dom.
    rewrite map_map. unfold is_Some. setoid_rewrite map_lookup_filter_Some.
    setoid_rewrite (index_Some sv_key service_val); [|apply Hd]. split.
    + intros (k & -> & v & (s & Hin & <- & <-) & Hh). apply list_elem_of_In, in_map_iff. exists s.
      split; [done|]. apply filter_In. split; [by apply list_elem_of_In|by apply dereg_match_held].
    + intros (s & <- & [Hin Hm]%filter_In)%list_elem_of_In%in_map_iff. exists (sv_key s).
      split; [done|]. exists (service_val s). split; [|by apply dereg_match_held]. exists s.
      split; [by apply list_elem_of_In|done].
  - symmetry. apply index_filter; [apply Hd|]. intros s. rewrite negb_true_iff, <- dereg_match_held.
    by rewrite not_true_iff_false.
Qed.

Lemma in_domains_checks now p :
  policy_checks (policy_defaults now p) = None <->
  in_domains (p_Decision p) (or_default (p_P2PMode p) "allowed") (or_default (p_RelayMode p) "splice").
Proof.
  assert (Ho : forall s l, one_of s l = true <-> s ∈ l).
  { intros s l. unfold one_of. rewrite existsb_exists, list_elem_of_In. split.
    - by intros (x & Hin & ->%String.eqb_eq).
    - intros Hin. exists s. split; [done|apply String.eqb_refl]. }
  unfold in_domains, policy_checks. rewrite <- !Ho, !or_default_eqb. cbn [p_Decision p_P2PMode p_RelayMode policy_defaults].
  destruct (one_of _ _), (one_of _ _), (one_of _ _); simpl; split; try done; by intros (? & ? & ?).
Qed.

Lemma add_refines now p d :
  spec_add now p (index p_ID id (db_policies d)) =
  (answer_of (fun _ => Done) (fst (AddPolicy None now p d)),
   index p_ID id (db_policies (snd (AddPolicy None now p d)))).
Proof.
  unfold spec_add, AddPolicy, exec, insert_policy. pose proof (in_domains_checks now p) as Hdom.
  assert (Hex : existsb (fun q => String.eqb (p_ID q) (p_ID (policy_defaults now p))) (db_policies d) = true <->
    p_ID p ∈ (p_ID <$> db_policies d)).
  { rewrite existsb_exists, list_elem_of_fmap. split.
    - intros (q & Hin & He%String.eqb_eq). exists q. split; [done|by apply list_elem_of_In].
    - intros (q & He & Hin). exists q. split; [by apply list_elem_of_In|]. by apply String.eqb_eq. }
  pose proof (index_None p_ID (@id Policy) (db_policies d) (p_ID p)) as HN.
  destruct (policy_checks _) as [col|]; [rewrite decide_False by naive_solver; done|].
  destruct (existsb _ _) eqn:E.
  - rewrite decide_False; [done|]. intros [_ Hm%HN]. by apply Hm, Hex.
  - rewrite decide_True.
    + simpl. rewrite index_snoc; [|by rewrite <- Hex]. unfold id, policy_defaults. simpl.
      rewrite !or_default_eqb. destruct (decide _), (Z.eqb_spec (p_CreatedAtUnixMs p) 0); done.
    + split; [by apply Hdom|]. apply HN. by rewrite <- Hex.
Qed.

Lemma remove_refines t i d : db_wf d ->
  spec_remove t i (index p_ID id (db_policies d)) =
  (0 <? zlen (List.filter (policy_match t i) (db_policies d)),
   index p_ID id (List.filter (fun p => negb (policy_match t i p)) (db_policies d))).
Proof.
  intros Hd. set (m := index p_ID id (db_policies d)).
  assert (Hf : index p_ID id (List.filter (fun p => negb (policy_match t i p)) (db_policies d)) =
    filter (fun kp => ~ (p_Tenant kp.2 = t /\ kp.1 = i)) m).
  { apply index_filter; [apply Hd|]. intros p. unfold policy_match, id. simpl.
    rewrite negb_true_iff, andb_false_iff, !String.eqb_neq. destruct (decide (p_Tenant p = t)); tauto. }
  assert (Hn : (0 <? zlen (List.filter (policy_match t i) (db_policies d))) = true <->
    exists p, m !! i = Some p /\ p_Tenant p = t).
  { unfold zlen. rewrite Z.ltb_lt. split.
    - destruct (List.filter (policy_match t i) (db_policies d)) as [|p l] eqn:E; simpl; [intros; lia|]. intros _.
      assert (In p (p :: l)) as Hin by (by left). rewrite <- E in Hin. apply filter_In in Hin as [Hin Hm].
      unfold policy_match in Hm. bool_split. exists p. split; [|done]. apply index_Some; [apply Hd|].
      exists p. split; [by apply list_elem_of_In|done].
    - intros (p & Hm & Ht). apply index_Some in Hm as (r & Hin & Hk & Hr); [|apply Hd]. unfold id in Hr. subst r.
      assert (In p (List.filter (policy_match t i) (db_policies d))) as Hf'.
      { apply filter_In. split; [by apply list_elem_of_In|]. unfold policy_match. by rewrite Ht, Hk, !String.eqb_refl. }
      destruct (List.filter (policy_match t i) (db_policies d)); [done|]. simpl. lia. }
  rewrite Hf. unfold spec_remove. destruct (0 <? _).
  - destruct (proj1 Hn eq_refl) as (p & Hm & Ht). rewrite Hm, decide_True by done. f_equal. apply map_eq. intros k.
    destruct (decide (k = i)) as [->|Hne].
    + rewrite lookup_delete_eq. symmetry. apply map_lookup_filter_None. right. intros q Hq. simpl. naive_solver.
    + rewrite lookup_delete_ne by done. apply option_eq. intros q. rewrite map_lookup_filter_Some. naive_solver.
  - assert (Hno : forall p, m !! i = Some p -> p_Tenant p <> t) by (intros p Hm Ht; destruct Hn as [_ Hn]; by discriminate Hn; eauto).
    rewrite map_filter_id by (intros k q Hq [Ht Hk]; simpl in *; subst k; by eapply Hno).
    destruct (m !! i) as [p|]; [|done]. rewrite decide_False; [done|by apply Hno].
Qed.

Lemma step_refines d op : db_wf d -> spec_step (abs d) op = (db_answer d op, abs (db_step d op)).
Proof.
  intros Hd. destruct op as [f now t u|f now i rg ep|f now svc|fq fr fd t a r|f t a r|f now p|f t i|f now ev];
    cbn [spec_step abs db_answer db_step].
  - destruct f; [by destruct d|]. unfold UpsertAgent, exec. simpl. unfold abs. simpl. f_equal. f_equal.
    rewrite (index_upsert ag_uri agent_val upsert_agent_row (mkAgent u t now None) (db_agents d)
      (fun o => (t, now, x ← o; snd x))); [done|apply Hd|done|done|done].
  - destruct f; [by destruct d|]. unfold UpsertRelay, exec. simpl. unfold abs. simpl. f_equal. f_equal.
    rewrite (index_upsert rl_id relay_val upsert_relay_row (mkRelay i (Some rg) ep now) (db_relays d)
      (fun o => (Some rg, ep, now))); [done|apply Hd|done|done|done].
  - destruct f; [by destruct d|]. rewrite register_refines by done.
    assert (Hfr : exists l, snd (RegisterService None now svc d) = with_services l d).
    { unfold RegisterService, exec, insert_service. destruct (existsb _ _); [by eexists|].
      destruct (existsb _ _); [exists (db_services d); by destruct d|by eexists]. }
    destruct Hfr as [l ->]. done.
  - unfold DeregisterAgent, dereg_select, dereg_delete, exec.
    destruct fq; [by destruct d|]. destruct fr; [by destruct d|]. destruct fd; [by destruct d|].
    by rewrite deregister_refines.
  - destruct f; [by destruct d|]. rewrite deregister_refines by done. done.
  - destruct f; [by destruct d|]. rewrite add_refines.
    assert (Hfr : exists l, snd (AddPolicy None now p d) = with_policies l d).
    { unfold AddPolicy, exec, insert_policy. destruct (policy_checks _); [exists (db_policies d); by destruct d|].
      destruct (existsb _ _); [exists (db_policies d); by destruct d|by eexists]. }
    destruct Hfr as [l ->]. done.
  - destruct f; [by destruct d|]. rewrite remove_refines by done. done.
  - destruct f; [by destruct d|]. unfold RecordAudit, exec, spec_record. simpl. unfold abs. simpl.
    destruct (decide _), (Z.eqb_spec (a_TsUnixMs ev) 0); done.
Qed.

Lemma resolve_refines `{OrderByLaws} t n region d : db_wf d ->
  ResolveService None t n region d = spec_resolve t n (abs d).
Proof.
  intros Hd. rewrite ResolveService_spec by done. unfold resolve_spec, spec_resolve. simpl.
  destruct (index sv_key service_val (db_services d) !! (t, n)) as [p|] eqn:E.
  - apply index_Some in E as (s & Hin & Hk & <-); [|apply Hd].
    assert (Hs : In s (List.filter (service_match t n) (db_services d))).
    { apply filter_In. split; [by apply list_elem_of_In|by apply service_match_key]. }
    destruct (lookup_service_le1 t n d Hd) as [El|[s' El]]; rewrite El in *; [done|].
    destruct Hs as [->|[]]. unfold scan_service. injection Hk as <- <-. simpl. f_equal. f_equal.
    destruct (index rl_id relay_val (db_relays d) !! sv_relay_id s) as [[[g e] h]|] eqn:Er.
    + apply index_Some in Er as (r & Hr & Hrk & Hrv); [|apply Hd]. injection Hrv as _ <- _.
      assert (Hf : In r (find_relays (sv_relay_id s) d)).
      { apply filter_In. split; [by apply list_elem_of_In|by apply String.eqb_eq]. }
      destruct (find_relays_le1 (sv_relay_id s) d Hd) as [El'|[r' El']]; rewrite El' in *; [done|].
      by destruct Hf as [->|[]].
    + apply index_None in Er. destruct (find_relays (sv_relay_id s) d) as [|r l] eqn:Ef; [done|].
      assert (In r (find_relays (sv_relay_id s) d)) as [Hin' Hk']%filter_In by (rewrite Ef; by left).
      destruct Er. apply list_elem_of_fmap. exists r. split; [by apply String.eqb_eq in Hk'|by apply list_elem_of_In].
  - apply index_None in E. destruct (List.filter _ _) as [|s l] eqn:Ef; [done|].
    assert (In s (List.filter (service_match t n) (db_services d))) as [Hin Hm]%filter_In by (rewrite Ef; by left).
    destruct E. apply list_elem_of_fmap. exists s. split; [|by apply list_elem_of_In].
    symmetry. by apply service_match_key.
Qed.

Lemma list_refines `{OrderByLaws} t d : db_wf d ->
  exists rows, ListPolicies None None t d = Ok rows /\ NoDup (p_ID <$> rows) /\
    forall p, p ∈ rows <-> sp_policies (abs d) !! p_ID p = Some p /\ p_Tenant p = t.
Proof.
  intros Hd. eexists. split; [done|].
  set (l := List.filter (fun p => String.eqb (p_Tenant p) t) (db_policies d)).
  assert (Hp : Permutation (order_by created_leb l) l) by apply order_by_perm.
  split; [rewrite Hp; apply filter_NoDup, Hd|]. intros p. rewrite Hp. simpl. rewrite index_Some by apply Hd.
  unfold l. rewrite list_elem_of_In, filter_In, String.eqb_eq. unfold id. split.
  - intros [Hin Ht]. split; [|done]. exists p. split; [by apply list_elem_of_In|done].
  - intros [(r & Hin & _ & ->) Ht]. split; [by apply list_elem_of_In|done].
Qed.

(** ** The refinement *)

(** C7. The store implements finite maps: on any database that satisfies the schema, every
    sequence of calls (driver errors at any statement, and deletes that run between the
    two statements of a deregistration, included) gives the answers that the maps give
    and leaves what the maps hold.  A registration rebinds a name and keeps the id of
    the binding, or is refused when another name has the id; a deregistration removes
    exactly the agent's names on that relay and reports them; a policy is refused when
    its id is taken or its words are unknown, and removed only by its tenant.
    Afterwards a resolution, from any region, and a policy listing read the maps. *)
Theorem store_refines `{OrderByLaws} (ops : list db_op) (d : db) :
  db_wf d ->
  spec_run ops (abs d) = (db_answers ops d, abs (db_run ops d)) /\
  (forall t n region,
     ResolveService None t n region (db_run ops d) = spec_resolve t n (snd (spec_run ops (abs d)))) /\
  (forall t, exists rows, ListPolicies None None t (db_run ops d) = Ok rows /\ NoDup (p_ID <$> rows) /\
     forall p, p ∈ rows <->
       sp_policies (snd (spec_run ops (abs d))) !! p_ID p = Some p /\ p_Tenant p = t).
Proof.
  intros Hd. assert (Hrun : spec_run ops (abs d) = (db_answers ops d, abs (db_run ops d))).
  { revert d Hd. induction ops as [|op ops IH]; intros d Hd; [done|].
    cbn [spec_run db_answers]. rewrite step_refines, IH by (done || by apply db_step_wf). done. }
  pose proof (db_run_keeps_wf ops d Hd) as Hd'. rewrite Hrun. cbn [snd].
  split; [done|]. split; [intros; by apply resolve_refines|intros; by apply list_refines].
Qed.

Lemma store_refines_witness :
  let ops := [OpRegister None 3 (demo_svc "acme" "db" "a1" "r1"); OpRegister None 4 (demo_svc "acme" "db" "a2" "r1");
              OpDeregister None None None "acme" "a1" "r1"; OpAddPolicy None 5 (demo_policy "p" "acme");
              OpAddPolicy None 6 (demo_policy "p" "other"); OpRemovePolicy None "other" "p"] in
  db_answers ops empty_db =
    [Registered "acme/db"; Registered "acme/db"; Removed ∅; Done; Refused; WasThere false] /\
  ResolveService None "acme" "db" "" (db_run ops empty_db) =
    Ok (mkService "acme/db" "acme" "db" "a2" "r1" "" "" "healthy" 4).
Proof.
  intros ops. destruct (store_refines ops empty_db empty_db_wf) as (Hrun & Hres & _). split.
  - transitivity (fst (spec_run ops (abs empty_db))); [by rewrite Hrun|vm_compute; reflexivity].
  - rewrite Hres. vm_compute. reflexivity.
Defined.
