(* ===== verification/Hub.v ===== *)
(** * Watch fan-out shared by the registry and policy servers

    pkg/registry/server.go and pkg/policy/server.go contain the same hub: a
    mutex-protected set of watchers, each with a 64-slot channel.  This file
    models it once, over the event type and the watcher's configuration; the
    class [Watch] says which events a watcher wants, and each server gives the
    instance its [broadcast] tests.

    Watchers are pointers into a memory of channels.  A send on a closed channel
    and a second [close] panic: the operations return [None] there.  The
    mutex makes [addWatcher], [removeWatcher] and [broadcast] atomic, and a
    channel receive is atomic, so an execution is a sequence of these steps in
    any order. *)

From Stdlib Require Import ZArith Lia.
From stdpp Require Import base tactics list strings gmap sets functions.
From S2P Require Import Prelude.

Class Watch (W E : Type) := wants : W -> E -> string -> bool.

Section Hub.
Context {W E : Type} `{!Watch W E}.

Definition ptr := positive.

(** [make(chan E, 64)]. *)
Definition chan_cap : nat := 64.

Record watcher := mkWatcher {
  w_conf : W;
  w_ch : list E;
  w_closed : bool
}.

Record hub := mkHub {
  h_watchers : gset ptr;
  h_mem : gmap ptr watcher
}.

Definition new_watcher (c : W) : watcher := mkWatcher c [] false.

Definition addWatcher (p : ptr) (c : W) (h : hub) : hub :=
  mkHub ({[p]} ∪ h_watchers h) (<[p := new_watcher c]> (h_mem h)).

(** [delete(s.watchers, w); close(w.ch)]. *)
Definition drop_watcher (p : ptr) (h : hub) : option hub :=
  w ← h_mem h !! p;
  if w_closed w then None
  else Some (mkHub (h_watchers h ∖ {[p]}) (<[p := mkWatcher (w_conf w) (w_ch w) true]> (h_mem h))).

Definition removeWatcher (p : ptr) (h : hub) : option hub :=
  if decide (p ∈ h_watchers h) then drop_watcher p h else Some h.

(** One iteration of the loop of [broadcast]. *)
Definition broadcast_one (ev : E) (tenant : string) (p : ptr) (h : hub) : option hub :=
  w ← h_mem h !! p;
  if negb (wants (w_conf w) ev tenant) then Some h
  else if w_closed w then None
  else if (length (w_ch w) <? chan_cap)%nat
  then Some (mkHub (h_watchers h) (<[p := mkWatcher (w_conf w) (w_ch w ++ [ev]) false]> (h_mem h)))
  else drop_watcher p h.

Fixpoint broadcast_all (ev : E) (tenant : string) (ps : list ptr) (h : hub) : option hub :=
  match ps with
  | [] => Some h
  | p :: ps' => h' ← broadcast_one ev tenant p h; broadcast_all ev tenant ps' h'
  end.

Definition broadcast (ev : E) (tenant : string) (h : hub) : option hub :=
  broadcast_all ev tenant (elements (h_watchers h)) h.

(** The receive of [Watch]'s select. *)
Inductive recv_result :=
| Blocks
| Dropped
| Got (ev : E) (h : hub).

Definition recv (p : ptr) (h : hub) : recv_result :=
  match h_mem h !! p with
  | None => Blocks
  | Some w =>
    match w_ch w with
    | ev :: ch => Got ev (mkHub (h_watchers h) (<[p := mkWatcher (w_conf w) ch (w_closed w)]> (h_mem h)))
    | [] => if w_closed w then Dropped else Blocks
    end
  end.

(** One turn of the [for]/[select] loop of [Watch]: the context is done, or the
    receive is chosen and [stream.Send] succeeds or fails.  [inl] continues,
    [inr] returns (the deferred [removeWatcher] has then run). *)
Inductive watch_err :=
| ErrSlowConsumer
| ErrSend (code : Z).

Inductive watch_turn :=
| TurnDone
| TurnRecv (send_err : option Z).

Definition watch_return (p : ptr) (r : option watch_err) (h : hub)
  : option (hub * option watch_err) :=
  h' ← removeWatcher p h; Some (h', r).

Definition watch_loop_turn (t : watch_turn) (p : ptr) (h : hub)
  : option (hub * list E + hub * list E * option watch_err) :=
  match t with
  | TurnDone => '(h', r) ← watch_return p None h; Some (inr (h', [], r))
  | TurnRecv send_err =>
    match recv p h with
    | Blocks => Some (inl (h, []))
    | Dropped => '(h', r) ← watch_return p (Some ErrSlowConsumer) h; Some (inr (h', [], r))
    | Got ev h1 =>
      match send_err with
      | None => Some (inl (h1, [ev]))
      | Some e => '(h', r) ← watch_return p (Some (ErrSend e)) h1; Some (inr (h', [], r))
      end
    end
  end.

(** The loop over a schedule of turns: what was sent on the stream, and the
    result once it has returned. *)
Fixpoint watch_loop (ts : list watch_turn) (p : ptr) (h : hub)
  : option (hub * list E * option (option watch_err)) :=
  match ts with
  | [] => Some (h, [], None)
  | t :: ts' =>
    o ← watch_loop_turn t p h;
    match o with
    | inl (h', sent) =>
      '(h'', sent', r) ← watch_loop ts' p h'; Some (h'', sent ++ sent', r)
    | inr (h', sent, r) => Some (h', sent, Some r)
    end
  end.

(** ** Executions

    [x_log p] is the history variable of the events broadcast since [p] was
    added that [p] wants; [x_got p] what the handler of [p] took out of its
    channel. *)
Record exec_state := mkExec {
  x_hub : hub;
  x_log : ptr -> list E;
  x_got : ptr -> list E
}.

Inductive hub_op :=
| OpAdd (p : ptr) (c : W)
| OpRemove (p : ptr)
| OpBroadcast (ev : E) (tenant : string)
| OpRecv (p : ptr).

(** The events the watchers in memory add to their logs. *)
Definition log_event (ev : E) (tenant : string) (h : hub) (log : ptr -> list E) : ptr -> list E :=
  fun p => match h_mem h !! p with
           | Some w => if wants (w_conf w) ev tenant then log p ++ [ev] else log p
           | None => log p
           end.

Definition hub_step (x : exec_state) (op : hub_op) : option exec_state :=
  match op with
  | OpAdd p c =>
    match h_mem (x_hub x) !! p with
    | Some _ => Some x
    | None => Some (mkExec (addWatcher p c (x_hub x)) (<[p := []]> (x_log x)) (<[p := []]> (x_got x)))
    end
  | OpRemove p =>
    h ← removeWatcher p (x_hub x); Some (mkExec h (x_log x) (x_got x))
  | OpBroadcast ev tenant =>
    h ← broadcast ev tenant (x_hub x);
    Some (mkExec h (log_event ev tenant (x_hub x) (x_log x)) (x_got x))
  | OpRecv p =>
    match recv p (x_hub x) with
    | Got ev h => Some (mkExec h (x_log x) (<[p := x_got x p ++ [ev]]> (x_got x)))
    | Blocks | Dropped => Some x
    end
  end.

Fixpoint hub_run (ops : list hub_op) (x : exec_state) : option exec_state :=
  match ops with
  | [] => Some x
  | op :: ops' => x' ← hub_step x op; hub_run ops' x'
  end.

Definition new_hub : hub := mkHub ∅ ∅.
Definition new_exec : exec_state := mkExec new_hub (fun _ => []) (fun _ => []).

(** What holds of a watcher in memory: registered means open with a full record;
    otherwise closed with a prefix of the record. *)
Definition watcher_ok (reg : Prop) (w : watcher) (log got : list E) : Prop :=
  (length (w_ch w) <= chan_cap)%nat /\
  ((reg /\ w_closed w = false /\ got ++ w_ch w = log) \/
   (~ reg /\ w_closed w = true /\ (got ++ w_ch w) `prefix_of` log)).

Definition hub_ok (x : exec_state) : Prop :=
  (forall p, p ∈ h_watchers (x_hub x) -> is_Some (h_mem (x_hub x) !! p)) /\
  (forall p w, h_mem (x_hub x) !! p = Some w ->
    watcher_ok (p ∈ h_watchers (x_hub x)) w (x_log x p) (x_got x p)).

(** ** Lemmas *)

(** The loop of [broadcast] treats each watcher on its own: the effect on the
    memory cell [p] of the iteration for [p]. *)
Definition deliver (ev : E) (tenant : string) (w : watcher) : watcher * bool :=
  if negb (wants (w_conf w) ev tenant) then (w, true)
  else if (length (w_ch w) <? chan_cap)%nat
  then (mkWatcher (w_conf w) (w_ch w ++ [ev]) false, true)
  else (mkWatcher (w_conf w) (w_ch w) true, false).

Lemma broadcast_one_open ev t p h w :
  h_mem h !! p = Some w -> w_closed w = false -> p ∈ h_watchers h ->
  exists h', broadcast_one ev t p h = Some h' /\
    h_mem h' !! p = Some (fst (deliver ev t w)) /\
    (p ∈ h_watchers h' <-> snd (deliver ev t w) = true) /\
    (forall q, q <> p -> h_mem h' !! q = h_mem h !! q /\ (q ∈ h_watchers h' <-> q ∈ h_watchers h)).
Proof.
  intros Hm Hc Hr. unfold broadcast_one, deliver, drop_watcher. rewrite Hm. simpl.
  rewrite Hc. destruct (wants _ _ _); simpl; [|by exists h].
  destruct (length (w_ch w) <? chan_cap)%nat; simpl; eexists; split; [done| |done|]; simpl.
  - split; [by rewrite lookup_insert_eq|]. split; [done|].
    intros q Hq. by rewrite lookup_insert_ne.
  - split; [by rewrite lookup_insert_eq|]. split; [set_solver|].
    intros q Hq. rewrite lookup_insert_ne by done. set_solver.
Qed.

Lemma broadcast_all_spec ev t ps h :
  NoDup ps ->
  (forall p, p ∈ ps -> p ∈ h_watchers h /\ exists w, h_mem h !! p = Some w /\ w_closed w = false) ->
  exists h', broadcast_all ev t ps h = Some h' /\
    (forall p w, p ∈ ps -> h_mem h !! p = Some w ->
      h_mem h' !! p = Some (fst (deliver ev t w)) /\
      (p ∈ h_watchers h' <-> snd (deliver ev t w) = true)) /\
    (forall q, ~ q ∈ ps ->
      h_mem h' !! q = h_mem h !! q /\ (q ∈ h_watchers h' <-> q ∈ h_watchers h)).
Proof.
  intros Hnd. revert h. induction Hnd as [|p ps Hp Hnd IH]; intros h Hps.
  { exists h. split; [done|]. split; [|done]. intros p w Hin. by apply elem_of_nil in Hin. }
  destruct (Hps p ltac:(by left)) as (Hr & w & Hm & Hc).
  destruct (broadcast_one_open ev t p h w Hm Hc Hr) as (h1 & He & Hm1 & Hr1 & Ho).
  simpl. rewrite He. simpl.
  destruct (IH h1) as (h2 & He2 & Hin2 & Hout2).
  { intros q Hq. assert (q <> p) by (by intros ->). destruct (Ho q) as [Hmq Hrq]; [done|].
    rewrite Hmq, Hrq. apply Hps. by right. }
  exists h2. split; [done|]. split.
  - intros q w' [->|Hq]%elem_of_cons Hmq.
    + rewrite Hm in Hmq. simplify_eq. destruct (Hout2 p Hp) as [-> ->]. done.
    + assert (q <> p) by (by intros ->). apply Hin2; [done|]. by destruct (Ho q) as [-> _].
  - intros q Hq. apply not_elem_of_cons in Hq as [Hqp Hq].
    destruct (Hout2 q Hq) as [-> ->]. by apply Ho.
Qed.

Lemma removeWatcher_ok x p : hub_ok x ->
  exists h, removeWatcher p (x_hub x) = Some h /\ hub_ok (mkExec h (x_log x) (x_got x)).
Proof.
  intros [Hreg Hok]. unfold removeWatcher, drop_watcher. case_decide as Hp.
  2:{ eexists. split; [done|]. split; done. }
  destruct (Hreg p Hp) as [w Hm]. rewrite Hm. simpl.
  destruct (Hok p w Hm) as [Hl [(_ & Hc & Hlog)|(? & _)]]; [|done]. rewrite Hc.
  eexists. split; [done|]. split; simpl.
  - intros q Hq. destruct (decide (q = p)) as [->|]; [set_solver|].
    rewrite lookup_insert_ne by done. apply Hreg. set_solver.
  - intros q w' Hq. destruct (decide (q = p)) as [->|].
    + rewrite lookup_insert_eq in Hq. simplify_eq. split; [done|]. right.
      split; [set_solver|]. split; [done|]. simpl. by rewrite Hlog.
    + rewrite lookup_insert_ne in Hq by done. specialize (Hok q w' Hq).
      unfold watcher_ok in *. set_solver.
Qed.

Lemma broadcast_ok x ev t : hub_ok x ->
  exists h, broadcast ev t (x_hub x) = Some h /\
    hub_ok (mkExec h (log_event ev t (x_hub x) (x_log x)) (x_got x)).
Proof.
  intros [Hreg Hok]. unfold broadcast.
  destruct (broadcast_all_spec ev t (elements (h_watchers (x_hub x))) (x_hub x))
    as (h & He & Hin & Hout).
  { apply NoDup_elements. }
  { intros p Hp%elem_of_elements. split; [done|]. destruct (Hreg p Hp) as [w Hm].
    exists w. split; [done|]. by destruct (Hok p w Hm) as [_ [(_ & ? & _)|(? & _)]]. }
  exists h. split; [done|]. split; simpl.
  - intros p Hp. destruct (decide (p ∈ h_watchers (x_hub x))) as [Hr|Hr].
    + destruct (Hreg p Hr) as [w Hm]. destruct (Hin p w) as [-> _]; [by apply elem_of_elements|done|done].
    + destruct (Hout p) as [-> Hq]; [by rewrite elem_of_elements|]. apply Hreg. by apply Hq.
  - intros p w' Hm'. unfold log_event. destruct (decide (p ∈ h_watchers (x_hub x))) as [Hr|Hr].
    + destruct (Hreg p Hr) as [w Hm]. destruct (Hin p w) as [Hmh Hrh]; [by apply elem_of_elements|done|].
      rewrite Hmh in Hm'. simplify_eq. rewrite Hm.
      destruct (Hok p w Hm) as [Hl [(_ & Hc & Hlog)|(? & _)]]; [|done].
      unfold watcher_ok, deliver in *. destruct (wants _ _ _); simpl in *.
      * destruct (Nat.ltb_spec (length (w_ch w)) chan_cap); simpl in *.
        -- rewrite length_app. simpl. split; [lia|]. left. split; [tauto|]. split; [done|].
           by rewrite app_assoc, Hlog.
        -- split; [done|]. right. split; [rewrite Hrh; done|]. split; [done|].
           rewrite Hlog. by apply prefix_app_r.
      * split; [done|]. left. tauto.
    + destruct (Hout p) as [Hmh Hrh]; [by rewrite elem_of_elements|].
      rewrite Hmh in Hm'. rewrite Hm'.
      destruct (Hok p w' Hm') as [Hl [(? & _)|(_ & Hc & Hpre)]]; [done|].
      split; [done|]. right. split; [tauto|]. split; [done|].
      destruct (wants _ _ _); [|done]. by apply prefix_app_r.
Qed.

Lemma recv_ok x p ev h : hub_ok x -> recv p (x_hub x) = Got ev h ->
  hub_ok (mkExec h (x_log x) (<[p := x_got x p ++ [ev]]> (x_got x))).
Proof.
  intros [Hreg Hok]. unfold recv. destruct (h_mem (x_hub x) !! p) as [w|] eqn:Hm; [|done].
  destruct (w_ch w) as [|ev' ch] eqn:Hch; [by destruct (w_closed w)|]. intros [= -> <-].
  split; simpl.
  - intros q Hq. destruct (decide (q = p)) as [->|]; [by rewrite lookup_insert_eq|].
    rewrite lookup_insert_ne by done. by apply Hreg.
  - intros q w' Hq. destruct (decide (q = p)) as [->|].
    + rewrite lookup_insert_eq in Hq. simplify_eq. rewrite fn_lookup_insert.
      destruct (Hok p w Hm) as [Hl Hcase]. unfold watcher_ok. simpl.
      rewrite Hch in Hl, Hcase. simpl in Hl. split; [lia|]. by rewrite <- app_assoc.
    + rewrite lookup_insert_ne in Hq by done. rewrite fn_lookup_insert_ne by done. by apply Hok.
Qed.

Lemma hub_step_ok x op : hub_ok x -> exists x', hub_step x op = Some x' /\ hub_ok x'.
Proof.
  intros Hx. destruct op as [p c|p|ev t|p]; simpl.
  - destruct (h_mem (x_hub x) !! p) as [w|] eqn:Hm; [by exists x|].
    eexists. split; [done|]. destruct Hx as [Hreg Hok]. split; simpl.
    + intros q Hq. destruct (decide (q = p)) as [->|]; [by rewrite lookup_insert_eq|].
      rewrite lookup_insert_ne by done. apply Hreg. set_solver.
    + intros q w Hq. destruct (decide (q = p)) as [->|].
      * rewrite lookup_insert_eq in Hq. simplify_eq. rewrite !fn_lookup_insert.
        split; [simpl; lia|]. left. split; [set_solver|done].
      * rewrite lookup_insert_ne in Hq by done. rewrite !fn_lookup_insert_ne by done.
        specialize (Hok q w Hq). unfold watcher_ok in *. set_solver.
  - destruct (removeWatcher_ok x p Hx) as (h & -> & Hok). by eexists.
  - destruct (broadcast_ok x ev t Hx) as (h & -> & Hok). by eexists.
  - destruct (recv p (x_hub x)) eqn:Hr; [by exists x|by exists x|].
    eexists. split; [done|]. by apply recv_ok.
Qed.

Lemma hub_run_ok ops x : hub_ok x -> exists x', hub_run ops x = Some x' /\ hub_ok x'.
Proof.
  revert x. induction ops as [|op ops IH]; intros x Hx; [by exists x|].
  destruct (hub_step_ok x op Hx) as (x1 & He & Hx1). simpl. rewrite He. by apply IH.
Qed.

Lemma new_exec_ok : hub_ok new_exec.
Proof. split; simpl; [set_solver|]. intros p w Hp. by rewrite lookup_empty in Hp. Qed.

(** No step forgets a watcher or changes its configuration. *)
Definition same_conf (h h' : hub) : Prop :=
  forall p w, h_mem h !! p = Some w ->
    exists w', h_mem h' !! p = Some w' /\ w_conf w' = w_conf w.

Lemma same_conf_refl h : same_conf h h.
Proof. intros p w Hw. by exists w. Qed.

Lemma same_conf_trans h1 h2 h3 : same_conf h1 h2 -> same_conf h2 h3 -> same_conf h1 h3.
Proof.
  intros H1 H2 p w Hw. destruct (H1 p w Hw) as (w1 & Hw1 & <-). by apply H2.
Qed.

Lemma same_conf_insert h r p w ch b :
  h_mem h !! p = Some w ->
  same_conf h (mkHub r (<[p := mkWatcher (w_conf w) ch b]> (h_mem h))).
Proof.
  intros Hm q w' Hq. simpl. destruct (decide (q = p)) as [->|].
  - rewrite lookup_insert_eq. eexists. split; [done|]. simpl. congruence.
  - rewrite lookup_insert_ne by done. by exists w'.
Qed.

Lemma drop_watcher_conf p h h' : drop_watcher p h = Some h' -> same_conf h h'.
Proof.
  unfold drop_watcher. destruct (h_mem h !! p) as [w|] eqn:Hm; [|done]. simpl.
  destruct (w_closed w); [done|]. intros [= <-]. by apply same_conf_insert.
Qed.

Lemma broadcast_one_conf ev t p h h' : broadcast_one ev t p h = Some h' -> same_conf h h'.
Proof.
  unfold broadcast_one. destruct (h_mem h !! p) as [w|] eqn:Hm; [|done]. simpl.
  destruct (wants _ _ _); simpl; [|intros [= <-]; apply same_conf_refl].
  destruct (w_closed w); [done|]. destruct (_ <? _)%nat; [|apply drop_watcher_conf].
  intros [= <-]. by apply same_conf_insert.
Qed.

Lemma broadcast_all_conf ev t ps h h' : broadcast_all ev t ps h = Some h' -> same_conf h h'.
Proof.
  revert h. induction ps as [|p ps IH]; simpl; intros h.
  - intros [= <-]. apply same_conf_refl.
  - destruct (broadcast_one ev t p h) as [h1|] eqn:He; [|done]. simpl. intros H1%IH.
    eapply same_conf_trans; [by eapply broadcast_one_conf|done].
Qed.

(** What one step does to the record of a watcher in memory. *)
Lemma hub_step_frame x op x' p w :
  hub_step x op = Some x' -> h_mem (x_hub x) !! p = Some w ->
  (exists w', h_mem (x_hub x') !! p = Some w' /\ w_conf w' = w_conf w) /\
  x_log x' p = match op with
               | OpBroadcast ev t => if wants (w_conf w) ev t then x_log x p ++ [ev] else x_log x p
               | _ => x_log x p
               end.
Proof.
  intros He Hm. destruct op as [q c|q|ev t|q]; simpl in He.
  - destruct (h_mem (x_hub x) !! q) as [wq|] eqn:Hq; injection He as <-; simpl; [by eauto|].
    assert (p <> q) by congruence. rewrite lookup_insert_ne, fn_lookup_insert_ne by done. by eauto.
  - unfold removeWatcher in He. case_decide; [|by injection He as <-; eauto].
    destruct (drop_watcher q (x_hub x)) as [h|] eqn:Hd; [|done]. injection He as <-. simpl.
    split; [|done]. by apply (drop_watcher_conf _ _ _ Hd).
  - destruct (broadcast ev t (x_hub x)) as [h|] eqn:Hb; [|done]. injection He as <-. simpl.
    unfold log_event. rewrite Hm. split; [|done]. by apply (broadcast_all_conf _ _ _ _ _ Hb).
  - unfold recv in He. destruct (h_mem (x_hub x) !! q) as [wq|] eqn:Hq; [|by injection He as <-; eauto].
    destruct (w_ch wq) as [|ev ch]; [destruct (w_closed wq); injection He as <-; by eauto|].
    injection He as <-. simpl. split; [|done]. exact (same_conf_insert (x_hub x) (h_watchers (x_hub x)) q wq ch (w_closed wq) Hq p w Hm).
Qed.

(** [tracks p c x log]: the watcher [p] with configuration [c] has record [log]. *)
Record tracks (p : ptr) (c : W) (x : exec_state) (log : list E) : Prop := {
  tr_hub : hub_ok x;
  tr_conf : exists w, h_mem (x_hub x) !! p = Some w /\ w_conf w = c;
  tr_log : x_log x p = log
}.

Lemma tracks_step p c x log op :
  tracks p c x log ->
  exists x', hub_step x op = Some x' /\
    tracks p c x' (match op with
                   | OpBroadcast ev t => if wants c ev t then log ++ [ev] else log
                   | _ => log
                   end).
Proof.
  intros [Hok (w & Hm & Hc) Hlog]. destruct (hub_step_ok x op Hok) as (x' & He & Hok').
  destruct (hub_step_frame _ _ _ p w He Hm) as [(w' & Hm' & Hcw) Hlog'].
  exists x'. split; [done|]. split; [done|exists w'; by rewrite Hcw|].
  rewrite Hlog', <- Hlog, <- Hc. done.
Qed.

(** A freshly added watcher has an empty record. *)
Lemma tracks_add p c x :
  hub_ok x -> h_mem (x_hub x) !! p = None ->
  exists x', hub_step x (OpAdd p c) = Some x' /\ tracks p c x' [] /\ x_got x' p = [].
Proof.
  intros Hok Hm. destruct (hub_step_ok x (OpAdd p c) Hok) as (x' & He & Hok').
  exists x'. split; [done|]. simpl in He. rewrite Hm in He. injection He as <-. split.
  - split; simpl; [done| |by rewrite fn_lookup_insert].
    exists (new_watcher c). by rewrite lookup_insert_eq.
  - simpl. by rewrite fn_lookup_insert.
Qed.

(** While it is registered, received and buffered events are its record. *)
Lemma tracks_delivered p c x log w :
  tracks p c x log -> h_mem (x_hub x) !! p = Some w -> p ∈ h_watchers (x_hub x) ->
  x_got x p ++ w_ch w = log.
Proof.
  intros [[_ Hok] _ <-] Hm Hr. by destruct (Hok p w Hm) as [_ [(_ & _ & ?)|(? & _)]].
Qed.

(** Go ranges over a map in an arbitrary order: [broadcast] has the same effect
    whatever that order is. *)
Lemma broadcast_any_order x ev t ps :
  hub_ok x -> Permutation ps (elements (h_watchers (x_hub x))) ->
  broadcast_all ev t ps (x_hub x) = broadcast ev t (x_hub x).
Proof.
  intros [Hreg Hok] Hp. unfold broadcast. set (es := elements _) in *.
  assert (Hes : forall p, p ∈ es <-> p ∈ h_watchers (x_hub x)) by (intros; apply elem_of_elements).
  assert (Hopen : forall qs, Permutation qs es -> forall p, p ∈ qs ->
    p ∈ h_watchers (x_hub x) /\ exists w, h_mem (x_hub x) !! p = Some w /\ w_closed w = false).
  { intros qs Hqs p Hin. rewrite Hqs, Hes in Hin. split; [done|]. destruct (Hreg p Hin) as [w Hm].
    exists w. split; [done|]. by destruct (Hok p w Hm) as [_ [(_ & ? & _)|(? & _)]]. }
  assert (NoDup es) as Hnd by apply NoDup_elements.
  destruct (broadcast_all_spec ev t ps (x_hub x)) as (h1 & -> & Hin1 & Hout1);
    [by rewrite Hp|by apply Hopen|].
  destruct (broadcast_all_spec ev t es (x_hub x)) as (h2 & -> & Hin2 & Hout2);
    [done|by apply Hopen|].
  assert (Hsame : forall p, h_mem h1 !! p = h_mem h2 !! p /\
    (p ∈ h_watchers h1 <-> p ∈ h_watchers h2)).
  { intros p. destruct (decide (p ∈ es)) as [Hi|Hi].
    - destruct (Hreg p) as [w Hm]; [by apply Hes|].
      destruct (Hin1 p w) as [-> ->]; [by rewrite Hp|done|].
      destruct (Hin2 p w) as [-> ->]; done.
    - destruct (Hout1 p) as [-> ->]; [by rewrite Hp|]. by destruct (Hout2 p) as [-> ->]. }
  f_equal. destruct h1 as [r1 m1], h2 as [r2 m2]. simpl in *. f_equal.
  - apply set_eq. intros p. apply Hsame.
  - apply map_eq. intros p. apply Hsame.
Qed.

(** Draining a closed channel delivers what is buffered, then reports the drop. *)
Lemma watch_loop_drains p h w :
  h_mem h !! p = Some w -> w_closed w = true -> ~ p ∈ h_watchers h ->
  exists h', watch_loop (replicate (S (length (w_ch w))) (TurnRecv None)) p h =
    Some (h', w_ch w, Some (Some ErrSlowConsumer)).
Proof.
  intros Hm Hc Hr. remember (w_ch w) as ch eqn:Hch. revert h w Hm Hc Hr Hch.
  induction ch as [|ev ch IH]; intros h w Hm Hc Hr Hch.
  - exists h. simpl. unfold recv. rewrite Hm, <- Hch, Hc. simpl.
    unfold watch_return, removeWatcher. by rewrite decide_False.
  - destruct (IH (mkHub (h_watchers h) (<[p := mkWatcher (w_conf w) ch true]> (h_mem h)))
      (mkWatcher (w_conf w) ch true)) as [h' Hh']; [simpl; by rewrite lookup_insert_eq|done|done|done|].
    exists h'.
    assert (Ht : watch_loop_turn (TurnRecv None) p h = Some (inl
      (mkHub (h_watchers h) (<[p := mkWatcher (w_conf w) ch true]> (h_mem h)), [ev]))).
    { simpl. unfold recv. by rewrite Hm, <- Hch, Hc. }
    cbn [length]. rewrite replicate_S. cbn [watch_loop]. rewrite Ht.
    cbn [mbind option_bind]. by rewrite Hh'.
Qed.

(** ** Properties *)

(** C5. No execution of the watch hub panics (no send on a closed channel, no
    double close), whatever the interleaving of additions, removals, broadcasts
    and receives; and delivery is gapless: what a registered watcher has received
    plus what is buffered is exactly the events it wants since it was added, in
    order, while a watcher that is no longer registered has a closed channel and
    got a prefix of them. *)
Theorem hub_gapless (ops : list hub_op) :
  exists x, hub_run ops new_exec = Some x /\
  forall p w, h_mem (x_hub x) !! p = Some w ->
    (length (w_ch w) <= chan_cap)%nat /\
    if decide (p ∈ h_watchers (x_hub x))
    then w_closed w = false /\ x_got x p ++ w_ch w = x_log x p
    else w_closed w = true /\ (x_got x p ++ w_ch w) `prefix_of` x_log x p.
Proof.
  destruct (hub_run_ok ops new_exec new_exec_ok) as (x & He & _ & Hok).
  exists x. split; [done|]. intros p w Hm. destruct (Hok p w Hm) as [Hl Hc].
  split; [done|]. case_decide; tauto.
Qed.

(** C26. Drops are not silent: in every reachable state, a watcher that has missed
    an event it wants gets what is still buffered and then its stream ends with
    the slow-consumer error. *)
Theorem missed_event_reported (ops : list hub_op) (x : exec_state) (p : ptr) (w : watcher) :
  hub_run ops new_exec = Some x -> h_mem (x_hub x) !! p = Some w ->
  x_got x p ++ w_ch w <> x_log x p ->
  exists h', watch_loop (replicate (S (length (w_ch w))) (TurnRecv None)) p (x_hub x) =
    Some (h', w_ch w, Some (Some ErrSlowConsumer)).
Proof.
  intros He Hm Hne. destruct (hub_run_ok ops new_exec new_exec_ok) as (x' & He' & _ & Hok).
  rewrite He in He'. injection He' as <-.
  destruct (Hok p w Hm) as [_ [(_ & _ & ?)|(Hr & Hc & _)]]; [done|].
  by apply watch_loop_drains.
Qed.
End Hub.

Arguments watcher : clear implicits.
Arguments hub : clear implicits.
Arguments exec_state : clear implicits.
Arguments hub_op : clear implicits.

(** A watcher of every event with 65 events broadcast and none received. *)
Definition all_events : Watch unit nat := fun _ _ _ => true.

Definition flood : list (hub_op unit nat) :=
  OpAdd 1%positive tt :: map (fun n => OpBroadcast n "t"%string) (seq 0 65).

Lemma missed_event_reported_witness :
  exists x w h', hub_run (Watch0 := all_events) flood new_exec = Some x /\
    h_mem (x_hub x) !! 1%positive = Some w /\
    watch_loop (replicate 65 (TurnRecv None)) 1%positive (x_hub x) =
      Some (h', seq 0 64, Some (Some ErrSlowConsumer)).
Proof.
  assert (Hv : (fun x => (w_ch <$> h_mem (x_hub x) !! 1%positive, x_log x 1%positive,
      x_got x 1%positive)) <$> hub_run (Watch0 := all_events) flood new_exec =
    Some (Some (seq 0 64), seq 0 65, [])) by (vm_compute; reflexivity).
  pose proof (missed_event_reported (Watch0 := all_events) flood) as Hthm.
  revert Hv Hthm. generalize (hub_run (Watch0 := all_events) flood new_exec).
  intros [x|] Hv Hthm; [|discriminate Hv]. simpl in Hv. injection Hv as Hw Hlog Hgot.
  destruct (h_mem (x_hub x) !! 1%positive) as [w|] eqn:Hm; [|discriminate Hw].
  injection Hw as Hch. destruct (Hthm x 1%positive w eq_refl Hm) as [h' Hh'].
  - rewrite Hlog, Hgot, Hch. discriminate.
  - rewrite Hch in Hh'. exists x, w, h'. done.
Defined.
