(* ===== verification/Registry.v ===== *)
(** * The service registry server: pkg/registry/server.go

    The handlers run over the database of [Store] and the watch hub of [Hub].
    The messages are the structs of lib/control/v1/registry.pb.go.  Logging is
    left out.  A handler returns [None] only if it panics.  The main result
    relates the two components: a watcher that follows the event stream holds
    the same bindings as the database. *)

From Stdlib Require Import ZArith Lia.
From stdpp Require Import base tactics list strings gmap sets.
From stdpp Require functions.
From S2P Require Import Prelude Store Hub.

Local Open Scope Z_scope.

(** ** Messages of registry.pb.go *)
Inductive EventKind :=
| EVENT_KIND_UNSPECIFIED
| EVENT_KIND_REGISTER
| EVENT_KIND_DEREGISTER.

Record RegisterServiceRequest := mkRegisterReq {
  rq_Tenant : string;
  rq_ServiceName : string;
  rq_AgentUri : string;
  rq_RelayId : string;
  rq_LocalAddr : string
}.

Record DeregisterAgentRequest := mkDeregisterReq {
  dq_Tenant : string;
  dq_AgentUri : string;
  dq_RelayId : string
}.

Record ResolveRequest := mkResolveReq {
  sq_Tenant : string;
  sq_ServiceName : string;
  sq_CallerRegion : string
}.

Record Provider := mkProvider {
  pv_ServiceId : string;
  pv_AgentUri : string;
  pv_RelayId : string;
  pv_LocalAddr : string;
  pv_UpdatedAtUnixMs : Z;
  pv_RelayEndpoint : string
}.

Record WatchRequest := mkWatchReq {
  wq_Tenant : string;
  wq_ServiceNames : list string
}.

Record WatchEvent := mkWatchEvent {
  ev_Kind : EventKind;
  ev_Provider : Provider;
  ev_ServiceName : string
}.

Record UpsertRelayRequest := mkUpsertRelayReq {
  uq_Id : string;
  uq_Region : string;
  uq_Endpoint : string
}.

(** ** Watchers *)

(** [nameSet]: no names give the nil map. *)
Definition nameSet (names : list string) : gset string := list_to_set names.

Record watch_conf := mkConf {
  wc_id : Z;
  wc_tenant : string;
  wc_filter : gset string
}.

(** The tests of [broadcast] before the send. *)
#[global] Instance registry_watch : Watch watch_conf WatchEvent := fun w ev tenant =>
  (String.eqb (wc_tenant w) "" || String.eqb (wc_tenant w) tenant) &&
  (bool_decide (wc_filter w = ∅) || bool_decide (ev_ServiceName ev ∈ wc_filter w)).

(** ** The server *)
Record Server := mkServer {
  srv_db : db;
  srv_hub : exec_state watch_conf WatchEvent;
  srv_nextWatch : Z
}.

Definition New (d : db) : Server := mkServer d new_exec 0.

Inductive reg_err :=
| ErrMissingField
| ErrRelayFieldsRequired
| ErrStore (e : store_err).

Definition srv_broadcast (ev : WatchEvent) (tenant : string) (s : Server) : option Server :=
  x ← hub_step (srv_hub s) (OpBroadcast ev tenant);
  Some (mkServer (srv_db s) x (srv_nextWatch s)).

Definition set_db (d : db) (s : Server) : Server := mkServer d (srv_hub s) (srv_nextWatch s).

(** The faults and clock readings of the two statements the handler runs. *)
Record two_stmts := mkStmts { st_f1 : fault; st_now1 : Z; st_f2 : fault; st_now2 : Z }.

Definition RegisterService (c : two_stmts) (req : RegisterServiceRequest) (s : Server)
  : option (res reg_err string * Server) :=
  if String.eqb (rq_Tenant req) "" || String.eqb (rq_ServiceName req) "" ||
     String.eqb (rq_AgentUri req) "" || String.eqb (rq_RelayId req) ""
  then Some (Err ErrMissingField, s)
  else
    let '(r1, d1) := UpsertAgent (st_f1 c) (st_now1 c) (rq_Tenant req) (rq_AgentUri req) (srv_db s) in
    match r1 with
    | Err e => Some (Err (ErrStore e), set_db d1 s)
    | Ok _ =>
      let '(r2, d2) := Store.RegisterService (st_f2 c) (st_now2 c)
        (mkService "" (rq_Tenant req) (rq_ServiceName req) (rq_AgentUri req) (rq_RelayId req) ""
           (rq_LocalAddr req) "" 0) d1 in
      match r2 with
      | Err e => Some (Err (ErrStore e), set_db d2 s)
      | Ok id =>
        s' ← srv_broadcast
          (mkWatchEvent EVENT_KIND_REGISTER
             (mkProvider id (rq_AgentUri req) (rq_RelayId req) (rq_LocalAddr req) 0 "")
             (rq_ServiceName req)) (rq_Tenant req) (set_db d2 s);
        Some (Ok id, s')
      end
    end.

Definition dereg_event (svc : Service) : WatchEvent :=
  mkWatchEvent EVENT_KIND_DEREGISTER
    (mkProvider (ID svc) (AgentURI svc) (RelayID svc) "" 0 "") (Name svc).

(** The loop over the removed services. *)
Fixpoint broadcast_removed (removed : list Service) (tenant : string) (s : Server) : option Server :=
  match removed with
  | [] => Some s
  | svc :: removed' =>
    s' ← srv_broadcast (dereg_event svc) tenant s; broadcast_removed removed' tenant s'
  end.

Definition DeregisterAgent (fq fr fd : fault) (req : DeregisterAgentRequest) (s : Server)
  : option (res reg_err unit * Server) :=
  let '(r, d) := Store.DeregisterAgent fq fr fd (dq_Tenant req) (dq_AgentUri req) (dq_RelayId req)
    (srv_db s) in
  match r with
  | Err e => Some (Err (ErrStore e), set_db d s)
  | Ok removed =>
    s' ← broadcast_removed removed (dq_Tenant req) (set_db d s);
    Some (Ok tt, s')
  end.

(** An empty list of providers is the answer for an unknown service. *)
Definition Resolve `{OrderBy} (f : fault) (req : ResolveRequest) (s : Server)
  : res reg_err (list Provider) :=
  match ResolveService f (sq_Tenant req) (sq_ServiceName req) (sq_CallerRegion req) (srv_db s) with
  | Err ErrNotFound => Ok []
  | Err e => Err (ErrStore e)
  | Ok svc =>
    Ok [mkProvider (ID svc) (AgentURI svc) (RelayID svc) (LocalAddr svc) (UpdatedAtUnixMs svc)
          (RelayEndpoint svc)]
  end.

Definition UpsertRelay (f : fault) (now : Z) (req : UpsertRelayRequest) (s : Server)
  : res reg_err unit * Server :=
  if String.eqb (uq_Id req) "" || String.eqb (uq_Endpoint req) ""
  then (Err ErrRelayFieldsRequired, s)
  else
    let '(r, d) := Store.UpsertRelay f now (uq_Id req) (uq_Region req) (uq_Endpoint req) (srv_db s) in
    match r with
    | Err e => (Err (ErrStore e), set_db d s)
    | Ok _ => (Ok tt, set_db d s)
    end.

(** The head of [Watch]: the watcher is allocated at the fresh address [p] and
    added.  The loop that follows is [watch_loop] of [Hub]. *)
Definition Watch_start (p : ptr) (req : WatchRequest) (s : Server) : option Server :=
  let id := u64 (srv_nextWatch s + 1) in
  x ← hub_step (srv_hub s) (OpAdd p (mkConf id (wq_Tenant req) (nameSet (wq_ServiceNames req))));
  Some (mkServer (srv_db s) x id).

(** ** Executions: handler calls and steps of the watch streams *)
Inductive call :=
| CallRegister (c : two_stmts) (req : RegisterServiceRequest)
| CallDeregister (fq fr fd : fault) (req : DeregisterAgentRequest)
| CallUpsertRelay (f : fault) (now : Z) (req : UpsertRelayRequest)
| CallWatch (p : ptr) (req : WatchRequest)
| CallRecv (p : ptr)
| CallUnwatch (p : ptr).

Definition hub_only (op : hub_op watch_conf WatchEvent) (s : Server) : option Server :=
  x ← hub_step (srv_hub s) op; Some (mkServer (srv_db s) x (srv_nextWatch s)).

Definition srv_step (s : Server) (c : call) : option Server :=
  match c with
  | CallRegister c req => snd <$> RegisterService c req s
  | CallDeregister fq fr fd req => snd <$> DeregisterAgent fq fr fd req s
  | CallUpsertRelay f now req => Some (snd (UpsertRelay f now req s))
  | CallWatch p req => Watch_start p req s
  | CallRecv p => hub_only (OpRecv p) s
  | CallUnwatch p => hub_only (OpRemove p) s
  end.

Fixpoint srv_run (cs : list call) (s : Server) : option Server :=
  match cs with
  | [] => Some s
  | c :: cs' => s' ← srv_step s c; srv_run cs' s'
  end.

(** ** The view of a watcher

    A client keeps, per service name, the agent and relay of the last event. *)
Definition binding : Type := string * string.

Definition apply_event (m : string -> option binding) (ev : WatchEvent) : string -> option binding :=
  fun n =>
    if String.eqb n (ev_ServiceName ev) then
      match ev_Kind ev with
      | EVENT_KIND_REGISTER => Some (pv_AgentUri (ev_Provider ev), pv_RelayId (ev_Provider ev))
      | EVENT_KIND_DEREGISTER => None
      | EVENT_KIND_UNSPECIFIED => m n
      end
    else m n.

Definition replay (m : string -> option binding) (evs : list WatchEvent) : string -> option binding :=
  fold_left apply_event evs m.

(** What the database binds a name to. *)
Definition bound (t n : string) (d : db) : option binding :=
  (fun s => (sv_agent_uri s, sv_relay_id s)) <$>
    head (List.filter (service_match t n) (db_services d)).

(** ** Lemmas *)
Lemma bound_ext t n d d' : db_services d = db_services d' -> bound t n d = bound t n d'.
Proof. unfold bound. by intros ->. Qed.

Lemma bound_register f now svc d id d' t n :
  db_wf d -> Store.RegisterService f now svc d = (Ok id, d') ->
  bound t n d' = if String.eqb (Tenant svc) t && String.eqb (Name svc) n
                 then Some (AgentURI svc, RelayID svc) else bound t n d.
Proof.
  intros Hd [_ ->]%RegisterService_ok. unfold bound. simpl.
  destruct (String.eqb (Tenant svc) t && String.eqb (Name svc) n) eqn:E.
  - bool_split. subst t n.
    destruct (upsert_filter_same sv_key update_service_row (new_row now svc) (db_services d)
      (service_match (Tenant svc) (Name svc))) as (r & -> & [->|(old & _ & _ & ->)]); try done.
    + intros x. by rewrite service_match_key.
    + apply Hd.
  - rewrite service_filter_upsert_other; [done|]. intros [= -> ->].
    by rewrite !String.eqb_refl in E.
Qed.

Lemma bound_deregister fq fr fd t a r d removed d' t' n :
  db_wf d -> Store.DeregisterAgent fq fr fd t a r d = (Ok removed, d') ->
  bound t' n d' =
    if existsb (fun s => String.eqb (Tenant s) t' && String.eqb (Name s) n) removed
    then None else bound t' n d.
Proof.
  intros Hd E. unfold Store.DeregisterAgent, dereg_select in E. destruct fq, fr; try done.
  unfold dereg_delete, Store.exec in E. destruct fd; simplify_eq.
  unfold bound. simpl. rewrite existsb_scan, filter_swap, existsb_andb_filter.
  destruct (lookup_service_le1 t' n d Hd) as [->|[s ->]]; simpl; [done|].
  by destruct (dereg_match t a r s).
Qed.

Lemma DeregisterAgent_tenant fq fr fd t a r d removed d' :
  Store.DeregisterAgent fq fr fd t a r d = (Ok removed, d') ->
  Forall (fun s => Tenant s = t) removed.
Proof.
  intros E. unfold Store.DeregisterAgent, dereg_select in E. destruct fq, fr; try done.
  unfold dereg_delete, Store.exec in E. destruct fd; simplify_eq.
  apply Forall_fmap, Forall_forall. intros s [_ Hs]%list_elem_of_In%filter_In. simpl.
  unfold dereg_match in Hs. by bool_split.
Qed.

Lemma replay_snoc m evs ev : replay m (evs ++ [ev]) = apply_event (replay m evs) ev.
Proof. unfold replay. by rewrite fold_left_app. Qed.

(** The names a watcher with filter [F] is told about. *)
Definition sees (F : gset string) (n : string) : bool := bool_decide (F = ∅) || bool_decide (n ∈ F).

Lemma sees_names names n : names = [] \/ n ∈ names -> sees (nameSet names) n = true.
Proof.
  unfold sees, nameSet. intros [->|Hn]; [done|]. apply orb_true_intro. right.
  by apply bool_decide_eq_true, elem_of_list_to_set.
Qed.

(** The watcher [p] of tenant [t] with the filter [F], started from the view [m], has
    now been sent what leads to [view] on the names it is told about. *)
Record watching (t : string) (p : ptr) (F : gset string) (m view : string -> option binding)
    (x : exec_state watch_conf WatchEvent) : Prop := {
  wa_hub : hub_ok x;
  wa_conf : exists w, h_mem (x_hub x) !! p = Some w /\
    wc_tenant (w_conf w) = t /\ wc_filter (w_conf w) = F;
  wa_view : forall n, sees F n = true -> replay m (x_log x p) n = view n
}.

Lemma watching_ext t p F m view view' x :
  (forall n, view n = view' n) -> watching t p F m view x -> watching t p F m view' x.
Proof. intros He [Hok Hc Hv]. split; try done. intros n Hn. by rewrite Hv. Qed.

Lemma watching_quiet t p F m view x op :
  watching t p F m view x -> (forall ev tn, op <> OpBroadcast ev tn) ->
  exists x', hub_step x op = Some x' /\ watching t p F m view x'.
Proof.
  intros [Hok (w & Hm & Hc) Hv] Hop. destruct (hub_step_ok _ op Hok) as (x' & He & Hok').
  destruct (hub_step_frame _ _ _ p w He Hm) as [(w' & Hm' & Hcw) Hlog].
  exists x'. split; [done|]. split; [done|exists w'; by rewrite Hcw|].
  intros n Hn. rewrite Hlog, <- Hv by done. destruct op; try done. by destruct (Hop ev tenant).
Qed.

Lemma watching_broadcast t p F m view s ev tn :
  t <> ""%string -> watching t p F m view (srv_hub s) ->
  exists s', srv_broadcast ev tn s = Some s' /\ srv_db s' = srv_db s /\
    watching t p F m (fun n => if String.eqb t tn then apply_event view ev n else view n) (srv_hub s').
Proof.
  intros Ht [Hok (w & Hm & Hc & Hf) Hv].
  destruct (hub_step_ok _ (OpBroadcast ev tn) Hok) as (x & He & Hok').
  destruct (hub_step_frame _ _ _ p w He Hm) as [(w' & Hm' & Hcw) Hlog].
  unfold srv_broadcast. rewrite He. eexists. split; [done|]. split; [done|].
  split; simpl; [done|exists w'; by rewrite Hcw|].
  intros n Hn. rewrite Hlog. unfold wants, registry_watch. rewrite Hc, Hf.
  rewrite (proj2 (String.eqb_neq t "")) by done. simpl. destruct (String.eqb_spec t tn) as [->|]; [|by apply Hv].
  cbn [andb]. fold (sees F (ev_ServiceName ev)). destruct (sees F (ev_ServiceName ev)) eqn:Es.
  - rewrite replay_snoc. unfold apply_event. by rewrite !Hv.
  - rewrite Hv by done. unfold apply_event. destruct (String.eqb_spec n (ev_ServiceName ev)) as [->|]; [congruence|done].
Qed.

Lemma watching_removed t p F m removed view s tn :
  t <> ""%string -> watching t p F m view (srv_hub s) ->
  exists s', broadcast_removed removed tn s = Some s' /\ srv_db s' = srv_db s /\
    watching t p F m (fun n => if String.eqb t tn && existsb (fun v => String.eqb (Name v) n) removed
                             then None else view n) (srv_hub s').
Proof.
  intros Ht. revert view s. induction removed as [|v removed IH]; intros view s Hw.
  { exists s. split; [done|]. split; [done|]. eapply watching_ext; [|done].
    intros n. by rewrite andb_false_r. }
  destruct (watching_broadcast t p F m view s (dereg_event v) tn Ht Hw) as (s1 & He & Hdb & Hw1).
  destruct (IH _ _ Hw1) as (s2 & He2 & Hdb2 & Hw2). exists s2. simpl. rewrite He. simpl.
  split; [done|]. split; [congruence|]. eapply watching_ext; [|done]. intros n. simpl.
  unfold apply_event. simpl. destruct (String.eqb_spec t tn) as [->|]; simpl; [|done].
  rewrite (String.eqb_sym n). destruct (String.eqb (Name v) n); simpl; [|done].
  by destruct (existsb _ removed).
Qed.

(** The invariant of the server: the watcher's view is the database's. *)
Definition follows (t : string) (p : ptr) (F : gset string) (m : string -> option binding) (s : Server) : Prop :=
  db_wf (srv_db s) /\ watching t p F m (fun n => bound t n (srv_db s)) (srv_hub s).

Lemma follows_set_db t p F m s d :
  follows t p F m s -> db_wf d -> db_services d = db_services (srv_db s) ->
  follows t p F m (set_db d s).
Proof.
  intros [_ Hw] Hd Hs. split; [done|]. eapply watching_ext; [|done].
  intros n. simpl. by apply bound_ext.
Qed.

Lemma follows_register t p F m c req s :
  t <> ""%string -> follows t p F m s ->
  exists r s', RegisterService c req s = Some (r, s') /\ follows t p F m s'.
Proof.
  intros Ht [Hwf Hw]. unfold RegisterService.
  destruct (_ || _ || _ || _); [by eexists _, _|].
  pose proof (db_step_wf _ (OpUpsertAgent (st_f1 c) (st_now1 c) (rq_Tenant req) (rq_AgentUri req)) Hwf)
    as Hwf1. simpl in Hwf1.
  destruct (UpsertAgent _ _ _ _ _) as [r1 d1] eqn:E1. simpl in Hwf1.
  assert (Hs1 : db_services d1 = db_services (srv_db s)).
  { unfold UpsertAgent, Store.exec in E1. by destruct (st_f1 c); simplify_eq. }
  destruct r1 as [[]|e]; [|eexists _, _; split; [done|]; by apply follows_set_db].
  set (svc := mkService _ _ _ _ _ _ _ _ _).
  destruct (Store.RegisterService _ _ svc d1) as [r2 d2] eqn:E2.
  pose proof (RegisterService_wf _ _ _ _ _ _ Hwf1 E2) as Hwf2.
  destruct r2 as [id|e].
  - destruct (watching_broadcast t p F m (fun n => bound t n d1) (set_db d2 s)
      (mkWatchEvent EVENT_KIND_REGISTER
         (mkProvider id (rq_AgentUri req) (rq_RelayId req) (rq_LocalAddr req) 0 "")
         (rq_ServiceName req)) (rq_Tenant req) Ht) as (s' & He & Hdb & Hw').
    { eapply watching_ext; [|exact Hw]. intros n. by apply bound_ext. }
    rewrite He. eexists _, _. split; [done|]. split; [by rewrite Hdb|].
    eapply watching_ext; [|exact Hw']. intros n. rewrite Hdb. simpl.
    rewrite (bound_register _ _ _ _ _ _ t n Hwf1 E2). simpl. unfold apply_event. simpl.
    rewrite (String.eqb_sym t), (String.eqb_sym n).
    by destruct (String.eqb (rq_Tenant req) t), (String.eqb (rq_ServiceName req) n).
  - apply RegisterService_error in E2 as [-> _]. eexists _, _. split; [done|].
    by apply follows_set_db.
Qed.

Lemma follows_deregister t p F m fq fr fd req s :
  t <> ""%string -> follows t p F m s ->
  exists r s', DeregisterAgent fq fr fd req s = Some (r, s') /\ follows t p F m s'.
Proof.
  intros Ht [Hwf Hw]. unfold DeregisterAgent.
  pose proof (db_step_wf _ (OpDeregister fq fr fd (dq_Tenant req) (dq_AgentUri req) (dq_RelayId req)) Hwf)
    as Hwf1. simpl in Hwf1.
  destruct (Store.DeregisterAgent _ _ _ _ _ _ _) as [[removed|e] d] eqn:E; simpl in Hwf1.
  - destruct (watching_removed t p F m removed _ (set_db d s) (dq_Tenant req) Ht Hw) as (s' & He & Hdb & Hw').
    rewrite He. eexists _, _. split; [done|]. split; [by rewrite Hdb|].
    eapply watching_ext; [|exact Hw']. intros n. rewrite Hdb. simpl.
    rewrite (bound_deregister _ _ _ _ _ _ _ _ _ t n Hwf E).
    pose proof (DeregisterAgent_tenant _ _ _ _ _ _ _ _ _ E) as Hten.
    assert (existsb (fun s0 => String.eqb (Tenant s0) t && String.eqb (Name s0) n) removed =
      String.eqb t (dq_Tenant req) && existsb (fun v => String.eqb (Name v) n) removed) as ->; [|done].
    clear -Hten. induction Hten as [|v removed Hv _ IH]; simpl; [by rewrite andb_false_r|].
    rewrite IH, Hv, (String.eqb_sym (dq_Tenant req)). by destruct (String.eqb t _).
  - eexists _, _. split; [done|]. apply follows_set_db; try done.
    unfold Store.DeregisterAgent, dereg_delete, Store.exec in E.
    by destruct (dereg_select _ _ _ _ _ _), fd; simplify_eq.
Qed.

Lemma srv_step_follows t p F m s c :
  t <> ""%string -> follows t p F m s -> exists s', srv_step s c = Some s' /\ follows t p F m s'.
Proof.
  intros Ht Hf.
  assert (Hq : forall op k, (forall ev tn, op <> OpBroadcast ev tn) ->
    exists x, hub_step (srv_hub s) op = Some x /\ follows t p F m (mkServer (srv_db s) x k)).
  { intros op k Hop. destruct Hf as [Hwf Hw]. destruct (watching_quiet _ _ _ _ _ _ op Hw Hop) as (x & He & Hx).
    exists x. split; [done|]. by split. }
  destruct c as [c req|fq fr fd req|f now req|q req|q|q]; simpl.
  - destruct (follows_register t p F m c req s Ht Hf) as (r & s' & -> & Hf'). by exists s'.
  - destruct (follows_deregister t p F m fq fr fd req s Ht Hf) as (r & s' & -> & Hf'). by exists s'.
  - eexists. split; [done|]. unfold UpsertRelay. destruct (_ || _); [done|].
    pose proof (db_step_wf _ (OpUpsertRelay f now (uq_Id req) (uq_Region req) (uq_Endpoint req)) (proj1 Hf))
      as Hwf1. simpl in Hwf1.
    destruct (Store.UpsertRelay _ _ _ _ _ _) as [r d] eqn:E. simpl in Hwf1.
    assert (db_services d = db_services (srv_db s)).
    { unfold Store.UpsertRelay, Store.exec in E. by destruct f; simplify_eq. }
    destruct r; by apply follows_set_db.
  - unfold Watch_start. destruct (Hq (OpAdd q (mkConf (u64 (srv_nextWatch s + 1)) (wq_Tenant req)
      (nameSet (wq_ServiceNames req)))) (u64 (srv_nextWatch s + 1)) ltac:(done)) as (x & -> & Hx).
    by eexists.
  - unfold hub_only. destruct (Hq (OpRecv q) (srv_nextWatch s) ltac:(done)) as (x & -> & Hx). by eexists.
  - unfold hub_only. destruct (Hq (OpRemove q) (srv_nextWatch s) ltac:(done)) as (x & -> & Hx). by eexists.
Qed.

Lemma srv_run_follows t p F m cs s :
  t <> ""%string -> follows t p F m s -> exists s', srv_run cs s = Some s' /\ follows t p F m s'.
Proof.
  intros Ht. revert s. induction cs as [|c cs IH]; intros s Hf; [by exists s|].
  destruct (srv_step_follows t p F m s c Ht Hf) as (s1 & He & Hf1). simpl. rewrite He. by apply IH.
Qed.

(** ** The server invariant without a watcher in view *)
Definition srv_ok (s : Server) : Prop := db_wf (srv_db s) /\ hub_ok (srv_hub s).

Lemma srv_broadcast_ok ev tn s :
  srv_ok s -> exists s', srv_broadcast ev tn s = Some s' /\ srv_ok s' /\ srv_db s' = srv_db s.
Proof.
  intros [Hwf Hok]. destruct (hub_step_ok _ (OpBroadcast ev tn) Hok) as (x & He & Hx).
  unfold srv_broadcast. rewrite He. by eexists.
Qed.

Lemma broadcast_removed_ok removed tn s :
  srv_ok s -> exists s', broadcast_removed removed tn s = Some s' /\ srv_ok s'.
Proof.
  revert s. induction removed as [|v removed IH]; intros s Hs; [by exists s|]. simpl.
  destruct (srv_broadcast_ok (dereg_event v) tn s Hs) as (s1 & -> & Hs1 & _). by apply IH.
Qed.

Lemma set_db_ok s d : srv_ok s -> db_wf d -> srv_ok (set_db d s).
Proof. by intros [_ Hok] Hd. Qed.

Lemma hub_only_ok op s : srv_ok s -> exists s', hub_only op s = Some s' /\ srv_ok s'.
Proof.
  intros [Hwf Hok]. destruct (hub_step_ok _ op Hok) as (x & He & Hx).
  unfold hub_only. rewrite He. by eexists.
Qed.

Lemma RegisterService_srv_ok c req s :
  srv_ok s -> exists r s', RegisterService c req s = Some (r, s') /\ srv_ok s'.
Proof.
  intros Hs. unfold RegisterService. destruct (_ || _ || _ || _); [by eexists _, _|].
  pose proof (db_step_wf _ (OpUpsertAgent (st_f1 c) (st_now1 c) (rq_Tenant req) (rq_AgentUri req))
    (proj1 Hs)) as Hwf1. simpl in Hwf1.
  destruct (UpsertAgent _ _ _ _ _) as [[[]|e] d1]; simpl in Hwf1;
    [|eexists _, _; split; [done|]; by apply set_db_ok].
  destruct (Store.RegisterService _ _ _ d1) as [r2 d2] eqn:E2.
  pose proof (RegisterService_wf _ _ _ _ _ _ Hwf1 E2) as Hwf2.
  destruct r2 as [id|e]; [|eexists _, _; split; [done|]; by apply set_db_ok].
  match goal with |- context [srv_broadcast ?ev ?tn ?st] =>
    destruct (srv_broadcast_ok ev tn st (set_db_ok s d2 Hs Hwf2)) as (s' & -> & Hs' & _) end.
  by eexists _, _.
Qed.

Lemma srv_step_ok s c : srv_ok s -> exists s', srv_step s c = Some s' /\ srv_ok s'.
Proof.
  intros Hs. destruct c as [c req|fq fr fd req|f now req|q req|q|q]; simpl.
  - destruct (RegisterService_srv_ok c req s Hs) as (r & s' & -> & Hs'). by eexists.
  - unfold DeregisterAgent.
    pose proof (db_step_wf _ (OpDeregister fq fr fd (dq_Tenant req) (dq_AgentUri req) (dq_RelayId req))
      (proj1 Hs)) as Hwf1. simpl in Hwf1.
    destruct (Store.DeregisterAgent _ _ _ _ _ _ _) as [[removed|e] d]; simpl in Hwf1.
    + destruct (broadcast_removed_ok removed (dq_Tenant req) (set_db d s)) as (s' & -> & Hs').
      { by apply set_db_ok. }
      by eexists.
    + eexists. split; [done|]. by apply set_db_ok.
  - eexists. split; [done|]. unfold UpsertRelay. destruct (_ || _); [done|].
    pose proof (db_step_wf _ (OpUpsertRelay f now (uq_Id req) (uq_Region req) (uq_Endpoint req)) (proj1 Hs))
      as Hwf1. simpl in Hwf1.
    destruct (Store.UpsertRelay _ _ _ _ _ _) as [[] d]; by apply set_db_ok.
  - unfold Watch_start. destruct Hs as [Hwf Hok].
    destruct (hub_step_ok _ (OpAdd q (mkConf (u64 (srv_nextWatch s + 1)) (wq_Tenant req)
      (nameSet (wq_ServiceNames req)))) Hok) as (x & -> & Hx). by eexists.
  - by apply hub_only_ok.
  - by apply hub_only_ok.
Qed.

Lemma srv_run_ok cs s : srv_ok s -> exists s', srv_run cs s = Some s' /\ srv_ok s'.
Proof.
  revert s. induction cs as [|c cs IH]; intros s Hs; [by exists s|].
  destruct (srv_step_ok s c Hs) as (s1 & He & Hs1). simpl. rewrite He. by apply IH.
Qed.

Lemma New_ok : srv_ok (New empty_db).
Proof. split; [apply empty_db_wf|apply new_exec_ok]. Qed.

(** A fresh watcher starts at the view of the database. *)
Lemma Watch_start_follows p t names s s' :
  srv_ok s -> h_mem (x_hub (srv_hub s)) !! p = None ->
  Watch_start p (mkWatchReq t names) s = Some s' ->
  follows t p (nameSet names) (fun n => bound t n (srv_db s)) s' /\ srv_db s' = srv_db s.
Proof.
  intros [Hwf Hok] Hm E. unfold Watch_start in E.
  match type of E with context [hub_step _ ?op] =>
    destruct (hub_step_ok _ op Hok) as (x & He & Hx) end.
  rewrite He in E. injection E as <-. split; [|done]. split; [done|].
  simpl in He. rewrite Hm in He. injection He as <-. split; simpl; [done| |].
  - eexists. rewrite lookup_insert_eq. split; [done|]. split; [done|]. done.
  - intros n _. by rewrite functions.fn_lookup_insert.
Qed.

(** ** Properties *)

(** C4. The registry's event stream refines its database, for handlers that run one at a
    time: take any state a server reaches from a database that satisfies the schema, let a
    client list the bindings of a tenant and start a watch for it, for some names or for
    all, and let any calls be handled afterwards, one after the other (registrations and
    deregistrations of any tenant, with driver faults, other watches, receives,
    removals).  No call panics, and as long as the watcher is registered, applying what
    it received and what is buffered for it to the listed bindings gives exactly the
    bindings of the database on every name it asked for (every name, if it named none). *)
Theorem watch_refines_store (cs0 cs : list call) (t : string) (names : list string) (p : ptr)
    (d : db) (s0 s1 : Server) :
  t <> ""%string -> db_wf d ->
  srv_run cs0 (New d) = Some s0 -> h_mem (x_hub (srv_hub s0)) !! p = None ->
  Watch_start p (mkWatchReq t names) s0 = Some s1 ->
  exists s2, srv_run cs s1 = Some s2 /\
    forall w n, h_mem (x_hub (srv_hub s2)) !! p = Some w -> p ∈ h_watchers (x_hub (srv_hub s2)) ->
      names = [] \/ n ∈ names ->
      replay (fun n => bound t n (srv_db s0)) (x_got (srv_hub s2) p ++ w_ch w) n =
        bound t n (srv_db s2).
Proof.
  intros Ht Hd H0 Hm H1. destruct (srv_run_ok cs0 (New d)) as (s0' & H0' & Hok0).
  { split; [done|apply new_exec_ok]. }
  rewrite H0 in H0'. injection H0' as <-.
  destruct (Watch_start_follows p t names s0 s1 Hok0 Hm H1) as [Hf _].
  destruct (srv_run_follows t p _ _ cs s1 Ht Hf) as (s2 & H2 & [_ [[_ Hok] _ Hv]]).
  exists s2. split; [done|]. intros w n Hw Hr Hn.
  destruct (Hok p w Hw) as [_ [(_ & _ & ->)|(? & _)]]; [|done]. by apply Hv, sees_names.
Qed.

Definition plain_stmts : two_stmts := mkStmts None 1 None 2.

(** One service exists, a watch for another name starts, both names register. *)
Lemma watch_refines_store_witness :
  let before := [CallRegister plain_stmts (mkRegisterReq "acme" "db" "a1" "r1" "")] in
  let after := [CallRegister plain_stmts (mkRegisterReq "acme" "db" "a2" "r1" "");
                CallRegister plain_stmts (mkRegisterReq "acme" "web" "a2" "r1" "")] in
  exists s0 s1 s2,
    srv_run before (New empty_db) = Some s0 /\
    Watch_start 1%positive (mkWatchReq "acme" ["web"]) s0 = Some s1 /\ srv_run after s1 = Some s2 /\
    forall w n, h_mem (x_hub (srv_hub s2)) !! 1%positive = Some w ->
      1%positive ∈ h_watchers (x_hub (srv_hub s2)) -> ["web"%string] = [] \/ n ∈ ["web"%string] ->
      replay (fun n => bound "acme" n (srv_db s0)) (x_got (srv_hub s2) 1%positive ++ w_ch w) n =
        bound "acme" n (srv_db s2).
Proof.
  intros before after. destruct (srv_run_ok before (New empty_db) New_ok) as (s0 & H0 & Hok0).
  assert (Hm : (fun s => h_mem (x_hub (srv_hub s)) !! 1%positive) <$> srv_run before (New empty_db) =
      Some None) by (vm_compute; reflexivity).
  rewrite H0 in Hm. injection Hm as Hm.
  destruct (srv_step_ok s0 (CallWatch 1%positive (mkWatchReq "acme" ["web"])) Hok0) as (s1 & H1 & _).
  destruct (watch_refines_store before after "acme" ["web"%string] 1%positive empty_db
    s0 s1 ltac:(discriminate) empty_db_wf H0 Hm H1) as (s2 & H2 & Hv).
  exists s0, s1, s2. split; [exact H0|]. split; [exact H1|]. split; [exact H2|exact Hv].
Defined.

(** Handler outcomes: a registration with an empty field is refused and changes
    nothing; one that is not refused and whose statements do not fault, in a
    server whose past registrations all had slash-free tenants, returns the id
    tenant, slash, name, and the next resolution from any region returns exactly
    that provider. *)
Theorem register_resolve_rpc `{OrderByLaws} (c : two_stmts) (req : RegisterServiceRequest)
    (region : string) (s : Server) :
  srv_ok s -> Forall row_default_id (db_services (srv_db s)) ->
  no_slash (rq_Tenant req) = true -> st_f1 c = None -> st_f2 c = None ->
  if String.eqb (rq_Tenant req) "" || String.eqb (rq_ServiceName req) "" ||
     String.eqb (rq_AgentUri req) "" || String.eqb (rq_RelayId req) ""
  then RegisterService c req s = Some (Err ErrMissingField, s)
  else exists s' endpoint,
    let id := (rq_Tenant req ++ "/" ++ rq_ServiceName req)%string in
    RegisterService c req s = Some (Ok id, s') /\
    Resolve None (mkResolveReq (rq_Tenant req) (rq_ServiceName req) region) s' =
      Ok [mkProvider id (rq_AgentUri req) (rq_RelayId req) (rq_LocalAddr req) (st_now2 c) endpoint].
Proof.
  intros Hs Hdef Hns Hf1 Hf2. unfold RegisterService. rewrite Hf1, Hf2.
  destruct (_ || _ || _ || _); [done|]. simpl UpsertAgent.
  set (d1 := snd (UpsertAgent None (st_now1 c) (rq_Tenant req) (rq_AgentUri req) (srv_db s))).
  assert (Hwf1 : db_wf d1)
    by (apply (db_step_wf _ (OpUpsertAgent None (st_now1 c) (rq_Tenant req) (rq_AgentUri req))), Hs).
  unfold UpsertAgent, Store.exec. simpl wrap.
  set (svc := mkService "" _ _ _ _ _ _ _ _).
  change (mkDb _ (db_services (srv_db s)) _ _ _) with d1.
  destruct (Store.RegisterService None (st_now2 c) svc d1) as [r2 d2] eqn:E2.
  pose proof (RegisterService_wf _ _ _ _ _ _ Hwf1 E2) as Hwf2.
  destruct r2 as [id|e].
  - pose proof (RegisterService_ok _ _ _ _ _ _ E2) as [-> Hd2].
    match goal with |- context [srv_broadcast ?ev ?tn ?st] =>
      destruct (srv_broadcast_ok ev tn st (set_db_ok s d2 Hs Hwf2)) as (s' & -> & Hs' & Hdb) end.
    eexists s', _. split; [done|]. unfold Resolve. cbn [sq_Tenant sq_ServiceName sq_CallerRegion].
    rewrite ResolveService_spec by (by destruct Hs'). rewrite Hdb. unfold resolve_spec.
    cbn [srv_db set_db]. rewrite Hd2. cbn [db_services with_services].
    assert (Hdef2 : Forall row_default_id (upsert sv_key update_service_row (new_row (st_now2 c) svc) (db_services d1)))
      by (by apply upsert_default_id).
    destruct (upsert_filter_same sv_key update_service_row (new_row (st_now2 c) svc) (db_services d1)
      (service_match (rq_Tenant req) (rq_ServiceName req))) as (r & Hr & Hcase);
      [intros x; by rewrite service_match_key|done|apply Hwf1|].
    assert (Hrd : row_default_id r).
    { rewrite Forall_forall in Hdef2. apply Hdef2. apply list_elem_of_In.
      eapply (filter_In (service_match (rq_Tenant req) (rq_ServiceName req))).
      rewrite Hr. by left. }
    rewrite Hr. destruct Hcase as [->|(old & _ & Hk & ->)]; [done|].
    destruct Hrd as [Hid _]. injection Hk as Hkt Hkn. simpl in Hid. rewrite Hkt, Hkn in Hid.
    unfold scan_service. simpl. by rewrite Hid.
  - exfalso. apply RegisterService_error in E2 as (_ & [?|(_ & Hk & Hi)]); [done|].
    apply list_elem_of_fmap in Hi as (v & Hv & Hin). apply Hk.
    rewrite Forall_forall in Hdef. destruct (Hdef v Hin) as [Hvid Hvns].
    rewrite Hvid in Hv. apply default_id_inj in Hv as [Ht Hn]; [|done..].
    simpl in Ht, Hn |- *. rewrite Ht, Hn. by apply (list_elem_of_fmap_2 sv_key).
Qed.

Lemma register_resolve_rpc_witness :
  exists s' endpoint,
    RegisterService plain_stmts (mkRegisterReq "acme" "db" "a1" "r1" "addr") (New empty_db) =
      Some (Ok "acme/db"%string, s') /\
    Resolve None (mkResolveReq "acme" "db" "eu") s' =
      Ok [mkProvider "acme/db" "a1" "r1" "addr" 2 endpoint].
Proof.
  apply (register_resolve_rpc plain_stmts (mkRegisterReq "acme" "db" "a1" "r1" "addr") "eu" (New empty_db));
    [apply New_ok|constructor|reflexivity|reflexivity|reflexivity].
Defined.
