(* ===== verification/RegistryConc.v ===== *)
(** * Registry handlers under concurrency: pkg/registry/server.go

    gRPC runs every handler in its own goroutine, and a handler is not atomic: each
    SQL statement and each broadcast is a step of its own, because the store and the
    watcher set have separate locks.  This file splits the handlers of [Registry]
    into these steps, runs any number of them interleaved, and proves
    - that a handler running alone is the handler of [Registry];
    - under which interleavings the watchers end with the bindings of the database,
      and what goes wrong under the others. *)

From Stdlib Require Import ZArith Lia.
From stdpp Require Import base tactics list strings gmap sets.
From S2P Require Import Prelude Store Hub Registry.

Local Open Scope Z_scope.

(** ** Handlers as threads *)
Inductive outcome :=
| Registered (r : res reg_err string)
| Deregistered (r : res reg_err unit).

(** Where a handler stands: before a statement, or with events still to send. *)
Inductive thread :=
| RegStart (c : two_stmts) (req : RegisterServiceRequest)
| RegAgent (c : two_stmts) (req : RegisterServiceRequest)
| RegSend (id : string) (req : RegisterServiceRequest)
| DeregStart (fq fr fd : fault) (req : DeregisterAgentRequest)
| DeregSelected (fd : fault) (req : DeregisterAgentRequest) (removed : list Service)
| DeregSend (req : DeregisterAgentRequest) (removed : list Service)
| Done (o : outcome).

(** The handler's guard, before its first statement. *)
Definition start_register (c : two_stmts) (req : RegisterServiceRequest) : thread :=
  if String.eqb (rq_Tenant req) "" || String.eqb (rq_ServiceName req) "" ||
     String.eqb (rq_AgentUri req) "" || String.eqb (rq_RelayId req) ""
  then Done (Registered (Err ErrMissingField)) else RegStart c req.

Definition reg_service (req : RegisterServiceRequest) : Service :=
  mkService "" (rq_Tenant req) (rq_ServiceName req) (rq_AgentUri req) (rq_RelayId req) ""
    (rq_LocalAddr req) "" 0.

Definition reg_event (id : string) (req : RegisterServiceRequest) : WatchEvent :=
  mkWatchEvent EVENT_KIND_REGISTER
    (mkProvider id (rq_AgentUri req) (rq_RelayId req) (rq_LocalAddr req) 0 "") (rq_ServiceName req).

(** One atomic step; [None] is a panic.  A finished handler does nothing. *)
Definition thread_step (th : thread) (s : Server) : option (thread * Server) :=
  match th with
  | RegStart c req =>
    let '(r, d) := UpsertAgent (st_f1 c) (st_now1 c) (rq_Tenant req) (rq_AgentUri req) (srv_db s) in
    Some (match r with
          | Err e => Done (Registered (Err (ErrStore e)))
          | Ok _ => RegAgent c req
          end, set_db d s)
  | RegAgent c req =>
    let '(r, d) := Store.RegisterService (st_f2 c) (st_now2 c) (reg_service req) (srv_db s) in
    Some (match r with
          | Err e => Done (Registered (Err (ErrStore e)))
          | Ok id => RegSend id req
          end, set_db d s)
  | RegSend id req =>
    s' ← srv_broadcast (reg_event id req) (rq_Tenant req) s; Some (Done (Registered (Ok id)), s')
  | DeregStart fq fr fd req =>
    Some (match dereg_select fq fr (dq_Tenant req) (dq_AgentUri req) (dq_RelayId req) (srv_db s) with
          | Err e => Done (Deregistered (Err (ErrStore e)))
          | Ok removed => DeregSelected fd req removed
          end, s)
  | DeregSelected fd req removed =>
    let '(r, d) := dereg_delete fd (dq_Tenant req) (dq_AgentUri req) (dq_RelayId req) (srv_db s) in
    Some (match r with
          | Err e => Done (Deregistered (Err (ErrStore (ErrWrap "store: delete services" e))))
          | Ok _ => DeregSend req removed
          end, set_db d s)
  | DeregSend req [] => Some (Done (Deregistered (Ok tt)), s)
  | DeregSend req (svc :: removed) =>
    s' ← srv_broadcast (dereg_event svc) (dq_Tenant req) s; Some (DeregSend req removed, s')
  | Done o => Some (Done o, s)
  end.

(** A handler that runs alone. *)
Fixpoint run_thread (fuel : nat) (th : thread) (s : Server) : option (thread * Server) :=
  match fuel with
  | O => Some (th, s)
  | S n => '(th', s') ← thread_step th s; run_thread n th' s'
  end.

(** ** Interleaved executions *)
Record conf := mkConfig { cf_srv : Server; cf_threads : gmap Z thread }.

Inductive label :=
| LRegister (k : Z) (c : two_stmts) (req : RegisterServiceRequest)
| LDeregister (k : Z) (fq fr fd : fault) (req : DeregisterAgentRequest)
| LStep (k : Z)
| LUpsertRelay (f : fault) (now : Z) (req : UpsertRelayRequest)
| LWatch (p : ptr) (req : WatchRequest)
| LRecv (p : ptr)
| LUnwatch (p : ptr).

Definition spawn (k : Z) (th : thread) (c : conf) : conf :=
  match cf_threads c !! k with
  | Some _ => c
  | None => mkConfig (cf_srv c) (<[k := th]> (cf_threads c))
  end.

Definition with_srv (c : conf) (s : Server) : conf := mkConfig s (cf_threads c).

Definition conf_step (l : label) (c : conf) : option conf :=
  match l with
  | LRegister k st req => Some (spawn k (start_register st req) c)
  | LDeregister k fq fr fd req => Some (spawn k (DeregStart fq fr fd req) c)
  | LStep k =>
    match cf_threads c !! k with
    | None => Some c
    | Some th => '(th', s') ← thread_step th (cf_srv c);
                 Some (mkConfig s' (<[k := th']> (cf_threads c)))
    end
  | LUpsertRelay f now req => with_srv c <$> srv_step (cf_srv c) (CallUpsertRelay f now req)
  | LWatch p req => with_srv c <$> srv_step (cf_srv c) (CallWatch p req)
  | LRecv p => with_srv c <$> srv_step (cf_srv c) (CallRecv p)
  | LUnwatch p => with_srv c <$> srv_step (cf_srv c) (CallUnwatch p)
  end.

Fixpoint conf_run (ls : list label) (c : conf) : option conf :=
  match ls with
  | [] => Some c
  | l :: ls' => c' ← conf_step l c; conf_run ls' c'
  end.

Definition new_conf : conf := mkConfig (New empty_db) ∅.

(** ** Announcements still to come

    What a thread will tell the watchers of tenant [t]: names with the binding (or
    its absence) the event carries. *)
Definition claims (t : string) (th : thread) : list (string * option binding) :=
  match th with
  | RegSend _ req =>
    if String.eqb (rq_Tenant req) t
    then [(rq_ServiceName req, Some (rq_AgentUri req, rq_RelayId req))] else []
  | DeregSend req removed =>
    if String.eqb (dq_Tenant req) t then map (fun svc => (Name svc, None)) removed else []
  | _ => []
  end.

(** No thread has yet to announce a change of [n]. *)
Definition settled (t n : string) (c : conf) : bool :=
  forallb (fun kt => forallb (fun nb => negb (String.eqb (fst nb) n)) (claims t (snd kt)))
    (map_to_list (cf_threads c)).

(** The names a deregistration would remove now. *)
Definition selected_names (req : DeregisterAgentRequest) (d : db) : list string :=
  map sv_name (List.filter (dereg_match (dq_Tenant req) (dq_AgentUri req) (dq_RelayId req)) (db_services d)).

(** The steps of tenant [t] that keep its handlers apart: a write to a name waits for
    the announcement of the previous one, and a delete removes what was selected. *)
Definition serial_step (t : string) (l : label) (c : conf) : bool :=
  match l with
  | LStep k =>
    match cf_threads c !! k with
    | Some (RegAgent _ req) =>
      negb (String.eqb (rq_Tenant req) t) || settled t (rq_ServiceName req) c
    | Some (DeregSelected _ req removed) =>
      negb (String.eqb (dq_Tenant req) t) ||
      (bool_decide (map Name removed = selected_names req (srv_db (cf_srv c))) &&
       forallb (fun n => settled t n c) (map Name removed))
    | _ => true
    end
  | _ => true
  end.

Fixpoint serial_run (t : string) (ls : list label) (c : conf) : bool :=
  match ls with
  | [] => true
  | l :: ls' =>
    serial_step t l c && match conf_step l c with Some c' => serial_run t ls' c' | None => true end
  end.

(** ** Consistency of database, announcements and view, abstractly *)
Record consistent (bnd : string -> option binding) (cls : Z -> list (string * option binding))
    (view : string -> option binding) : Prop := {
  co_claim : forall k n b, (n, b) ∈ cls k -> bnd n = b;
  co_one : forall k1 k2 n b1 b2, (n, b1) ∈ cls k1 -> (n, b2) ∈ cls k2 -> k1 = k2;
  co_nodup : forall k, NoDup (fst <$> cls k);
  co_view : forall n, (forall k b, (n, b) ∉ cls k) -> view n = bnd n
}.

Lemma consistent_ext bnd bnd' cls cls' view view' :
  (forall n, bnd n = bnd' n) -> (forall k, cls k = cls' k) -> (forall n, view n = view' n) ->
  consistent bnd cls view -> consistent bnd' cls' view'.
Proof.
  intros Hb Hc Hv [H1 H2 H3 H4]. split.
  - intros k n b. rewrite <- Hc, <- Hb. apply H1.
  - intros k1 k2 n b1 b2. rewrite <- !Hc. apply H2.
  - intros k. by rewrite <- Hc.
  - intros n Hn. rewrite <- Hv, <- Hb. apply H4. intros k b. rewrite Hc. apply Hn.
Qed.

(** A write whose announcement thread [k] now owes. *)
Lemma consistent_acquire bnd bnd' cls cls' view k :
  consistent bnd cls view -> cls k = [] -> (forall k', k' <> k -> cls' k' = cls k') ->
  NoDup (fst <$> cls' k) ->
  (forall n b, (n, b) ∈ cls' k -> bnd' n = b /\ forall k' b', (n, b') ∉ cls k') ->
  (forall n, n ∉ (fst <$> cls' k) -> bnd' n = bnd n) ->
  consistent bnd' cls' view.
Proof.
  intros [H1 H2 H3 H4] Hk Ho Hnd Hcl Hfr.
  assert (Hout : forall k' n b, k' <> k -> (n, b) ∈ cls' k' -> (n, b) ∈ cls k' /\ n ∉ (fst <$> cls' k)).
  { intros k' n b Hne Hin. rewrite Ho in Hin by done. split; [done|].
    intros ([n' b'] & -> & Hin')%list_elem_of_fmap. by apply (Hcl n' b' Hin') in Hin. }
  split.
  - intros k' n b Hin. destruct (decide (k' = k)) as [->|Hne]; [by apply Hcl|].
    destruct (Hout k' n b Hne Hin) as [Hin' Hn]. rewrite Hfr by done. by apply (H1 k').
  - intros k1 k2 n b1 b2 Hin1 Hin2.
    destruct (decide (k1 = k)) as [->|Hk1], (decide (k2 = k)) as [->|Hk2]; [done| | |].
    + destruct (Hout k2 n b2 Hk2 Hin2) as [_ []]. by apply (list_elem_of_fmap_2 fst _ (n, b1)).
    + destruct (Hout k1 n b1 Hk1 Hin1) as [_ []]. by apply (list_elem_of_fmap_2 fst _ (n, b2)).
    + rewrite Ho in Hin1, Hin2 by done. by eapply H2.
  - intros k'. destruct (decide (k' = k)) as [->|]; [done|]. by rewrite Ho.
  - intros n Hn. rewrite Hfr.
    + apply H4. intros k' b Hin. destruct (decide (k' = k)) as [->|].
      * rewrite Hk in Hin. by apply elem_of_nil in Hin.
      * apply (Hn k' b). by rewrite Ho.
    + intros ([n' b] & -> & Hin)%list_elem_of_fmap. by apply (Hn k b).
Qed.

(** Thread [k] makes its next announcement. *)
Lemma consistent_release bnd cls cls' view k n b :
  consistent bnd cls view -> cls k = (n, b) :: cls' k -> (forall k', k' <> k -> cls' k' = cls k') ->
  consistent bnd cls' (fun m => if String.eqb m n then b else view m).
Proof.
  intros [H1 H2 H3 H4] Hk Ho.
  assert (Hsub : forall k' e, e ∈ cls' k' -> e ∈ cls k').
  { intros k' e He. destruct (decide (k' = k)) as [->|]; [rewrite Hk; by right|by rewrite <- Ho]. }
  split.
  - intros k' m b' Hin%Hsub. by eapply H1.
  - intros k1 k2 m b1 b2 Hin1%Hsub Hin2%Hsub. by eapply H2.
  - intros k'. destruct (decide (k' = k)) as [->|]; [|by rewrite Ho].
    specialize (H3 k). rewrite Hk in H3. by apply NoDup_cons in H3 as [_ ?].
  - intros m Hm. destruct (String.eqb_spec m n) as [->|Hne].
    + symmetry. apply (H1 k). rewrite Hk. by left.
    + apply H4. intros k' b' Hin. apply (Hm k' b'). destruct (decide (k' = k)) as [->|].
      * rewrite Hk in Hin. apply elem_of_cons in Hin as [[= -> ->]|?]; done.
      * by rewrite Ho.
Qed.

(** ** Lemmas on the store half of a deregistration *)
Lemma bound_delete fd t a r d d' t' n :
  db_wf d -> dereg_delete fd t a r d = (Ok tt, d') ->
  bound t' n d' =
    if String.eqb t t' && bool_decide (n ∈ selected_names (mkDeregisterReq t a r) d)
    then None else bound t' n d.
Proof.
  intros Hd E.
  assert (E' : Store.DeregisterAgent None None fd t a r d =
    (Ok (map (fun s => scan_service s "") (List.filter (dereg_match t a r) (db_services d))), d')).
  { unfold Store.DeregisterAgent. simpl. by rewrite E. }
  rewrite (bound_deregister _ _ _ _ _ _ _ _ _ t' n Hd E').
  match goal with |- (if ?a then _ else _) = (if ?b then _ else _) => assert (a = b) as ->; [|done] end.
  unfold selected_names. cbn [dq_Tenant dq_AgentUri dq_RelayId]. clear.
  induction (db_services d) as [|s l IH]; simpl; [by rewrite andb_false_r|].
  destruct (dereg_match t a r s) eqn:Em; simpl; [|apply IH].
  unfold dereg_match in Em. bool_split.
  match goal with H : sv_tenant s = t |- _ => rename H into Ht end.
  rewrite IH, Ht. destruct (String.eqb_spec t t') as [->|]; simpl; [|done].
  destruct (String.eqb_spec (sv_name s) n) as [->|Hne]; simpl.
  - symmetry. apply bool_decide_eq_true. by left.
  - apply bool_decide_ext. rewrite elem_of_cons. split; [by right|]. intros [->|?]; done.
Qed.

Lemma dereg_delete_error fd t a r d e d' : dereg_delete fd t a r d = (Err e, d') -> d' = d.
Proof. unfold dereg_delete, Store.exec. destruct fd; intros ?; by simplify_eq. Qed.

Lemma selected_names_NoDup req d : db_wf d -> NoDup (selected_names req d).
Proof.
  intros Hd. unfold selected_names. pose proof (wf_service_keys d Hd) as Hk.
  induction (db_services d) as [|s l IH]; simpl; [constructor|].
  apply NoDup_cons in Hk as [Hs Hl]. destruct (dereg_match _ _ _ s) eqn:E; [|by apply IH].
  simpl. apply NoDup_cons. split; [|by apply IH].
  intros (s' & Hn & [Hin Hm]%list_elem_of_In%filter_In)%list_elem_of_fmap. apply Hs.
  apply list_elem_of_fmap. exists s'. split; [|by apply list_elem_of_In].
  unfold dereg_match in *. unfold sv_key. bool_split. congruence.
Qed.

(** ** The invariant of interleaved executions *)
Definition owed (t : string) (c : conf) (k : Z) : list (string * option binding) :=
  match cf_threads c !! k with Some th => claims t th | None => [] end.

Definition conf_follows (t : string) (p : ptr) (m : string -> option binding) (c : conf) : Prop :=
  db_wf (srv_db (cf_srv c)) /\
  exists view, watching t p ∅ m view (srv_hub (cf_srv c)) /\
    consistent (fun n => bound t n (srv_db (cf_srv c))) (owed t c) view.

Lemma settled_spec t n c : settled t n c = true <-> forall k b, (n, b) ∉ owed t c k.
Proof.
  unfold settled, owed. rewrite forallb_forall. split.
  - intros H k b. destruct (cf_threads c !! k) as [th|] eqn:Hk; [|apply not_elem_of_nil].
    intros Hin. specialize (H (k, th)). rewrite forallb_forall in H.
    assert (Hm : In (k, th) (map_to_list (cf_threads c))) by (by apply list_elem_of_In, elem_of_map_to_list).
    specialize (H Hm (n, b)). simpl in H. rewrite String.eqb_refl in H.
    by specialize (H ltac:(by apply list_elem_of_In)).
  - intros H [k th] Hm. apply list_elem_of_In, elem_of_map_to_list in Hm. apply forallb_forall.
    intros [n' b] Hin. apply list_elem_of_In in Hin. simpl. specialize (H k b). rewrite Hm in H.
    destruct (String.eqb_spec n' n) as [->|]; done.
Qed.

Lemma owed_insert t s c k th :
  owed t (mkConfig s (<[k := th]> (cf_threads c))) k = claims t th /\
  forall k', k' <> k -> owed t (mkConfig s (<[k := th]> (cf_threads c))) k' = owed t c k'.
Proof.
  unfold owed. simpl. rewrite lookup_insert_eq. split; [done|]. intros k' Hne.
  by rewrite lookup_insert_ne.
Qed.

(** A step that writes no service row and owes nothing before or after. *)
Lemma conf_follows_quiet t p m c k th d :
  conf_follows t p m c -> owed t c k = [] -> claims t th = [] -> db_wf d ->
  (forall n, bound t n d = bound t n (srv_db (cf_srv c))) ->
  conf_follows t p m (mkConfig (set_db d (cf_srv c)) (<[k := th]> (cf_threads c))).
Proof.
  intros [_ (view & Hw & Hco)] Hk Hth Hd Hs. split; [done|]. exists view. split; [done|].
  eapply consistent_ext; [| |done|exact Hco]; simpl; [done|].
  intros k'. destruct (owed_insert t (set_db d (cf_srv c)) c k th) as [H1 H2].
  destruct (decide (k' = k)) as [->|]; [by rewrite H1, Hk|by rewrite H2].
Qed.

Lemma register_step_follows t p m c k st req :
  conf_follows t p m c -> cf_threads c !! k = Some (RegAgent st req) ->
  serial_step t (LStep k) c = true ->
  exists c', conf_step (LStep k) c = Some c' /\ conf_follows t p m c'.
Proof.
  intros Hf Hk Hser. simpl in *. rewrite Hk in *. simpl.
  assert (Hok : owed t c k = []) by (unfold owed; by rewrite Hk).
  destruct (Store.RegisterService _ _ (reg_service req) _) as [r d] eqn:E. simpl.
  pose proof (RegisterService_wf _ _ _ _ _ _ (proj1 Hf) E) as Hwf. eexists. split; [done|].
  destruct r as [id|e].
  2:{ apply RegisterService_error in E as [-> _]. by apply conf_follows_quiet. }
  pose proof (fun n => bound_register _ _ _ _ _ _ t n (proj1 Hf) E) as Hb. simpl in Hb.
  destruct (String.eqb_spec (rq_Tenant req) t) as [Ht|Hne]; simpl in *.
  2:{ apply conf_follows_quiet; try done. simpl. by rewrite (proj2 (String.eqb_neq _ _) Hne). }
  rewrite settled_spec in Hser. destruct Hf as [_ (view & Hw & Hco)]. split; [done|].
  exists view. split; [done|]. destruct (owed_insert t (set_db d (cf_srv c)) c k (RegSend id req)) as [H1 H2].
  simpl in H1. rewrite (proj2 (String.eqb_eq _ _) Ht) in H1.
  eapply consistent_acquire; [exact Hco|exact Hok|exact H2|..]; rewrite H1; simpl.
  - apply NoDup_singleton.
  - intros n b [= -> ->]%list_elem_of_singleton. split; [|apply Hser]. by rewrite Hb, String.eqb_refl.
  - intros n Hn. rewrite Hb. destruct (String.eqb_spec (rq_ServiceName req) n) as [Heq|]; [|done].
    destruct Hn. subst n. by left.
Qed.

Lemma delete_step_follows t p m c k fd req removed :
  conf_follows t p m c -> cf_threads c !! k = Some (DeregSelected fd req removed) ->
  serial_step t (LStep k) c = true ->
  exists c', conf_step (LStep k) c = Some c' /\ conf_follows t p m c'.
Proof.
  intros Hf Hk Hser. simpl in *. rewrite Hk in *. simpl.
  assert (Hok : owed t c k = []) by (unfold owed; by rewrite Hk).
  destruct (dereg_delete _ _ _ _ _) as [r d] eqn:E. simpl.
  pose proof (dereg_delete_wf fd (dq_Tenant req) (dq_AgentUri req) (dq_RelayId req) _ (proj1 Hf)) as Hwf.
  rewrite E in Hwf. simpl in Hwf. eexists. split; [done|].
  destruct r as [[]|e]; [|by apply dereg_delete_error in E as ->; apply conf_follows_quiet].
  pose proof (fun n => bound_delete _ _ _ _ _ _ t n (proj1 Hf) E) as Hb.
  destruct (String.eqb_spec (dq_Tenant req) t) as [Ht|Hne]; simpl in *.
  2:{ apply conf_follows_quiet; try done. simpl. by rewrite (proj2 (String.eqb_neq _ _) Hne). }
  apply andb_prop in Hser as [Hsel%bool_decide_eq_true Hset]. rewrite forallb_forall in Hset.
  change (mkDeregisterReq _ _ _) with (mkDeregisterReq (dq_Tenant req) (dq_AgentUri req) (dq_RelayId req)) in Hb.
  replace (mkDeregisterReq (dq_Tenant req) (dq_AgentUri req) (dq_RelayId req)) with req in Hb by (by destruct req).
  rewrite <- Hsel in Hb. destruct Hf as [Hwf0 (view & Hw & Hco)]. split; [done|].
  exists view. split; [done|]. destruct (owed_insert t (set_db d (cf_srv c)) c k (DeregSend req removed)) as [H1 H2].
  simpl in H1. rewrite (proj2 (String.eqb_eq _ _) Ht) in H1.
  assert (Hnames : fst <$> map (fun svc => (Name svc, @None binding)) removed = map Name removed).
  { change (map ?f ?l) with (f <$> l). by rewrite <- list_fmap_compose. }
  eapply consistent_acquire; [exact Hco|exact Hok|exact H2|..]; rewrite H1.
  - rewrite Hnames, Hsel. by apply selected_names_NoDup.
  - intros n b (svc & [= -> ->] & Hin)%list_elem_of_fmap.
    assert (Hn : Name svc ∈ map Name removed) by (by apply (list_elem_of_fmap_2 Name)). split.
    + by rewrite Hb, bool_decide_eq_true_2.
    + apply settled_spec, Hset. by apply list_elem_of_In.
  - intros n Hn. rewrite Hnames in Hn. by rewrite Hb, bool_decide_eq_false_2.
Qed.

(** An announcement: the thread at [k] sends the event [ev] and goes on as [th]. *)
Lemma announce_follows t p m c k th ev tn :
  t <> ""%string -> conf_follows t p m c ->
  (if String.eqb t tn
   then exists b, owed t c k = (ev_ServiceName ev, b) :: claims t th /\
     forall view n, apply_event view ev n = if String.eqb n (ev_ServiceName ev) then b else view n
   else owed t c k = claims t th) ->
  exists s', srv_broadcast ev tn (cf_srv c) = Some s' /\
    conf_follows t p m (mkConfig s' (<[k := th]> (cf_threads c))).
Proof.
  intros Ht [Hwf (view & Hw & Hco)] Hev.
  destruct (watching_broadcast t p ∅ m view (cf_srv c) ev tn Ht Hw) as (s' & He & Hdb & Hw').
  exists s'. split; [done|]. destruct (owed_insert t s' c k th) as [H1 H2].
  split; [by simpl; rewrite Hdb|]. destruct (String.eqb_spec t tn) as [<-|Hne].
  - destruct Hev as (b & Hk & Hap). eexists. split; [exact Hw'|].
    eapply (consistent_ext (fun n => bound t n (srv_db (cf_srv c)))).
    4:{ eapply (consistent_release _ _ _ _ k _ b Hco); [|exact H2]. by rewrite H1. }
    + intros n. simpl. by rewrite Hdb.
    + done.
    + intros n. by rewrite Hap.
  - eexists. split; [exact Hw'|]. eapply consistent_ext; [| |done|exact Hco].
    + intros n. simpl. by rewrite Hdb.
    + intros k'. destruct (decide (k' = k)) as [->|]; [by rewrite H1|by rewrite H2].
Qed.

Lemma thread_step_follows t p m c k :
  t <> ""%string -> conf_follows t p m c -> serial_step t (LStep k) c = true ->
  exists c', conf_step (LStep k) c = Some c' /\ conf_follows t p m c'.
Proof.
  intros Ht Hf Hser. destruct (cf_threads c !! k) as [th|] eqn:Hk; [|simpl; rewrite Hk; by exists c].
  assert (Hok : owed t c k = claims t th) by (unfold owed; by rewrite Hk).
  assert (Hid : forall th', claims t th = claims t th' ->
    conf_follows t p m (mkConfig (cf_srv c) (<[k := th']> (cf_threads c)))).
  { intros th' He. destruct Hf as [Hwf (view & Hw & Hco)]. split; [done|]. exists view.
    split; [done|]. eapply consistent_ext; [done| |done|exact Hco].
    intros k'. destruct (owed_insert t (cf_srv c) c k th') as [H1 H2].
    destruct (decide (k' = k)) as [->|]; [by rewrite H1, Hok|by rewrite H2]. }
  destruct th as [st req|st req|id req|fq fr fd req|fd req removed|req [|svc removed]|o].
  - simpl. rewrite Hk. simpl.
    pose proof (db_step_wf _ (OpUpsertAgent (st_f1 st) (st_now1 st) (rq_Tenant req) (rq_AgentUri req))
      (proj1 Hf)) as Hwf1. simpl in Hwf1.
    destruct (UpsertAgent _ _ _ _ _) as [r d] eqn:E. simpl in *. eexists. split; [done|].
    assert (Hs : db_services d = db_services (srv_db (cf_srv c))).
    { unfold UpsertAgent, Store.exec in E. by destruct (st_f1 st); simplify_eq. }
    apply conf_follows_quiet; try done; [by destruct r|]. intros n. by apply bound_ext.
  - by eapply register_step_follows.
  - simpl. rewrite Hk. simpl.
    destruct (announce_follows t p m c k (Done (Registered (Ok id))) (reg_event id req) (rq_Tenant req) Ht Hf)
      as (s' & -> & Hf'); [|by eexists].
    rewrite Hok. simpl. rewrite (String.eqb_sym (rq_Tenant req)). destruct (String.eqb t _); [|done].
    eexists. split; [done|]. intros view n. unfold apply_event. simpl. done.
  - simpl. rewrite Hk. simpl. eexists. split; [done|]. apply Hid. simpl. by destruct (dereg_select _ _ _ _ _ _).
  - by eapply delete_step_follows.
  - simpl. rewrite Hk. simpl. eexists. split; [done|]. apply Hid. simpl. by destruct (String.eqb _ _).
  - simpl. rewrite Hk. simpl.
    destruct (announce_follows t p m c k (DeregSend req removed) (dereg_event svc) (dq_Tenant req) Ht Hf)
      as (s' & -> & Hf'); [|by eexists].
    rewrite Hok. simpl. rewrite (String.eqb_sym (dq_Tenant req)). destruct (String.eqb t _); [|done].
    eexists. split; [done|]. intros view n. unfold apply_event. simpl. done.
  - simpl. rewrite Hk. simpl. eexists. split; [done|]. by apply Hid.
Qed.

Lemma spawn_follows t p m c k th :
  conf_follows t p m c -> claims t th = [] -> conf_follows t p m (spawn k th c).
Proof.
  intros Hf Hth. unfold spawn. destruct (cf_threads c !! k) as [th'|] eqn:Hk; [done|].
  destruct Hf as [Hwf (view & Hw & Hco)]. split; [done|]. exists view. split; [done|].
  eapply consistent_ext; [done| |done|exact Hco]. intros k'.
  destruct (owed_insert t (cf_srv c) c k th) as [H1 H2].
  destruct (decide (k' = k)) as [->|]; [|by rewrite H2]. rewrite H1, Hth. unfold owed. by rewrite Hk.
Qed.

(** The calls that write no service row. *)
Lemma call_follows t p m c l cl :
  t <> ""%string -> conf_follows t p m c ->
  match cl with CallRegister _ _ | CallDeregister _ _ _ _ => False | _ => True end ->
  conf_step l c = with_srv c <$> srv_step (cf_srv c) cl ->
  exists c', conf_step l c = Some c' /\ conf_follows t p m c'.
Proof.
  intros Ht [Hwf (view & Hw & Hco)] Hcl ->.
  assert (Hq : forall op k, (forall ev tn, op <> OpBroadcast ev tn) ->
    exists x, hub_step (srv_hub (cf_srv c)) op = Some x /\
      conf_follows t p m (with_srv c (mkServer (srv_db (cf_srv c)) x k))).
  { intros op k Hop. destruct (watching_quiet _ _ _ _ _ _ op Hw Hop) as (x & He & Hx).
    exists x. split; [done|]. split; [done|]. exists view. by split. }
  destruct cl as [| |f now req|q req|q|q]; try done; simpl.
  - eexists. split; [done|]. unfold UpsertRelay. destruct (_ || _); [split; [done|by exists view]|].
    pose proof (db_step_wf _ (OpUpsertRelay f now (uq_Id req) (uq_Region req) (uq_Endpoint req)) Hwf)
      as Hwf1. simpl in Hwf1.
    destruct (Store.UpsertRelay _ _ _ _ _ _) as [r d] eqn:E. simpl in Hwf1.
    assert (Hs : db_services d = db_services (srv_db (cf_srv c))).
    { unfold Store.UpsertRelay, Store.exec in E. by destruct f; simplify_eq. }
    destruct r; (split; [done|]; exists view; split; [done|]; simpl;
      eapply consistent_ext; [| | |exact Hco]; try done; intros n; by apply bound_ext).
  - unfold Watch_start. destruct (Hq (OpAdd q (mkConf (u64 (srv_nextWatch (cf_srv c) + 1)) (wq_Tenant req)
      (nameSet (wq_ServiceNames req)))) (u64 (srv_nextWatch (cf_srv c) + 1)) ltac:(done)) as (x & -> & Hx).
    by eexists.
  - unfold hub_only. destruct (Hq (OpRecv q) (srv_nextWatch (cf_srv c)) ltac:(done)) as (x & -> & Hx).
    by eexists.
  - unfold hub_only. destruct (Hq (OpRemove q) (srv_nextWatch (cf_srv c)) ltac:(done)) as (x & -> & Hx).
    by eexists.
Qed.

Lemma conf_step_follows t p m c l :
  t <> ""%string -> conf_follows t p m c -> serial_step t l c = true ->
  exists c', conf_step l c = Some c' /\ conf_follows t p m c'.
Proof.
  intros Ht Hf Hser. destruct l as [k st req|k fq fr fd req|k|f now req|q req|q|q].
  - eexists. split; [done|]. apply spawn_follows; [done|]. unfold start_register. by destruct (_ || _).
  - eexists. split; [done|]. by apply spawn_follows.
  - by apply thread_step_follows.
  - by eapply (call_follows _ _ _ _ _ (CallUpsertRelay f now req)).
  - by eapply (call_follows _ _ _ _ _ (CallWatch q req)).
  - by eapply (call_follows _ _ _ _ _ (CallRecv q)).
  - by eapply (call_follows _ _ _ _ _ (CallUnwatch q)).
Qed.

Lemma conf_run_follows t p m ls c :
  t <> ""%string -> conf_follows t p m c -> serial_run t ls c = true ->
  exists c', conf_run ls c = Some c' /\ conf_follows t p m c'.
Proof.
  intros Ht. revert c. induction ls as [|l ls IH]; intros c Hf Hser; [by exists c|].
  simpl in Hser. apply andb_prop in Hser as [Hs Hrest].
  destruct (conf_step_follows t p m c l Ht Hf Hs) as (c1 & He & Hf1). simpl. rewrite He in *. by apply IH.
Qed.

(** ** No interleaving panics *)
Definition conf_ok (c : conf) : Prop := srv_ok (cf_srv c).

Lemma thread_step_ok th s : srv_ok s -> exists th' s', thread_step th s = Some (th', s') /\ srv_ok s'.
Proof.
  intros Hs. destruct th as [st req|st req|id req|fq fr fd req|fd req removed|req [|svc removed]|o]; simpl.
  - pose proof (db_step_wf _ (OpUpsertAgent (st_f1 st) (st_now1 st) (rq_Tenant req) (rq_AgentUri req))
      (proj1 Hs)) as Hwf1. simpl in Hwf1.
    destruct (UpsertAgent _ _ _ _ _) as [r d]. eexists _, _. split; [done|]. by apply set_db_ok.
  - destruct (Store.RegisterService _ _ _ _) as [r d] eqn:E.
    pose proof (RegisterService_wf _ _ _ _ _ _ (proj1 Hs) E). eexists _, _. split; [done|]. by apply set_db_ok.
  - destruct (srv_broadcast_ok (reg_event id req) (rq_Tenant req) s Hs) as (s' & -> & Hs' & _). by eexists _, _.
  - by eexists _, _.
  - pose proof (dereg_delete_wf fd (dq_Tenant req) (dq_AgentUri req) (dq_RelayId req) _ (proj1 Hs)) as Hwf.
    destruct (dereg_delete _ _ _ _ _) as [r d]. eexists _, _. split; [done|]. by apply set_db_ok.
  - by eexists _, _.
  - destruct (srv_broadcast_ok (dereg_event svc) (dq_Tenant req) s Hs) as (s' & -> & Hs' & _). by eexists _, _.
  - by eexists _, _.
Qed.

Lemma conf_step_ok l c : conf_ok c -> exists c', conf_step l c = Some c' /\ conf_ok c'.
Proof.
  intros Hc. unfold conf_ok in *.
  assert (Hcall : forall cl, exists c', with_srv c <$> srv_step (cf_srv c) cl = Some c' /\ srv_ok (cf_srv c')).
  { intros cl. destruct (srv_step_ok (cf_srv c) cl Hc) as (s' & -> & Hs'). by eexists. }
  destruct l as [k st req|k fq fr fd req|k|f now req|q req|q|q]; try apply Hcall; simpl.
  - eexists. split; [done|]. unfold spawn. by destruct (cf_threads c !! k).
  - eexists. split; [done|]. unfold spawn. by destruct (cf_threads c !! k).
  - destruct (cf_threads c !! k) as [th|]; [|by exists c].
    destruct (thread_step_ok th (cf_srv c) Hc) as (th' & s' & -> & Hs'). by eexists.
Qed.

Lemma conf_run_ok ls c : conf_ok c -> exists c', conf_run ls c = Some c' /\ conf_ok c'.
Proof.
  revert c. induction ls as [|l ls IH]; intros c Hc; [by exists c|].
  destruct (conf_step_ok l c Hc) as (c1 & He & Hc1). simpl. rewrite He. by apply IH.
Qed.

(** A watch that starts when every handler has finished. *)
Definition quiescent (c : conf) : bool :=
  forallb (fun kt => match snd kt with Done _ => true | _ => false end) (map_to_list (cf_threads c)).

Lemma quiescent_owed t c k : quiescent c = true -> owed t c k = [].
Proof.
  unfold quiescent, owed. rewrite forallb_forall. intros H.
  destruct (cf_threads c !! k) as [th|] eqn:Hk; [|done].
  specialize (H (k, th)). destruct th; try done;
    (by specialize (H ltac:(by apply list_elem_of_In, elem_of_map_to_list))).
Qed.

Lemma quiescent_settled t n c : quiescent c = true -> settled t n c = true.
Proof. intros Hq. apply settled_spec. intros k b. rewrite (quiescent_owed t c k Hq). apply not_elem_of_nil. Qed.

Lemma watch_conf_follows t p c c1 :
  conf_ok c -> quiescent c = true -> h_mem (x_hub (srv_hub (cf_srv c))) !! p = None ->
  conf_step (LWatch p (mkWatchReq t [])) c = Some c1 ->
  conf_follows t p (fun n => bound t n (srv_db (cf_srv c))) c1.
Proof.
  intros Hc Hq Hm E. simpl in E. destruct (Watch_start _ _ _) as [s1|] eqn:Ew; [|done]. injection E as <-.
  destruct (Watch_start_follows p t [] _ _ Hc Hm Ew) as [[Hwf Hw] Hdb]. split; [done|].
  eexists. split; [exact Hw|]. split; simpl.
  - intros k n b. change (owed t (with_srv c s1) k) with (owed t c k). rewrite quiescent_owed by done.
    by intros ?%elem_of_nil.
  - intros k1 k2 n b1 b2. change (owed t (with_srv c s1) k1) with (owed t c k1).
    rewrite quiescent_owed by done. by intros ?%elem_of_nil.
  - intros k. change (owed t (with_srv c s1) k) with (owed t c k). rewrite quiescent_owed by done. constructor.
  - done.
Qed.

(** ** A handler alone *)
Lemma run_thread_done n o s : run_thread n (Done o) s = Some (Done o, s).
Proof. induction n as [|n IH]; simpl; [done|]. apply IH. Qed.

Lemma run_thread_S n th s :
  run_thread (S n) th s = '(th', s') ← thread_step th s; run_thread n th' s'.
Proof. done. Qed.

Lemma run_thread_send n req removed s :
  (length removed < n)%nat ->
  run_thread n (DeregSend req removed) s =
    s' ← broadcast_removed removed (dq_Tenant req) s; Some (Done (Deregistered (Ok tt)), s').
Proof.
  revert n s. induction removed as [|svc removed IH]; intros [|n] s Hn; simpl in *; try lia.
  - apply run_thread_done.
  - destruct (srv_broadcast _ _ s) as [s1|]; simpl; [|done]. apply IH. lia.
Qed.

Lemma dereg_select_length fq fr t a r d removed :
  dereg_select fq fr t a r d = Ok removed -> (length removed <= length (db_services d))%nat.
Proof.
  unfold dereg_select. destruct fq, fr; try done. intros [= <-]. rewrite length_map.
  induction (db_services d) as [|s l IH]; simpl; [lia|]. destruct (dereg_match t a r s); simpl; lia.
Qed.

Lemma register_alone st rq s n :
  run_thread (3 + n) (start_register st rq) s =
    ('(r, s') ← RegisterService st rq s; Some (Done (Registered r), s')).
Proof.
  unfold start_register, RegisterService. destruct (_ || _ || _ || _); [apply run_thread_done|].
  cbn [Nat.add run_thread thread_step].
  destruct (UpsertAgent _ _ _ _ _) as [[[]|e] d1]; cbn [mbind option_bind]; [|apply run_thread_done].
  cbn [run_thread thread_step srv_db set_db].
  destruct (Store.RegisterService _ _ (reg_service rq) d1) as [r d2] eqn:E.
  unfold reg_service in E. rewrite E. cbn [mbind option_bind].
  destruct r as [id|e]; [|apply (run_thread_done (S n))].
  cbn [run_thread thread_step]. unfold reg_event. change (set_db d2 (set_db d1 s)) with (set_db d2 s).
  destruct (srv_broadcast _ _ _) as [s'|]; cbn [mbind option_bind]; [apply run_thread_done|done].
Qed.

Lemma deregister_alone fq fr fd dq s n :
  run_thread (3 + length (db_services (srv_db s)) + n) (DeregStart fq fr fd dq) s =
    ('(r, s') ← DeregisterAgent fq fr fd dq s; Some (Done (Deregistered r), s')).
Proof.
  unfold DeregisterAgent, Store.DeregisterAgent. cbn [Nat.add]. rewrite run_thread_S.
  cbn [thread_step mbind option_bind].
  destruct (dereg_select _ _ _ _ _ _) as [removed|e] eqn:Es.
  2:{ cbn [mbind option_bind]. replace (set_db (srv_db s) s) with s by (by destruct s).
      apply (run_thread_done (S (S _))). }
  rewrite run_thread_S. cbn [thread_step].
  destruct (dereg_delete _ _ _ _ _) as [[[]|e] d] eqn:Ed; cbn [mbind option_bind].
  - rewrite run_thread_send; [|apply dereg_select_length in Es; lia].
    by destruct (broadcast_removed _ _ _).
  - apply (run_thread_done (S _)).
Qed.

(** ** A reconnecting agent *)

(** The steps of one thread, in a row. *)
Lemma conf_run_alone k n th s th' s' ths :
  run_thread n th s = Some (th', s') ->
  conf_run (replicate n (LStep k)) (mkConfig s (<[k := th]> ths)) =
    Some (mkConfig s' (<[k := th']> ths)).
Proof.
  revert th s. induction n as [|n IH]; intros th s E; simpl in *; [by injection E as <- <-|].
  rewrite lookup_insert_eq. destruct (thread_step th s) as [[th1 s1]|]; simpl in *; [|done].
  rewrite insert_insert_eq. by apply IH.
Qed.

Lemma conf_run_app ls1 ls2 c c1 :
  conf_run ls1 c = Some c1 -> conf_run (ls1 ++ ls2) c = conf_run ls2 c1.
Proof.
  revert c. induction ls1 as [|l ls1 IH]; intros c E; simpl in *; [by injection E as <-|].
  destruct (conf_step l c) as [c'|]; simpl in *; [by apply IH|done].
Qed.

Lemma selected_bound t a r n d :
  db_wf d -> n ∈ selected_names (mkDeregisterReq t a r) d <-> bound t n d = Some (a, r).
Proof.
  intros Hd. assert (Hex : n ∈ selected_names (mkDeregisterReq t a r) d <->
    exists s, s ∈ List.filter (service_match t n) (db_services d) /\ sv_agent_uri s = a /\ sv_relay_id s = r).
  { unfold selected_names. change (map ?f ?l) with (f <$> l). rewrite list_elem_of_fmap.
    setoid_rewrite list_elem_of_In. setoid_rewrite filter_In. unfold dereg_match, service_match. simpl.
    setoid_rewrite andb_true_iff. setoid_rewrite andb_true_iff. setoid_rewrite String.eqb_eq.
    naive_solver. }
  rewrite Hex. unfold bound. destruct (lookup_service_le1 t n d Hd) as [->|[s ->]]; simpl.
  - split; [by intros (s & ?%elem_of_nil & _)|done].
  - split; [by intros (s' & ->%list_elem_of_singleton & -> & ->)|].
    intros [= <- <-]. exists s. by rewrite list_elem_of_singleton.
Qed.

(** A fault-free registration of a name that is bound always goes through. *)
Lemma rebind now1 now2 t n a r la s o s' :
  db_wf (srv_db s) -> bound t n (srv_db s) <> None ->
  Forall (fun x => x <> ""%string) [t; n; a; r] ->
  RegisterService (mkStmts None now1 None now2) (mkRegisterReq t n a r la) s = Some (o, s') ->
  (exists id, o = Ok id) /\ bound t n (srv_db s') = Some (a, r).
Proof.
  intros Hwf Hb Hne E. unfold RegisterService in E. rewrite !Forall_cons in Hne.
  cbn [rq_Tenant rq_ServiceName rq_AgentUri rq_RelayId rq_LocalAddr st_f1 st_now1 st_f2 st_now2] in E.
  destruct Hne as (Ht & Hn & Ha & Hr & _).
  rewrite !(proj2 (String.eqb_neq _ _)) in E by done. cbn [orb] in E.
  pose proof (db_step_wf _ (OpUpsertAgent None now1 t a) Hwf) as Hwf1. cbn [db_step] in Hwf1.
  destruct (UpsertAgent _ _ _ _ _) as [[[]|] d1] eqn:E1; [|done].
  assert (Hs1 : db_services d1 = db_services (srv_db s)) by (unfold UpsertAgent, Store.exec in E1; by simplify_eq).
  cbn [snd] in Hwf1. set (svc := mkService _ _ _ _ _ _ _ _ _) in E.
  destruct (Store.RegisterService None now2 svc d1) as [[id|e] d2] eqn:E2.
  - destruct (srv_broadcast _ _ _) as [s2|] eqn:Eb; simplify_eq/=. split; [by eexists|].
    unfold srv_broadcast in Eb. destruct (hub_step _ _); simplify_eq/=.
    rewrite (bound_register _ _ _ _ _ _ t n Hwf1 E2). simpl. by rewrite !String.eqb_refl.
  - apply RegisterService_error in E2 as (_ & [?|(_ & Hk & _)]); [done|]. simpl in Hk. exfalso.
    destruct (bound t n (srv_db s)) as [[a' r']|] eqn:Hb'; [|done]. apply Hk.
    unfold bound in Hb'. destruct (lookup_service_le1 t n _ Hwf) as [H0|[x H0]]; rewrite H0 in Hb'; [done|].
    rewrite Hs1. apply list_elem_of_fmap. exists x. assert (Hin : In x [x]) by (by left). rewrite <- H0 in Hin.
    apply filter_In in Hin as [Hin Hm]. split; [symmetry; by apply service_match_key|by apply list_elem_of_In].
Qed.

(** ** Properties *)

(** A handler whose steps run with nothing in between is the handler as a whole: it
    finishes after at most three steps and one per announcement, with the same answer
    and the same state. *)
Theorem handlers_alone (st : two_stmts) (rq : RegisterServiceRequest) (fq fr fd : fault)
    (dq : DeregisterAgentRequest) (s : Server) (n : nat) :
  run_thread (3 + n) (start_register st rq) s =
    ('(r, s') ← RegisterService st rq s; Some (Done (Registered r), s')) /\
  run_thread (3 + length (db_services (srv_db s)) + n) (DeregStart fq fr fd dq) s =
    ('(r, s') ← DeregisterAgent fq fr fd dq s; Some (Done (Deregistered r), s')).
Proof. split; [apply register_alone|apply deregister_alone]. Qed.

(** C11. Watchers converge under serialised handlers: after any interleaving whatsoever
    that has come to rest, let a client list the bindings of a tenant and start a
    watch; then let handlers run interleaved step by step, of any tenant, with faults,
    such that in this tenant a write to a name waits until the previous write to the
    name is announced and a deregistration deletes what it selected.  No step panics,
    and as long as the watcher is registered its view agrees with the database on every
    name with no announcement outstanding; on all names once the handlers are done. *)
Theorem interleaved_watch_converges (ls0 ls : list label) (t : string) (p : ptr) (c0 c1 : conf) :
  t <> ""%string ->
  conf_run ls0 new_conf = Some c0 -> quiescent c0 = true ->
  h_mem (x_hub (srv_hub (cf_srv c0))) !! p = None ->
  conf_step (LWatch p (mkWatchReq t [])) c0 = Some c1 -> serial_run t ls c1 = true ->
  exists c2, conf_run ls c1 = Some c2 /\
    forall w n, h_mem (x_hub (srv_hub (cf_srv c2))) !! p = Some w ->
      p ∈ h_watchers (x_hub (srv_hub (cf_srv c2))) ->
      settled t n c2 = true \/ quiescent c2 = true ->
      replay (fun n => bound t n (srv_db (cf_srv c0))) (x_got (srv_hub (cf_srv c2)) p ++ w_ch w) n =
        bound t n (srv_db (cf_srv c2)).
Proof.
  intros Ht H0 Hq Hm H1 Hser. destruct (conf_run_ok ls0 new_conf New_ok) as (c0' & H0' & Hok0).
  rewrite H0 in H0'. injection H0' as <-.
  pose proof (watch_conf_follows t p c0 c1 Hok0 Hq Hm H1) as Hf.
  destruct (conf_run_follows t p _ ls c1 Ht Hf Hser) as (c2 & H2 & _ & view & [[_ Hok] _ Hv] & Hco).
  exists c2. split; [done|]. intros w n Hw Hr Hset.
  assert (settled t n c2 = true) as Hs by (destruct Hset; [done|by apply quiescent_settled]).
  destruct (Hok p w Hw) as [_ [(_ & _ & ->)|(? & _)]]; [|done].
  rewrite Hv by done. apply (co_view _ _ _ Hco). by apply settled_spec.
Qed.

Definition demo_reg (n a r : string) : RegisterServiceRequest := mkRegisterReq "acme" n a r "".

(** Two registrations of different names, interleaved at every step. *)
Definition demo_labels : list label :=
  [LRegister 1 plain_stmts (demo_reg "db" "a1" "r1"); LRegister 2 plain_stmts (demo_reg "web" "a2" "r1");
   LStep 1; LStep 2; LStep 2; LStep 1; LStep 1; LStep 2].

Lemma interleaved_watch_converges_witness :
  exists c1 c2, conf_step (LWatch 1%positive (mkWatchReq "acme" [])) new_conf = Some c1 /\
    serial_run "acme" demo_labels c1 = true /\ conf_run demo_labels c1 = Some c2 /\
    forall w n, h_mem (x_hub (srv_hub (cf_srv c2))) !! 1%positive = Some w ->
      1%positive ∈ h_watchers (x_hub (srv_hub (cf_srv c2))) ->
      settled "acme" n c2 = true \/ quiescent c2 = true ->
      replay (fun n => bound "acme" n (srv_db (New empty_db))) (x_got (srv_hub (cf_srv c2)) 1%positive ++ w_ch w) n =
        bound "acme" n (srv_db (cf_srv c2)).
Proof.
  destruct (conf_step_ok (LWatch 1%positive (mkWatchReq "acme" [])) new_conf New_ok) as (c1 & H1 & _).
  assert (Hs : serial_run "acme" demo_labels <$>
    conf_step (LWatch 1%positive (mkWatchReq "acme" [])) new_conf = Some true) by (vm_compute; reflexivity).
  rewrite H1 in Hs. injection Hs as Hs.
  destruct (interleaved_watch_converges [] demo_labels "acme" 1%positive new_conf c1
    ltac:(discriminate) eq_refl eq_refl eq_refl H1 Hs) as (c2 & H2 & Hv).
  exists c1, c2. split; [exact H1|]. split; [exact Hs|]. split; [exact H2|exact Hv].
Defined.

(** An agent loses relay [r1] and reconnects through [r2]: the deregistration of the
    old session has selected its rows when the new registration runs, and deletes and
    announces afterwards. *)
Definition reconnect_schedule (st : two_stmts) (t n a r1 r2 la : string) (sends : nat) : list label :=
  [LDeregister 1 None None None (mkDeregisterReq t a r1); LStep 1;
   LRegister 2 st (mkRegisterReq t n a r2 la); LStep 2; LStep 2; LStep 2] ++
  replicate (2 + sends) (LStep 1).

(** C12. The reconnection race: for every server that a watcher follows exactly, in which
    the service [n] is provided by agent [a] through relay [r1], the schedule above
    finishes both handlers without an error, the service stays bound to the agent's new
    relay in the database, and the watcher has been told that it is gone. *)
Theorem reconnect_race (t n a r1 r2 la : string) (p : ptr) (m : string -> option binding)
    (now1 now2 : Z) (s : Server) :
  Forall (fun x => x <> ""%string) [t; n; a; r2] -> r1 <> r2 ->
  follows t p ∅ m s -> bound t n (srv_db s) = Some (a, r1) ->
  exists c, conf_run (reconnect_schedule (mkStmts None now1 None now2) t n a r1 r2 la
      (length (db_services (srv_db s)))) (mkConfig s ∅) = Some c /\
    (exists id, cf_threads c !! 2 = Some (Done (Registered (Ok id)))) /\
    cf_threads c !! 1 = Some (Done (Deregistered (Ok tt))) /\
    bound t n (srv_db (cf_srv c)) = Some (a, r2) /\
    replay m (x_log (srv_hub (cf_srv c)) p) n = None.
Proof.
  intros Hne Hr Hf Hb. assert (Ht : t <> ""%string) by (by inversion Hne).
  set (st := mkStmts _ _ _ _). set (rq := mkRegisterReq t n a r2 la).
  destruct (follows_register t p ∅ m st rq s Ht Hf) as (o & s1 & Er & Hf1).
  destruct (rebind now1 now2 t n a r2 la s o s1 (proj1 Hf)) as [[id ->] Hb1]; [by rewrite Hb|done|done|].
  set (sel := List.filter (dereg_match t a r1) (db_services (srv_db s))).
  set (removed := map (fun x => scan_service x "") sel).
  destruct (dereg_delete None t a r1 (srv_db s1)) as [[[]|] d2] eqn:Ed; [|done].
  destruct (watching_removed t p ∅ m removed _ (set_db d2 s1) t Ht (proj2 Hf1)) as (s2 & Hbr & Hdb & Hw).
  assert (Hlen : (length removed <= length (db_services (srv_db s)))%nat)
    by (by apply (dereg_select_length None None t a r1)).
  exists (mkConfig s2 (<[1 := Done (Deregistered (Ok tt))]> (<[2 := Done (Registered (Ok id))]> ∅))).
  split; [|split; [by exists id|split; [done|split]]].
  - unfold reconnect_schedule.
    rewrite (conf_run_app _ _ _ (mkConfig s1 (<[2 := Done (Registered (Ok id))]>
      (<[1 := DeregSelected None (mkDeregisterReq t a r1) removed]> ∅)))).
    + rewrite insert_insert_ne by done. apply conf_run_alone. cbn [Nat.add]. rewrite run_thread_S.
      cbn [thread_step dq_Tenant dq_AgentUri dq_RelayId]. rewrite Ed. cbn [mbind option_bind].
      rewrite run_thread_send by lia. cbn [dq_Tenant]. by rewrite Hbr.
    + pose proof (register_alone st rq s 0) as Ha. rewrite Er in Ha. cbn in Ha.
      by apply (conf_run_alone 2 3 _ _ _ _ (<[1 := DeregSelected None (mkDeregisterReq t a r1) removed]> ∅)) in Ha.
  - simpl. rewrite Hdb. simpl. rewrite (bound_delete _ _ _ _ _ _ t n (proj1 Hf1) Ed), String.eqb_refl.
    rewrite bool_decide_eq_false_2; [done|]. rewrite selected_bound by apply Hf1. congruence.
  - simpl. destruct Hw as [_ _ Hw]. rewrite Hw, String.eqb_refl by done. simpl.
    assert (existsb (fun v => String.eqb (Name v) n) removed = true) as ->; [|done].
    apply existsb_exists. apply selected_bound in Hb; [|apply Hf].
    apply list_elem_of_fmap in Hb as (x & -> & Hx). exists (scan_service x "").
    split; [|apply String.eqb_refl]. by apply (in_map (fun x => scan_service x "")), list_elem_of_In.
Qed.

(** One service, watched since before it was registered. *)
Lemma reconnect_race_witness :
  exists s c, srv_run [CallWatch 1%positive (mkWatchReq "acme" []);
      CallRegister plain_stmts (demo_reg "db" "a1" "r1")] (New empty_db) = Some s /\
    conf_run (reconnect_schedule plain_stmts "acme" "db" "a1" "r1" "r2" "" 1) (mkConfig s ∅) = Some c /\
    bound "acme" "db" (srv_db (cf_srv c)) = Some ("a1", "r2")%string /\
    replay (fun _ => None) (x_log (srv_hub (cf_srv c)) 1%positive) "db"%string = None.
Proof.
  destruct (srv_step_ok (New empty_db) (CallWatch 1%positive (mkWatchReq "acme" [])) New_ok) as (s0 & H0 & _).
  destruct (Watch_start_follows 1%positive "acme" [] (New empty_db) s0 New_ok eq_refl H0) as [Hf0 _].
  destruct (srv_run_follows "acme" 1%positive _ _ [CallRegister plain_stmts (demo_reg "db" "a1" "r1")] s0
    ltac:(discriminate) Hf0) as (s & H1 & Hf).
  assert (Hs : srv_run [CallWatch 1%positive (mkWatchReq "acme" []);
    CallRegister plain_stmts (demo_reg "db" "a1" "r1")] (New empty_db) = Some s).
  { change ((s' ← srv_step (New empty_db) (CallWatch 1%positive (mkWatchReq "acme" []));
      srv_run [CallRegister plain_stmts (demo_reg "db" "a1" "r1")] s') = Some s). by rewrite H0. }
  assert (Hv : (fun s => (bound "acme" "db" (srv_db s), length (db_services (srv_db s)))) <$>
    srv_run [CallWatch 1%positive (mkWatchReq "acme" []);
      CallRegister plain_stmts (demo_reg "db" "a1" "r1")] (New empty_db) = Some (Some ("a1", "r1")%string, 1%nat))
    by (vm_compute; reflexivity).
  rewrite Hs in Hv. injection Hv as Hb Hl.
  destruct (reconnect_race "acme" "db" "a1" "r1" "r2" "" 1%positive _ 1 2 s
    ltac:(repeat constructor; discriminate) ltac:(discriminate) Hf Hb) as (c & Hc & _ & _ & Hb' & Hr).
  rewrite Hl in Hc. exists s, c. split; [exact Hs|]. split; [exact Hc|]. split; [exact Hb'|exact Hr].
Defined.
