(* ===== verification/Policy.v ===== *)
(** * The policy server: pkg/policy/server.go

    The handlers run over the policies table of [Store] and a watch hub of
    [Hub].  Enumerations of lib/control/v1/policy.pb.go are open [int32] values,
    as protobuf allows a client to send any number.  [uuid.New] is not part of
    the repository: the id it returns is an argument. *)

From Stdlib Require Import ZArith Lia.
From stdpp Require Import base tactics list strings gmap sets.
From S2P Require Import Prelude Store Hub.

Local Open Scope Z_scope.

(** ** Messages and enumerations of policy.pb.go *)
Definition DECISION_UNSPECIFIED : Z := 0.
Definition DECISION_ALLOW : Z := 1.
Definition DECISION_DENY : Z := 2.

Definition RELAY_MODE_SPLICE : Z := 0.
Definition RELAY_MODE_FORWARD : Z := 1.

Definition P2P_ALLOWED : Z := 0.
Definition P2P_FORBIDDEN : Z := 1.
Definition P2P_REQUIRED : Z := 2.

Inductive PolicyEvent_Kind :=
| POLICY_KIND_UNSPECIFIED
| POLICY_KIND_ADDED
| POLICY_KIND_REMOVED
| POLICY_KIND_SNAPSHOT_END.

Record PolicyRule := mkRule {
  r_Id : string;
  r_Tenant : string;
  r_CallerPattern : string;
  r_TargetPattern : string;
  r_MethodPattern : string;
  r_Decision : Z;
  r_ExpiresUnixMs : Z;
  r_CreatedAtUnixMs : Z;
  r_P2PMode : Z;
  r_RelayMode : Z
}.

Record PolicyEvent := mkPolicyEvent {
  pe_Kind : PolicyEvent_Kind;
  pe_Rule : option PolicyRule;
  pe_RemovedId : string
}.

(** ** Conversions *)
Definition decisionString (d : Z) : string :=
  if d =? DECISION_DENY then "deny" else "allow".

Definition decisionPB (s : string) : Z :=
  if String.eqb s "deny" then DECISION_DENY else DECISION_ALLOW.

Definition p2pModeString (m : Z) : string :=
  if m =? P2P_FORBIDDEN then "forbidden"
  else if m =? P2P_REQUIRED then "required" else "allowed".

Definition p2pModePB (s : string) : Z :=
  if String.eqb s "forbidden" then P2P_FORBIDDEN
  else if String.eqb s "required" then P2P_REQUIRED else P2P_ALLOWED.

Definition relayModeString (m : Z) : string :=
  if m =? RELAY_MODE_FORWARD then "forward" else "splice".

Definition relayModePB (s : string) : Z :=
  if String.eqb s "forward" then RELAY_MODE_FORWARD else RELAY_MODE_SPLICE.

Definition toPB (r : Policy) : PolicyRule :=
  mkRule (p_ID r) (p_Tenant r) (p_CallerPattern r) (p_TargetPattern r) (p_MethodPattern r)
    (decisionPB (p_Decision r)) (p_ExpiresUnixMs r) (p_CreatedAtUnixMs r)
    (p2pModePB (p_P2PMode r)) (relayModePB (p_RelayMode r)).

(** ** The server *)
Record watch_conf := mkConf { wc_id : Z; wc_tenant : string }.

#[global] Instance policy_watch : Watch watch_conf PolicyEvent := fun w _ tenant =>
  String.eqb (wc_tenant w) "" || String.eqb (wc_tenant w) tenant.

Record Server := mkServer {
  srv_db : db;
  srv_hub : exec_state watch_conf PolicyEvent;
  srv_nextWatch : Z
}.

Definition New (d : db) : Server := mkServer d new_exec 0.

Inductive policy_err :=
| ErrRuleRequired
| ErrFieldsRequired
| ErrDecisionRequired
| ErrStore (e : store_err).

Definition hub_only (op : hub_op watch_conf PolicyEvent) (s : Server) : option Server :=
  x ← hub_step (srv_hub s) op; Some (mkServer (srv_db s) x (srv_nextWatch s)).

Definition set_db (d : db) (s : Server) : Server := mkServer d (srv_hub s) (srv_nextWatch s).

(** The row [AddPolicy] stores. *)
Definition rule_row (id : string) (r : PolicyRule) : Policy :=
  mkPolicy id (r_Tenant r) (r_CallerPattern r) (r_TargetPattern r) (r_MethodPattern r)
    (decisionString (r_Decision r)) (r_ExpiresUnixMs r) 0
    (p2pModeString (r_P2PMode r)) (relayModeString (r_RelayMode r)).

(** [r.Id = id]: the request's rule with the id filled in. *)
Definition with_id (id : string) (r : PolicyRule) : PolicyRule :=
  mkRule id (r_Tenant r) (r_CallerPattern r) (r_TargetPattern r) (r_MethodPattern r)
    (r_Decision r) (r_ExpiresUnixMs r) (r_CreatedAtUnixMs r) (r_P2PMode r) (r_RelayMode r).

Definition added_event (r : PolicyRule) : PolicyEvent := mkPolicyEvent POLICY_KIND_ADDED (Some r) "".
Definition removed_event (id : string) : PolicyEvent := mkPolicyEvent POLICY_KIND_REMOVED None id.
Definition snapshot_end : PolicyEvent := mkPolicyEvent POLICY_KIND_SNAPSHOT_END None "".

(** The store half of [AddPolicy]: the guards, the id, the insert.  On success
    the rule to broadcast. *)
Definition AddPolicy_store (f : fault) (now : Z) (uuid : string) (rule : option PolicyRule) (d : db)
  : res policy_err PolicyRule * db :=
  match rule with
  | None => (Err ErrRuleRequired, d)
  | Some r =>
    if String.eqb (r_Tenant r) "" || String.eqb (r_TargetPattern r) "" ||
       String.eqb (r_CallerPattern r) "" then (Err ErrFieldsRequired, d)
    else if r_Decision r =? DECISION_UNSPECIFIED then (Err ErrDecisionRequired, d)
    else
      let id := if String.eqb (r_Id r) "" then uuid else r_Id r in
      let '(res, d') := Store.AddPolicy f now (rule_row id r) d in
      match res with
      | Err e => (Err (ErrStore e), d')
      | Ok _ => (Ok (with_id id r), d')
      end
  end.

Definition AddPolicy (f : fault) (now : Z) (uuid : string) (rule : option PolicyRule) (s : Server)
  : option (res policy_err string * Server) :=
  let '(r, d) := AddPolicy_store f now uuid rule (srv_db s) in
  match r with
  | Err e => Some (Err e, set_db d s)
  | Ok r => s' ← hub_only (OpBroadcast (added_event r) (r_Tenant r)) (set_db d s);
            Some (Ok (r_Id r), s')
  end.

Definition RemovePolicy (f : fault) (tenant id : string) (s : Server)
  : option (res policy_err bool * Server) :=
  let '(r, d) := Store.RemovePolicy f tenant id (srv_db s) in
  match r with
  | Err e => Some (Err (ErrStore e), set_db d s)
  | Ok removed =>
    if removed then
      s' ← hub_only (OpBroadcast (removed_event id) tenant) (set_db d s); Some (Ok removed, s')
    else Some (Ok removed, set_db d s)
  end.

Definition ListPolicies `{OrderBy} (fq fr : fault) (tenant : string) (s : Server)
  : res policy_err (list PolicyRule) :=
  match Store.ListPolicies fq fr tenant (srv_db s) with
  | Err e => Err (ErrStore e)
  | Ok rows => Ok (map toPB rows)
  end.

(** [Watch], statement by statement: take a watcher id, read the snapshot,
    register, send the snapshot and the end marker, then the loop [watch_loop] of
    [Hub]. *)
Definition Watch_id (s : Server) : Z * Server :=
  let id := u64 (srv_nextWatch s + 1) in (id, mkServer (srv_db s) (srv_hub s) id).

Definition Watch_list `{OrderBy} (fq fr : fault) (tenant : string) (s : Server)
  : res policy_err (list Policy) :=
  match Store.ListPolicies fq fr tenant (srv_db s) with
  | Err e => Err (ErrStore e)
  | Ok rows => Ok rows
  end.

(** The watcher is allocated at the fresh address [p] and added. *)
Definition Watch_register (p : ptr) (id : Z) (tenant : string) (s : Server) : option Server :=
  hub_only (OpAdd p (mkConf id tenant)) s.

Definition snapshot_events (rows : list Policy) : list PolicyEvent :=
  map (fun r => added_event (toPB r)) rows ++ [snapshot_end].

(** The sends of the snapshot: [errs] gives the outcome of each [stream.Send];
    the first error ends the handler. *)
Fixpoint send_all (evs : list PolicyEvent) (errs : list (option Z)) : list PolicyEvent * option Z :=
  match evs, errs with
  | [], _ => ([], None)
  | _ :: _, Some e :: _ => ([], Some e)
  | ev :: evs', None :: errs' => let '(sent, r) := send_all evs' errs' in (ev :: sent, r)
  | ev :: evs', [] => let '(sent, r) := send_all evs' [] in (ev :: sent, r)
  end.

(** The part of [Watch] before the loop when no other request interleaves:
    [inl] reaches the loop with the events sent, [inr] returned an error (after
    the deferred removal, if it had registered). *)
Definition Watch_open `{OrderBy} (fq fr : fault) (p : ptr) (tenant : string)
    (errs : list (option Z)) (s : Server)
  : option (Server * list PolicyEvent + Server * list PolicyEvent * (policy_err + Z)) :=
  let '(id, s0) := Watch_id s in
  match Watch_list fq fr tenant s0 with
  | Err e => Some (inr (s0, [], inl e))
  | Ok rows =>
    s1 ← Watch_register p id tenant s0;
    match send_all (snapshot_events rows) errs with
    | (sent, None) => Some (inl (s1, sent))
    | (sent, Some e) => s2 ← hub_only (OpRemove p) s1; Some (inr (s2, sent, inr e))
    end
  end.

(** ** Executions *)
Inductive call :=
| CallAdd (f : fault) (now : Z) (uuid : string) (rule : option PolicyRule)
| CallRemove (f : fault) (tenant id : string)
| CallWatch (p : ptr) (tenant : string)
| CallRecv (p : ptr)
| CallUnwatch (p : ptr).

Definition srv_step (s : Server) (c : call) : option Server :=
  match c with
  | CallAdd f now uuid rule => snd <$> AddPolicy f now uuid rule s
  | CallRemove f tenant id => snd <$> RemovePolicy f tenant id s
  | CallWatch p tenant => let '(id, s0) := Watch_id s in Watch_register p id tenant s0
  | CallRecv p => hub_only (OpRecv p) s
  | CallUnwatch p => hub_only (OpRemove p) s
  end.

Fixpoint srv_run (cs : list call) (s : Server) : option Server :=
  match cs with
  | [] => Some s
  | c :: cs' => s' ← srv_step s c; srv_run cs' s'
  end.

(** ** The relay's view: rules by id, as the events leave them *)
Definition view : Type := string -> option PolicyRule.

Definition apply_event (m : view) (ev : PolicyEvent) : view :=
  match pe_Kind ev, pe_Rule ev with
  | POLICY_KIND_ADDED, Some r => fun id => if String.eqb id (r_Id r) then Some r else m id
  | POLICY_KIND_REMOVED, _ => fun id => if String.eqb id (pe_RemovedId ev) then None else m id
  | _, _ => m
  end.

Definition replay (evs : list PolicyEvent) : view := fold_left apply_event evs (fun _ => None).

(** The row the store has for a rule of the tenant. *)
Definition stored (t : string) (d : db) (id : string) : option Policy :=
  head (List.filter (policy_match t id) (db_policies d)).

(** [same_rule r p]: the rule [r] a relay holds is the row [p].  All fields are equal,
    except for the creation time, which a live event does not know, and for an
    enumeration number the protocol does not name, for which the row has the default. *)
Definition known_or (known : list Z) (dflt n : Z) : Z := if decide (n ∈ known) then n else dflt.

Definition same_rule (r : PolicyRule) (p : Policy) : Prop :=
  toPB p = mkRule (r_Id r) (r_Tenant r) (r_CallerPattern r) (r_TargetPattern r) (r_MethodPattern r)
    (known_or [DECISION_ALLOW; DECISION_DENY] DECISION_ALLOW (r_Decision r)) (r_ExpiresUnixMs r)
    (p_CreatedAtUnixMs p)
    (known_or [P2P_ALLOWED; P2P_FORBIDDEN; P2P_REQUIRED] P2P_ALLOWED (r_P2PMode r))
    (known_or [RELAY_MODE_SPLICE; RELAY_MODE_FORWARD] RELAY_MODE_SPLICE (r_RelayMode r)).

(** ** Lemmas on the conversions *)
Lemma one_of_In s l : one_of s l = true <-> In s l.
Proof.
  unfold one_of. rewrite existsb_exists. split.
  - intros (x & Hin & ->%String.eqb_eq). done.
  - intros Hin. exists s. split; [done|]. apply String.eqb_refl.
Qed.

Lemma policy_checks_spec p : policy_checks p = None <->
  In (p_Decision p) ["allow"; "deny"]%string /\
  In (p_P2PMode p) ["allowed"; "forbidden"; "required"]%string /\
  In (p_RelayMode p) ["splice"; "forward"]%string.
Proof.
  unfold policy_checks. rewrite <- !one_of_In.
  destruct (one_of (p_Decision p) _), (one_of (p_P2PMode p) _), (one_of (p_RelayMode p) _);
    simpl; split; try done; intros (?&?&?); done.
Qed.

(** Whatever numbers the client sends, the stored strings satisfy the checks. *)
Lemma rule_row_checks id r now : policy_checks (policy_defaults now (rule_row id r)) = None.
Proof.
  apply policy_checks_spec. simpl. unfold decisionString, p2pModeString, relayModeString.
  repeat case_match; simpl; tauto.
Qed.

(** A snapshot rule is the row itself, and a live rule the row its request stores. *)
Lemma same_rule_toPB p : same_rule (toPB p) p.
Proof.
  unfold same_rule, toPB. cbn -[known_or decisionPB p2pModePB relayModePB].
  unfold decisionPB, p2pModePB, relayModePB. by repeat case_match.
Qed.

Lemma same_rule_live id now r : same_rule (with_id id r) (policy_defaults now (rule_row id r)).
Proof.
  unfold same_rule, toPB, with_id. cbn. unfold known_or, decisionString, p2pModeString, relayModeString,
    DECISION_ALLOW, DECISION_DENY, P2P_ALLOWED, P2P_FORBIDDEN, P2P_REQUIRED, RELAY_MODE_SPLICE, RELAY_MODE_FORWARD.
  f_equal.
  - destruct (Z.eqb_spec (r_Decision r) 2) as [->|]; [done|]. case_decide as Hk; [|done]. set_solver.
  - destruct (Z.eqb_spec (r_P2PMode r) 1) as [->|]; [done|].
    destruct (Z.eqb_spec (r_P2PMode r) 2) as [->|]; [done|]. case_decide as Hk; [|done]. set_solver.
  - destruct (Z.eqb_spec (r_RelayMode r) 1) as [->|]; [done|]. case_decide as Hk; [|done]. set_solver.
Qed.

(** ** Lemmas on views *)
Lemma replay_app a b : replay (a ++ b) = fold_left apply_event b (replay a).
Proof. unfold replay. by rewrite fold_left_app. Qed.

Lemma policy_match_ID t id p : policy_match t id p = true -> p_ID p = id.
Proof. unfold policy_match. intros. by bool_split. Qed.

(** Replaying rows with distinct ids: each id shows its row. *)
Lemma replay_rows rows m id :
  NoDup (p_ID <$> rows) ->
  fold_left apply_event (map (fun r => added_event (toPB r)) rows) m id =
    match head (List.filter (fun p => String.eqb (p_ID p) id) rows) with
    | Some r => Some (toPB r)
    | None => m id
    end.
Proof.
  revert m. induction rows as [|r rows IH]; intros m Hnd; [done|].
  rewrite fmap_cons, NoDup_cons in Hnd. destruct Hnd as [Hr Hnd]. simpl. rewrite IH by done.
  unfold apply_event at 1. simpl. rewrite (String.eqb_sym id).
  destruct (String.eqb_spec (p_ID r) id) as [<-|]; simpl; [|done].
  destruct (key_filter_le1 p_ID (fun p => String.eqb (p_ID p) (p_ID r)) (p_ID r) rows)
    as [->|(q & _ & Hin & Hq)].
  - intros x. by rewrite String.eqb_eq.
  - done.
  - done.
  - exfalso. apply Hr. apply String.eqb_eq in Hq. rewrite <- Hq. by apply list_elem_of_fmap_2.
Qed.

Lemma filter_filter_match t id l :
  List.filter (fun p => String.eqb (p_ID p) id) (List.filter (fun p => String.eqb (p_Tenant p) t) l) =
  List.filter (policy_match t id) l.
Proof.
  induction l as [|p l IH]; [done|]. unfold policy_match in *. cbn [List.filter].
  destruct (String.eqb (p_Tenant p) t); simpl; [|exact IH]. by rewrite IH.
Qed.

Lemma list_filter_perm {A} (P : A -> bool) l k :
  Permutation l k -> Permutation (List.filter P l) (List.filter P k).
Proof.
  induction 1 as [|x l k _ IH|x y l|l k j _ IH1 _ IH2]; simpl; [done| | |by etransitivity].
  - destruct (P x); [by constructor|done].
  - destruct (P x), (P y); try done. by constructor.
Qed.

Lemma matches_le1 t id d : db_wf d ->
  List.filter (policy_match t id) (db_policies d) = [] \/
  exists p, List.filter (policy_match t id) (db_policies d) = [p].
Proof.
  intros Hd. destruct (key_filter_le1 p_ID (policy_match t id) id (db_policies d))
    as [He|(q & He & _)]; [apply policy_match_ID|apply Hd|by left|right; by exists q].
Qed.

(** The snapshot, once sent, shows the stored rules of the tenant. *)
Lemma replay_snapshot `{OrderByLaws} t d rows id :
  db_wf d -> Store.ListPolicies None None t d = Ok rows ->
  replay (snapshot_events rows) id = toPB <$> stored t d id.
Proof.
  intros Hd. unfold Store.ListPolicies. intros [= <-].
  set (l := List.filter (fun p => String.eqb (p_Tenant p) t) (db_policies d)).
  assert (Hp : Permutation (order_by created_leb l) l) by apply order_by_perm.
  unfold replay, snapshot_events. rewrite fold_left_app. simpl.
  unfold apply_event at 1. simpl. rewrite replay_rows.
  - unfold stored. pose proof (list_filter_perm (fun p => String.eqb (p_ID p) id) _ _ Hp) as Hf.
    unfold l in Hf at 2. rewrite filter_filter_match in Hf.
    destruct (matches_le1 t id d Hd) as [He|[p He]]; rewrite He in *.
    + symmetry in Hf. apply Permutation_nil in Hf. by rewrite Hf.
    + symmetry in Hf. apply Permutation_length_1_inv in Hf. by rewrite Hf.
  - rewrite Hp. apply filter_NoDup, Hd.
Qed.

Lemma stored_ext t d d' : db_policies d = db_policies d' -> forall id, stored t d id = stored t d' id.
Proof. unfold stored. by intros ->. Qed.

(** What an insert does to the view. *)
Lemma stored_add f now p d d' t id :
  Store.AddPolicy f now p d = (Ok tt, d') ->
  stored t d' id = if String.eqb (p_Tenant p) t && String.eqb id (p_ID p)
                   then Some (policy_defaults now p) else stored t d id.
Proof.
  intros [-> Hfresh]%AddPolicy_ok. unfold stored. simpl. rewrite List.filter_app. simpl.
  unfold policy_match at 2. simpl. rewrite (String.eqb_sym (p_ID p)).
  destruct (String.eqb_spec (p_Tenant p) t) as [<-|]; simpl; [|by rewrite app_nil_r].
  destruct (String.eqb_spec id (p_ID p)) as [->|]; simpl; [|by rewrite app_nil_r].
  by destruct (filter_fresh_id (p_Tenant p) _ _ Hfresh) as [-> _].
Qed.

(** What a delete does to the view, and that it reports whether the rule was there. *)
Lemma stored_remove tn i d b d' t id :
  db_wf d -> Store.RemovePolicy None tn i d = (Ok b, d') ->
  stored t d' id = (if String.eqb tn t && String.eqb id i then None else stored t d id) /\
  b = bool_decide (is_Some (stored tn d i)).
Proof.
  intros Hd E. unfold Store.RemovePolicy, Store.exec in E. injection E as <- <-. split.
  - unfold stored. simpl. rewrite filter_swap.
    destruct (matches_le1 t id d Hd) as [->|[p Hp]].
    { by destruct (_ && _). }
    rewrite Hp. simpl. assert (Hm : policy_match t id p = true).
    { assert (In p (List.filter (policy_match t id) (db_policies d))) as Hin by (rewrite Hp; by left).
      by apply filter_In in Hin as [_ ?]. }
    unfold policy_match in *. bool_split. subst t id.
    rewrite (String.eqb_sym tn). by destruct (String.eqb (p_Tenant p) tn), (String.eqb (p_ID p) i).
  - unfold stored. destruct (matches_le1 tn i d Hd) as [->|[p ->]]; reflexivity.
Qed.

(** ** The server invariant *)
Definition follows (t : string) (p : ptr) (sent : list PolicyEvent) (s : Server) : Prop :=
  db_wf (srv_db s) /\
  exists k log, tracks p (mkConf k t) (srv_hub s) log /\
    forall id, option_Forall2 same_rule (replay (sent ++ log) id) (stored t (srv_db s) id).

Lemma follows_quiet t p sent s op k :
  follows t p sent s -> (forall ev tn, op <> OpBroadcast ev tn) ->
  exists x, hub_step (srv_hub s) op = Some x /\ follows t p sent (mkServer (srv_db s) x k).
Proof.
  intros (Hwf & n & log & Ht & Hv) Hop. destruct (tracks_step _ _ _ _ op Ht) as (x & He & Hx).
  exists x. split; [done|]. split; [done|]. exists n, log. split; [|done].
  destruct op; try done. by destruct (Hop ev tenant).
Qed.

(** A database change and the broadcast that announces it. *)
Lemma follows_broadcast t p sent s ev tn d :
  t <> ""%string -> follows t p sent s -> db_wf d ->
  (forall m id, (forall id, option_Forall2 same_rule (m id) (stored t (srv_db s) id)) ->
     option_Forall2 same_rule (if String.eqb t tn then apply_event m ev id else m id) (stored t d id)) ->
  exists s', hub_only (OpBroadcast ev tn) (set_db d s) = Some s' /\ follows t p sent s'.
Proof.
  intros Ht (Hwf & n & log & Htr & Hv) Hd Hb.
  destruct (tracks_step _ _ _ _ (OpBroadcast ev tn) Htr) as (x & He & Hx).
  unfold hub_only. cbn [srv_hub set_db]. rewrite He. eexists. split; [done|]. split; [done|].
  unfold wants, policy_watch in Hx. cbn [wc_tenant] in Hx.
  rewrite (proj2 (String.eqb_neq t "")) in Hx by done. cbn [orb] in Hx.
  eexists n, _. split; [exact Hx|]. intros id. cbn [srv_db set_db]. specialize (Hb _ id Hv).
  destruct (String.eqb t tn); [|exact Hb]. by rewrite app_assoc, replay_app.
Qed.

Lemma policy_follows_set_db t p sent s d :
  follows t p sent s -> db_wf d -> db_policies d = db_policies (srv_db s) ->
  follows t p sent (set_db d s).
Proof.
  intros (Hwf & n & log & Ht & Hv) Hd Hs. split; [done|]. exists n, log. split; [done|].
  intros id. rewrite (stored_ext t d (srv_db s)) by done. apply Hv.
Qed.

Lemma follows_add t p sent f now uuid rule s :
  t <> ""%string -> follows t p sent s ->
  exists r s', AddPolicy f now uuid rule s = Some (r, s') /\ follows t p sent s'.
Proof.
  intros Ht Hf. unfold AddPolicy, AddPolicy_store.
  assert (Hsame : forall e, exists (r : res policy_err string) s',
    Some (Err e, set_db (srv_db s) s) = Some (r, s') /\
    follows t p sent s').
  { intros e. eexists _, _. split; [done|]. apply policy_follows_set_db; [done|apply Hf|done]. }
  destruct rule as [r|]; [|apply Hsame]. destruct (_ || _ || _); [apply Hsame|].
  destruct (r_Decision r =? _); [apply Hsame|].
  set (id := if String.eqb (r_Id r) "" then uuid else r_Id r).
  pose proof (db_step_wf _ (OpAddPolicy f now (rule_row id r)) (proj1 Hf)) as Hwf. simpl in Hwf.
  destruct (Store.AddPolicy f now (rule_row id r) (srv_db s)) as [[[]|e] d] eqn:E; simpl in Hwf.
  - destruct (follows_broadcast t p sent s (added_event (with_id id r)) (r_Tenant r) d Ht Hf Hwf)
      as (s' & He & Hf').
    + intros m i Hm. rewrite (stored_add _ _ _ _ _ t i E). cbn [p_Tenant p_ID rule_row].
      unfold apply_event. simpl. rewrite (String.eqb_sym (r_Tenant r)).
      destruct (String.eqb t (r_Tenant r)), (String.eqb i id); simpl; try apply Hm.
      constructor. apply same_rule_live.
    + cbn [r_Tenant with_id]. rewrite He. by eexists _, _.
  - eexists _, _. split; [done|]. apply policy_follows_set_db; try done.
    unfold Store.AddPolicy, Store.exec in E.
    destruct f; [by simplify_eq|]. by destruct (insert_policy _ _) as [[? ?]|?]; simplify_eq.
Qed.

Lemma follows_remove t p sent f tn id s :
  t <> ""%string -> follows t p sent s ->
  exists r s', RemovePolicy f tn id s = Some (r, s') /\ follows t p sent s'.
Proof.
  intros Ht Hf. unfold RemovePolicy.
  pose proof (db_step_wf _ (OpRemovePolicy f tn id) (proj1 Hf)) as Hwf. simpl in Hwf.
  destruct (Store.RemovePolicy f tn id (srv_db s)) as [[b|e] d] eqn:E; simpl in Hwf.
  - destruct f; [done|].
    pose proof (fun i => stored_remove tn id _ b d t i (proj1 Hf) E) as Hrm.
    destruct b.
    + destruct (follows_broadcast t p sent s (removed_event id) tn d Ht Hf Hwf) as (s' & -> & Hf').
      * intros m i Hm. rewrite (proj1 (Hrm i)). unfold apply_event. simpl. rewrite (String.eqb_sym tn).
        destruct (String.eqb t tn), (String.eqb i id); simpl; try apply Hm. constructor.
      * by eexists _, _.
    + eexists _, _. split; [done|]. destruct Hf as (Hwf0 & n & log & Htr & Hv).
      split; [done|]. exists n, log. split; [done|]. intros i.
      destruct (Hrm i) as [Hi Hb]. cbn [srv_db set_db]. rewrite Hi.
      destruct (String.eqb tn t && String.eqb i id) eqn:Em; [|apply Hv]. bool_split. subst tn i.
      symmetry in Hb. apply bool_decide_eq_false in Hb. apply eq_None_not_Some in Hb.
      specialize (Hv id). rewrite Hb in Hv. exact Hv.
  - eexists _, _. split; [done|]. apply policy_follows_set_db; try done.
    unfold Store.RemovePolicy, Store.exec in E. by destruct f; simplify_eq.
Qed.

Lemma policy_srv_step_follows t p sent s c :
  t <> ""%string -> follows t p sent s -> exists s', srv_step s c = Some s' /\ follows t p sent s'.
Proof.
  intros Ht Hf. destruct c as [f now uuid rule|f tn id|q tn|q|q]; simpl.
  - destruct (follows_add t p sent f now uuid rule s Ht Hf) as (r & s' & -> & Hf'). by eexists.
  - destruct (follows_remove t p sent f tn id s Ht Hf) as (r & s' & -> & Hf'). by eexists.
  - unfold Watch_register, hub_only. cbn [srv_hub srv_db srv_nextWatch].
    destruct (follows_quiet t p sent s (OpAdd q (mkConf (u64 (srv_nextWatch s + 1)) tn))
      (u64 (srv_nextWatch s + 1)) Hf ltac:(done)) as (x & -> & Hx). by eexists.
  - unfold hub_only. destruct (follows_quiet t p sent s (OpRecv q) (srv_nextWatch s) Hf ltac:(done))
      as (x & -> & Hx). by eexists.
  - unfold hub_only. destruct (follows_quiet t p sent s (OpRemove q) (srv_nextWatch s) Hf ltac:(done))
      as (x & -> & Hx). by eexists.
Qed.

Lemma policy_srv_run_follows t p sent cs s :
  t <> ""%string -> follows t p sent s -> exists s', srv_run cs s = Some s' /\ follows t p sent s'.
Proof.
  intros Ht. revert s. induction cs as [|c cs IH]; intros s Hf; [by exists s|].
  destruct (policy_srv_step_follows t p sent s c Ht Hf) as (s1 & He & Hf1). simpl. rewrite He. by apply IH.
Qed.

Definition srv_ok (s : Server) : Prop := db_wf (srv_db s) /\ hub_ok (srv_hub s).

Lemma policy_New_ok : srv_ok (New empty_db).
Proof. split; [apply empty_db_wf|apply new_exec_ok]. Qed.

Lemma Watch_register_ok p id t s :
  srv_ok s -> h_mem (x_hub (srv_hub s)) !! p = None ->
  exists s', Watch_register p id t s = Some s' /\ srv_db s' = srv_db s /\
    tracks p (mkConf id t) (srv_hub s') [].
Proof.
  intros [Hwf Hok] Hm. destruct (tracks_add p (mkConf id t) _ Hok Hm)
    as (x & He & Htr & _). unfold Watch_register, hub_only. rewrite He. by eexists.
Qed.

Lemma send_all_ok evs errs sent : send_all evs errs = (sent, None) -> sent = evs.
Proof.
  revert errs sent. induction evs as [|ev evs IH]; intros errs sent; simpl; [by intros [= <-]|].
  destruct errs as [|[e|] errs]; [|done|].
  - destruct (send_all evs []) as [l r] eqn:E. intros [= <- ->]. f_equal. by eapply IH.
  - destruct (send_all evs errs) as [l r] eqn:E. intros [= <- ->]. f_equal. by eapply IH.
Qed.

Lemma Watch_open_follows `{OrderByLaws} p t errs s s1 sent :
  srv_ok s -> h_mem (x_hub (srv_hub s)) !! p = None ->
  Watch_open None None p t errs s = Some (inl (s1, sent)) -> follows t p sent s1.
Proof.
  intros Hok Hm. unfold Watch_open, Watch_list, Watch_id. cbn [srv_db].
  destruct (Store.ListPolicies None None t (srv_db s)) as [rows|e] eqn:El; [|done].
  destruct (Watch_register_ok p (u64 (srv_nextWatch s + 1)) t
    (mkServer (srv_db s) (srv_hub s) (u64 (srv_nextWatch s + 1))) Hok Hm) as (s' & -> & Hdb & Htr). cbn [mbind option_bind].
  destruct (send_all _ errs) as [sent' [e|]] eqn:Es.
  - by destruct (hub_only (OpRemove p) s').
  - intros [= -> ->]. apply send_all_ok in Es as ->. split; [rewrite Hdb; apply Hok|].
    eexists _, []. split; [done|]. intros id. rewrite app_nil_r, Hdb.
    cbn [srv_db]. rewrite (replay_snapshot t (srv_db s) rows id (proj1 Hok) El).
    destruct (stored t (srv_db s) id); constructor. apply same_rule_toPB.
Qed.

(** The outcome of the store half on every branch. *)
Lemma AddPolicy_store_cases (now : Z) (uuid : string) (rule : option PolicyRule) (d : db) :
  AddPolicy_store None now uuid rule d =
    match rule with
    | None => (Err ErrRuleRequired, d)
    | Some r =>
      if bool_decide (r_Tenant r = "" \/ r_TargetPattern r = "" \/ r_CallerPattern r = "")%string
      then (Err ErrFieldsRequired, d)
      else if r_Decision r =? 0 then (Err ErrDecisionRequired, d)
      else
        let id := if String.eqb (r_Id r) "" then uuid else r_Id r in
        if existsb (fun q => String.eqb (p_ID q) id) (db_policies d)
        then (Err (ErrStore (ErrWrap "store: add policy" (ErrUnique "policies.id"))), d)
        else (Ok (with_id id r),
              with_policies (db_policies d ++
                [mkPolicy id (r_Tenant r) (r_CallerPattern r) (r_TargetPattern r) (r_MethodPattern r)
                   (if r_Decision r =? 2 then "deny" else "allow") (r_ExpiresUnixMs r) now
                   (p2pModeString (r_P2PMode r)) (relayModeString (r_RelayMode r))]) d)
    end.
Proof.
  unfold AddPolicy_store. destruct rule as [r|]; [|done].
  assert (String.eqb (r_Tenant r) "" || String.eqb (r_TargetPattern r) "" ||
    String.eqb (r_CallerPattern r) "" =
    bool_decide (r_Tenant r = "" \/ r_TargetPattern r = "" \/ r_CallerPattern r = "")%string) as ->.
  { apply eq_bool_prop_intro. rewrite bool_decide_spec, !orb_True, !Is_true_true, !String.eqb_eq. tauto. }
  case_bool_decide; [done|]. unfold DECISION_UNSPECIFIED. destruct (r_Decision r =? 0); [done|].
  set (id := if String.eqb (r_Id r) "" then uuid else r_Id r). cbv zeta.
  unfold Store.AddPolicy, Store.exec, insert_policy. rewrite rule_row_checks. cbn [p_ID policy_defaults rule_row].
  destruct (existsb _ _); [done|]. f_equal. f_equal. f_equal. f_equal.
  unfold policy_defaults. simpl. unfold decisionString, DECISION_DENY, p2pModeString, relayModeString.
  by repeat case_match.
Qed.

(** ** Properties *)

(** C3. A relay's policy replica is exact when its watch opens undisturbed: if the
    snapshot is read and the watcher registered with no other request between the
    two, then, whatever requests are handled afterwards one at a time, no handler panics,
    and as long as the watcher is registered the snapshot, the received and the buffered
    events leave a rule under an id exactly when the tenant has one stored, and the two are
    equal in every field but the creation time, with an enumeration number that the
    protocol does not name read as the default ([same_rule]). *)
Theorem watch_rebuilds_policies `{OrderByLaws} (p : ptr) (t : string) (errs : list (option Z))
    (cs : list call) (s s1 : Server) (sent : list PolicyEvent) :
  t <> ""%string -> srv_ok s -> h_mem (x_hub (srv_hub s)) !! p = None ->
  Watch_open None None p t errs s = Some (inl (s1, sent)) ->
  exists s2, srv_run cs s1 = Some s2 /\
    forall w id, h_mem (x_hub (srv_hub s2)) !! p = Some w -> p ∈ h_watchers (x_hub (srv_hub s2)) ->
      option_Forall2 same_rule (replay (sent ++ x_got (srv_hub s2) p ++ w_ch w) id) (stored t (srv_db s2) id).
Proof.
  intros Ht Hok Hm Ho. pose proof (Watch_open_follows p t errs s s1 sent Hok Hm Ho) as Hf.
  destruct (policy_srv_run_follows t p sent cs s1 Ht Hf) as (s2 & He & _ & n & log & Htr & Hv).
  exists s2. split; [done|]. intros w id Hw Hr.
  by rewrite (tracks_delivered _ _ _ _ w Htr Hw Hr).
Qed.

Definition demo_rule (id t : string) : PolicyRule := mkRule id t "*" "db" "" DECISION_DENY 0 0 0 0.

Lemma watch_rebuilds_policies_witness :
  exists s1 s2,
    Watch_open None None 1%positive "acme" [] (New empty_db) = Some (inl (s1, [snapshot_end])) /\
    srv_run [CallAdd None 5 "u" (Some (demo_rule "" "acme"))] s1 = Some s2 /\
    forall w id, h_mem (x_hub (srv_hub s2)) !! 1%positive = Some w ->
      1%positive ∈ h_watchers (x_hub (srv_hub s2)) ->
      option_Forall2 same_rule (replay ([snapshot_end] ++ x_got (srv_hub s2) 1%positive ++ w_ch w) id)
        (stored "acme" (srv_db s2) id).
Proof.
  destruct (Watch_register_ok 1%positive 1 "acme" (snd (Watch_id (New empty_db))) policy_New_ok eq_refl)
    as (s1 & H1 & _).
  assert (Ho : Watch_open None None 1%positive "acme" [] (New empty_db) =
    Some (inl (s1, [snapshot_end]))).
  { change (Watch_open None None 1%positive "acme" [] (New empty_db)) with
      (s1 ← Watch_register 1%positive 1 "acme" (snd (Watch_id (New empty_db)));
       Some (inl (s1, [snapshot_end])) : option (Server * list PolicyEvent +
         Server * list PolicyEvent * (policy_err + Z))). by rewrite H1. }
  destruct (watch_rebuilds_policies 1%positive "acme" []
    [CallAdd None 5 "u" (Some (demo_rule "" "acme"))] (New empty_db) s1 [snapshot_end]
    ltac:(discriminate) policy_New_ok eq_refl Ho) as (s2 & H2 & Hv).
  exists s1, s2. split; [exact Ho|]. split; [exact H2|exact Hv].
Defined.

(** C27. The snapshot is read before the watcher is registered, so a rule added
    between the two is lost to that watch: it is neither in the snapshot nor among
    the live events, although it is stored. *)
Theorem snapshot_gap_loses_rule `{OrderByLaws} (p : ptr) (wid : Z) (t uuid id : string) (now : Z)
    (r : PolicyRule) (rows : list Policy) (s s1 s2 : Server) :
  srv_ok s -> Watch_list None None t s = Ok rows ->
  AddPolicy None now uuid (Some r) s = Some (Ok id, s1) -> r_Tenant r = t ->
  h_mem (x_hub (srv_hub s1)) !! p = None -> Watch_register p wid t s1 = Some s2 ->
  is_Some (stored t (srv_db s2) id) /\
  x_log (srv_hub s2) p = [] /\
  replay (snapshot_events rows) id = None.
Proof.
  intros [Hwf Hok] Hl Ha Ht Hm Hr. unfold AddPolicy, AddPolicy_store in Ha.
  destruct (_ || _ || _); [done|]. destruct (r_Decision r =? _); [done|].
  set (i := if String.eqb (r_Id r) "" then uuid else r_Id r) in Ha.
  pose proof (db_step_wf _ (OpAddPolicy None now (rule_row i r)) Hwf) as Hwf1. simpl in Hwf1.
  destruct (Store.AddPolicy None now (rule_row i r) (srv_db s)) as [[[]|e] d] eqn:E; [|done].
  simpl in Hwf1. cbn [r_Tenant r_Id with_id] in Ha.
  destruct (hub_step_ok _ (OpBroadcast (added_event (with_id i r)) (r_Tenant r)) Hok) as (x & He & Hx).
  unfold hub_only in Ha. cbn [srv_hub set_db] in Ha. rewrite He in Ha.
  injection Ha as <- <-.
  destruct (Watch_register_ok p wid t _ (conj Hwf1 Hx : srv_ok (mkServer d x _)) Hm)
    as (s' & Hr' & Hdb & Htr). cbn [srv_db set_db srv_nextWatch] in *.
  rewrite Hr in Hr'. injection Hr' as <-. split; [|split].
  - rewrite Hdb. rewrite (stored_add _ _ _ _ _ t i E). cbn [srv_db p_Tenant p_ID rule_row].
    rewrite Ht, !String.eqb_refl. by eexists.
  - by destruct Htr.
  - unfold Watch_list in Hl.
    destruct (Store.ListPolicies None None t (srv_db s)) as [rows'|e] eqn:El; [|done].
    injection Hl as ->. rewrite (replay_snapshot t _ rows i Hwf El).
    apply AddPolicy_ok in E as [_ Hfresh]. unfold stored.
    destruct (filter_fresh_id t i _ Hfresh) as [-> _]. done.
Qed.

Lemma snapshot_gap_loses_rule_witness :
  exists s1 s2, AddPolicy None 5 "u" (Some (demo_rule "" "acme")) (New empty_db) = Some (Ok "u"%string, s1) /\
    Watch_register 1%positive 1 "acme" s1 = Some s2 /\
    is_Some (stored "acme" (srv_db s2) "u") /\ x_log (srv_hub s2) 1%positive = [] /\
    replay (snapshot_events []) "u" = None.
Proof.
  pose (d := snd (AddPolicy_store None 5 "u" (Some (demo_rule "" "acme")) empty_db)).
  pose (s1 := mkServer d (mkExec new_hub (log_event (added_event (demo_rule "u" "acme")) "acme" new_hub
    (fun _ => [])) (fun _ => [])) 0).
  assert (H1 : AddPolicy None 5 "u" (Some (demo_rule "" "acme")) (New empty_db) = Some (Ok "u"%string, s1))
    by reflexivity.
  assert (H2 : exists s2, Watch_register 1%positive 1 "acme" s1 = Some s2) by (eexists; reflexivity).
  destruct H2 as [s2 H2]. exists s1, s2. split; [exact H1|]. split; [exact H2|].
  apply (snapshot_gap_loses_rule 1%positive 1 "acme" "u" "u" 5 (demo_rule "" "acme") [] (New empty_db) s1 s2
    policy_New_ok eq_refl H1 eq_refl eq_refl H2).
Defined.

(** C28. The store update and its broadcast are not one step: when the removal of a
    fresh rule overtakes the announcement of its addition, watchers are told of
    the removal first and keep a rule that the store no longer has. *)
Theorem add_remove_race (p : ptr) (t uuid : string) (now : Z) (sent : list PolicyEvent)
    (r r' : PolicyRule) (s : Server) (d1 : db) :
  t <> ""%string -> follows t p sent s ->
  AddPolicy_store None now uuid (Some r) (srv_db s) = (Ok r', d1) -> r_Tenant r = t ->
  exists d2 s1 s2,
    Store.RemovePolicy None t (r_Id r') d1 = (Ok true, d2) /\
    hub_only (OpBroadcast (removed_event (r_Id r')) t) (set_db d2 s) = Some s1 /\
    hub_only (OpBroadcast (added_event r') t) s1 = Some s2 /\
    replay (sent ++ x_log (srv_hub s2) p) (r_Id r') = Some r' /\
    stored t (srv_db s2) (r_Id r') = None.
Proof.
  intros Hne (Hwf & n & log & Htr & Hv) Ha Ht. unfold AddPolicy_store in Ha.
  destruct (_ || _ || _); [done|]. destruct (r_Decision r =? _); [done|].
  set (i := if String.eqb (r_Id r) "" then uuid else r_Id r) in Ha.
  pose proof (db_step_wf _ (OpAddPolicy None now (rule_row i r)) Hwf) as Hwf1. simpl in Hwf1.
  destruct (Store.AddPolicy None now (rule_row i r) (srv_db s)) as [[[]|e] d] eqn:E; [|done].
  injection Ha as <- <-. simpl in Hwf1. cbn [r_Id with_id].
  destruct (Store.RemovePolicy None t i d) as [[b|e] d2] eqn:E2; [|done].
  destruct (stored_remove t i d b d2 t i Hwf1 E2) as [Hs2 Hb].
  assert (Hsi : is_Some (stored t d i)).
  { rewrite (stored_add _ _ _ _ _ t i E). cbn [p_Tenant p_ID rule_row].
    rewrite Ht, !String.eqb_refl. by eexists. }
  rewrite bool_decide_eq_true_2 in Hb by done. subst b.
  destruct (tracks_step _ _ _ _ (OpBroadcast (removed_event i) t) Htr) as (x1 & He1 & Hx1).
  destruct (tracks_step _ _ _ _ (OpBroadcast (added_event (with_id i r)) t) Hx1) as (x2 & He2 & Hx2).
  eexists d2, _, _. split; [done|]. unfold hub_only. cbn [srv_hub set_db]. rewrite He1.
  split; [done|]. cbn [srv_hub]. rewrite He2. split; [done|]. cbn [srv_hub srv_db set_db].
  assert (Hw : forall ev, wants (mkConf n t) ev t = true).
  { intros ev. unfold wants, policy_watch. simpl. by rewrite String.eqb_refl, orb_true_r. }
  rewrite !Hw in Hx2. destruct Hx2 as [_ _ ->]. split.
  - rewrite app_assoc, replay_app. simpl. unfold apply_event at 1. simpl. by rewrite String.eqb_refl.
  - rewrite Hs2. by rewrite !String.eqb_refl.
Qed.

Lemma add_remove_race_witness :
  exists s d1 d2 s1 s2,
    AddPolicy_store None 5 "u" (Some (demo_rule "" "acme")) (srv_db s) = (Ok (demo_rule "u" "acme"), d1) /\
    Store.RemovePolicy None "acme" "u" d1 = (Ok true, d2) /\
    hub_only (OpBroadcast (removed_event "u") "acme") (set_db d2 s) = Some s1 /\
    hub_only (OpBroadcast (added_event (demo_rule "u" "acme")) "acme") s1 = Some s2 /\
    replay ([snapshot_end] ++ x_log (srv_hub s2) 1%positive) "u" = Some (demo_rule "u" "acme") /\
    stored "acme" (srv_db s2) "u" = None.
Proof.
  destruct (Watch_register_ok 1%positive 1 "acme" (snd (Watch_id (New empty_db))) policy_New_ok eq_refl)
    as (s & H1 & Hdb & _).
  assert (Hf : follows "acme" 1%positive [snapshot_end] s).
  { apply (Watch_open_follows 1%positive "acme" [] (New empty_db)); [apply policy_New_ok|reflexivity|].
    change (Watch_open None None 1%positive "acme" [] (New empty_db)) with
      (s1 ← Watch_register 1%positive 1 "acme" (snd (Watch_id (New empty_db)));
       Some (inl (s1, [snapshot_end])) : option (Server * list PolicyEvent +
         Server * list PolicyEvent * (policy_err + Z))). by rewrite H1. }
  pose (d1 := snd (AddPolicy_store None 5 "u" (Some (demo_rule "" "acme")) empty_db)).
  assert (Ha : AddPolicy_store None 5 "u" (Some (demo_rule "" "acme")) (srv_db s) =
    (Ok (demo_rule "u" "acme"), d1)) by (rewrite Hdb; reflexivity).
  destruct (add_remove_race 1%positive "acme" "u" 5 [snapshot_end] (demo_rule "" "acme")
    (demo_rule "u" "acme") s d1 ltac:(discriminate) Hf Ha eq_refl)
    as (d2 & s1 & s2 & H2 & H3 & H4 & H5 & H6).
  exists s, d1, d2, s1, s2. done.
Defined.

(** The outcome of adding a rule when the statement does not fault: the guards
    refuse a missing rule, a missing field or an unspecified decision; otherwise
    the rule is stored unless its id is taken.  The column checks never fail, and
    every decision other than deny, known or not, is stored as allow. *)
Theorem AddPolicy_outcome (now : Z) (uuid : string) (rule : option PolicyRule) (d : db) :
  AddPolicy_store None now uuid rule d =
    match rule with
    | None => (Err ErrRuleRequired, d)
    | Some r =>
      if bool_decide (r_Tenant r = "" \/ r_TargetPattern r = "" \/ r_CallerPattern r = "")%string
      then (Err ErrFieldsRequired, d)
      else if r_Decision r =? 0 then (Err ErrDecisionRequired, d)
      else
        let id := if String.eqb (r_Id r) "" then uuid else r_Id r in
        if existsb (fun q => String.eqb (p_ID q) id) (db_policies d)
        then (Err (ErrStore (ErrWrap "store: add policy" (ErrUnique "policies.id"))), d)
        else (Ok (with_id id r),
              with_policies (db_policies d ++
                [mkPolicy id (r_Tenant r) (r_CallerPattern r) (r_TargetPattern r) (r_MethodPattern r)
                   (if r_Decision r =? 2 then "deny" else "allow") (r_ExpiresUnixMs r) now
                   (p2pModeString (r_P2PMode r)) (relayModeString (r_RelayMode r))]) d)
    end.
Proof. apply AddPolicy_store_cases. Qed.

(** ** Which values a relay can be sent *)

(** The enumerations of a rule hold values the protocol names, the decision not the
    unspecified one. *)
Definition known_rule (r : PolicyRule) : bool :=
  ((r_Decision r =? DECISION_ALLOW) || (r_Decision r =? DECISION_DENY)) &&
  ((r_P2PMode r =? P2P_ALLOWED) || (r_P2PMode r =? P2P_FORBIDDEN) || (r_P2PMode r =? P2P_REQUIRED)) &&
  ((r_RelayMode r =? RELAY_MODE_SPLICE) || (r_RelayMode r =? RELAY_MODE_FORWARD)).

Lemma toPB_known p : known_rule (toPB p) = true.
Proof.
  unfold known_rule, toPB, decisionPB, p2pModePB, relayModePB. simpl.
  repeat case_match; reflexivity.
Qed.

(** C18. Rules from the store are well typed and live ones are not: every rule that
    [ListPolicies] returns or a watch's snapshot sends has only named enumeration
    values; but an accepted rule is announced to the watchers with the numbers of the
    request, so a rule with an unknown decision is announced with that number and
    listed as an allow rule from then on. *)
Theorem rule_values `{OrderBy} (fq fr : fault) (t : string) (now : Z) (uuid id : string) (r : PolicyRule)
    (p : ptr) (k : Z) (log : list PolicyEvent) (s s' : Server) :
  (forall rules, ListPolicies fq fr t s = Ok rules -> Forall (fun r => known_rule r = true) rules) /\
  (forall rows, Watch_list fq fr t s = Ok rows ->
     Forall (fun ev => match pe_Rule ev with Some r => known_rule r = true | None => True end) (snapshot_events rows)) /\
  (AddPolicy None now uuid (Some r) s = Some (Ok id, s') ->
   tracks p (mkConf k (r_Tenant r)) (srv_hub s) log ->
   tracks p (mkConf k (r_Tenant r)) (srv_hub s') (log ++ [added_event (with_id id r)]) /\
   known_rule (with_id id r) = known_rule r /\
   exists row, In row (db_policies (srv_db s')) /\ p_ID row = id /\ known_rule (toPB row) = true /\
     (r_Decision r <> DECISION_DENY -> r_Decision (toPB row) = DECISION_ALLOW)).
Proof.
  split; [|split].
  - intros rules. unfold ListPolicies. destruct (Store.ListPolicies _ _ _ _) as [rows|]; [|done].
    intros [= <-]. apply Forall_map, Forall_true. intros row. apply toPB_known.
  - intros rows _. unfold snapshot_events. apply Forall_app. split; [|by repeat constructor].
    apply Forall_map, Forall_true. intros row. apply toPB_known.
  - unfold AddPolicy. rewrite AddPolicy_store_cases. case_bool_decide as Hf; [done|].
    destruct (r_Decision r =? 0); [done|].
    set (i := if String.eqb (r_Id r) "" then uuid else r_Id r). cbv zeta.
    destruct (existsb _ _); [done|]. cbn [r_Tenant with_id r_Id]. intros Ha Htr.
    destruct (tracks_step p (mkConf k (r_Tenant r)) (srv_hub s) log
      (OpBroadcast (added_event (with_id i r)) (r_Tenant r)) Htr) as (x & He & Hx).
    unfold hub_only in Ha. cbn [srv_hub set_db] in Ha. rewrite He in Ha. injection Ha as <- <-.
    cbn [srv_hub srv_db]. split; [|split; [done|]].
    + unfold wants, policy_watch in Hx. cbn [wc_tenant] in Hx. by rewrite String.eqb_refl, orb_true_r in Hx.
    + eexists. split; [apply in_or_app; right; by left|]. split; [done|]. split; [apply toPB_known|].
      intros Hd. simpl. destruct (Z.eqb_spec (r_Decision r) 2); [done|reflexivity].
Qed.

Lemma rule_values_witness :
  exists s1 s', Watch_register 1%positive 1 "acme" (New empty_db) = Some s1 /\
    AddPolicy None 5 "u" (Some (mkRule "" "acme" "*" "db" "" 9 0 0 7 0)) s1 = Some (Ok "u"%string, s') /\
    tracks 1%positive (mkConf 1 "acme") (srv_hub s')
      ([] ++ [added_event (mkRule "u" "acme" "*" "db" "" 9 0 0 7 0)]) /\
    known_rule (mkRule "u" "acme" "*" "db" "" 9 0 0 7 0) = false.
Proof.
  destruct (Watch_register_ok 1%positive 1 "acme" (New empty_db) policy_New_ok eq_refl) as (s1 & H1 & Hdb & Htr).
  assert (Ha : (fun x => match x with Some (r, _) => r | None => Err ErrRuleRequired end) <$>
    ((fun s => AddPolicy None 5 "u" (Some (mkRule "" "acme" "*" "db" "" 9 0 0 7 0)) s) <$>
      Watch_register 1%positive 1 "acme" (New empty_db)) = Some (Ok "u"%string)) by (vm_compute; reflexivity).
  rewrite H1 in Ha. simpl in Ha.
  destruct (AddPolicy None 5 "u" (Some (mkRule "" "acme" "*" "db" "" 9 0 0 7 0)) s1) as [[r s']|] eqn:E;
    [|discriminate Ha]. injection Ha as ->.
  exists s1, s'. split; [exact H1|]. split; [exact E|]. split; [|reflexivity].
  exact (proj1 (proj2 (proj2 (rule_values None None "acme" 5 "u" "u" (mkRule "" "acme" "*" "db" "" 9 0 0 7 0)
    1%positive 1 [] s1 s')) E Htr)).
Defined.
