(* ===== verification/Observe.v ===== *)
(** * In-process metrics: lib/observe/metric.go, dumper.go

    Counters, gauges and histograms are [int64] cells with wrap-around.  The
    registry maps names to metric objects; [Counter], [Gauge] and [Histogram]
    return pointers that callers keep, so the objects live in a heap and the
    registry maps names to addresses.  [float64] arithmetic in [Quantile] is the
    executable IEEE-754 of [SpecFloat]; the value of an out-of-range conversion
    to [int64], which Go leaves to the implementation, is a parameter. *)

From Stdlib Require Import ZArith Lia SpecFloat Sorted Strings.Byte.
From stdpp Require Import base tactics list strings gmap.
From S2P Require Import Prelude.

Local Open Scope Z_scope.

(** ** float64 *)
Definition f64_prec : Z := 53.
Definition f64_emax : Z := 1024.
Definition f64_of_int (n : Z) : spec_float := binary_normalize f64_prec f64_emax n 0 false.
Definition f64_mul : spec_float -> spec_float -> spec_float := SFmul f64_prec f64_emax.

(** [int64(f)]: truncation toward zero; [undef] when the value does not fit. *)
Definition f64_to_i64 (undef : Z) (f : spec_float) : Z :=
  match f with
  | S754_zero _ => 0
  | S754_finite s m e =>
    let a := if 0 <=? e then Zpos m * 2 ^ e else Zpos m / 2 ^ (- e) in
    let v := if s then - a else a in
    if (-9223372036854775808 <=? v) && (v <=? 9223372036854775807) then v else undef
  | _ => undef
  end.

(** ** Counters and gauges: one [int64] cell each *)
Definition Counter_Add (n v : Z) : Z := i64 (v + n).
Definition Counter_Inc (v : Z) : Z := Counter_Add 1 v.
Definition Gauge_Set (n _v : Z) : Z := n.
Definition Gauge_Inc (v : Z) : Z := i64 (v + 1).
Definition Gauge_Dec (v : Z) : Z := i64 (v + (-1)).

(** ** Histograms *)
Definition Microsecond : Z := 1000.
Definition Millisecond : Z := 1000 * Microsecond.
Definition Second : Z := 1000 * Millisecond.

Definition DefaultDurationBounds : list Z :=
  [Microsecond; 10 * Microsecond; 100 * Microsecond; Millisecond; 10 * Millisecond;
   100 * Millisecond; Second; 10 * Second].

Record Histogram := mkHist {
  h_bounds : list Z;
  h_counts : list Z;
  h_sumNs : Z;
  h_n : Z
}.

Definition NewHistogram (bounds : list Z) : Histogram :=
  let bounds := if zlen bounds =? 0 then DefaultDurationBounds else bounds in
  mkHist bounds (replicate (length bounds + 1) 0) 0 0.

(** The index of the bucket [Observe] adds to: the first bound that is not
    below [d], or the overflow bucket. *)
Fixpoint bucket (bounds : list Z) (d : Z) : nat :=
  match bounds with
  | [] => 0%nat
  | b :: bounds' => if d <=? b then 0%nat else S (bucket bounds' d)
  end.

Definition Observe (d : Z) (h : Histogram) : Histogram :=
  mkHist (h_bounds h) (alter (fun c => i64 (c + 1)) (bucket (h_bounds h) d) (h_counts h))
    (i64 (h_sumNs h + d)) (i64 (h_n h + 1)).

Record HistogramSnapshot := mkHistSnap {
  Bounds : list Z;
  Counts : list Z;
  SumNs : Z;
  N : Z
}.

Definition Histogram_Snapshot (h : Histogram) : HistogramSnapshot :=
  mkHistSnap (h_bounds h) (h_counts h) (h_sumNs h) (h_n h).

(** [target := int64(float64(snap.N) * q)]. *)
Definition quantile_target (undef : Z) (n : Z) (q : spec_float) : Z :=
  f64_to_i64 undef (f64_mul (f64_of_int n) q).

(** The loop over the buckets: [bs] are the bounds from position [i] on. *)
Fixpoint quantile_loop (target : Z) (snap : HistogramSnapshot) (cum : Z) (bs : list Z)
    (cs : list Z) : Z :=
  match cs with
  | [] => 0
  | c :: cs' =>
    let cum := i64 (cum + c) in
    if target <=? cum then
      match bs with
      | b :: _ => b
      | [] => if 0 <? c then i64 (Z.quot (SumNs snap) (N snap))
              else List.last (Bounds snap) 0
      end
    else quantile_loop target snap cum (tail bs) cs'
  end.

Definition Quantile (undef : Z) (q : spec_float) (h : Histogram) : Z :=
  if SFleb q (S754_zero false) || SFleb (f64_of_int 1) q then 0
  else
    let snap := Histogram_Snapshot h in
    if N snap =? 0 then 0
    else quantile_loop (quantile_target undef (N snap) q) snap 0 (Bounds snap) (Counts snap).

(** ** The registry *)
Definition loc := positive.

Record Registry := mkRegistry {
  r_c : gmap string loc;
  r_g : gmap string loc;
  r_h : gmap string loc;
  heap_c : gmap loc Z;
  heap_g : gmap loc Z;
  heap_h : gmap loc Histogram
}.

Definition NewRegistry : Registry := mkRegistry ∅ ∅ ∅ ∅ ∅ ∅.

(** The read-locked section of [Counter] and the write-locked one that follows
    when it found nothing; other goroutines may run between the two. *)
Definition Counter_fast (name : string) (r : Registry) : option loc := r_c r !! name.

Definition Counter_slow (name : string) (r : Registry) : loc * Registry :=
  match r_c r !! name with
  | Some l => (l, r)
  | None =>
    let l := fresh (dom (heap_c r)) in
    (l, mkRegistry (<[name := l]> (r_c r)) (r_g r) (r_h r) (<[l := 0]> (heap_c r)) (heap_g r) (heap_h r))
  end.

Definition Counter (name : string) (r : Registry) : loc * Registry :=
  match Counter_fast name r with
  | Some l => (l, r)
  | None => Counter_slow name r
  end.

Definition Gauge_fast (name : string) (r : Registry) : option loc := r_g r !! name.

Definition Gauge_slow (name : string) (r : Registry) : loc * Registry :=
  match r_g r !! name with
  | Some l => (l, r)
  | None =>
    let l := fresh (dom (heap_g r)) in
    (l, mkRegistry (r_c r) (<[name := l]> (r_g r)) (r_h r) (heap_c r) (<[l := 0]> (heap_g r)) (heap_h r))
  end.

Definition Gauge (name : string) (r : Registry) : loc * Registry :=
  match Gauge_fast name r with
  | Some l => (l, r)
  | None => Gauge_slow name r
  end.

Definition Histogram_fast (name : string) (r : Registry) : option loc := r_h r !! name.

Definition Histogram_slow (name : string) (bounds : list Z) (r : Registry) : loc * Registry :=
  match r_h r !! name with
  | Some l => (l, r)
  | None =>
    let l := fresh (dom (heap_h r)) in
    (l, mkRegistry (r_c r) (r_g r) (<[name := l]> (r_h r)) (heap_c r) (heap_g r)
          (<[l := NewHistogram bounds]> (heap_h r)))
  end.

Definition Registry_Histogram (name : string) (bounds : list Z) (r : Registry) : loc * Registry :=
  match Histogram_fast name r with
  | Some l => (l, r)
  | None => Histogram_slow name bounds r
  end.

(** Methods through a pointer. *)
Definition counter_add (l : loc) (n : Z) (r : Registry) : Registry :=
  mkRegistry (r_c r) (r_g r) (r_h r) (alter (Counter_Add n) l (heap_c r)) (heap_g r) (heap_h r).
Definition gauge_set (l : loc) (n : Z) (r : Registry) : Registry :=
  mkRegistry (r_c r) (r_g r) (r_h r) (heap_c r) (alter (Gauge_Set n) l (heap_g r)) (heap_h r).
Definition hist_observe (l : loc) (d : Z) (r : Registry) : Registry :=
  mkRegistry (r_c r) (r_g r) (r_h r) (heap_c r) (heap_g r) (alter (Observe d) l (heap_h r)).

(** [sort.Strings(keys)]. *)
Definition string_leb (a b : string) : bool := String.leb a b.
Definition sortedKeys {V} (m : gmap string V) : list string :=
  stable_sort string_leb (map fst (map_to_list m)).

Record RegSnapshot := mkRegSnap {
  TsUnixMs : Z;
  Counters : gmap string Z;
  Gauges : gmap string Z;
  Histograms : gmap string HistogramSnapshot
}.

(** The loop [for name in sortedKeys(m): out[name] = f(m[name])]. *)
Definition collect {V B} (m : gmap string loc) (heap : gmap loc V) (f : V -> B) : gmap string B :=
  fold_left (fun out name =>
    match m !! name with
    | Some l => match heap !! l with Some v => <[name := f v]> out | None => out end
    | None => out
    end) (sortedKeys m) ∅.

Definition Snapshot (now : Z) (r : Registry) : RegSnapshot :=
  mkRegSnap now (collect (r_c r) (heap_c r) (fun v => v)) (collect (r_g r) (heap_g r) (fun v => v))
    (collect (r_h r) (heap_h r) Histogram_Snapshot).

(** ** The dumper: one encoded snapshot line per write *)

(** [d_file] is the content of the open file. *)
Record Dumper := mkDumper {
  d_interval : Z;
  d_file : option (list byte)
}.

Definition NewDumper (interval : Z) : Dumper :=
  mkDumper (if interval <=? 0 then 10 * Second else interval) None.

Section Dumper.
Context {IoErr : Type} (encode : RegSnapshot -> list byte).

(** [openIfNeeded]: the file is opened for appending, its content kept; [mkdir]
    and [open] are the outcomes of the two system calls. *)
Definition openIfNeeded (mkdir open : option IoErr) (existing : list byte) (d : Dumper)
  : res IoErr unit * Dumper :=
  match d_file d with
  | Some _ => (Ok tt, d)
  | None =>
    match mkdir with
    | Some e => (Err e, d)
    | None =>
      match open with
      | Some e => (Err e, d)
      | None => (Ok tt, mkDumper (d_interval d) (Some existing))
      end
    end
  end.

(** [writeOne]: one line appended; a write that fails may have got its first
    bytes through. *)
Definition writeOne (werr : option (IoErr * nat)) (snap : RegSnapshot) (d : Dumper)
  : res IoErr unit * Dumper :=
  match werr with
  | Some (e, n) => (Err e, mkDumper (d_interval d) ((fun bs => bs ++ take n (encode snap)) <$> d_file d))
  | None => (Ok tt, mkDumper (d_interval d) ((fun bs => bs ++ encode snap) <$> d_file d))
  end.

(** The turns of [Run] after the file is open: each tick takes a snapshot and
    writes it; the end is the cancelled context or the first write error. *)
Fixpoint dump_loop (ticks : list (RegSnapshot * option (IoErr * nat))) (d : Dumper)
  : option IoErr * Dumper :=
  match ticks with
  | [] => (None, d)
  | (snap, werr) :: ticks' =>
    match writeOne werr snap d with
    | (Err e, d') => (Some e, d')
    | (Ok _, d') => dump_loop ticks' d'
    end
  end.

(** [Run]: the content of the file at the end, and the error if it was not the
    cancellation; [close] drops the handle. *)
Definition Run (mkdir open : option IoErr) (existing : list byte)
    (first : RegSnapshot * option (IoErr * nat)) (ticks : list (RegSnapshot * option (IoErr * nat)))
    (d : Dumper) : option IoErr * list byte * Dumper :=
  match openIfNeeded mkdir open existing d with
  | (Err e, d') => (Some e, existing, d')
  | (Ok _, d') =>
    let '(e, d'') := dump_loop (first :: ticks) d' in
    (e, default existing (d_file d''), mkDumper (d_interval d'') None)
  end.

(** What the snapshots of a schedule encode to, and what a run over the
    schedule [ts] that ended with [e] may have appended: the encodings of its
    first snapshots, all of them without an error, then on an error the first
    bytes of the next one. *)
Definition encoded (ts : list (RegSnapshot * option (IoErr * nat))) : list byte :=
  concat (map (fun t => encode (fst t)) ts).

Definition appended (ts : list (RegSnapshot * option (IoErr * nat))) (e : option IoErr)
    (bs : list byte) : Prop :=
  match e with
  | None => bs = encoded ts
  | Some _ => exists k n, bs = encoded (take k ts) ++ take n (encoded (take 1 (drop k ts)))
  end.
End Dumper.

(** ** Observation histories *)
Definition observe_all (ds : list Z) (h : Histogram) : Histogram :=
  fold_left (fun h d => Observe d h) ds h.

(** How many observations fall into bucket [i], and how many are at most [b]. *)
Definition in_bucket (bounds : list Z) (i : nat) (ds : list Z) : Z :=
  zlen (List.filter (fun d => Nat.eqb (bucket bounds d) i) ds).
Definition at_most (b : Z) (ds : list Z) : Z := zlen (List.filter (fun d => d <=? b) ds).

(** ** Lemmas on histograms *)
Lemma bucket_le bounds d : (bucket bounds d <= length bounds)%nat.
Proof. induction bounds as [|b bounds IH]; simpl; [lia|]. destruct (d <=? b); lia. Qed.

Lemma zlen_filter_le {A} (P : A -> bool) l : zlen (List.filter P l) <= zlen l.
Proof. zunfold. induction l as [|x l IH]; simpl; [lia|]. destruct (P x); simpl; lia. Qed.

Lemma zlen_filter_snoc {A} (P : A -> bool) l x :
  zlen (List.filter P (l ++ [x])) = zlen (List.filter P l) + (if P x then 1 else 0).
Proof. rewrite List.filter_app, zlen_app. simpl. by destruct (P x). Qed.

Definition hist_of (bounds ds : list Z) (h : Histogram) : Prop :=
  h_bounds h = bounds /\ h_n h = zlen ds /\
  h_counts h = map (fun i => in_bucket bounds i ds) (seq 0 (length bounds + 1)).

Lemma seq_lookup_map {B} (f : nat -> B) n i :
  map f (seq 0 n) !! i = if decide (i < n)%nat then Some (f i) else None.
Proof.
  change (map f (seq 0 n)) with (f <$> seq 0 n). rewrite list_lookup_fmap. case_decide.
  - by rewrite lookup_seq_lt.
  - by rewrite lookup_seq_ge by lia.
Qed.

Lemma Observe_hist bounds ds h d :
  hist_of bounds ds h -> zlen (ds ++ [d]) <= 9223372036854775807 ->
  hist_of bounds (ds ++ [d]) (Observe d h).
Proof.
  intros (Hb & Hn & Hc) Hlen. unfold hist_of, Observe. simpl. rewrite Hb, Hn, Hc.
  rewrite zlen_app in *. change (zlen [d]) with 1 in *. pose proof (zlen_nonneg ds).
  split; [done|]. split; [apply i64_small; unfold is_i64; lia|].
  apply list_eq. intros i. rewrite seq_lookup_map.
  destruct (decide (bucket bounds d = i)) as [<-|Hne].
  - rewrite list_lookup_alter_eq, seq_lookup_map.
    destruct (decide (bucket bounds d < length bounds + 1)%nat); [|done]. simpl. f_equal.
    unfold in_bucket. rewrite zlen_filter_snoc, Nat.eqb_refl. apply i64_small.
    pose proof (zlen_filter_le (fun d0 => (bucket bounds d0 =? bucket bounds d)%nat) ds).
    pose proof (zlen_nonneg (List.filter (fun d0 => (bucket bounds d0 =? bucket bounds d)%nat) ds)).
    unfold is_i64. lia.
  - rewrite list_lookup_alter_ne, seq_lookup_map by done. case_decide; [|done]. f_equal.
    unfold in_bucket. rewrite zlen_filter_snoc.
    destruct (Nat.eqb_spec (bucket bounds d) i); [done|lia].
Qed.

Lemma observe_all_hist bounds ds h :
  hist_of bounds [] h -> zlen ds <= 9223372036854775807 -> hist_of bounds ds (observe_all ds h).
Proof.
  intros Hh. induction ds as [|d ds IH] using rev_ind; [done|]. intros Hlen.
  unfold observe_all. rewrite fold_left_app. simpl. apply Observe_hist; [|done]. apply IH.
  rewrite zlen_app in Hlen. pose proof (zlen_nonneg [d]). lia.
Qed.

(** The sum of durations. *)
Definition total (ds : list Z) : Z := fold_right Z.add 0 ds.

Lemma i64_add_l a b : i64 (i64 a + b) = i64 (a + b).
Proof.
  unfold i64. replace ((a + 9223372036854775808) mod 18446744073709551616 - 9223372036854775808 + b
    + 9223372036854775808) with ((a + 9223372036854775808) mod 18446744073709551616 + b) by lia.
  rewrite Zplus_mod_idemp_l. do 2 f_equal. lia.
Qed.

Lemma observe_all_sum ds h : is_i64 (h_sumNs h) -> h_sumNs (observe_all ds h) = i64 (h_sumNs h + total ds).
Proof.
  revert h. induction ds as [|d ds IH]; intros h Hh; simpl.
  - by rewrite Z.add_0_r, i64_small.
  - rewrite IH by (simpl; apply i64_range). simpl. rewrite i64_add_l. f_equal. lia.
Qed.

Lemma NewHistogram_hist bounds :
  bounds <> [] -> hist_of bounds [] (NewHistogram bounds).
Proof.
  intros Hne. unfold NewHistogram. destruct (Z.eqb_spec (zlen bounds) 0) as [Hz|].
  { destruct bounds; [done|]. unfold zlen in Hz. simpl in Hz. lia. }
  split; [done|]. split; [done|]. simpl. apply list_eq. intros i. rewrite seq_lookup_map.
  case_decide.
  - by rewrite lookup_replicate_2 by done.
  - apply lookup_ge_None_2. rewrite length_replicate. lia.
Qed.

(** With ascending bounds, bucket [i] or lower means at most bound [i]. *)
Lemma bucket_at_most bounds d i b :
  StronglySorted Z.lt bounds -> bounds !! i = Some b ->
  ((bucket bounds d <= i)%nat <-> d <= b).
Proof.
  intros Hs. revert i. induction Hs as [|x bounds Hs IH Hx]; intros i Hi; [done|].
  simpl. destruct i as [|i]; simpl in Hi.
  - injection Hi as ->. destruct (Z.leb_spec d b); lia.
  - destruct (Z.leb_spec d x).
    + apply list_elem_of_lookup_2 in Hi. rewrite Forall_forall in Hx. specialize (Hx b Hi). lia.
    + specialize (IH i Hi). lia.
Qed.

(** How many observations fall below bucket [k]. *)
Definition below (bounds : list Z) (k : nat) (ds : list Z) : Z :=
  zlen (List.filter (fun d => (bucket bounds d <? k)%nat) ds).

Lemma below_0 bounds ds : below bounds 0 ds = 0.
Proof. unfold below, zlen. induction ds; [done|]. simpl. exact IHds. Qed.

Lemma below_S bounds k ds : below bounds (S k) ds = below bounds k ds + in_bucket bounds k ds.
Proof.
  unfold below, in_bucket, zlen. induction ds as [|d ds IH]; simpl; [done|].
  destruct (Nat.ltb_spec (bucket bounds d) k), (Nat.ltb_spec (bucket bounds d) (S k)),
    (Nat.eqb_spec (bucket bounds d) k); simpl; lia.
Qed.

Lemma below_range bounds k ds : 0 <= below bounds k ds <= zlen ds.
Proof. split; [apply zlen_nonneg|apply zlen_filter_le]. Qed.

Lemma below_all bounds ds : below bounds (length bounds + 1) ds = zlen ds.
Proof.
  unfold below. f_equal. induction ds as [|d ds IH]; simpl; [done|].
  pose proof (bucket_le bounds d). destruct (Nat.ltb_spec (bucket bounds d) (length bounds + 1)); [|lia].
  by rewrite IH.
Qed.

Lemma below_at_most bounds ds i b :
  StronglySorted Z.lt bounds -> bounds !! i = Some b -> below bounds (S i) ds = at_most b ds.
Proof.
  intros Hs Hi. unfold below, at_most. f_equal. induction ds as [|d ds IH]; simpl; [done|].
  pose proof (bucket_at_most bounds d i b Hs Hi).
  destruct (Nat.ltb_spec (bucket bounds d) (S i)), (Z.leb_spec d b); try lia; by rewrite IH.
Qed.

(** The loop stops at the first bucket where the running count reaches the
    target. *)
Lemma quantile_loop_spec t snap bounds ds m k :
  zlen ds <= 9223372036854775807 -> (m = length bounds + 1 - k)%nat -> (k <= length bounds + 1)%nat ->
  let v := quantile_loop t snap (below bounds k ds) (drop k bounds)
             (drop k (map (fun i => in_bucket bounds i ds) (seq 0 (length bounds + 1)))) in
  (exists i, (k <= i <= length bounds)%nat /\ t <= below bounds (S i) ds /\
    (forall j, (k <= j < i)%nat -> below bounds (S j) ds < t) /\
    v = match bounds !! i with
        | Some b => b
        | None => if 0 <? in_bucket bounds i ds then i64 (Z.quot (SumNs snap) (N snap))
                  else List.last (Bounds snap) 0
        end) \/
  ((zlen ds < t \/ k = (length bounds + 1)%nat) /\ v = 0).
Proof.
  intros Hlen. revert k. induction m as [|m IH]; intros k Hm Hk v.
  { right. split; [right; lia|]. subst v.
    rewrite (drop_ge (map _ _)); [done|]. rewrite length_map, length_seq. lia. }
  subst v. assert (Hd : drop k (map (fun i => in_bucket bounds i ds) (seq 0 (length bounds + 1))) =
    in_bucket bounds k ds :: drop (S k) (map (fun i => in_bucket bounds i ds) (seq 0 (length bounds + 1)))).
  { apply drop_S. rewrite seq_lookup_map. rewrite decide_True by lia. done. }
  rewrite Hd. cbn [quantile_loop]. clear Hd.
  assert (Hs : i64 (below bounds k ds + in_bucket bounds k ds) = below bounds (S k) ds).
  { rewrite <- below_S. apply i64_small. pose proof (below_range bounds (S k) ds).
    unfold is_i64. lia. }
  rewrite Hs. destruct (Z.leb_spec t (below bounds (S k) ds)) as [Ht|Ht].
  - left. exists k. split; [lia|]. split; [done|]. split; [lia|].
    destruct (bounds !! k) as [b|] eqn:Hb.
    + by rewrite (drop_S _ _ _ Hb).
    + rewrite drop_ge; [done|]. by apply lookup_ge_None.
  - replace (tail (drop k bounds)) with (drop (S k) bounds).
    2:{ rewrite <- Nat.add_1_r, <- drop_drop. by destruct (drop k bounds). }
    destruct (IH (S k) ltac:(lia) ltac:(lia)) as [(i & Hi & Hti & Hj & Hv)|[Hz Hv]].
    + left. exists i. split; [lia|]. split; [done|]. split; [|done].
      intros j Hjr. destruct (decide (j = k)) as [->|]; [done|]. apply Hj. lia.
    + right. split; [|done]. left. destruct Hz as [?|Hz]; [done|].
      rewrite <- (below_all bounds ds), <- Hz. done.
Qed.

(** ** Lemmas on the registry *)
Inductive reg_op :=
| OpCounter (name : string)
| OpGauge (name : string)
| OpHistogram (name : string) (bounds : list Z)
| OpAdd (l : loc) (n : Z)
| OpSet (l : loc) (n : Z)
| OpObserve (l : loc) (d : Z).

Definition reg_step (r : Registry) (op : reg_op) : Registry :=
  match op with
  | OpCounter name => snd (Counter_slow name r)
  | OpGauge name => snd (Gauge_slow name r)
  | OpHistogram name bounds => snd (Histogram_slow name bounds r)
  | OpAdd l n => counter_add l n r
  | OpSet l n => gauge_set l n r
  | OpObserve l d => hist_observe l d r
  end.

Definition reg_run (ops : list reg_op) (r : Registry) : Registry := fold_left reg_step ops r.

(** What is added to the counter at [l]. *)
Fixpoint added (l : loc) (ops : list reg_op) : Z :=
  match ops with
  | [] => 0
  | OpAdd l' n :: ops' => (if decide (l' = l) then n else 0) + added l ops'
  | _ :: ops' => added l ops'
  end.

(** Names denote distinct live counters. *)
Definition reg_ok (r : Registry) : Prop :=
  (forall name l, r_c r !! name = Some l -> is_Some (heap_c r !! l)) /\
  (forall n1 n2 l, r_c r !! n1 = Some l -> r_c r !! n2 = Some l -> n1 = n2).

Lemma reg_step_ok r op : reg_ok r -> reg_ok (reg_step r op).
Proof.
  intros [Hl Hi]. destruct op; simpl; unfold Counter_slow, Gauge_slow, Histogram_slow;
    try (destruct (_ !! name) as [l|] eqn:E); simpl; try done.
  - split; simpl.
    + intros n l. destruct (decide (n = name)) as [->|].
      * rewrite lookup_insert_eq. intros [= <-]. rewrite lookup_insert_eq. by eexists.
      * rewrite lookup_insert_ne by done. intros Hn. apply Hl in Hn as [v Hv].
        destruct (decide (l = fresh (dom (heap_c r)))) as [->|]; [rewrite lookup_insert_eq; by eexists|].
        rewrite lookup_insert_ne by done. by eexists.
    + assert (Hf : forall n, r_c r !! n = Some (fresh (dom (heap_c r))) -> False).
      { intros n Hn. apply Hl in Hn as Hs. apply (is_fresh (dom (heap_c r))). by apply elem_of_dom. }
      intros n1 n2 l. destruct (decide (n1 = name)) as [->|], (decide (n2 = name)) as [->|]; try done;
        rewrite ?lookup_insert_eq, ?lookup_insert_ne by done; intros H1 H2; simplify_eq.
      * by destruct (Hf n2).
      * by destruct (Hf n1).
      * by eapply Hi.
  - split; simpl; [|done]. intros nm l' Hn. apply Hl in Hn as [v Hv].
    destruct (decide (l = l')) as [->|].
    + rewrite lookup_alter_eq, Hv. by eexists.
    + rewrite lookup_alter_ne by done. by eexists.
Qed.

Lemma reg_run_ok ops r : reg_ok r -> reg_ok (reg_run ops r).
Proof. revert r. induction ops; intros r Hr; [done|]. by apply IHops, reg_step_ok. Qed.

Lemma NewRegistry_ok : reg_ok NewRegistry.
Proof. by split. Qed.

(** A bound counter keeps its address and accumulates what is added to it. *)
Lemma reg_run_counter ops r name l v :
  r_c r !! name = Some l -> heap_c r !! l = Some v -> reg_ok r -> is_i64 v ->
  r_c (reg_run ops r) !! name = Some l /\
  heap_c (reg_run ops r) !! l = Some (i64 (v + added l ops)).
Proof.
  revert r v. induction ops as [|op ops IH]; intros r v Hn Hv Hok Hr; simpl.
  { split; [done|]. rewrite Hv, Z.add_0_r. by rewrite i64_small. }
  assert (Hstep : forall r', r' = reg_step r op -> forall v',
    r_c r' !! name = Some l -> heap_c r' !! l = Some v' -> is_i64 v' ->
    v' = i64 (v + added l [op]) ->
    r_c (reg_run ops r') !! name = Some l /\
    heap_c (reg_run ops r') !! l = Some (i64 (v + added l (op :: ops)))).
  { intros r' -> v' H1 H2 Hv' He. destruct (IH _ v' H1 H2) as [H3 H4]; [by apply reg_step_ok|done|].
    split; [done|]. rewrite H4, He, i64_add_l. do 2 f_equal.
    destruct op; simpl; try lia. }
  destruct op as [n|n|n bs|l' n|l' n|l' d]; simpl in *.
  - eapply (Hstep _ eq_refl v); try done; unfold Counter_slow.
    + destruct (r_c r !! n) eqn:E; simpl; [done|]. rewrite lookup_insert_ne; [done|congruence].
    + destruct (r_c r !! n) eqn:E; simpl; [done|]. rewrite lookup_insert_ne; [done|].
      intros Hf. apply (is_fresh (dom (heap_c r))). rewrite Hf. by apply elem_of_dom_2 in Hv.
    + by rewrite Z.add_0_r, i64_small.
  - eapply (Hstep _ eq_refl v); try done; unfold Gauge_slow; try by destruct (r_g r !! n).
    by rewrite Z.add_0_r, i64_small.
  - eapply (Hstep _ eq_refl v); try done; unfold Histogram_slow; try by destruct (r_h r !! n).
    by rewrite Z.add_0_r, i64_small.
  - destruct (decide (l' = l)) as [->|].
    + eapply (Hstep _ eq_refl (i64 (v + n))); [done| |apply i64_range|by rewrite Z.add_0_r].
      simpl. by rewrite lookup_alter_eq, Hv.
    + eapply (Hstep _ eq_refl v); try done; [|by rewrite Z.add_0_r, i64_small].
      simpl. by rewrite lookup_alter_ne.
  - eapply (Hstep _ eq_refl v); try done. by rewrite Z.add_0_r, i64_small.
  - eapply (Hstep _ eq_refl v); try done. by rewrite Z.add_0_r, i64_small.
Qed.

(** The snapshot loop builds the image of the name table. *)
Definition image {V B} (m : gmap string loc) (heap : gmap loc V) (f : V -> B) (name : string)
  : option B :=
  match m !! name with
  | Some l => match heap !! l with Some v => Some (f v) | None => None end
  | None => None
  end.

Lemma collect_lookup {V B} (m : gmap string loc) (heap : gmap loc V) (f : V -> B) name :
  collect m heap f !! name = image m heap f name.
Proof.
  unfold collect.
  assert (Hg : forall ks (out : gmap string B), fold_left (fun (out : gmap string B) name =>
      match m !! name with
      | Some l => match heap !! l with Some v => <[name := f v]> out | None => out end
      | None => out
      end) ks out !! name =
    if decide (name ∈ ks) then match image m heap f name with
                               | Some b => Some b | None => out !! name end
    else out !! name).
  { induction ks as [|k ks IH]; intros out; simpl.
    { destruct (decide (name ∈ [])) as [Hin|]; [by apply elem_of_nil in Hin|done]. }
    rewrite IH. destruct (decide (name = k)) as [->|Hne].
    - destruct (decide (k ∈ k :: ks)) as [_|[]]; [|by left].
      unfold image. destruct (m !! k) as [l|] eqn:E; simpl; [|by destruct (decide (k ∈ ks))].
      destruct (heap !! l) as [v|] eqn:E2; simpl; [|by destruct (decide (k ∈ ks))].
      rewrite lookup_insert_eq. by destruct (decide (k ∈ ks)).
    - assert (Ho : (match m !! k with
                    | Some l => match heap !! l with Some v => <[k := f v]> out | None => out end
                    | None => out end) !! name = out !! name).
      { destruct (m !! k) as [l|]; [|done]. destruct (heap !! l); [|done]. by rewrite lookup_insert_ne. }
      rewrite Ho. destruct (decide (name ∈ ks)), (decide (name ∈ k :: ks)) as [Hin|Hin]; try done.
      + destruct Hin. by right.
      + by apply elem_of_cons in Hin as [?|?]. }
  rewrite Hg, lookup_empty.
  assert (Hk : name ∈ sortedKeys m <-> is_Some (m !! name)).
  { unfold sortedKeys. rewrite stable_sort_perm. change (map fst) with (fmap (M:=list) (@fst string loc)).
    rewrite list_elem_of_fmap. split.
    - intros ([k l] & -> & Hin%elem_of_map_to_list). by eexists.
    - intros [l Hl]. exists (name, l). split; [done|]. by apply elem_of_map_to_list. }
  destruct (decide (name ∈ sortedKeys m)) as [Hin|Hin].
  - by destruct (image m heap f name).
  - unfold image. destruct (m !! name) eqn:E; [|done]. destruct Hin. apply Hk. by eexists.
Qed.

(** ** Properties *)

(** Histograms count every observation once: after any sequence of fewer than
    2^63 observations each bucket holds exactly the observations in its range, and
    [N] is their number, which is the sum of the buckets. *)
Theorem histogram_exact (bounds ds : list Z) :
  bounds <> [] -> zlen ds <= 9223372036854775807 ->
  let h := observe_all ds (NewHistogram bounds) in
  h_n h = zlen ds /\
  length (h_counts h) = (length bounds + 1)%nat /\
  (forall i c, h_counts h !! i = Some c -> c = in_bucket bounds i ds) /\
  fold_left Z.add (h_counts h) 0 = zlen ds.
Proof.
  intros Hne Hlen h. destruct (observe_all_hist bounds ds _ (NewHistogram_hist bounds Hne) Hlen)
    as (Hb & Hn & Hc). fold h in Hb, Hn, Hc. rewrite Hc. split; [done|].
  split; [by rewrite length_map, length_seq|]. split.
  - intros i c. rewrite seq_lookup_map. case_decide; [by intros [= <-]|done].
  - rewrite <- (below_all bounds ds). generalize (length bounds + 1)%nat. intros k.
    induction k as [|k IH]; [by rewrite below_0|].
    rewrite seq_S, map_app, fold_left_app, IH, below_S. done.
Qed.

Lemma histogram_exact_witness :
  h_n (observe_all [5; 50; 500] (NewHistogram [10; 100])) = 3.
Proof. refine (proj1 (histogram_exact [10; 100] [5; 50; 500] _ _)); [discriminate|vm_compute; discriminate]. Defined.

(** C37. What [Quantile] returns for ascending bounds, with the target
    [int64(float64(N) * q)]: the first bound that at least [target] observations do
    not exceed (fewer than [target] stay below the previous bound), not an interpolated
    value; if no bound qualifies, the mean of all the observed durations (in 64-bit
    arithmetic), not of those that overflow the bounds; and 0 if the target exceeds the
    number of observations. *)
Theorem Quantile_bound (undef : Z) (q : spec_float) (bounds ds : list Z) :
  bounds <> [] -> StronglySorted Z.lt bounds -> 0 < zlen ds <= 9223372036854775807 ->
  SFleb q (S754_zero false) = false -> SFleb (f64_of_int 1) q = false ->
  let h := observe_all ds (NewHistogram bounds) in
  let t := quantile_target undef (zlen ds) q in
  let v := Quantile undef q h in
  (exists i, bounds !! i = Some v /\ t <= at_most v ds /\
     forall j b, (j < i)%nat -> bounds !! j = Some b -> at_most b ds < t) \/
  ((forall b, b ∈ bounds -> at_most b ds < t) /\
   (t <= zlen ds /\ v = i64 (Z.quot (i64 (total ds)) (zlen ds)) \/ zlen ds < t /\ v = 0)).
Proof.
  intros Hne Hs Hlen Hq0 Hq1 h t v.
  destruct (observe_all_hist bounds ds _ (NewHistogram_hist bounds Hne) ltac:(lia)) as (Hb & Hn & Hc).
  fold h in Hb, Hn, Hc. unfold v, Quantile. rewrite Hq0, Hq1. simpl. rewrite Hn, Hc, Hb.
  destruct (Z.eqb_spec (zlen ds) 0); [lia|]. fold t.
  pose proof (quantile_loop_spec t (Histogram_Snapshot h) bounds ds (length bounds + 1) 0
    ltac:(lia) ltac:(lia) ltac:(lia)) as Hl. rewrite below_0, !drop_0 in Hl. cbv zeta in Hl.
  destruct Hl as [(i & Hi & Ht & Hj & Hv)|[[Ht|?] Hv]]; [| |lia].
  - rewrite Hv. clear Hv. destruct (bounds !! i) as [b|] eqn:Ei.
    + left. exists i. split; [done|]. split; [by rewrite <- (below_at_most bounds ds i b Hs Ei)|].
      intros j b' Hji Hb'. rewrite <- (below_at_most bounds ds j b' Hs Hb'). apply Hj. lia.
    + right. apply lookup_ge_None in Ei. split.
      * intros b [j Hbj]%list_elem_of_lookup. rewrite <- (below_at_most bounds ds j b Hs Hbj).
        apply Hj. apply lookup_lt_Some in Hbj. lia.
      * left. assert (i = length bounds) as -> by lia.
        assert (Hpos : 0 < in_bucket bounds (length bounds) ds).
        { pose proof (below_S bounds (length bounds) ds). destruct (length bounds) eqn:El.
          { by destruct bounds. }
          pose proof (Hj n0 ltac:(lia)). lia. }
        destruct (Z.ltb_spec 0 (in_bucket bounds (length bounds) ds)); [|lia].
        simpl. rewrite Hn. split; [|unfold h; by rewrite observe_all_sum].
        rewrite <- (below_all bounds ds). by rewrite Nat.add_1_r.
  - right. split.
    + intros b Hb'. pose proof (zlen_filter_le (fun d => d <=? b) ds). unfold at_most. lia.
    + right. by rewrite Hv.
Qed.

(** 0.5 as a float64. *)
Definition f64_half : spec_float := S754_finite false 4503599627370496 (-53).

Lemma Quantile_bound_witness :
  exists i, [10; 100] !! i = Some 10 /\ 2 <= at_most 10 [5; 6; 50; 500] /\
    forall j b, (j < i)%nat -> [10; 100] !! j = Some b -> at_most b [5; 6; 50; 500] < 2.
Proof.
  destruct (Quantile_bound 0 f64_half [10; 100] [5; 6; 50; 500]) as [H|[H _]].
  - discriminate.
  - repeat constructor.
  - vm_compute. split; [reflexivity|discriminate].
  - reflexivity.
  - reflexivity.
  - exact H.
  - exfalso. specialize (H 10 ltac:(left)). vm_compute in H. discriminate H.
Defined.

(** The target is rounded down, so with few observations it is 0 and [Quantile]
    returns the lowest bound whatever was observed: with one observation of any
    duration, the 99th percentile over the default bounds is one microsecond. *)
Theorem Quantile_rounds_to_first_bound (undef d : Z) :
  let p99 := S754_finite false 8917127262193582 (-53) in
  Quantile undef p99 (Observe d (NewHistogram [])) = Microsecond.
Proof.
  intros p99. unfold Quantile. replace (SFleb p99 _ || SFleb _ p99) with false by reflexivity.
  assert (Ht : quantile_target undef 1 p99 = 0) by (vm_compute; reflexivity).
  change (N (Histogram_Snapshot (Observe d (NewHistogram [])))) with 1. rewrite Ht.
  assert (Hc : exists c cs, Counts (Histogram_Snapshot (Observe d (NewHistogram []))) = c :: cs /\
    (c = 0 \/ c = 1)).
  { unfold Observe. simpl. destruct (d <=? Microsecond); simpl; eauto. }
  destruct Hc as (c & cs & -> & [->| ->]); reflexivity.
Qed.

(** Named counters are shared and exact: once a name is bound to a counter, the
    name keeps denoting it whatever other goroutines register, and the snapshot
    shows its value plus everything added through it (modulo 2^64), no matter what
    happens to other metrics. *)
Theorem counter_total (ops0 ops : list reg_op) (name : string) (l : loc) (v now : Z) :
  let r := reg_run ops0 NewRegistry in
  r_c r !! name = Some l -> heap_c r !! l = Some v -> is_i64 v ->
  fst (Counter name (reg_run ops r)) = l /\
  Counters (Snapshot now (reg_run ops r)) !! name = Some (i64 (v + added l ops)).
Proof.
  intros r Hn Hv Hi. assert (Hok : reg_ok r) by apply reg_run_ok, NewRegistry_ok.
  destruct (reg_run_counter ops r name l v Hn Hv Hok Hi) as [H1 H2]. split.
  - unfold Counter, Counter_fast. by rewrite H1.
  - simpl. rewrite collect_lookup. unfold image. by rewrite H1, H2.
Qed.

Lemma counter_total_witness :
  Counters (Snapshot 0 (reg_run [OpAdd 1%positive 5; OpGauge "g"; OpCounter "a"; OpAdd 1%positive 2]
    (reg_run [OpCounter "a"; OpCounter "b"] NewRegistry))) !! "a"%string = Some (i64 (0 + 7)).
Proof.
  refine (proj2 (counter_total [OpCounter "a"; OpCounter "b"] _ "a" 1%positive 0 0 _ _ _)).
  - vm_compute. reflexivity.
  - vm_compute. reflexivity.
  - vm_compute. split; discriminate.
Defined.

Lemma dump_loop_appends {IoErr : Type} (encode : RegSnapshot -> list byte)
    (ts : list (RegSnapshot * option (IoErr * nat))) d bs :
  d_file d = Some bs ->
  let '(e, d') := dump_loop encode ts d in
  d_interval d' = d_interval d /\
  exists out, d_file d' = Some (bs ++ out) /\ appended encode ts e out.
Proof.
  revert d bs. induction ts as [|[snap werr] ts IH]; intros d bs Hf; simpl.
  { split; [done|]. exists []. by rewrite app_nil_r. }
  destruct werr as [[e n]|]; simpl; rewrite Hf; simpl.
  { split; [done|]. eexists. split; [done|]. exists 0%nat, n. unfold encoded. simpl. by rewrite app_nil_r. }
  specialize (IH (mkDumper (d_interval d) (Some (bs ++ encode snap))) _ eq_refl).
  destruct (dump_loop encode ts _) as [e d']. destruct IH as (Hd' & out & Hk & He).
  split; [done|]. exists (encode snap ++ out). rewrite Hk, <- app_assoc. split; [done|].
  destruct e as [e|]; [|by rewrite He].
  destruct He as (k & n & ->). exists (S k), n. unfold encoded. simpl. by rewrite <- app_assoc.
Qed.

(** The dump file is append-only: whatever fails, what [Run] leaves in the file
    is the earlier content followed by the encodings of the first snapshots in
    order, all of them and nothing else if no error is reported; only a failed
    write can leave an incomplete line, as the last one. *)
Theorem Run_appends {IoErr : Type} (encode : RegSnapshot -> list byte) (mkdir open : option IoErr)
    (existing : list byte) (first : RegSnapshot * option (IoErr * nat))
    (ticks : list (RegSnapshot * option (IoErr * nat))) (interval : Z) :
  let '(e, content, d) := Run encode mkdir open existing first ticks (NewDumper interval) in
  d_file d = None /\ 0 < d_interval d /\
  exists out, content = existing ++ out /\ appended encode (first :: ticks) e out.
Proof.
  unfold Run, openIfNeeded. cbn [d_file NewDumper].
  assert (Hint : 0 < d_interval (NewDumper interval)).
  { unfold NewDumper. simpl. zcase; unfold Second, Millisecond, Microsecond; lia. }
  assert (Hnone : exists out, existing = existing ++ out /\
    exists k n, out = encoded encode (take k (first :: ticks)) ++
      take n (encoded encode (take 1 (drop k (first :: ticks))))).
  { exists []. rewrite app_nil_r. split; [done|]. by exists 0%nat, 0%nat. }
  destruct mkdir as [e|]; [done|]. destruct open as [e|]; [done|].
  pose proof (dump_loop_appends encode (first :: ticks)
    (mkDumper (d_interval (NewDumper interval)) (Some existing)) existing eq_refl) as Hg.
  destruct (dump_loop encode (first :: ticks) _) as [e d']. destruct Hg as (Hd & out & Hk & He).
  cbn [d_file d_interval] in *. rewrite Hd. split; [done|]. split; [done|]. exists out. by rewrite Hk.
Qed.
