(* ===== verification/AuditLog.v ===== *)
(** * The audit server: pkg/audit/server.go

    [Record] stores one event and bumps the counter of the metrics registry, when
    there is one; [Query] streams the matching rows.  Messages are those of
    lib/control/v1/audit.pb.go, with decisions as open [int32] values. *)

From Stdlib Require Import ZArith Lia.
From stdpp Require Import base tactics list strings.
From S2P Require Import Prelude Store Observe.

Local Open Scope Z_scope.

Record pbAuditEvent := mkPbAudit {
  e_TsUnixMs : Z;
  e_Tenant : string;
  e_Caller : string;
  e_Target : string;
  e_Method : string;
  e_Decision : Z;
  e_Reason : string;
  e_StreamId : string
}.

Record QueryAuditRequest := mkQueryReq {
  q_Tenant : string;
  q_Caller : string;
  q_Target : string;
  q_SinceUnixMs : Z;
  q_Limit : Z
}.

(** [eventsCnt]: the counter's value, or nil without a metrics registry. *)
Record Server := mkServer { au_db : db; au_eventsCnt : option Z }.

Definition New (d : db) (with_reg : bool) : Server :=
  mkServer d (if with_reg then Some 0 else None).

Inductive audit_err :=
| ErrEventRequired
| ErrStore (e : store_err)
| ErrSend (code : Z).

Definition decisionString (d : Z) : string := if d =? 2 then "deny" else "allow".
Definition decisionPB (s : string) : Z := if String.eqb s "deny" then 2 else 1.

Definition to_row (ev : pbAuditEvent) : AuditEvent :=
  mkAudit (e_TsUnixMs ev) (e_Tenant ev) (e_Caller ev) (e_Target ev) (e_Method ev)
    (decisionString (e_Decision ev)) (e_Reason ev) (e_StreamId ev).

Definition to_pb (ev : AuditEvent) : pbAuditEvent :=
  mkPbAudit (a_TsUnixMs ev) (a_Tenant ev) (a_Caller ev) (a_Target ev) (a_Method ev)
    (decisionPB (a_Decision ev)) (a_Reason ev) (a_StreamID ev).

Definition AuditRecord (f : fault) (now : Z) (event : option pbAuditEvent) (s : Server)
  : res audit_err unit * Server :=
  match event with
  | None => (Err ErrEventRequired, s)
  | Some ev =>
    let '(r, d) := RecordAudit f now (to_row ev) (au_db s) in
    match r with
    | Err e => (Err (ErrStore e), mkServer d (au_eventsCnt s))
    | Ok _ => (Ok tt, mkServer d (Counter_Inc <$> au_eventsCnt s))
    end
  end.

(** The loop of [Query]: each event is sent until a send fails. *)
Fixpoint send_events (evs : list pbAuditEvent) (errs : list (option Z))
  : list pbAuditEvent * option audit_err :=
  match evs with
  | [] => ([], None)
  | ev :: evs' =>
    match head errs with
    | Some (Some e) => ([], Some (ErrSend e))
    | _ => let '(sent, r) := send_events evs' (tail errs) in (ev :: sent, r)
    end
  end.

(** What reaches the stream, and the error the handler returns. *)
Definition Query `{OrderBy} (fq fr : fault) (errs : list (option Z)) (req : QueryAuditRequest)
    (s : Server) : list pbAuditEvent * option audit_err :=
  match QueryAudit fq fr (q_Tenant req) (q_Caller req) (q_Target req) (q_SinceUnixMs req)
          (q_Limit req) (au_db s) with
  | Err e => ([], Some (ErrStore e))
  | Ok rows => send_events (map to_pb rows) errs
  end.

(** ** Lemmas *)
Lemma send_events_all evs : send_events evs [] = (evs, None).
Proof. induction evs as [|ev evs IH]; simpl; [done|]. by rewrite IH. Qed.

Lemma QueryAudit_nolimit `{OrderByLaws} t c g since d :
  exists rows, QueryAudit None None t c g since 0 d = Ok rows /\
    Permutation rows (List.filter (audit_match t c g since) (db_audit d)).
Proof. eexists. split; [done|]. apply order_by_perm. Qed.

(** The event a query reports for a recorded one: the time is filled in, and a
    decision other than deny reads as allow. *)
Definition reported (now : Z) (ev : pbAuditEvent) : pbAuditEvent :=
  mkPbAudit (if e_TsUnixMs ev =? 0 then now else e_TsUnixMs ev) (e_Tenant ev) (e_Caller ev)
    (e_Target ev) (e_Method ev) (if e_Decision ev =? 2 then 2 else 1) (e_Reason ev) (e_StreamId ev).

(** ** Properties *)

(** C31. Record then query: a recorded event is reported by every unlimited query
    whose filters it passes, next to exactly the events reported before, with its
    fields unchanged except that a zero time is filled in and any decision other
    than deny, the unspecified one included, reads as allow; a query it does not
    match is unaffected; the events counter goes up by one. *)
Theorem record_then_query `{OrderByLaws} (now : Z) (ev : pbAuditEvent) (t c g : string) (since : Z)
    (s : Server) :
  let '(r, s') := AuditRecord None now (Some ev) s in
  r = Ok tt /\
  au_eventsCnt s' = (fun v => i64 (v + 1)) <$> au_eventsCnt s /\
  exists old new,
    Query None None [] (mkQueryReq t c g since 0) s = (old, None) /\
    Query None None [] (mkQueryReq t c g since 0) s' = (new, None) /\
    Permutation new
      (if audit_match t c g since (to_row (reported now ev)) then reported now ev :: old else old).
Proof.
  unfold AuditRecord, RecordAudit, exec. simpl. split; [done|]. split; [done|].
  unfold Query. cbn [q_Tenant q_Caller q_Target q_SinceUnixMs q_Limit au_db].
  destruct (QueryAudit_nolimit t c g since (au_db s)) as (rows & -> & Hp).
  match goal with |- context [QueryAudit _ _ _ _ _ _ _ ?d] =>
    destruct (QueryAudit_nolimit t c g since d) as (rows' & -> & Hp') end.
  exists (map to_pb rows), (map to_pb rows'). rewrite !send_events_all. split; [done|]. split; [done|].
  rewrite Hp'. cbn [db_audit]. rewrite List.filter_app, map_app. cbn [List.filter].
  assert (Hm : audit_match t c g since
      (mkAudit (if e_TsUnixMs ev =? 0 then now else e_TsUnixMs ev) (e_Tenant ev) (e_Caller ev)
         (e_Target ev) (e_Method ev) (decisionString (e_Decision ev)) (e_Reason ev) (e_StreamId ev)) =
    audit_match t c g since (to_row (reported now ev))) by done.
  rewrite Hm. destruct (audit_match t c g since (to_row (reported now ev))).
  - rewrite Permutation_app_comm. simpl. rewrite Hp.
    assert (to_pb (mkAudit (if e_TsUnixMs ev =? 0 then now else e_TsUnixMs ev) (e_Tenant ev)
      (e_Caller ev) (e_Target ev) (e_Method ev) (decisionString (e_Decision ev)) (e_Reason ev)
      (e_StreamId ev)) = reported now ev) as ->; [|done].
    unfold to_pb, reported. simpl. f_equal. unfold decisionString. by destruct (e_Decision ev =? 2).
  - simpl. rewrite app_nil_r, Hp. done.
Qed.

Lemma record_then_query_witness :
  let ev := mkPbAudit 0 "acme" "c" "g" "" 0 "" "" in
  exists old new,
    Query None None [] (mkQueryReq "acme" "" "" 0 0) (New empty_db true) = (old, None) /\
    Query None None [] (mkQueryReq "acme" "" "" 0 0) (snd (AuditRecord None 7 (Some ev) (New empty_db true))) =
      (new, None) /\
    Permutation new (reported 7 ev :: old).
Proof.
  exact (proj2 (proj2 (record_then_query 7 (mkPbAudit 0 "acme" "c" "g" "" 0 "" "") "acme" "" "" 0
    (New empty_db true)))).
Defined.
