(* ===== verification/Identity.v ===== *)
(** * Identity URIs: lib/identity/name.go

    An identity is [outrelay://<tenant>/agent/<uuid>] or
    [outrelay://<region>/relay/<id>].  The part of [net/url] that [Parse] goes
    through is modelled on byte strings: fragment and query are cut off, the
    scheme and the authority split, percent escapes decoded.  Hosts with a
    bracketed IP literal are handled by a parameter ([bracket_host]); UUIDs, a
    third-party package, are the class [UUIDPkg] with its documented laws
    [UUIDLaws]. *)

From Stdlib Require Import ZArith Lia Ascii Strings.Byte.
From stdpp Require Import base tactics list strings.
From S2P Require Import Prelude Store.

Local Open Scope string_scope.
Local Open Scope go_scope.

(** ** The strings package *)
Fixpoint has_char (c : ascii) (s : string) : bool :=
  match s with
  | "" => false
  | String a s' => Ascii.eqb a c || has_char c s'
  end.

Fixpoint all_chars (P : ascii -> bool) (s : string) : bool :=
  match s with
  | "" => true
  | String a s' => P a && all_chars P s'
  end.

(** [strings.Cut(s, c)]. *)
Fixpoint cut (c : ascii) (s : string) : string * string * bool :=
  match s with
  | "" => ("", "", false)
  | String a s' =>
    if Ascii.eqb a c then ("", s', true)
    else let '(x, y, f) := cut c s' in (String a x, y, f)
  end.

(** [strings.Split(s, c)]. *)
Fixpoint split_on (c : ascii) (s : string) : list string :=
  match s with
  | "" => [""]
  | String a s' =>
    if Ascii.eqb a c then "" :: split_on c s'
    else match split_on c s' with
         | x :: xs => String a x :: xs
         | [] => [String a ""]
         end
  end.

(** The split at the last occurrence of [c], if any. *)
Fixpoint cut_last (c : ascii) (s : string) : option (string * string) :=
  match s with
  | "" => None
  | String a s' =>
    match cut_last c s' with
    | Some (x, y) => Some (String a x, y)
    | None => if Ascii.eqb a c then Some ("", s') else None
    end
  end.

(** [strings.HasPrefix] with [strings.TrimPrefix]: the rest, if [p] is a prefix. *)
Fixpoint strip_prefix (p s : string) : option string :=
  match p, s with
  | "", _ => Some s
  | String a p', String b s' => if Ascii.eqb a b then strip_prefix p' s' else None
  | String _ _, "" => None
  end.

Definition TrimPrefix (s p : string) : string := default s (strip_prefix p s).

(** ** Character classes *)
Definition code (a : ascii) : N := N_of_ascii a.
Definition in_range (lo hi a : ascii) : bool := (code lo <=? code a)%N && (code a <=? code hi)%N.
Definition is_lower : ascii -> bool := in_range "a" "z".
Definition is_upper : ascii -> bool := in_range "A" "Z".
Definition is_digit : ascii -> bool := in_range "0" "9".
Definition is_alnum (a : ascii) : bool := is_lower a || is_upper a || is_digit a.
Definition is_ctl (a : ascii) : bool := (code a <? 32)%N || (code a =? 127)%N.
Definition is_hex (a : ascii) : bool := is_digit a || in_range "a" "f" a || in_range "A" "F" a.

Definition unhex (a : ascii) : N :=
  if is_digit a then code a - code "0"
  else if in_range "a" "f" a then code a - code "a" + 10
  else code a - code "A" + 10.

(** [strings.ToLower] on a scheme, which is ASCII. *)
Fixpoint to_lower (s : string) : string :=
  match s with
  | "" => ""
  | String a s' => String (if is_upper a then ascii_of_N (code a + 32) else a) (to_lower s')
  end.

(** ** net/url *)
Inductive mode := EncodeHost | EncodeOther.

(** The bytes a host may contain unescaped (besides letters and digits). *)
Definition host_char (a : ascii) : bool :=
  is_alnum a || has_char a "!$&'()*+,;=:[]<>-_.~" || (code a =? 34)%N || (128 <=? code a)%N.

(** [unescape]: [None] is an escape error.  In a host only bytes above 0x7f and
    the percent sign may be written as escapes. *)
Fixpoint unescape (m : mode) (s : string) : option string :=
  match s with
  | "" => Some ""
  | String c s' =>
    if Ascii.eqb c "%" then
      match s' with
      | String a (String b s'') =>
        if negb (is_hex a && is_hex b) then None
        else if match m with
                | EncodeHost => (unhex a <? 8)%N && negb (Ascii.eqb a "2" && Ascii.eqb b "5")
                | EncodeOther => false
                end
        then None
        else String (ascii_of_N (unhex a * 16 + unhex b)) <$> unescape m s''
      | _ => None
      end
    else if match m with EncodeHost => negb (host_char c) | EncodeOther => false end then None
    else String c <$> unescape m s'
  end.

Inductive url_err :=
| ErrControl | ErrMissingScheme | ErrColon | ErrPort | ErrEscape | ErrUserinfo | ErrBracket.

Record URL := mkURL { Scheme : string; Host : string; Path : string }.

(** [getScheme]: the scheme (empty if there is none) and the rest. *)
Fixpoint get_scheme_aux (first : bool) (s : string) : option (res url_err (string * string)) :=
  match s with
  | "" => None
  | String a s' =>
    if is_lower a || is_upper a then
      match get_scheme_aux false s' with
      | Some (Ok (x, r)) => Some (Ok (String a x, r))
      | o => o
      end
    else if is_digit a || has_char a "+-." then
      if first then None
      else match get_scheme_aux false s' with
           | Some (Ok (x, r)) => Some (Ok (String a x, r))
           | o => o
           end
    else if Ascii.eqb a ":" then
      if first then Some (Err ErrMissingScheme) else Some (Ok ("", s'))
    else None
  end.

Definition getScheme (s : string) : res url_err (string * string) :=
  match get_scheme_aux true s with
  | Some r => r
  | None => Ok ("", s)
  end.

Section Parse.
Context (bracket_host : string -> option string).

Definition valid_port (s : string) : bool := all_chars is_digit s.

Definition parseHost (host : string) : res url_err string :=
  if has_char "[" host then
    match bracket_host host with Some h => Ok h | None => Err ErrBracket end
  else
    match cut_last ":" host with
    | Some (_, port) =>
      if valid_port port then
        match unescape EncodeHost host with Some h => Ok h | None => Err ErrEscape end
      else Err ErrPort
    | None => match unescape EncodeHost host with Some h => Ok h | None => Err ErrEscape end
    end.

Definition userinfo_char (a : ascii) : bool := is_alnum a || has_char a "-._:~!$&'()*+,;=%@".

(** [parseAuthority]; the user part only decides whether there is an error. *)
Definition parseAuthority (authority : string) : res url_err string :=
  match cut_last "@" authority with
  | None => parseHost authority
  | Some (userinfo, host) =>
    h <-? parseHost host ;;
    if negb (all_chars userinfo_char userinfo) then Err ErrUserinfo
    else
      let '(user, pass, _) := cut ":" userinfo in
      match unescape EncodeOther user, unescape EncodeOther pass with
      | Some _, Some _ => Ok h
      | _, _ => Err ErrEscape
      end
  end.

(** The query is cut off; a lone trailing question mark is [ForceQuery]. *)
Definition drop_query (rest : string) : string := fst (fst (cut "?" rest)).

Definition set_path (scheme host path : string) : res url_err URL :=
  match unescape EncodeOther path with
  | Some p => Ok (mkURL scheme host p)
  | None => Err ErrEscape
  end.

Definition parse_nofrag (raw : string) : res url_err URL :=
  if negb (all_chars (fun a => negb (is_ctl a)) raw) then Err ErrControl
  else if String.eqb raw "*" then Ok (mkURL "" "" "*")
  else
    match getScheme raw with
    | Err e => Err e
    | Ok (sch, rest0) =>
      let scheme := to_lower sch in
      let rest := drop_query rest0 in
      match strip_prefix "/" rest with
      | None =>
        if negb (String.eqb scheme "") then Ok (mkURL scheme "" "")
        else if has_char ":" (fst (fst (cut "/" rest))) then Err ErrColon
        else set_path scheme "" rest
      | Some _ =>
        match strip_prefix "//" rest with
        | Some r =>
          if negb (String.eqb scheme "") || match strip_prefix "///" rest with None => true | _ => false end
          then
            let '(authority, tl, slash) := cut "/" r in
            host <-? parseAuthority authority ;;
            set_path scheme host (if slash then String "/" tl else "")
          else set_path scheme "" rest
        | None => set_path scheme "" rest
        end
      end
    end.

Definition url_Parse (raw : string) : res url_err URL :=
  let '(u, frag, _) := cut "#" raw in
  url <-? parse_nofrag u ;;
  match unescape EncodeOther frag with
  | Some _ => Ok url
  | None => Err ErrEscape
  end.

(** ** Identities *)
Definition IdScheme : string := "outrelay".

Inductive Role := RoleUnknown | RoleAgent | RoleRelay.

Definition Role_String (r : Role) : string :=
  match r with RoleAgent => "agent" | RoleRelay => "relay" | RoleUnknown => "unknown" end.

Inductive id_err :=
| ErrParse (e : url_err)
| ErrInvalidScheme
| ErrInvalidTenant
| ErrInvalidPath
| ErrInvalidUUID
| ErrInvalidRelayID.

Definition label_char (a : ascii) : bool := is_lower a || is_digit a || Ascii.eqb a "-".

(** The pattern [^\[a-z0-9\]\[a-z0-9-\]{0,62}$]. *)
Definition label_pattern (s : string) : bool :=
  match s with
  | "" => false
  | String a s' => (is_lower a || is_digit a) && all_chars label_char s' && (String.length s' <=? 62)%nat
  end.

Definition IsValidTenant (s : string) : bool := label_pattern s.
Definition IsValidRelayID (s : string) : bool := label_pattern s.

(** What the code uses of github.com/google/uuid. *)
Class UUIDPkg (UUID : Type) := {
  uuid_String : UUID -> string;
  uuid_Parse : string -> option UUID;
  uuid_Nil : UUID
}.

Class UUIDLaws (UUID : Type) `{UUIDPkg UUID} := {
  uuid_roundtrip : forall u, uuid_Parse (uuid_String u) = Some u;
  uuid_alphabet : forall u, all_chars (fun a => is_hex a || Ascii.eqb a "-") (uuid_String u) = true;
  uuid_nonempty : forall u, uuid_String u <> ""
}.

Context {UUID : Type} `{UUIDPkg UUID}.

Record Name := mkName {
  n_Role : Role;
  n_Tenant : string;
  n_AgentID : UUID;
  n_RelayID : string
}.

Definition Name_String (n : Name) : string :=
  match n_Role n with
  | RoleAgent => IdScheme ++ "://" ++ n_Tenant n ++ "/agent/" ++ uuid_String (n_AgentID n)
  | RoleRelay => IdScheme ++ "://" ++ n_Tenant n ++ "/relay/" ++ n_RelayID n
  | RoleUnknown => ""
  end.

(** [URL]: the error of [url.Parse] is ignored. *)
Definition Name_URL (n : Name) : option URL :=
  match url_Parse (Name_String n) with Ok u => Some u | Err _ => None end.

Definition NewAgent (fresh : UUID) (tenant : string) : res id_err Name :=
  if negb (IsValidTenant tenant) then Err ErrInvalidTenant
  else Ok (mkName RoleAgent tenant fresh "").

Definition NewRelay (region id : string) : res id_err Name :=
  if negb (IsValidTenant region) then Err ErrInvalidTenant
  else if negb (IsValidRelayID id) then Err ErrInvalidRelayID
  else Ok (mkName RoleRelay region uuid_Nil id).

Definition parseURL (u : URL) : res id_err Name :=
  if negb (String.eqb (Scheme u) IdScheme) then Err ErrInvalidScheme
  else if negb (IsValidTenant (Host u)) then Err ErrInvalidTenant
  else
    match split_on "/" (TrimPrefix (Path u) "/") with
    | [p0; p1] =>
      if String.eqb p1 "" then Err ErrInvalidPath
      else if String.eqb p0 "agent" then
        match uuid_Parse p1 with
        | None => Err ErrInvalidUUID
        | Some id => Ok (mkName RoleAgent (Host u) id "")
        end
      else if String.eqb p0 "relay" then
        if negb (IsValidRelayID p1) then Err ErrInvalidRelayID
        else Ok (mkName RoleRelay (Host u) uuid_Nil p1)
      else Err ErrInvalidPath
    | _ => Err ErrInvalidPath
    end.

Definition FromURL (u : URL) : res id_err Name := parseURL u.

Definition Parse (s : string) : res id_err Name :=
  match url_Parse s with
  | Err e => Err (ErrParse e)
  | Ok u => parseURL u
  end.
End Parse.
Arguments Name : clear implicits.

(** ** Lemmas on strings *)
Lemma all_chars_impl (P Q : ascii -> bool) s :
  (forall a, P a = true -> Q a = true) -> all_chars P s = true -> all_chars Q s = true.
Proof.
  intros HPQ. induction s as [|a s IH]; simpl; [done|]. rewrite !andb_true_iff.
  intros [Ha Hs]. split; [by apply HPQ|by apply IH].
Qed.

Lemma all_chars_app P s1 s2 : all_chars P (s1 ++ s2) = all_chars P s1 && all_chars P s2.
Proof. induction s1 as [|a s1 IH]; simpl; [done|]. by rewrite IH, andb_assoc. Qed.

Lemma has_char_app c s1 s2 : has_char c (s1 ++ s2) = has_char c s1 || has_char c s2.
Proof. induction s1 as [|a s1 IH]; simpl; [done|]. by rewrite IH, orb_assoc. Qed.

(** A class that excludes [c] keeps it out of the string. *)
Lemma all_chars_no (P : ascii -> bool) c s :
  P c = false -> all_chars P s = true -> has_char c s = false.
Proof.
  intros Hc. induction s as [|a s IH]; simpl; [done|]. rewrite andb_true_iff. intros [Ha Hs].
  rewrite (IH Hs), orb_false_r. apply Ascii.eqb_neq. congruence.
Qed.

Lemma cut_none c s : has_char c s = false -> cut c s = (s, "", false).
Proof.
  induction s as [|a s IH]; simpl; [done|]. intros [Ha Hs]%orb_false_iff. by rewrite Ha, IH.
Qed.

Lemma cut_at c s1 s2 : has_char c s1 = false -> cut c (s1 ++ String c s2) = (s1, s2, true).
Proof.
  induction s1 as [|a s1 IH]; simpl; [by rewrite Ascii.eqb_refl|].
  intros [Ha Hs]%orb_false_iff. by rewrite Ha, IH.
Qed.

Lemma cut_last_none c s : has_char c s = false -> cut_last c s = None.
Proof.
  induction s as [|a s IH]; simpl; [done|]. intros [Ha Hs]%orb_false_iff. by rewrite IH, Ha.
Qed.

Lemma split_on_none c s : has_char c s = false -> split_on c s = [s].
Proof.
  induction s as [|a s IH]; simpl; [done|]. intros [Ha Hs]%orb_false_iff. by rewrite Ha, IH.
Qed.

Lemma split_on_at c s1 s2 :
  has_char c s1 = false -> split_on c (s1 ++ String c s2) = s1 :: split_on c s2.
Proof.
  induction s1 as [|a s1 IH]; simpl; [by rewrite Ascii.eqb_refl|].
  intros [Ha Hs]%orb_false_iff. by rewrite Ha, IH.
Qed.

(** A string without percent signs is its own unescaping, if a host may hold it. *)
Lemma unescape_plain m s :
  has_char "%" s = false ->
  match m with EncodeHost => all_chars host_char s = true | EncodeOther => True end ->
  unescape m s = Some s.
Proof.
  induction s as [|a s IH]; cbn [has_char unescape]; [done|].
  intros [Ha Hs]%orb_false_iff Hm. rewrite Ha.
  destruct m; simpl in Hm.
  - apply andb_prop in Hm as [-> Hm]. by rewrite IH.
  - by rewrite IH.
Qed.

(** ** Lemmas on labels and names *)

(** The characters of labels, UUIDs and slashes: what identity URIs are made of
    after the scheme. *)
Definition uri_char (a : ascii) : bool :=
  label_char a || is_hex a || Ascii.eqb a "/".

(** Decided over all 256 characters. *)
Definition all_ascii (P : ascii -> bool) : bool :=
  forallb (fun n => P (ascii_of_nat n)) (seq 0 256).

Lemma all_ascii_spec P : all_ascii P = true -> forall a, P a = true.
Proof.
  unfold all_ascii. rewrite forallb_forall. intros Hall a.
  rewrite <- (ascii_nat_embedding a). apply Hall. apply in_seq.
  pose proof (nat_ascii_bounded a). lia.
Qed.

Lemma ascii_impl (P Q : ascii -> bool) :
  all_ascii (fun a => negb (P a) || Q a) = true -> forall a, P a = true -> Q a = true.
Proof.
  intros Hall a Ha. pose proof (all_ascii_spec _ Hall a) as Hi. cbv beta in Hi. by rewrite Ha in Hi.
Qed.

Lemma label_chars s : label_pattern s = true -> all_chars label_char s = true.
Proof.
  destruct s as [|a s]; simpl; [done|]. intros H. bool_split. apply andb_true_iff. split; [|done].
  unfold label_char. by rewrite H.
Qed.

Lemma label_host s : label_pattern s = true -> all_chars host_char s = true.
Proof.
  intros Hl%label_chars. eapply all_chars_impl; [|exact Hl]. by apply ascii_impl.
Qed.

Lemma label_no c s : label_char c = false -> label_pattern s = true -> has_char c s = false.
Proof. intros Hc Hl%label_chars. by eapply all_chars_no. Qed.

(** [url.Parse] on a canonical form [t/tl] followed by [sfx], which is empty or
    starts with the question mark of a query. *)
Lemma url_Parse_suffix bh t tl sfx :
  label_pattern t = true -> all_chars uri_char tl = true ->
  has_char "#" sfx = false -> all_chars (fun a => negb (is_ctl a)) sfx = true ->
  drop_query (t ++ String "/" tl ++ sfx) = t ++ String "/" tl ->
  url_Parse bh (IdScheme ++ "://" ++ t ++ String "/" tl ++ sfx) = Ok (mkURL IdScheme t (String "/" tl)).
Proof.
  intros Ht Htl Hfrag Hctls Hq.
  unfold url_Parse. rewrite cut_none.
  2:{ rewrite !has_char_app. rewrite (label_no "#" t), Hfrag by done. cbn [has_char].
      by rewrite (all_chars_no uri_char "#" tl). }
  cbn [unescape]. assert (Hp : parse_nofrag bh (IdScheme ++ "://" ++ t ++ String "/" tl ++ sfx) =
    Ok (mkURL IdScheme t (String "/" tl))); [|by rewrite Hp].
  unfold parse_nofrag. rewrite !all_chars_app. cbn [all_chars].
  assert (Hct : all_chars (fun a => negb (is_ctl a)) t = true).
  { eapply all_chars_impl; [|exact (label_chars t Ht)]. by apply ascii_impl. }
  assert (Hctl : all_chars (fun a => negb (is_ctl a)) tl = true).
  { eapply all_chars_impl; [|exact Htl]. by apply ascii_impl. }
  rewrite Hct, Hctl, Hctls.
  replace (negb (all_chars (fun a => negb (is_ctl a)) IdScheme && _)) with false by reflexivity.
  replace (String.eqb (IdScheme ++ "://" ++ t ++ String "/" tl ++ sfx) "*") with false by reflexivity.
  replace (getScheme (IdScheme ++ "://" ++ t ++ String "/" tl ++ sfx))
    with (Ok (E := url_err) (IdScheme, "//" ++ t ++ String "/" tl ++ sfx)) by reflexivity.
  replace (to_lower IdScheme) with IdScheme by reflexivity. cbv zeta.
  assert (Hd : drop_query ("//" ++ t ++ String "/" tl ++ sfx) = "//" ++ t ++ String "/" tl).
  { rewrite <- Hq. generalize (t ++ String "/" tl ++ sfx). intros x.
    unfold drop_query. simpl. change ("" ++ x) with x. by destruct (cut "?" x) as [[a b] c]. }
  rewrite Hd.
  replace (strip_prefix "/" ("//" ++ t ++ String "/" tl)) with (Some ("/" ++ t ++ String "/" tl))
    by reflexivity.
  replace (strip_prefix "//" ("//" ++ t ++ String "/" tl)) with (Some (t ++ String "/" tl)) by reflexivity.
  replace (negb (String.eqb IdScheme "")) with true by reflexivity. cbn [orb].
  rewrite cut_at by (by apply label_no).
  unfold parseAuthority. rewrite cut_last_none by (by apply label_no).
  unfold parseHost. rewrite (label_no "[" t) by done. rewrite cut_last_none by (by apply label_no).
  rewrite unescape_plain; [|by apply label_no|by apply label_host].
  unfold set_path. rewrite unescape_plain; [done| |done].
  cbn [has_char]. by apply (all_chars_no uri_char).
Qed.

Lemma append_nil s : s ++ "" = s.
Proof. induction s as [|a s IH]; [done|]. exact (f_equal (String a) IH). Qed.

Lemma append_assoc s1 s2 s3 : (s1 ++ s2) ++ s3 = s1 ++ s2 ++ s3.
Proof. induction s1 as [|a s1 IH]; [done|]. exact (f_equal (String a) IH). Qed.

Lemma canonical_no_question t tl :
  label_pattern t = true -> all_chars uri_char tl = true -> has_char "?" (t ++ String "/" tl) = false.
Proof.
  intros Ht Htl. rewrite has_char_app, (label_no "?" t) by done. cbn [has_char].
  by rewrite (all_chars_no uri_char "?" tl).
Qed.

Lemma url_Parse_canonical bh t tl :
  label_pattern t = true -> all_chars uri_char tl = true ->
  url_Parse bh (IdScheme ++ "://" ++ t ++ String "/" tl) = Ok (mkURL IdScheme t (String "/" tl)).
Proof.
  intros Ht Htl. rewrite <- (append_nil (String "/" tl)) at 1.
  apply url_Parse_suffix; try done. rewrite append_nil. unfold drop_query.
  by rewrite cut_none by by apply canonical_no_question.
Qed.

Lemma url_Parse_query bh t tl q :
  label_pattern t = true -> all_chars uri_char tl = true ->
  has_char "#" q = false -> all_chars (fun a => negb (is_ctl a)) q = true ->
  url_Parse bh (IdScheme ++ "://" ++ t ++ String "/" tl ++ String "?" q) =
    Ok (mkURL IdScheme t (String "/" tl)).
Proof.
  intros Ht Htl Hf Hc. apply url_Parse_suffix; try done.
  rewrite <- append_assoc. unfold drop_query.
  by rewrite cut_at by by apply canonical_no_question.
Qed.

Section NameFacts.
Context (bh : string -> option string) {UUID : Type} `{UUIDLaws UUID}.

(** The names the package builds. *)
Definition name_ok (n : Name UUID) : Prop :=
  label_pattern (n_Tenant n) = true /\
  match n_Role n with
  | RoleAgent => n_RelayID n = ""
  | RoleRelay => label_pattern (n_RelayID n) = true /\ n_AgentID n = uuid_Nil
  | RoleUnknown => False
  end.

Lemma parseURL_canonical t role p :
  label_pattern t = true -> has_char "/" role = false -> has_char "/" p = false -> p <> "" ->
  parseURL (mkURL IdScheme t (String "/" (role ++ String "/" p))) =
    if String.eqb role "agent" then
      match uuid_Parse p with
      | None => Err ErrInvalidUUID
      | Some id => Ok (mkName RoleAgent t id "")
      end
    else if String.eqb role "relay" then
      if negb (label_pattern p) then Err ErrInvalidRelayID
      else Ok (mkName RoleRelay t uuid_Nil p)
    else Err ErrInvalidPath.
Proof.
  intros Ht Hr Hp Hne. unfold parseURL. cbn [Scheme Host Path].
  rewrite String.eqb_refl. cbn [negb]. unfold IsValidTenant. rewrite Ht. cbn [negb].
  unfold TrimPrefix. cbn [strip_prefix]. rewrite Ascii.eqb_refl.
  replace (default (String "/" (role ++ String "/" p)) (Some (role ++ String "/" p)))
    with (role ++ String "/" p) by reflexivity.
  rewrite split_on_at by done. rewrite split_on_none by done.
  destruct (String.eqb_spec p ""); [done|]. done.
Qed.

Lemma uuid_no_slash (u : UUID) : has_char "/" (uuid_String u) = false.
Proof. eapply all_chars_no; [|apply uuid_alphabet]. reflexivity. Qed.

Lemma uuid_uri (u : UUID) : all_chars uri_char (uuid_String u) = true.
Proof.
  eapply all_chars_impl; [|apply (uuid_alphabet u)]. by apply ascii_impl.
Qed.

Lemma label_uri s : label_pattern s = true -> all_chars uri_char s = true.
Proof.
  intros Hl%label_chars. eapply all_chars_impl; [|exact Hl]. by apply ascii_impl.
Qed.

(** The canonical form is tenant and path after the scheme. *)
Lemma Name_String_shape (n : Name UUID) : name_ok n ->
  exists tl, Name_String n = IdScheme ++ "://" ++ n_Tenant n ++ String "/" tl /\
    all_chars uri_char tl = true /\
    parseURL (mkURL IdScheme (n_Tenant n) (String "/" tl)) = Ok n.
Proof.
  intros [Ht Hrole]. destruct n as [role t u rid]. unfold Name_String.
  cbn [n_Role n_Tenant n_AgentID n_RelayID] in *. destruct role; [done| |].
  - exists ("agent" ++ String "/" (uuid_String u)). split; [done|].
    split; [rewrite all_chars_app; simpl; by rewrite uuid_uri|].
    rewrite parseURL_canonical; [|done|done|apply uuid_no_slash|apply uuid_nonempty].
    simpl. rewrite uuid_roundtrip. by subst rid.
  - destruct Hrole as [Hr ->]. exists ("relay" ++ String "/" rid). split; [done|].
    split; [rewrite all_chars_app; simpl; by rewrite label_uri|].
    rewrite parseURL_canonical; [|done|done|by apply label_no|by intros ->].
    simpl. by rewrite Hr.
Qed.

Lemma Parse_String_lem (n : Name UUID) : name_ok n -> Parse bh (Name_String n) = Ok n.
Proof.
  intros Hn. destruct (Name_String_shape n Hn) as (tl & -> & Hu & Hp). unfold Parse.
  rewrite url_Parse_canonical; [exact Hp|apply Hn|done].
Qed.

Lemma Parse_sound_lem (s : string) (n : Name UUID) : Parse bh s = Ok n -> name_ok n.
Proof.
  unfold Parse. destruct (url_Parse bh s) as [u|e]; [|done]. unfold parseURL.
  destruct (String.eqb (Scheme u) IdScheme); [|done]. simpl.
  destruct (IsValidTenant (Host u)) eqn:Ht; [|done]. simpl.
  destruct (split_on "/" (TrimPrefix (Path u) "/")) as [|p0 [|p1 [|]]]; try done.
  destruct (String.eqb p1 ""); [done|]. destruct (String.eqb p0 "agent").
  - destruct (uuid_Parse p1); [|done]. intros [= <-]. by split.
  - destruct (String.eqb p0 "relay"); [|done]. destruct (IsValidRelayID p1) eqn:Hr; [|done].
    intros [= <-]. by split.
Qed.
End NameFacts.

(** ** A UUID package

    Sixteen bytes in the canonical 8-4-4-4-12 form: one implementation of the
    class, which the witnesses use. *)
Inductive uuid16 :=
| U16 (b0 b1 b2 b3 b4 b5 b6 b7 b8 b9 b10 b11 b12 b13 b14 b15 : byte).

Definition nibble (n : N) : ascii :=
  if (n <? 10)%N then ascii_of_N (48 + n) else ascii_of_N (87 + n).
Definition hex2 (b : byte) (rest : string) : string :=
  String (nibble (Byte.to_N b / 16)) (String (nibble (Byte.to_N b mod 16)) rest).
Definition unhex2 (a b : ascii) : byte := byte_of (Z.of_N (unhex a * 16 + unhex b)).

Definition uuid16_String (u : uuid16) : string :=
  match u with
  | U16 b0 b1 b2 b3 b4 b5 b6 b7 b8 b9 b10 b11 b12 b13 b14 b15 =>
    hex2 b0 (hex2 b1 (hex2 b2 (hex2 b3 (String "-" (hex2 b4 (hex2 b5 (String "-"
      (hex2 b6 (hex2 b7 (String "-" (hex2 b8 (hex2 b9 (String "-" (hex2 b10 (hex2 b11
      (hex2 b12 (hex2 b13 (hex2 b14 (hex2 b15 "")))))))))))))))))))
  end.

Definition uuid16_Parse (s : string) : option uuid16 :=
  match String.list_ascii_of_string s with
  | [a0; a1; a2; a3; a4; a5; a6; a7; d0; a8; a9; a10; a11; d1; a12; a13; a14; a15; d2;
     a16; a17; a18; a19; d3; a20; a21; a22; a23; a24; a25; a26; a27; a28; a29; a30; a31] =>
    Some (U16 (unhex2 a0 a1) (unhex2 a2 a3) (unhex2 a4 a5) (unhex2 a6 a7) (unhex2 a8 a9)
            (unhex2 a10 a11) (unhex2 a12 a13) (unhex2 a14 a15) (unhex2 a16 a17) (unhex2 a18 a19)
            (unhex2 a20 a21) (unhex2 a22 a23) (unhex2 a24 a25) (unhex2 a26 a27) (unhex2 a28 a29)
            (unhex2 a30 a31))
  | _ => None
  end.

#[global] Instance uuid16_pkg : UUIDPkg uuid16 := {
  uuid_String := uuid16_String;
  uuid_Parse := uuid16_Parse;
  uuid_Nil := let z := Byte.x00 in U16 z z z z z z z z z z z z z z z z
}.

Lemma unhex2_hex2 b : unhex2 (nibble (Byte.to_N b / 16)) (nibble (Byte.to_N b mod 16)) = b.
Proof. destruct b; vm_compute; reflexivity. Qed.

Lemma hex2_alphabet b rest :
  all_chars (fun a => is_hex a || Ascii.eqb a "-") (hex2 b rest) =
  all_chars (fun a => is_hex a || Ascii.eqb a "-") rest.
Proof. destruct b; reflexivity. Qed.

#[global] Instance uuid16_laws : UUIDLaws uuid16.
Proof.
  split.
  - intros []. cbn [uuid_Parse uuid16_pkg uuid_String uuid16_String]. unfold uuid16_Parse, hex2.
    cbn [String.list_ascii_of_string]. by rewrite !unhex2_hex2.
  - intros []. cbn [uuid16_pkg uuid_String uuid16_String]. rewrite !hex2_alphabet.
    cbn [all_chars]. repeat (rewrite !hex2_alphabet; cbn [all_chars]). reflexivity.
  - by intros [].
Qed.

(** No host of the witnesses has brackets. *)
Definition no_brackets (_ : string) : option string := None.

(** ** Properties *)

(** C32. Round trip: the URI of every valid identity parses back to that identity. *)
Theorem Parse_String (bh : string -> option string) {UUID} `{UUIDLaws UUID} (n : Name UUID) :
  name_ok n -> Parse bh (Name_String n) = Ok n.
Proof. exact (Parse_String_lem bh n). Qed.

Lemma Parse_String_witness :
  Parse no_brackets "outrelay://eu-west/relay/r1" = Ok (mkName RoleRelay "eu-west" (uuid_Nil (UUID := uuid16)) "r1").
Proof.
  apply (Parse_String no_brackets (mkName RoleRelay "eu-west" (uuid_Nil (UUID := uuid16)) "r1")).
  repeat split; reflexivity.
Defined.

(** C33. Soundness: whatever string is given, a successful parse yields a valid
    identity: an agent or a relay, its tenant and relay id within the label
    pattern, and printing and parsing it again changes nothing. *)
Theorem Parse_sound (bh : string -> option string) {UUID} `{UUIDLaws UUID} (s : string) (n : Name UUID) :
  Parse bh s = Ok n -> name_ok n /\ Parse bh (Name_String n) = Ok n.
Proof.
  intros Hp. assert (Hn : name_ok n) by (by eapply Parse_sound_lem). split; [done|].
  by apply Parse_String_lem.
Qed.

Lemma Parse_sound_witness :
  name_ok (mkName RoleRelay "eu" (uuid_Nil (UUID := uuid16)) "r1") /\
  Parse no_brackets "outrelay://eu/relay/r1" = Ok (mkName RoleRelay "eu" (uuid_Nil (UUID := uuid16)) "r1").
Proof.
  apply (Parse_sound no_brackets "OUTRELAY://user:pw@eu/%72elay/r1?x=1#frag"). vm_compute. reflexivity.
Defined.

(** An identity has many spellings: a query after the URI of a valid identity is
    ignored, so distinct URIs denote the same identity. *)
Theorem Parse_ignores_query (bh : string -> option string) {UUID} `{UUIDLaws UUID} (n : Name UUID)
    (q : string) :
  name_ok n -> has_char "#" q = false -> all_chars (fun a => negb (is_ctl a)) q = true ->
  Parse bh (Name_String n ++ "?" ++ q) = Ok n.
Proof.
  intros Hn Hf Hc. destruct (Name_String_shape n Hn) as (tl & -> & Hu & Hp). unfold Parse.
  assert ((IdScheme ++ "://" ++ n_Tenant n ++ String "/" tl) ++ "?" ++ q =
    IdScheme ++ "://" ++ n_Tenant n ++ String "/" tl ++ String "?" q) as ->.
  { by rewrite !append_assoc. }
  rewrite url_Parse_query; [exact Hp|apply Hn|done..].
Qed.

Lemma Parse_ignores_query_witness :
  Parse no_brackets "outrelay://eu/relay/r1?admin=true" =
    Ok (mkName RoleRelay "eu" (uuid_Nil (UUID := uuid16)) "r1").
Proof.
  apply (Parse_ignores_query no_brackets (mkName RoleRelay "eu" (uuid_Nil (UUID := uuid16)) "r1") "admin=true");
    [repeat split; reflexivity|reflexivity|reflexivity].
Defined.

(** What a valid tenant is: one to 63 characters among lower-case letters,
    digits and hyphens, not starting with a hyphen.  In particular it has no slash,
    which the registry's default service ids rely on. *)
Theorem IsValidTenant_spec (s : string) :
  (IsValidTenant s = true <->
   (1 <= String.length s <= 63)%nat /\ all_chars label_char s = true /\
   (forall s', s <> String "-" s')) /\
  (IsValidTenant s = true -> no_slash s = true).
Proof.
  assert (Hd : forall a, label_char a = true -> a <> "-"%char -> is_lower a || is_digit a = true).
  { intros a Ha Hne. unfold label_char in Ha. apply orb_prop in Ha as [Ha|Ha%Ascii.eqb_eq]; done. }
  split.
  - unfold IsValidTenant. destruct s as [|a s]; simpl.
    + split; [done|]. intros [? _]. lia.
    + rewrite !andb_true_iff, Nat.leb_le. split.
      * intros [[Ha Hs] Hl]. split; [lia|]. split; [split; [|done]|].
        -- unfold label_char. by rewrite Ha.
        -- intros s' [= -> _]. done.
      * intros (Hl & [Ha Hs] & Hne). split; [split; [|done]|lia]. apply Hd; [done|].
        intros ->. by apply (Hne s).
  - intros Hl%label_chars. induction s as [|a s IH]; simpl in *; [done|].
    apply andb_prop in Hl as [Ha Hs]. rewrite IH by done. rewrite andb_true_r.
    apply negb_true_iff, Ascii.eqb_neq. by intros ->.
Qed.

(** The pattern is not the DNS label rule its comment cites: labels that end with
    a hyphen are accepted, whatever precedes it. *)
Theorem trailing_hyphen_accepted (s : string) :
  IsValidTenant s = true -> (String.length s <= 62)%nat -> IsValidTenant (s ++ "-") = true.
Proof.
  unfold IsValidTenant. destruct s as [|a s]; simpl; [done|]. rewrite !andb_true_iff, !Nat.leb_le.
  intros [[Ha Hs] Hl] Hlen. split; [split; [done|by rewrite all_chars_app, Hs]|].
  assert (String.length (s ++ "-") = S (String.length s)) as ->; [|lia].
  clear. induction s as [|b s IH]; [done|]. simpl. by rewrite IH.
Qed.

Lemma trailing_hyphen_accepted_witness : IsValidTenant "acme-" = true.
Proof. apply (trailing_hyphen_accepted "acme"); [reflexivity|simpl; lia]. Defined.
