(* ===== verification/Rotator.v ===== *)
(** * Certificate rotation: lib/identity/rotator.go

    [Run] is a loop over timers, the signer and the context; a run is the list
    of what happened in each round.  Times are nanoseconds; [time.Time.Sub]
    saturates at the range of [Duration].  Certificates are identified by a tag,
    with the validity the rotator reads. *)

From Stdlib Require Import ZArith Lia SpecFloat.
From stdpp Require Import base tactics list.
From S2P Require Import Prelude Observe.

Local Open Scope Z_scope.

(** 0.7 as a float64. *)
Definition DefaultRotateAt : spec_float := S754_finite false 6305039478318694 (-53).

Record Cert := mkCert { c_tag : Z; c_NotBefore : Z; c_NotAfter : Z }.

Record Rotator := mkRotator {
  ro_rotateAt : spec_float;
  ro_cur : option Cert;
  ro_subs : list (list Cert)
}.

Inductive rot_err :=
| ErrRotateAt
| ErrBootstrap (code : Z)
| ErrNotBootstrapped
| ErrContext.

Definition NewRotator : Rotator := mkRotator DefaultRotateAt None [].

Definition SetRotateAt (f : spec_float) (r : Rotator) : res rot_err unit * Rotator :=
  if SFleb f (S754_zero false) || SFleb (f64_of_int 1) f then (Err ErrRotateAt, r)
  else (Ok tt, mkRotator f (ro_cur r) (ro_subs r)).

Definition Bootstrap (signed : res Z Cert) (r : Rotator) : res rot_err unit * Rotator :=
  match signed with
  | Err e => (Err (ErrBootstrap e), r)
  | Ok c => (Ok tt, mkRotator (ro_rotateAt r) (Some c) (ro_subs r))
  end.

Definition Current (r : Rotator) : option Cert := ro_cur r.

(** [a.Sub(b)] and [time.Until]: saturating. *)
Definition sat_i64 (z : Z) : Z :=
  Z.max (-9223372036854775808) (Z.min 9223372036854775807 z).

Definition timeUntilRefresh (undef now : Z) (c : Cert) (r : Rotator) : Z :=
  let total := sat_i64 (c_NotAfter c - c_NotBefore c) in
  let deadline := c_NotBefore c + f64_to_i64 undef (f64_mul (f64_of_int total) (ro_rotateAt r)) in
  let until := sat_i64 (deadline - now) in
  if until <? 0 then 0 else until.

(** [Subscribe]: a channel with one slot. *)
Definition Subscribe (r : Rotator) : nat * Rotator :=
  (length (ro_subs r), mkRotator (ro_rotateAt r) (ro_cur r) (ro_subs r ++ [[]])).

(** The non-blocking send to each subscriber. *)
Definition offer (c : Cert) (ch : list Cert) : list Cert :=
  if (length ch <? 1)%nat then ch ++ [c] else ch.

Definition broadcast (c : Cert) (r : Rotator) : Rotator :=
  mkRotator (ro_rotateAt r) (ro_cur r) (map (offer c) (ro_subs r)).

(** A consumer takes from its channel. *)
Definition take_sub (i : nat) (r : Rotator) : option Cert * Rotator :=
  match ro_subs r !! i with
  | Some (c :: ch) => (Some c, mkRotator (ro_rotateAt r) (ro_cur r) (<[i := ch]> (ro_subs r)))
  | _ => (None, r)
  end.

(** What happens in one turn of [Run]: the context ends the wait, or the timer
    fires and the signer answers; after a failure the context may end the
    backoff.  Subscribers come and take at any time between turns. *)
Inductive turn :=
| TurnCancelled
| TurnSigned (c : Cert)
| TurnFailed (cancelled : bool)
| TurnSubscribe
| TurnTake (i : nat).

Definition run_turn (t : turn) (r : Rotator) : Rotator * option rot_err :=
  match t with
  | TurnCancelled => (r, Some ErrContext)
  | TurnSigned c => (broadcast c (mkRotator (ro_rotateAt r) (Some c) (ro_subs r)), None)
  | TurnFailed cancelled => (r, if cancelled then Some ErrContext else None)
  | TurnSubscribe => (snd (Subscribe r), None)
  | TurnTake i => (snd (take_sub i r), None)
  end.

Fixpoint run_loop (ts : list turn) (r : Rotator) : Rotator * option rot_err :=
  match ts with
  | [] => (r, None)
  | t :: ts' =>
    match run_turn t r with
    | (r', Some e) => (r', Some e)
    | (r', None) => run_loop ts' r'
    end
  end.

Definition Run (ts : list turn) (r : Rotator) : Rotator * option rot_err :=
  match Current r with
  | None => (r, Some ErrNotBootstrapped)
  | Some _ => run_loop ts r
  end.

(** ** Histories *)

(** The turns that ran: up to the one that ended the loop. *)
Fixpoint ran (ts : list turn) : list turn :=
  match ts with
  | [] => []
  | TurnCancelled :: _ => []
  | TurnFailed true :: _ => []
  | t :: ts' => t :: ran ts'
  end.

Definition signed_in (ts : list turn) : list Cert :=
  flat_map (fun t => match t with TurnSigned c => [c] | _ => [] end) ts.

Definition last_signed (c : Cert) (ts : list turn) : Cert := List.last (signed_in ts) c.

(** ** Lemmas *)
Lemma last_nonempty (l : list Cert) d d' : l <> [] -> List.last l d = List.last l d'.
Proof. induction l as [|x [|y l] IH]; [done|done|]. intros _. by apply IH. Qed.

Lemma last_signed_cons c t ts :
  last_signed c (t :: ts) =
    last_signed (match t with TurnSigned c' => c' | _ => c end) ts.
Proof.
  unfold last_signed, signed_in. simpl. destruct t; simpl; try done.
  destruct (flat_map _ ts) as [|x l] eqn:E; [done|]. by apply last_nonempty.
Qed.

(** Every channel holds at most one certificate. *)
Definition subs_ok (r : Rotator) : Prop := Forall (fun ch => (length ch <= 1)%nat) (ro_subs r).

Lemma run_turn_subs_ok t r : subs_ok r -> subs_ok (fst (run_turn t r)).
Proof.
  unfold subs_ok. intros Hs. destruct t as [|c|b| |i]; simpl; try done.
  - apply Forall_fmap. eapply Forall_impl; [exact Hs|]. intros ch Hch. unfold offer. simpl in *.
    destruct (Nat.ltb_spec (length ch) 1); [rewrite length_app; simpl; lia|done].
  - apply Forall_app. split; [done|]. constructor; [simpl; lia|done].
  - unfold take_sub. destruct (ro_subs r !! i) as [[|x ch]|] eqn:E; simpl; try done.
    apply Forall_insert; [done|]. rewrite Forall_lookup in Hs. specialize (Hs i _ E). simpl in Hs. lia.
Qed.

Lemma run_turn_cur t r :
  ro_cur (fst (run_turn t r)) = match t with TurnSigned c => Some c | _ => ro_cur r end.
Proof.
  destruct t as [|c|b| |i]; simpl; try done. unfold take_sub.
  by destruct (ro_subs r !! i) as [[|x ch]|].
Qed.

Lemma run_loop_ok ts r c :
  ro_cur r = Some c -> subs_ok r ->
  ro_cur (fst (run_loop ts r)) = Some (last_signed c (ran ts)) /\ subs_ok (fst (run_loop ts r)).
Proof.
  revert r c. induction ts as [|t ts IH]; intros r c Hc Hs; [done|].
  pose proof (run_turn_cur t r) as Hcur. pose proof (run_turn_subs_ok t r Hs) as Hs'.
  destruct t as [|x|[]| |i]; cbn [run_loop ran]; try done;
    cbn [run_turn fst] in *; rewrite last_signed_cons; apply IH; congruence.
Qed.

(** ** Properties *)

(** C40. After a bootstrap with certificate [c], a run of any length leaves as current
    certificate the last one the signer delivered ([c] if it delivered none):
    signer failures never replace or clear it, and no subscriber channel ever holds
    more than one certificate. *)
Theorem Current_after_Run (ts : list turn) (c : Cert) :
  let r0 := snd (Bootstrap (Ok c) NewRotator) in
  let r := fst (Run ts r0) in
  Current r = Some (last_signed c (ran ts)) /\
  Forall (fun ch => (length ch <= 1)%nat) (ro_subs r).
Proof. intros r0 r. apply run_loop_ok; [done|constructor]. Qed.

(** A subscriber that does not read keeps the first certificate of the refreshes
    it missed, not the latest: after its channel filled with [c1], later refreshes
    leave it there while [Current] moves on. *)
Theorem slow_subscriber_is_stale (ts : list turn) (c1 : Cert) (i : nat) (r : Rotator) :
  ro_subs r !! i = Some [c1] -> is_Some (Current r) ->
  Forall (fun t => match t with TurnTake j => j <> i | _ => True end) ts ->
  ro_subs (fst (Run ts r)) !! i = Some [c1].
Proof.
  intros Hi [c Hc] Hts. unfold Run. rewrite Hc. clear Hc c. revert r Hi.
  induction Hts as [|t ts Ht Hts IH]; intros r Hi; [done|]. simpl.
  assert (Hstep : ro_subs (fst (run_turn t r)) !! i = Some [c1]).
  { destruct t as [|c|b| |j]; simpl; try done.
    - change (map (offer c) (ro_subs r)) with (offer c <$> ro_subs r).
      rewrite list_lookup_fmap, Hi. done.
    - by apply lookup_app_l_Some.
    - unfold take_sub. destruct (ro_subs r !! j) as [[|x ch]|]; simpl; try done.
      by rewrite list_lookup_insert_ne. }
  destruct (run_turn t r) as [r' [e|]]; simpl in *; [done|by apply IH].
Qed.

Lemma slow_subscriber_is_stale_witness :
  let r := fst (Run [TurnSubscribe; TurnSigned (mkCert 2 0 10)]
             (snd (Bootstrap (Ok (mkCert 1 0 10)) NewRotator))) in
  ro_subs (fst (Run [TurnSigned (mkCert 3 0 20); TurnFailed false] r)) !! 0%nat = Some [mkCert 2 0 10].
Proof.
  apply slow_subscriber_is_stale; [reflexivity|eexists; reflexivity|repeat constructor].
Defined.

(** The wait before a refresh is never negative, is zero once the refresh point
    has passed, and for the default one-hour certificate with the default fraction
    the refresh point is 42 minutes after [NotBefore], to the nanosecond. *)
Theorem timeUntilRefresh_spec (undef now nb : Z) (c : Cert) (r : Rotator) :
  0 <= timeUntilRefresh undef now c r /\
  (c_NotBefore c + f64_to_i64 undef (f64_mul (f64_of_int (sat_i64 (c_NotAfter c - c_NotBefore c)))
     (ro_rotateAt r)) <= now -> timeUntilRefresh undef now c r = 0) /\
  (nb <= now <= nb + 42 * 60 * Second ->
   timeUntilRefresh undef now (mkCert 0 nb (nb + 3600 * Second)) NewRotator =
     nb + 42 * 60 * Second - now).
Proof.
  split; [|split].
  - unfold timeUntilRefresh. cbv zeta. zcase; lia.
  - intros Hp. unfold timeUntilRefresh, sat_i64 in *. cbv zeta. zcase; lia.
  - intros Hn. unfold timeUntilRefresh. cbn [c_NotAfter c_NotBefore ro_rotateAt NewRotator].
    replace (nb + 3600 * Second - nb) with (3600 * Second) by lia.
    assert (Hv : f64_to_i64 undef (f64_mul (f64_of_int (sat_i64 (3600 * Second))) DefaultRotateAt) =
      42 * 60 * Second) by (vm_compute; reflexivity).
    rewrite Hv. change (42 * 60 * Second) with 2520000000000 in *. unfold sat_i64. zcase; lia.
Qed.
