(* ===== verification/Pki.v ===== *)
(** * Enrollment tokens and the CA: pkg/pki/enroll.go, ca.go

    The JWT library and the cryptography are not part of the repository.  The
    JWT package is the class [JwtPkg] with its documented laws [JwtLaws]: what a
    successful [ParseWithClaims] guarantees, and that a token signed by the
    matching key with acceptable claims is accepted.  X.509 parsing and signing
    appear through their outcomes: the parsed CSR
    and the template that is signed. *)

From Stdlib Require Import ZArith Lia Ascii Strings.Byte.
From stdpp Require Import base tactics list strings gmap sets.
From S2P Require Import Prelude Observe Identity.

Local Open Scope Z_scope.

Definition Minute : Z := 60 * Second.
Definition Hour : Z := 60 * Minute.

(** ** Enrollment *)
Definition DefaultEnrollTTL : Z := 10 * Minute.
Definition enrollIssuer : string := "outrelay-controller".
Definition enrollAudience : string := "outrelay-agent".

Record EnrollClaims := mkClaims {
  cl_Tenant : string;
  cl_AgentID : string;
  cl_Issuer : string;
  cl_Audience : list string;
  cl_IssuedAt : option Z;
  cl_NotBefore : option Z;
  cl_ExpiresAt : option Z;
  cl_ID : string
}.

Inductive enroll_err :=
| ErrInvalidTenant
| ErrJTI (code : Z)
| ErrSign (code : Z)
| ErrTokenInvalid
| ErrTokenMissingJTI
| ErrTokenTenant
| ErrTokenReplay.

(** github.com/golang-jwt/jwt as the code calls it: signing with a private key
    under an algorithm, and parsing under a key function with the issuer,
    audience and required-expiry options. *)
Class JwtPkg (Priv Pub : Type) := {
  SignedString : string -> Priv -> EnrollClaims -> res Z string;
  ParseWithClaims : (string -> option Pub) -> string -> string -> Z -> string -> option EnrollClaims;
  key_pair : Priv -> Pub -> Prop
}.

(** The claim checks of the options in use. *)
Definition claims_accepted (issuer audience : string) (now : Z) (c : EnrollClaims) : Prop :=
  cl_Issuer c = issuer /\ audience ∈ cl_Audience c /\
  (exists e, cl_ExpiresAt c = Some e /\ now < e) /\
  (forall nb, cl_NotBefore c = Some nb -> nb <= now).

Class JwtLaws (Priv Pub : Type) `{JwtPkg Priv Pub} := {
  (** a parse succeeds only for claims the options accept *)
  parse_accepted : forall kf iss aud now tok c,
    ParseWithClaims kf iss aud now tok = Some c -> claims_accepted iss aud now c;
  (** a token signed with the key the key function returns is accepted *)
  parse_signed : forall kf iss aud now alg priv pub c tok,
    key_pair priv pub -> SignedString alg priv c = Ok tok -> kf alg = Some pub ->
    claims_accepted iss aud now c -> ParseWithClaims kf iss aud now tok = Some c
}.

Section Enroller.
Context {Priv Pub : Type} `{JwtPkg Priv Pub}.

Record Enroller := mkEnroller { en_pub : Pub; en_priv : Priv; en_used : gset string }.

(** [NewEnroller]: the generated key pair, or the generator's error. *)
Definition NewEnroller (gen : res Z (Pub * Priv)) : res Z Enroller :=
  match gen with
  | Err e => Err e
  | Ok (pub, priv) => Ok (mkEnroller pub priv ∅)
  end.

(** [jwt.NewNumericDate] keeps whole seconds. *)
Definition NewNumericDate (t : Z) : Z := t / Second * Second.

Definition issue_claims (tenant jti : string) (now ttl : Z) : EnrollClaims :=
  let ttl := if ttl <=? 0 then DefaultEnrollTTL else ttl in
  mkClaims tenant "" enrollIssuer [enrollAudience] (Some (NewNumericDate now))
    (Some (NewNumericDate (now - Second))) (Some (NewNumericDate (now + ttl))) jti.

(** [jti] is the outcome of [newJTI]. *)
Definition Issue (jti : res Z string) (now ttl : Z) (tenant : string) (e : Enroller)
  : res enroll_err string :=
  if negb (IsValidTenant tenant) then Err ErrInvalidTenant
  else
    match jti with
    | Err c => Err (ErrJTI c)
    | Ok id =>
      match SignedString "EdDSA" (en_priv e) (issue_claims tenant id now ttl) with
      | Ok tok => Ok tok
      | Err c => Err (ErrSign c)
      end
    end.

(** The key function of [Verify]: only EdDSA tokens get the key. *)
Definition enroll_key (e : Enroller) (alg : string) : option Pub :=
  if String.eqb alg "EdDSA" then Some (en_pub e) else None.

Definition Verify (now : Z) (token : string) (e : Enroller) : res enroll_err EnrollClaims * Enroller :=
  match ParseWithClaims (enroll_key e) enrollIssuer enrollAudience now token with
  | None => (Err ErrTokenInvalid, e)
  | Some c =>
    if String.eqb (cl_ID c) "" then (Err ErrTokenMissingJTI, e)
    else if negb (IsValidTenant (cl_Tenant c)) then (Err ErrTokenTenant, e)
    else if bool_decide (cl_ID c ∈ en_used e) then (Err ErrTokenReplay, e)
    else (Ok c, mkEnroller (en_pub e) (en_priv e) ({[cl_ID c]} ∪ en_used e))
  end.

(** A sequence of verifications; the ids of the accepted tokens. *)
Fixpoint verify_all (calls : list (Z * string)) (e : Enroller) : list string * Enroller :=
  match calls with
  | [] => ([], e)
  | (now, tok) :: calls' =>
    let '(r, e') := Verify now tok e in
    let '(ids, e'') := verify_all calls' e' in
    (match r with Ok c => cl_ID c :: ids | Err _ => ids end, e'')
  end.

(** ** Lemmas *)
Lemma Verify_cases now tok e :
  (exists er, Verify now tok e = (Err er, e)) \/
  (exists c, Verify now tok e = (Ok c, mkEnroller (en_pub e) (en_priv e) ({[cl_ID c]} ∪ en_used e)) /\
    ParseWithClaims (enroll_key e) enrollIssuer enrollAudience now tok = Some c /\
    cl_ID c <> ""%string /\ IsValidTenant (cl_Tenant c) = true /\ cl_ID c ∉ en_used e).
Proof.
  unfold Verify. destruct (ParseWithClaims _ _ _ _ _) as [c|]; [|by left; eexists].
  destruct (String.eqb_spec (cl_ID c) ""); [by left; eexists|].
  destruct (IsValidTenant (cl_Tenant c)) eqn:E; simpl; [|by left; eexists].
  case_bool_decide; [by left; eexists|]. right. by exists c.
Qed.

Lemma verify_all_fresh calls e :
  NoDup (fst (verify_all calls e)) /\ forall id, id ∈ fst (verify_all calls e) -> id ∉ en_used e.
Proof.
  revert e. induction calls as [|[now tok] calls IH]; intros e.
  { split; [constructor|]. intros id Hid. by apply elem_of_nil in Hid. }
  simpl. destruct (Verify_cases now tok e) as [[er ->]|(c & -> & _ & _ & _ & Hu)].
  - specialize (IH e). by destruct (verify_all calls e).
  - specialize (IH (mkEnroller (en_pub e) (en_priv e) ({[cl_ID c]} ∪ en_used e))).
    destruct (verify_all calls _) as [ids e'']. simpl in *. destruct IH as [Hnd Hf]. split.
    + apply NoDup_cons. split; [|done]. intros Hin. apply (Hf _ Hin). set_solver.
    + intros id [->|Hin]%elem_of_cons; [done|]. specialize (Hf id Hin). set_solver.
Qed.
End Enroller.
Arguments Enroller : clear implicits.

(** ** The CA *)
Definition DefaultLeafTTL : Z := Hour.
Definition caTTL : Z := 10 * 365 * 24 * Hour.

(** [crypto/x509] as the code calls it: a CSR is parsed into its URIs (as
    printed) with its self-signature checked separately. *)
Record csr_info := mkCsr {
  csr_CommonName : string;
  csr_URIs : list string;
  csr_DNSNames : list string;
  csr_key : Z;
  csr_sig_ok : bool
}.

Inductive key_usage := KeyUsageCertSign | KeyUsageDigitalSignature | KeyUsageKeyEncipherment.
Inductive ext_key_usage := ExtKeyUsageServerAuth | ExtKeyUsageClientAuth.

(** The certificate template. *)
Record Certificate := mkCertificate {
  SerialNumber : Z;
  CommonName : string;
  NotBefore : Z;
  NotAfter : Z;
  KeyUsage : list key_usage;
  ExtKeyUsage : list ext_key_usage;
  IsCA : bool;
  MaxPathLenZero : bool;
  URIs : list (option URL);
  DNSNames : list string
}.

Inductive ca_err :=
| ErrParseCSR
| ErrCSRSignature
| ErrCSRMissingURI
| ErrCSRURIMismatch
| ErrSerial (code : Z)
| ErrCreate (code : Z)
| ErrGenerate (code : Z)
| ErrParseCert (code : Z).

Section CA.
Context {UUID : Type} `{UUIDPkg UUID} (bracket_host : string -> option string).

(** [hasURI]. *)
Definition hasURI (uris : list string) (want : string) : bool :=
  existsb (fun u => String.eqb u want) uris.

(** The self-signed template of [NewCA]. *)
Definition ca_template (serial now : Z) : Certificate :=
  mkCertificate serial "outrelay-ca" (now - Minute) (now + caTTL)
    [KeyUsageCertSign; KeyUsageDigitalSignature] [] true true [] [].

Definition leaf_template (serial now ttl : Z) (name : Name UUID) : Certificate :=
  mkCertificate serial (Name_String name) (now - Minute) (now + ttl)
    [KeyUsageDigitalSignature; KeyUsageKeyEncipherment]
    [ExtKeyUsageServerAuth; ExtKeyUsageClientAuth] false false
    [Name_URL bracket_host name] ["localhost"%string].

(** [Sign]: the certificate [x509.CreateCertificate] signs together with the
    public key of the CSR; [csr] is the outcome of parsing, [serial] of
    [randomSerial], [create] the error of [x509.CreateCertificate], if any. *)
Definition Sign (csr : option csr_info) (serial : res Z Z) (create : Certificate -> Z -> option Z)
    (now ttl : Z) (name : Name UUID)
  : res ca_err (Certificate * Z) :=
  let ttl := if ttl <=? 0 then DefaultLeafTTL else ttl in
  match csr with
  | None => Err ErrParseCSR
  | Some csr =>
    if negb (csr_sig_ok csr) then Err ErrCSRSignature
    else if negb (hasURI (csr_URIs csr) (Name_String name)) then
      if zlen (csr_URIs csr) =? 0 then Err ErrCSRMissingURI else Err ErrCSRURIMismatch
    else
      match serial with
      | Err e => Err (ErrSerial e)
      | Ok n =>
        let tmpl := leaf_template n now ttl name in
        match create tmpl (csr_key csr) with
        | Some e => Err (ErrCreate e)
        | None => Ok (tmpl, csr_key csr)
        end
      end
  end.

(** [NewCA]: [gen] is the outcome of the key generation, [create] and [parse] the
    errors of creating and re-reading the certificate.  The CA keeps the
    certificate and the key. *)
Record CA := mkCA { ca_cert : Certificate; ca_key : Z }.

Definition NewCA (gen serial : res Z Z) (create parse : option Z) (now : Z) : res ca_err CA :=
  match gen, serial with
  | Err e, _ => Err (ErrGenerate e)
  | Ok _, Err e => Err (ErrSerial e)
  | Ok key, Ok n =>
    match create, parse with
    | Some e, _ => Err (ErrCreate e)
    | None, Some e => Err (ErrParseCert e)
    | None, None => Ok (mkCA (ca_template n now) key)
    end
  end.

(** The template of [NewCSR]. *)
Definition csr_template (name : Name UUID) : string * list (option URL) :=
  (Name_String name, [Name_URL bracket_host name]).

(** [NewCSR]: the signed template and the key the caller keeps. *)
Definition NewCSR (gen : res Z Z) (create : option Z) (name : Name UUID)
  : res ca_err (string * list (option URL) * Z) :=
  match gen with
  | Err e => Err (ErrGenerate e)
  | Ok key =>
    match create with
    | Some e => Err (ErrCreate e)
    | None => Ok (csr_template name, key)
    end
  end.

(** What [x509.ParseCertificateRequest] reads back from a request that [NewCSR]
    made with key [key]: the URIs as printed by [url.URL.String]. *)
Definition reread (url_String : URL -> string) (tmpl : string * list (option URL)) (key : Z) : csr_info :=
  mkCsr (fst tmpl) (omap (fmap url_String) (snd tmpl)) [] key true.
End CA.

(** ** Properties *)

(** C34. Enrollment tokens are single-use: over any sequence of verifications, of any
    tokens at any times, no token id is accepted twice. *)
Theorem tokens_single_use {Priv Pub} `{JwtPkg Priv Pub} (calls : list (Z * string))
    (e : Enroller Priv Pub) :
  NoDup (fst (verify_all calls e)).
Proof. apply verify_all_fresh. Qed.

(** C35. Issue and verify: a token issued for a tenant verifies before it expires,
    yields that tenant's claims, and a second presentation is refused as a replay. *)
Theorem issue_verify_once {Priv Pub} `{JwtLaws Priv Pub} (jti tenant tok : string)
    (now ttl later later' : Z) (e : Enroller Priv Pub) :
  key_pair (en_priv e) (en_pub e) -> jti <> ""%string -> jti ∉ en_used e ->
  Issue (Ok jti) now ttl tenant e = Ok tok ->
  let exp := NewNumericDate (now + (if ttl <=? 0 then DefaultEnrollTTL else ttl)) in
  now <= later < exp -> now <= later' < exp ->
  exists c e',
    Verify later tok e = (Ok c, e') /\ cl_Tenant c = tenant /\ cl_ID c = jti /\
    Verify later' tok e' = (Err ErrTokenReplay, e').
Proof.
  intros Hk Hj Hu Hi exp Hl Hl'. unfold Issue in Hi.
  destruct (IsValidTenant tenant) eqn:Ht; simpl in Hi; [|done].
  destruct (SignedString "EdDSA" (en_priv e) (issue_claims tenant jti now ttl)) as [tok'|] eqn:Hs; [|done].
  injection Hi as ->. set (c := issue_claims tenant jti now ttl) in *.
  assert (Hacc : forall t, now <= t < exp -> claims_accepted enrollIssuer enrollAudience t c).
  { intros t Hr. split; [done|]. split; [by left|]. split; [exists exp; split; [done|lia]|].
    intros nb [= <-]. assert (HS : 0 < Second) by reflexivity.
    unfold NewNumericDate. pose proof (Z.mul_div_le (now - Second) Second HS). lia. }
  assert (Hp : forall (e2 : Enroller Priv Pub) t, en_pub e2 = en_pub e -> now <= t < exp ->
    ParseWithClaims (enroll_key e2) enrollIssuer enrollAudience t tok = Some c).
  { intros e2 t He Hr. apply (parse_signed _ _ _ _ "EdDSA" (en_priv e) (en_pub e)); try done.
    - unfold enroll_key. by rewrite He.
    - by apply Hacc. }
  exists c, (mkEnroller (en_pub e) (en_priv e) ({[jti]} ∪ en_used e)).
  assert (Hid : String.eqb (cl_ID c) "" = false) by (by apply String.eqb_neq).
  split; [|split; [done|split; [done|]]]; unfold Verify; rewrite Hp by done; rewrite Hid;
    change (cl_Tenant c) with tenant; rewrite Ht; change (cl_ID c) with jti; simpl.
  - by rewrite bool_decide_eq_false_2.
  - rewrite bool_decide_eq_true_2; [done|]. set_solver.
Qed.

(** A JWT package that keeps the claims in a table of one token. *)
Section DemoJwt.
Context (c0 : EnrollClaims).

Definition accepted_b (issuer audience : string) (now : Z) (c : EnrollClaims) : bool :=
  String.eqb (cl_Issuer c) issuer && bool_decide (audience ∈ cl_Audience c) &&
  match cl_ExpiresAt c with Some e => now <? e | None => false end &&
  match cl_NotBefore c with Some nb => nb <=? now | None => true end.

#[local] Instance demo_jwt : JwtPkg unit unit := {
  SignedString := fun alg _ c =>
    if bool_decide (cl_Tenant c = cl_Tenant c0 /\ cl_AgentID c = cl_AgentID c0 /\
      cl_Issuer c = cl_Issuer c0 /\ cl_Audience c = cl_Audience c0 /\ cl_IssuedAt c = cl_IssuedAt c0 /\
      cl_NotBefore c = cl_NotBefore c0 /\ cl_ExpiresAt c = cl_ExpiresAt c0 /\ cl_ID c = cl_ID c0)
    then Ok alg else Err 1;
  ParseWithClaims := fun kf iss aud now tok =>
    match kf tok with
    | Some _ => if accepted_b iss aud now c0 then Some c0 else None
    | None => None
    end;
  key_pair := fun _ _ => True
}.

Lemma accepted_b_spec iss aud now c :
  accepted_b iss aud now c = true <-> claims_accepted iss aud now c.
Proof.
  unfold accepted_b, claims_accepted. rewrite !andb_true_iff, String.eqb_eq, bool_decide_eq_true.
  destruct (cl_ExpiresAt c) as [e|], (cl_NotBefore c) as [nb|]; rewrite ?Z.ltb_lt, ?Z.leb_le; split.
  - intros [[[-> Ha] He] Hn]. split; [done|]. split; [done|]. split; [by exists e|].
    by intros ? [= <-].
  - intros (-> & Ha & (e' & [= <-] & He) & Hn). by specialize (Hn nb eq_refl).
  - intros [[[-> Ha] He] Hn]. split; [done|]. split; [done|]. by split; [exists e|].
  - intros (-> & Ha & (e' & [= <-] & He) & Hn). done.
  - by intros [[_ ?] _].
  - by intros (_ & _ & (e' & ? & _) & _).
  - by intros [[_ ?] _].
  - by intros (_ & _ & (e' & ? & _) & _).
Qed.

Lemma demo_jwt_laws : JwtLaws unit unit.
Proof.
  split.
  - intros kf iss aud now tok c. simpl. destruct (kf tok); [|done].
    destruct (accepted_b iss aud now c0) eqn:E; [|done]. intros [= <-]. by apply accepted_b_spec.
  - intros kf iss aud now alg priv pub c tok _. simpl. case_bool_decide as Hc; [|done].
    intros [= <-] Hk Ha. rewrite Hk.
    assert (c = c0) as -> by (destruct c, c0; simpl in *; naive_solver).
    apply accepted_b_spec in Ha. by rewrite Ha.
Qed.
End DemoJwt.

Lemma issue_verify_once_witness :
  exists tok c e',
    let J := demo_jwt (issue_claims "acme" "id1" (100 * Second) 0) in
    let e := mkEnroller tt tt ∅ in
    Issue (Ok "id1"%string) (100 * Second) 0 "acme" e = Ok tok /\
    Verify (101 * Second) tok e = (Ok c, e') /\ cl_Tenant c = "acme"%string /\
    Verify (102 * Second) tok e' = (Err ErrTokenReplay, e').
Proof.
  pose (c0 := issue_claims "acme" "id1" (100 * Second) 0).
  pose (e := mkEnroller tt tt ∅ : Enroller unit unit).
  assert (Hi : @Issue unit unit (demo_jwt c0) (Ok "id1"%string) (100 * Second) 0 "acme" e = Ok "EdDSA"%string)
    by (vm_compute; reflexivity).
  destruct (@issue_verify_once unit unit (demo_jwt c0) (demo_jwt_laws c0) "id1" "acme" "EdDSA"
    (100 * Second) 0 (101 * Second) (102 * Second) e I ltac:(discriminate) ltac:(apply not_elem_of_empty)
    Hi ltac:(vm_compute; split; [discriminate|reflexivity])
    ltac:(vm_compute; split; [discriminate|reflexivity])) as (c & e' & H1 & H2 & _ & H4).
  exists "EdDSA"%string, c, e'. split; [exact Hi|]. split; [exact H1|]. split; [exact H2|exact H4].
Defined.

(** An accepted token is genuine and current: [Verify] returns claims only if the
    library accepted them under the enroller's own key and EdDSA, so they carry the
    controller's issuer and audience and have not expired; the tenant is valid, the
    id is non-empty, was never used before, and is recorded; every refusal leaves
    the enroller unchanged. *)
Theorem Verify_sound {Priv Pub} `{JwtLaws Priv Pub} (now : Z) (tok : string) (e : Enroller Priv Pub) :
  match Verify now tok e with
  | (Ok c, e') =>
    claims_accepted enrollIssuer enrollAudience now c /\ IsValidTenant (cl_Tenant c) = true /\
    cl_ID c <> ""%string /\ cl_ID c ∉ en_used e /\ en_used e' = ({[cl_ID c]} ∪ en_used e)
  | (Err _, e') => e' = e
  end.
Proof.
  destruct (Verify_cases now tok e) as [[er ->]|(c & -> & Hp & Hj & Ht & Hu)]; [done|].
  by apply parse_accepted in Hp.
Qed.

Lemma Verify_sound_witness :
  match @Verify unit unit (demo_jwt (issue_claims "acme" "id1" (100 * Second) 0)) (101 * Second) "EdDSA"
          (mkEnroller tt tt ∅) with
  | (Ok c, e') =>
    claims_accepted enrollIssuer enrollAudience (101 * Second) c /\ IsValidTenant (cl_Tenant c) = true /\
    cl_ID c <> ""%string /\ cl_ID c ∉ (∅ : gset string) /\ en_used e' = ({[cl_ID c]} ∪ (∅ : gset string))
  | (Err _, e') => e' = mkEnroller tt tt ∅
  end.
Proof.
  exact (@Verify_sound unit unit (demo_jwt (issue_claims "acme" "id1" (100 * Second) 0))
    (demo_jwt_laws _) (101 * Second) "EdDSA" (mkEnroller tt tt ∅)).
Defined.

(** The URL of a valid identity. *)
Lemma Name_URL_ok {UUID} `{UUIDLaws UUID} (bh : string -> option string) (name : Name UUID) :
  name_ok name -> exists u, Name_URL bh name = Some u /\ FromURL u = Ok name.
Proof.
  intros Hn. destruct (Name_String_shape name Hn) as (tl & Hs & Htl & Hp).
  exists (mkURL IdScheme (n_Tenant name) (String "/" tl)). split; [|done].
  unfold Name_URL. rewrite Hs. rewrite url_Parse_canonical; [done|apply Hn|done].
Qed.

(** C36. The CA certifies only claimed identities: [Sign] succeeds exactly when the
    CSR parses, is self-signed and lists the identity's URI (and the calls for a serial
    and for the signature succeed).  The certificate then takes nothing from the CSR but
    its key, whatever other names the CSR asks for: its common name is the identity, its
    single URI parses back to it, its only DNS name is localhost; it is not a CA
    certificate, is good for both ends of a TLS connection, and is valid for the requested
    time, or one hour if none was requested. *)
Theorem Sign_certifies_claimed_name {UUID} `{UUIDLaws UUID} (bh : string -> option string)
    (csr : option csr_info) (serial : res Z Z) (create : Certificate -> Z -> option Z) (now ttl : Z)
    (name : Name UUID) :
  name_ok name ->
  match Sign bh csr serial create now ttl name with
  | Ok (cert, key) =>
    exists info u, csr = Some info /\ csr_sig_ok info = true /\ csr_key info = key /\
      In (Name_String name) (csr_URIs info) /\ FromURL u = Ok name /\
      exists n, serial = Ok n /\
        cert = mkCertificate n (Name_String name) (now - 60 * Second)
          (now + (if ttl <=? 0 then 3600 * Second else ttl))
          [KeyUsageDigitalSignature; KeyUsageKeyEncipherment] [ExtKeyUsageServerAuth; ExtKeyUsageClientAuth]
          false false [Some u] ["localhost"%string]
  | Err ErrCSRMissingURI => csr_URIs <$> csr = Some []
  | Err ErrCSRURIMismatch =>
    exists info, csr = Some info /\ ~ In (Name_String name) (csr_URIs info)
  | Err ErrCSRSignature => csr_sig_ok <$> csr = Some false
  | Err ErrParseCSR => csr = None
  | Err (ErrSerial c) => serial = Err c
  | Err (ErrCreate c) => exists cert key, create cert key = Some c
  | Err _ => False
  end.
Proof.
  intros Hn. unfold Sign. destruct csr as [info|]; [|done].
  destruct (csr_sig_ok info) eqn:Hsig; simpl; [|by rewrite Hsig].
  assert (Hin : hasURI (csr_URIs info) (Name_String name) = true <-> In (Name_String name) (csr_URIs info)).
  { unfold hasURI. rewrite existsb_exists. split.
    - by intros (u & Hu & ->%String.eqb_eq).
    - intros Hu. exists (Name_String name). split; [done|]. apply String.eqb_refl. }
  destruct (hasURI (csr_URIs info) (Name_String name)) eqn:Hu; simpl.
  - destruct serial as [n|c]; [|done].
    destruct (create _ _) as [c|] eqn:Hc; [by eexists _, _|].
    destruct (Name_URL_ok bh name Hn) as (u & Hu' & Hf).
    exists info, u. split_and!; try done; [by apply Hin|]. exists n. split; [done|].
    unfold leaf_template. by rewrite Hu'.
  - destruct (Z.eqb_spec (zlen (csr_URIs info)) 0) as [Hz|Hz].
    + destruct (csr_URIs info); [done|]. rewrite zlen_cons in Hz. pose proof (zlen_nonneg l). lia.
    + exists info. split; [done|]. intros Hc%Hin. done.
Qed.

Lemma Sign_certifies_claimed_name_witness :
  let n := mkName RoleRelay "eu" (uuid_Nil (UUID := uuid16)) "r1" in
  let info := mkCsr "root" ["outrelay://eu/relay/r1"; "outrelay://eu/relay/r2"]%string ["example.com"%string] 5 true in
  exists cert u, Sign no_brackets (Some info) (Ok 9) (fun _ _ => None) 100 0 n = Ok (cert, 5) /\
    CommonName cert = "outrelay://eu/relay/r1"%string /\ URIs cert = [Some u] /\ FromURL u = Ok n /\
    DNSNames cert = ["localhost"%string].
Proof.
  intros n info.
  assert (Hn : name_ok n) by (by repeat split).
  pose proof (Sign_certifies_claimed_name no_brackets (Some info) (Ok 9) (fun _ _ => None) 100 0 n Hn) as H.
  destruct (Sign no_brackets (Some info) (Ok 9) (fun _ _ => None) 100 0 n) as [[cert key]|e] eqn:E.
  - destruct H as (i & u & [= <-] & _ & <- & _ & Hu & m & _ & Hc). exists cert, u. subst cert.
    split; [reflexivity|]. split; [reflexivity|]. split; [reflexivity|]. split; [exact Hu|reflexivity].
  - discriminate E.
Defined.

(** [Sign] on the CSR that [NewCSR] made for the name: the certificate is the leaf
    template for the CSR's key, if the call that creates it succeeds. *)
Lemma Sign_own_csr {UUID} `{UUIDLaws UUID} (bh : string -> option string) (url_String : URL -> string)
    (create : Certificate -> Z -> option Z) (k n now ttl : Z) (name : Name UUID) :
  name_ok name -> (forall u, Name_URL bh name = Some u -> url_String u = Name_String name) ->
  Sign bh (Some (reread url_String (csr_template bh name) k)) (Ok n) create now ttl name =
    let tmpl := leaf_template bh n now (if ttl <=? 0 then DefaultLeafTTL else ttl) name in
    match create tmpl k with Some e => Err (ErrCreate e) | None => Ok (tmpl, k) end.
Proof.
  intros Hn Hp. destruct (Name_URL_ok bh name Hn) as (u & Hu & _).
  unfold Sign, reread, csr_template. simpl. rewrite Hu. simpl.
  rewrite (Hp u Hu). unfold hasURI. simpl. by rewrite String.eqb_refl.
Qed.

(** The CSR an agent makes for its own identity is accepted by the CA: when no
    library call fails, [Sign] certifies the key of the CSR under the agent's name,
    provided [url.URL.String] prints the identity's URL as it was written. *)
Theorem NewCSR_Sign {UUID} `{UUIDLaws UUID} (bh : string -> option string) (url_String : URL -> string)
    (k n now ttl : Z) (name : Name UUID) :
  name_ok name -> (forall u, Name_URL bh name = Some u -> url_String u = Name_String name) ->
  exists tmpl cert,
    NewCSR bh (Ok k) None name = Ok (tmpl, k) /\
    Sign bh (Some (reread url_String tmpl k)) (Ok n) (fun _ _ => None) now ttl name = Ok (cert, k) /\
    CommonName cert = Name_String name.
Proof.
  intros Hn Hp. eexists _, _. split; [reflexivity|]. cbn [fst]. rewrite Sign_own_csr by done. by split.
Qed.

Definition print_url (u : URL) : string := (Scheme u ++ "://" ++ Host u ++ Path u)%string.

Lemma NewCSR_Sign_witness :
  let n := mkName RoleRelay "eu" (uuid_Nil (UUID := uuid16)) "r1" in
  exists tmpl cert, NewCSR no_brackets (Ok 5) None n = Ok (tmpl, 5) /\
    Sign no_brackets (Some (reread print_url tmpl 5)) (Ok 9) (fun _ _ => None) 100 0 n = Ok (cert, 5) /\
    CommonName cert = Name_String n.
Proof.
  apply (NewCSR_Sign no_brackets print_url 5 9 100 0
    (mkName RoleRelay "eu" (uuid_Nil (UUID := uuid16)) "r1")).
  - exact (conj eq_refl (conj eq_refl eq_refl)).
  - intros u Hu. injection Hu as <-. reflexivity.
Defined.
