(* ===== verification/Transport.v ===== *)
(** * Transports: lib/transport/conn.go, quic.go, tcp.go

    The configuration helpers and the connection set-up paths of both carriers,
    with the outcome of each library call as an argument, and the goroutine plus
    select that [yamuxConn.AcceptStream] and [OpenStream] use to make a blocking
    library call cancellable, as a step relation.  quic-go, yamux and the
    sockets are not part of the repository. *)

From Stdlib Require Import ZArith Lia.
From stdpp Require Import base tactics list strings gmap relations.
From S2P Require Import Prelude Observe.

Local Open Scope Z_scope.

Definition ALPN : string := "orp/1".
Definition DefaultMaxIdleTimeout : Z := 10 * Second.
Definition DefaultKeepAlivePeriod : Z := 3 * Second.

Section Config.
(** The fields the package does not look at. *)
Context {QOther TOther : Type} (zero_other : QOther).

Record quic_Config := mkQConf { MaxIdleTimeout : Z; KeepAlivePeriod : Z; q_other : QOther }.

Definition withDefaults (qcfg : option quic_Config) : quic_Config :=
  let cfg := default (mkQConf 0 0 zero_other) qcfg in
  mkQConf (if MaxIdleTimeout cfg =? 0 then DefaultMaxIdleTimeout else MaxIdleTimeout cfg)
    (if KeepAlivePeriod cfg =? 0 then DefaultKeepAlivePeriod else KeepAlivePeriod cfg)
    (q_other cfg).

Record tls_Config := mkTConf { NextProtos : list string; t_other : TOther }.

Definition ensureALPN (c : tls_Config) : tls_Config :=
  if existsb (String.eqb ALPN) (NextProtos c) then c
  else mkTConf (NextProtos c ++ [ALPN]) (t_other c).

Inductive dial_err :=
| ErrTLSRequired
| ErrResolve (code : Z)
| ErrDial (code : Z)
| ErrHandshake (code : Z)
| ErrYamux (code : Z)
| ErrListen (code : Z)
| ErrAccept (code : Z)
| ErrContext.

(** QUIC: the library call gets the completed configurations. *)
Definition DialQUIC {C} (dial : tls_Config -> quic_Config -> res Z C)
    (tlsConf : option tls_Config) (qcfg : option quic_Config) : res dial_err C :=
  match tlsConf with
  | None => Err ErrTLSRequired
  | Some t =>
    match dial (ensureALPN t) (withDefaults qcfg) with
    | Ok c => Ok c
    | Err e => Err (ErrDial e)
    end
  end.

Definition ListenQUIC {L} (listen : tls_Config -> quic_Config -> res Z L)
    (tlsConf : option tls_Config) (qcfg : option quic_Config) : res dial_err L :=
  match tlsConf with
  | None => Err ErrTLSRequired
  | Some t =>
    match listen (ensureALPN t) (withDefaults qcfg) with
    | Ok l => Ok l
    | Err e => Err (ErrListen e)
    end
  end.

(** [SharedTransport.Dial] and [Listen] on the shared socket. *)
Definition Shared_Dial {C} (resolve : res Z Z) (dial : Z -> tls_Config -> quic_Config -> res Z C)
    (tlsConf : option tls_Config) (qcfg : option quic_Config) : res dial_err C :=
  match tlsConf with
  | None => Err ErrTLSRequired
  | Some t =>
    match resolve with
    | Err e => Err (ErrResolve e)
    | Ok addr =>
      match dial addr (ensureALPN t) (withDefaults qcfg) with
      | Ok c => Ok c
      | Err e => Err (ErrDial e)
      end
    end
  end.

Definition Shared_Listen {L} (listen : tls_Config -> quic_Config -> res Z L)
    (tlsConf : option tls_Config) (qcfg : option quic_Config) : res dial_err L :=
  ListenQUIC listen tlsConf qcfg.

(** TCP: what the set-up leaves open or closes.  [Raw] is the TCP socket, [Tls]
    the TLS connection over it (closing it closes the socket). *)
Inductive handle := Raw | Tls.

Definition DialTCP (tcp : option Z) (handshake : tls_Config -> option Z) (yamux : option Z)
    (tlsConf : option tls_Config) : res dial_err handle * list handle :=
  match tlsConf with
  | None => (Err ErrTLSRequired, [])
  | Some t =>
    let t := ensureALPN t in
    match tcp with
    | Some e => (Err (ErrDial e), [])
    | None =>
      match handshake t with
      | Some e => (Err (ErrHandshake e), [Raw])
      | None =>
        match yamux with
        | Some e => (Err (ErrYamux e), [Tls])
        | None => (Ok Tls, [])
        end
      end
    end
  end.

Definition ListenTCP {L} (listen : res Z L) (tlsConf : option tls_Config)
  : res dial_err (L * tls_Config) :=
  match tlsConf with
  | None => Err ErrTLSRequired
  | Some t =>
    match listen with
    | Err e => Err (ErrListen e)
    | Ok l => Ok (l, ensureALPN t)
    end
  end.
(** The listener: its socket, open or closed, and the completed configuration.
    [net.Listener.Accept] fails with [net.ErrClosed] once it is closed. *)
Record yamuxListener := mkListener { ln_open : bool; ln_tlsConf : tls_Config }.

Definition net_ErrClosed : Z := 0.

Definition Listener_Close (l : yamuxListener) : yamuxListener := mkListener false (ln_tlsConf l).

(** The goroutine of [Accept]: the result it puts into the channel, and what it
    closed; [raw], [handshake] and [yamux] are the outcomes of its calls. *)
Definition accept_goroutine (raw : option Z) (handshake : tls_Config -> option Z) (yamux : option Z)
    (l : yamuxListener) : res dial_err handle * list handle :=
  match (if ln_open l then raw else Some net_ErrClosed) with
  | Some e => (Err (ErrAccept e), [])
  | None =>
    match handshake (ln_tlsConf l) with
    | Some e => (Err (ErrHandshake e), [Raw])
    | None =>
      match yamux with
      | Some e => (Err (ErrYamux e), [Tls])
      | None => (Ok Tls, [])
      end
    end
  end.

(** One [Accept] call: the select takes the goroutine's result or, when
    [cancelled], the ended context; then the listener is closed and whatever the
    goroutine produces stays in the channel (third component). *)
Record accept_call := mkAccept {
  ac_raw : option Z;
  ac_handshake : tls_Config -> option Z;
  ac_yamux : option Z;
  ac_cancelled : bool
}.

Definition Accept (a : accept_call) (l : yamuxListener)
  : res dial_err handle * list handle * option handle * yamuxListener :=
  let '(r, closed) := accept_goroutine (ac_raw a) (ac_handshake a) (ac_yamux a) l in
  if ac_cancelled a
  then (Err ErrContext, closed, match r with Ok h => Some h | Err _ => None end, Listener_Close l)
  else (r, closed, None, l).

(** A sequence of calls: their results. *)
Fixpoint accept_all (calls : list accept_call) (l : yamuxListener) : list (res dial_err handle) :=
  match calls with
  | [] => []
  | a :: calls' => let '(r, _, _, l') := Accept a l in r :: accept_all calls' l'
  end.
End Config.
Arguments quic_Config : clear implicits.
Arguments tls_Config : clear implicits.

(** ** AcceptStream of the yamux connection

    A call starts a goroutine that blocks in the session's accept and puts the
    result, a stream or the session's error, into a one-slot channel, and waits
    for the channel or its context.  A call that leaves by its context abandons
    the goroutine.  The session may fail an accept at any time. *)
Inductive acall :=
| Waiting                      (* goroutine blocked, caller in select *)
| Ready (r : res Z Z)          (* result in the channel, caller in select *)
| Returned (r : res Z Z)       (* the caller returned the stream or the error *)
| Cancelled                    (* the caller returned ctx.Err, goroutine still blocked *)
| Stranded (r : res Z Z).      (* the caller returned ctx.Err, result in the channel *)

Record session := mkSess { se_queue : list Z; se_calls : gmap Z acall }.

Definition new_session : session := mkSess [] ∅.

Inductive se_step : session -> session -> Prop :=
| Step_arrive q cs s :
    se_step (mkSess q cs) (mkSess (q ++ [s]) cs)
| Step_call q cs k :
    cs !! k = None -> se_step (mkSess q cs) (mkSess q (<[k := Waiting]> cs))
| Step_take_waiting q cs k s :
    cs !! k = Some Waiting -> se_step (mkSess (s :: q) cs) (mkSess q (<[k := Ready (Ok s)]> cs))
| Step_take_cancelled q cs k s :
    cs !! k = Some Cancelled -> se_step (mkSess (s :: q) cs) (mkSess q (<[k := Stranded (Ok s)]> cs))
| Step_fail_waiting q cs k e :
    cs !! k = Some Waiting -> se_step (mkSess q cs) (mkSess q (<[k := Ready (Err e)]> cs))
| Step_fail_cancelled q cs k e :
    cs !! k = Some Cancelled -> se_step (mkSess q cs) (mkSess q (<[k := Stranded (Err e)]> cs))
| Step_return q cs k r :
    cs !! k = Some (Ready r) -> se_step (mkSess q cs) (mkSess q (<[k := Returned r]> cs))
| Step_cancel_waiting q cs k :
    cs !! k = Some Waiting -> se_step (mkSess q cs) (mkSess q (<[k := Cancelled]> cs))
| Step_cancel_ready q cs k r :
    cs !! k = Some (Ready r) -> se_step (mkSess q cs) (mkSess q (<[k := Stranded r]> cs)).

(** Where a stream is held. *)
Definition holds (c : acall) (s : Z) : Prop :=
  c = Ready (Ok s) \/ c = Returned (Ok s) \/ c = Stranded (Ok s).

(** Streams are distinct: the peer numbers them. *)
Definition fresh_arrivals (x : session) : Prop :=
  NoDup (se_queue x) /\
  (forall k c s, se_calls x !! k = Some c -> holds c s -> ~ s ∈ se_queue x) /\
  (forall k1 k2 c1 c2 s, se_calls x !! k1 = Some c1 -> se_calls x !! k2 = Some c2 ->
     holds c1 s -> holds c2 s -> k1 = k2).

(** A step whose arrival, if it is one, is a stream not seen before. *)
Inductive good_step : session -> session -> Prop :=
| good_arrive q cs s :
    ~ s ∈ q -> (forall k c, cs !! k = Some c -> ~ holds c s) ->
    good_step (mkSess q cs) (mkSess (q ++ [s]) cs)
| good_other x y :
    se_step x y -> se_queue y = se_queue x \/ (exists s, se_queue x = s :: se_queue y) ->
    good_step x y.

(** ** Lemmas *)
Lemma fresh_update q q' cs k c c' :
  fresh_arrivals (mkSess q cs) -> cs !! k = Some c ->
  (forall s, holds c' s -> holds c s) -> NoDup q' -> (forall s, s ∈ q' -> s ∈ q) ->
  fresh_arrivals (mkSess q' (<[k := c']> cs)).
Proof.
  intros (Hnd & Hq & Hu) Hk Hh Hnd' Hsub. unfold fresh_arrivals. simpl in *.
  assert (Hold : forall k0 c0 s, <[k := c']> cs !! k0 = Some c0 -> holds c0 s ->
    exists c1, cs !! k0 = Some c1 /\ holds c1 s).
  { intros k0 c0 s. destruct (decide (k0 = k)) as [->|].
    - rewrite lookup_insert_eq. intros [= <-] H0. eauto.
    - rewrite lookup_insert_ne by done. eauto. }
  split_and!; [done| |].
  - intros k0 c0 s H0 H1 Hin. destruct (Hold _ _ _ H0 H1) as (c1 & H2 & H3).
    by apply (Hq _ _ _ H2 H3), Hsub.
  - intros k1 k2 c1 c2 s H1 H2 H3 H4.
    destruct (Hold _ _ _ H1 H3) as (d1 & ? & ?), (Hold _ _ _ H2 H4) as (d2 & ? & ?).
    by eapply Hu.
Qed.

(** The goroutine of [k] moves the head of the queue into its channel. *)
Lemma fresh_take s q cs k c c' :
  fresh_arrivals (mkSess (s :: q) cs) -> cs !! k = Some c -> (forall s', ~ holds c s') ->
  (forall s', holds c' s' -> s' = s) -> fresh_arrivals (mkSess q (<[k := c']> cs)).
Proof.
  intros (Hnd & Hq & Hu) Hk Hc Hc'. apply NoDup_cons in Hnd as [Hs Hnd]. unfold fresh_arrivals.
  simpl in *. split_and!; [done| |].
  - intros k0 c0 s0. destruct (decide (k0 = k)) as [->|].
    + rewrite lookup_insert_eq. intros [= <-] ->%Hc'. done.
    + rewrite lookup_insert_ne by done. intros H0 H1 Hin. apply (Hq _ _ _ H0 H1). by right.
  - intros k1 k2 c1 c2 s0. destruct (decide (k1 = k)) as [->|], (decide (k2 = k)) as [->|]; try done;
      rewrite ?lookup_insert_eq, ?lookup_insert_ne by done; intros H1 H2 H3 H4; simplify_eq.
    + apply Hc' in H3 as ->. exfalso. apply (Hq _ _ _ H2 H4). by left.
    + apply Hc' in H4 as ->. exfalso. apply (Hq _ _ _ H1 H3). by left.
    + by eapply Hu.
Qed.

Lemma good_step_fresh x y : good_step x y -> fresh_arrivals x -> fresh_arrivals y.
Proof.
  intros [q cs s Hs Hc|x' y' Hstep Hq] Hf.
  - destruct Hf as (Hnd & Hq & Hu). simpl in *. split_and!; simpl.
    + apply NoDup_app. split; [done|]. split; [|apply NoDup_singleton].
      intros z Hz ->%list_elem_of_singleton. done.
    + intros k c s' H1 H2 [Hin|Hin%list_elem_of_singleton]%elem_of_app.
      * by apply (Hq _ _ _ H1 H2).
      * subst. by apply (Hc _ _ H1).
    + done.
  - destruct Hstep as [q cs s|q cs k Hk|q cs k s Hk|q cs k s Hk|q cs k e Hk|q cs k e Hk|q cs k r Hk
      |q cs k Hk|q cs k r Hk]; simpl in *.
    + destruct Hq as [Hq|[s' Hq]]; apply (f_equal length) in Hq; rewrite ?length_app in Hq; simpl in Hq;
        rewrite ?length_app in Hq; simpl in Hq; lia.
    + destruct Hf as (Hnd & Hq' & Hu). split_and!; simpl; [done| |].
      * intros k0 c0 s0. destruct (decide (k0 = k)) as [->|].
        -- rewrite lookup_insert_eq. intros [= <-] [?|[?|?]]; done.
        -- rewrite lookup_insert_ne by done. by apply Hq'.
      * intros k1 k2 c1 c2 s0. destruct (decide (k1 = k)) as [->|], (decide (k2 = k)) as [->|]; try done;
          rewrite ?lookup_insert_eq, ?lookup_insert_ne by done; intros H1 H2 H3 H4; simplify_eq.
        -- by destruct H3 as [?|[?|?]].
        -- by destruct H4 as [?|[?|?]].
        -- by eapply Hu.
    + eapply fresh_take; [done|done|by intros ? [?|[?|?]]|].
      intros s' [?|[?|?]]; congruence.
    + eapply fresh_take; [done|done|by intros ? [?|[?|?]]|].
      intros s' [?|[?|?]]; congruence.
    + eapply fresh_update; [done|done| |apply Hf|done]. by intros s' [?|[?|?]].
    + eapply fresh_update; [done|done| |apply Hf|done]. by intros s' [?|[?|?]].
    + eapply fresh_update; [done|done| |apply Hf|done].
      intros s' [?|[?|?]]; simplify_eq; by left.
    + eapply fresh_update; [done|done| |apply Hf|done]. by intros s' [?|[?|?]].
    + eapply fresh_update; [done|done| |apply Hf|done].
      intros s' [?|[?|?]]; simplify_eq; by left.
Qed.

Lemma good_steps_fresh x y : rtc good_step x y -> fresh_arrivals x -> fresh_arrivals y.
Proof. induction 1 as [|? ? ? Hs _ IH]; [done|]. intros Hf. apply IH. by eapply good_step_fresh. Qed.

Lemma new_session_fresh : fresh_arrivals new_session.
Proof. split_and!; simpl; [constructor|intros ? ? ? H; by rewrite lookup_empty in H|intros ? ? ? ? ? H; by rewrite lookup_empty in H]. Qed.

(** A stranded result stays where it is. *)
Lemma stranded_stays x y k r :
  rtc good_step x y -> se_calls x !! k = Some (Stranded r) -> se_calls y !! k = Some (Stranded r).
Proof.
  induction 1 as [|x y z Hstep _ IH]; [done|]. intros Hk. apply IH.
  destruct Hstep as [q cs s' _ _|x' y' Hstep _]; [done|].
  destruct Hstep; simpl in *; try done;
    (rewrite lookup_insert_ne; [done|congruence]).
Qed.

(** A reachable session with one cancelled call and one stream waiting. *)
Lemma cancelled_then_arrives :
  rtc good_step new_session (mkSess [7] (<[1 := Cancelled]> (<[1 := Waiting]> ∅))).
Proof.
  eapply rtc_l; [apply good_other; [apply Step_call with (k := 1); reflexivity|by left]|].
  eapply rtc_l; [apply good_other; [apply Step_cancel_waiting with (k := 1); reflexivity|by left]|].
  eapply rtc_l; [|apply rtc_refl].
  apply (good_arrive []); [apply not_elem_of_nil|]. intros k' c'.
  destruct (decide (k' = 1)) as [->|].
  - rewrite lookup_insert_eq. intros [= <-] [?|[?|?]]; done.
  - rewrite !lookup_insert_ne by done. by rewrite lookup_empty.
Qed.

(** ** Properties *)

(** A stream the peer opens is handed to at most one [AcceptStream] call, over
    all interleavings of arrivals, calls, accepts, failures, returns and
    cancellations. *)
Theorem accept_delivers_once (x : session) (k1 k2 s : Z) :
  rtc good_step new_session x ->
  se_calls x !! k1 = Some (Returned (Ok s)) -> se_calls x !! k2 = Some (Returned (Ok s)) -> k1 = k2.
Proof.
  intros Hr H1 H2. destruct (good_steps_fresh _ _ Hr new_session_fresh) as (_ & _ & Hu).
  eapply Hu; [exact H1|exact H2|right; by left|right; by left].
Qed.

Lemma accept_delivers_once_witness :
  exists x, se_calls x !! 1 = Some (Returned (Ok 7)) /\ 1 = 1.
Proof.
  pose (x := mkSess [] (<[1 := Returned (Ok 7)]> (<[1 := Ready (Ok 7)]> (<[1 := Waiting]> ∅)))).
  exists x. split; [reflexivity|].
  apply (accept_delivers_once x 1 1 7); [|reflexivity|reflexivity].
  eapply rtc_l; [apply good_arrive with (s := 7); [apply not_elem_of_nil|intros k c Hk; discriminate Hk]|].
  eapply rtc_l; [apply good_other; [apply Step_call with (k := 1); reflexivity|left; reflexivity]|].
  eapply rtc_l; [apply good_other; [apply Step_take_waiting with (k := 1); reflexivity|
    right; eexists; reflexivity]|].
  eapply rtc_l; [apply good_other; [apply Step_return with (k := 1); reflexivity|left; reflexivity]|].
  apply rtc_refl.
Defined.

(** C38. A cancelled [AcceptStream] can swallow a stream: in every reachable session
    with a cancelled call and a stream waiting, the abandoned goroutine may take the
    stream, and then no call, present or later, ever returns it, whatever happens
    afterwards. *)
Theorem cancelled_accept_swallows_stream (x : session) (k s : Z) (q : list Z) :
  rtc good_step new_session x -> se_calls x !! k = Some Cancelled -> se_queue x = s :: q ->
  exists x', good_step x x' /\
  forall y, rtc good_step x' y ->
    ~ s ∈ se_queue y /\ forall k', se_calls y !! k' <> Some (Returned (Ok s)).
Proof.
  intros Hr Hk Hs. destruct x as [q0 cs]. simpl in *. subst q0.
  assert (Hstep : good_step (mkSess (s :: q) cs) (mkSess q (<[k := Stranded (Ok s)]> cs))).
  { apply good_other; [by apply Step_take_cancelled|right; by eexists]. }
  eexists. split; [exact Hstep|]. intros y Hy.
  assert (Hky : se_calls y !! k = Some (Stranded (Ok s))).
  { eapply stranded_stays; [exact Hy|]. simpl. by rewrite lookup_insert_eq. }
  destruct (good_steps_fresh new_session y) as (_ & Hq & Hu); [|apply new_session_fresh|].
  { eapply rtc_trans; [exact Hr|]. by eapply rtc_l. }
  assert (Hh : holds (Stranded (Ok s)) s) by (right; by right). split.
  - by apply (Hq k _ s Hky).
  - intros k' Hk'. assert (k = k') as <- by (eapply Hu; [exact Hky|exact Hk'|done|right; by left]).
    congruence.
Qed.

Lemma cancelled_accept_swallows_stream_witness :
  exists x', good_step (mkSess [7] (<[1 := Cancelled]> (<[1 := Waiting]> ∅))) x' /\
  forall y, rtc good_step x' y ->
    ~ 7 ∈ se_queue y /\ forall k', se_calls y !! k' <> Some (Returned (Ok 7)).
Proof.
  exact (cancelled_accept_swallows_stream (mkSess [7] (<[1 := Cancelled]> (<[1 := Waiting]> ∅))) 1 7 []
    cancelled_then_arrives eq_refl eq_refl).
Defined.

(** Configurations: the ALPN identifier is always offered, exactly once if the
    caller had it at most once, with the caller's other protocols and their order
    kept; explicit QUIC timeouts are kept and zero ones get the defaults, and both
    fill-ins are idempotent. *)
Theorem config_defaults {Q T} (zero : Q) (q : option (quic_Config Q)) (c : tls_Config T) :
  let c' := ensureALPN c in
  let q' := withDefaults zero q in
  In ALPN (NextProtos c') /\ (exists l, NextProtos c' = NextProtos c ++ l /\ (l = [] \/ l = [ALPN])) /\
  (NoDup (NextProtos c) -> NoDup (NextProtos c')) /\ ensureALPN c' = c' /\
  MaxIdleTimeout q' <> 0 /\ KeepAlivePeriod q' <> 0 /\ withDefaults zero (Some q') = q' /\
  (forall q0, q = Some q0 -> MaxIdleTimeout q0 <> 0 -> MaxIdleTimeout q' = MaxIdleTimeout q0).
Proof.
  intros c' q'.
  assert (Hin : forall c0 : tls_Config T, existsb (String.eqb ALPN) (NextProtos c0) = true <-> In ALPN (NextProtos c0)).
  { intros c0. rewrite existsb_exists. split.
    - by intros (x & Hx & ->%String.eqb_eq).
    - intros Hx. exists ALPN. split; [done|]. apply String.eqb_refl. }
  assert (Ha : In ALPN (NextProtos c')).
  { unfold c', ensureALPN. destruct (existsb _ _) eqn:E; [by apply Hin|].
    simpl. apply in_or_app. right. by left. }
  assert (Hq1 : MaxIdleTimeout q' <> 0).
  { unfold q', withDefaults. simpl. zcase; [done|done]. }
  assert (Hq2 : KeepAlivePeriod q' <> 0).
  { unfold q', withDefaults. simpl. destruct (Z.eqb_spec (KeepAlivePeriod (default (mkQConf 0 0 zero) q)) 0); done. }
  split_and!; try done.
  - unfold c', ensureALPN. destruct (existsb _ _).
    + exists []. rewrite app_nil_r. by split; [|left].
    + exists [ALPN]. by split; [|right].
  - intros Hnd. unfold c', ensureALPN. destruct (existsb _ _) eqn:E; [done|]. simpl.
    apply NoDup_app. split; [done|]. split; [|apply NoDup_singleton].
    intros x Hx ->%list_elem_of_singleton. apply list_elem_of_In, Hin in Hx. congruence.
  - unfold ensureALPN at 1. apply Hin in Ha. by rewrite Ha.
  - clearbody q'. destruct q' as [a b o]. unfold withDefaults. simpl in *.
    by destruct (Z.eqb_spec a 0), (Z.eqb_spec b 0).
  - intros q0 -> Hne. unfold q', withDefaults. simpl. by destruct (Z.eqb_spec (MaxIdleTimeout q0) 0).
Qed.

(** The TCP set-up never leaks a socket: on every failure after the TCP
    connection exists exactly one close releases it, on success nothing is closed,
    and the handshake always runs with the ALPN identifier offered. *)
Theorem DialTCP_no_leak {T} (tcp yamux : option Z) (handshake : tls_Config T -> option Z)
    (tlsConf : option (tls_Config T)) :
  match DialTCP tcp handshake yamux tlsConf with
  | (Ok _, closed) => closed = [] /\ tcp = None
  | (Err ErrTLSRequired, closed) => closed = [] /\ tlsConf = None
  | (Err (ErrDial e), closed) => closed = [] /\ tcp = Some e
  | (Err (ErrHandshake e), closed) =>
    closed = [Raw] /\ exists t, handshake t = Some e /\ In ALPN (NextProtos t)
  | (Err (ErrYamux e), closed) => closed = [Tls] /\ yamux = Some e
  | (Err _, _) => False
  end.
Proof.
  unfold DialTCP. destruct tlsConf as [t|]; [|done]. destruct tcp as [e|]; [done|].
  destruct (handshake (ensureALPN t)) as [e|] eqn:Hh.
  - split; [done|]. exists (ensureALPN t). split; [done|]. unfold ensureALPN.
    destruct (existsb _ _) eqn:E.
    + by apply existsb_exists in E as (x & Hx & ->%String.eqb_eq).
    + simpl. apply in_or_app. right. by left.
  - by destruct yamux.
Qed.

Lemma accept_all_closed {T} (calls : list (accept_call (TOther := T))) l :
  ln_open l = false ->
  Forall (fun r => r = Err (ErrAccept net_ErrClosed) \/ r = Err ErrContext) (accept_all calls l).
Proof.
  revert l. induction calls as [|a calls IH]; intros l Hl; simpl; [constructor|].
  unfold Accept, accept_goroutine. rewrite Hl.
  destruct (ac_cancelled a); constructor; auto.
Qed.

(** Cancelling one [Accept] ends the listener: the call reports the ended context,
    and no later call on the listener ever returns a connection, whatever peers
    connect.  A connection that the goroutine completed before it noticed is left
    open in the channel, never closed and never returned. *)
Theorem cancelled_Accept_closes_listener {T} (a : accept_call (TOther := T))
    (calls : list (accept_call (TOther := T))) (l : yamuxListener (TOther := T)) :
  ac_cancelled a = true ->
  let '(r, closed, kept, l') := Accept a l in
  r = Err ErrContext /\ ln_open l' = false /\
  (forall h, kept = Some h -> closed = []) /\
  Forall (fun r => r = Err (ErrAccept net_ErrClosed) \/ r = Err ErrContext) (accept_all calls l').
Proof.
  intros Hc. unfold Accept, accept_goroutine. rewrite Hc.
  assert (Hrest : Forall (fun r => r = Err (ErrAccept net_ErrClosed) \/ r = Err ErrContext)
    (accept_all calls (Listener_Close l))) by by apply accept_all_closed.
  destruct (if ln_open l then ac_raw a else _) as [e|]; [by split_and!|].
  destruct (ac_handshake a (ln_tlsConf l)); [by split_and!|].
  destruct (ac_yamux a); by split_and!.
Qed.

Lemma cancelled_Accept_closes_listener_witness :
  let l := mkListener true (mkTConf [ALPN] tt) in
  let a := mkAccept None (fun _ => None) None true in
  Accept a l = (Err ErrContext, [], Some Tls, mkListener false (mkTConf [ALPN] tt)) /\
  Forall (fun r => r = Err (ErrAccept net_ErrClosed) \/ r = Err ErrContext)
    (accept_all [mkAccept None (fun _ => None) None false] (mkListener false (mkTConf [ALPN] tt))).
Proof.
  split; [reflexivity|].
  exact (proj2 (proj2 (proj2 (cancelled_Accept_closes_listener (mkAccept None (fun _ => None) None true)
    [mkAccept None (fun _ => None) None false] (mkListener true (mkTConf [ALPN] tt)) eq_refl)))).
Defined.
