(* ===== verification/Carrier.v ===== *)
(** * Carriers behind interfaces: lib/transport/conn.go and the wrappers of quic.go, tcp.go

    [Dialer] and [Stream] are the package's interfaces, with laws their callers rely
    on; the QUIC, the shared-socket and the TCP dialer, and the streams of both
    carriers, implement them.  quic-go, yamux and the sockets are arguments.  The last
    part is [yamuxConn.OpenStream], whose goroutine outlives a cancelled call. *)

From Stdlib Require Import ZArith Lia Strings.Byte.
From stdpp Require Import base tactics list strings gmap sets relations.
From S2P Require Import Prelude Observe Transport.

Local Open Scope Z_scope.

(** ** Dialing *)
Section Dialers.
Context {QOther TOther : Type} (zero_other : QOther).

(** What a dialer asks the network for, in order. *)
Inductive net_call :=
| NetResolve (addr : string)
| NetQUIC (addr : string) (t : tls_Config TOther) (q : quic_Config QOther)
| NetQUICFrom (addr : Z) (t : tls_Config TOther) (q : quic_Config QOther)
| NetTCP (addr : string)
| NetTLS (t : tls_Config TOther)
| NetYamux (keepalive : bool).

(** The network's answers. *)
Record network := mkNetwork {
  nw_resolve : string -> res Z Z;
  nw_quic : string -> tls_Config TOther -> quic_Config QOther -> res Z Z;
  nw_quic_from : Z -> tls_Config TOther -> quic_Config QOther -> res Z Z;
  nw_tcp : string -> option Z;
  nw_tls : tls_Config TOther -> option Z;
  nw_yamux : option Z
}.

Inductive carrier := QuicConn (c : Z) | YamuxConn.

(** [Dialer]: the connection or the error, and the calls made. *)
Class Dialer (D : Type) :=
  Dial : D -> network -> string -> option (tls_Config TOther) -> option (quic_Config QOther) ->
    res dial_err carrier * list net_call.

(** [yamuxConfig]: the defaults, without keepalive. *)
Definition yamux_EnableKeepAlive : bool := false.

Record DefaultDialer := mkDefaultDialer {}.
Record TCPDialer := mkTCPDialer {}.

(** [SharedTransport]: the bound socket. *)
Record SharedTransport := mkShared { st_socket : Z }.

Definition NewSharedTransport (resolve : res Z Z) (bind : Z -> res Z Z) : res dial_err SharedTransport :=
  match resolve with
  | Err e => Err (ErrResolve e)
  | Ok addr => match bind addr with Err e => Err (ErrListen e) | Ok s => Ok (mkShared s) end
  end.

Definition carry {C} (k : C -> carrier) (r : res dial_err C) : res dial_err carrier :=
  match r with Ok c => Ok (k c) | Err e => Err e end.

#[export] Instance default_dialer : Dialer DefaultDialer := fun _ nw addr tlsConf qcfg =>
  (carry QuicConn (DialQUIC zero_other (nw_quic nw addr) tlsConf qcfg),
   match tlsConf with
   | None => []
   | Some t => [NetQUIC addr (ensureALPN t) (withDefaults zero_other qcfg)]
   end).

#[export] Instance shared_dialer : Dialer SharedTransport := fun _ nw addr tlsConf qcfg =>
  (carry QuicConn (Shared_Dial zero_other (nw_resolve nw addr) (nw_quic_from nw) tlsConf qcfg),
   match tlsConf with
   | None => []
   | Some t =>
     NetResolve addr ::
     match nw_resolve nw addr with
     | Err _ => []
     | Ok a => [NetQUICFrom a (ensureALPN t) (withDefaults zero_other qcfg)]
     end
   end).

(** The QUIC configuration is ignored. *)
#[export] Instance tcp_dialer : Dialer TCPDialer := fun _ nw addr tlsConf _ =>
  (carry (fun _ => YamuxConn) (fst (DialTCP (nw_tcp nw addr) (nw_tls nw) (nw_yamux nw) tlsConf)),
   match tlsConf with
   | None => []
   | Some t =>
     NetTCP addr ::
     match nw_tcp nw addr with
     | Some _ => []
     | None =>
       NetTLS (ensureALPN t) ::
       match nw_tls nw (ensureALPN t) with
       | Some _ => []
       | None => [NetYamux yamux_EnableKeepAlive]
       end
     end
   end).

(** The TLS configuration of a call that does a handshake. *)
Definition handshake_conf (c : net_call) : option (tls_Config TOther) :=
  match c with NetQUIC _ t _ | NetQUICFrom _ t _ | NetTLS t => Some t | _ => None end.

(** What every dialer promises: no network without a TLS configuration; a connection
    only after exactly one handshake, which offers the protocols of the caller and
    ORP's. *)
Class DialerLaws (D : Type) `{Dialer D} := {
  dial_no_tls : forall d nw addr q, Dial d nw addr None q = (Err ErrTLSRequired, []);
  dial_handshakes : forall d nw addr t q,
    Forall (fun c => c = ensureALPN t) (omap handshake_conf (snd (Dial d nw addr (Some t) q)));
  dial_ok : forall d nw addr t q c calls, Dial d nw addr (Some t) q = (Ok c, calls) ->
    omap handshake_conf calls = [ensureALPN t]
}.

#[export] Instance default_dialer_laws : DialerLaws DefaultDialer.
Proof. split; [done|intros; by repeat constructor|]. by intros d nw addr t q c calls [= _ <-]. Qed.

#[export] Instance shared_dialer_laws : DialerLaws SharedTransport.
Proof.
  split; [done| |]; intros d nw addr t q; unfold Dial, shared_dialer, Shared_Dial;
    destruct (nw_resolve nw addr); try by repeat constructor. by intros c calls [= _ <-].
Qed.

#[export] Instance tcp_dialer_laws : DialerLaws TCPDialer.
Proof.
  split; [done| |]; intros d nw addr t q; unfold Dial, tcp_dialer, DialTCP; destruct (nw_tcp nw addr);
    try by repeat constructor. all: destruct (nw_tls nw _); try by repeat constructor.
  destruct (nw_yamux nw); [done|]. by intros c calls [= _ <-].
Qed.
End Dialers.

Lemma ensureALPN_protos {T} (t : tls_Config T) :
  In ALPN (NextProtos (ensureALPN t)) /\ exists l, NextProtos (ensureALPN t) = NextProtos t ++ l.
Proof.
  unfold ensureALPN. destruct (existsb (String.eqb ALPN) (NextProtos t)) eqn:E; simpl.
  - split; [|exists []; by rewrite app_nil_r]. by apply existsb_exists in E as (x & Hx & ->%String.eqb_eq).
  - split; [apply in_or_app; right; by left|by eexists].
Qed.

(** ** Streams *)

(** The two libraries' streams: reads and writes succeed or not, and the state they
    leave. *)
Class QuicStream (Q : Type) := {
  q_Read : Q -> res Z (list byte) * Q;
  q_Write : list byte -> Q -> res Z Z * Q;
  q_Close : Q -> Q;
  q_CancelRead : Z -> Q -> Q;
  q_StreamID : Q -> Z
}.

Class YamuxStream (Y : Type) := {
  y_Read : Y -> res Z (list byte) * Y;
  y_Write : list byte -> Y -> res Z Z * Y;
  y_Close : Y -> Y;
  y_StreamID : Y -> Z
}.

(** [Stream] of conn.go; [CloseWrite] is what a type assertion finds, if anything. *)
Class Stream (S : Type) := {
  Read : S -> res Z (list byte) * S;
  Write : list byte -> S -> res Z Z * S;
  Close : S -> S;
  StreamID : S -> Z;
  CancelRead : Z -> S -> S;
  CloseWrite : option (S -> S)
}.

#[export] Instance quicStream {Q} `{QuicStream Q} : Stream Q := {
  Read := q_Read;
  Write := q_Write;
  Close := q_Close;
  StreamID s := u64 (q_StreamID s);
  CancelRead code s := q_CancelRead code s;
  CloseWrite := Some q_Close
}.

#[export] Instance yamuxStream {Y} `{YamuxStream Y} : Stream Y := {
  Read := y_Read;
  Write := y_Write;
  Close := y_Close;
  StreamID s := u64 (y_StreamID s);
  CancelRead _ s := y_Close s;
  CloseWrite := None
}.

Definition read_fails {S} `{Stream S} (s : S) : Prop := exists e s', Read s = (Err e, s').
Definition write_fails {S} `{Stream S} (s : S) : Prop := forall b, exists e s', Write b s = (Err e, s').

(** What the comment on [CancelRead] promises, and the optional half-close. *)
Class StreamLaws (S : Type) `{Stream S} := {
  cancel_stops_reads : forall code s, read_fails (CancelRead code s);
  closewrite_stops_writes : forall cw s, CloseWrite = Some cw -> write_fails (cw s)
}.

(** The libraries as their documentation and the comments of tcp.go describe them:
    quic-go's [Close] ends the write side only and [CancelRead] the read side only;
    yamux has one [Close] for both sides. *)
Class QuicStreamLaws (Q : Type) `{QuicStream Q} := {
  q_cancel_read : forall code s, exists e s', q_Read (q_CancelRead code s) = (Err e, s');
  q_cancel_write : forall code s b, fst (q_Write b (q_CancelRead code s)) = fst (q_Write b s);
  q_close_write : forall s b, exists e s', q_Write b (q_Close s) = (Err e, s')
}.

Class YamuxStreamLaws (Y : Type) `{YamuxStream Y} := {
  y_close_read : forall s, exists e s', y_Read (y_Close s) = (Err e, s');
  y_close_write : forall s b, exists e s', y_Write b (y_Close s) = (Err e, s')
}.

#[export] Instance quicStream_laws {Q} `{QuicStreamLaws Q} : StreamLaws Q.
Proof.
  split; simpl.
  - intros code s. apply q_cancel_read.
  - intros cw s [= <-] b. apply q_close_write.
Qed.

#[export] Instance yamuxStream_laws {Y} `{YamuxStreamLaws Y} : StreamLaws Y.
Proof.
  split; simpl; [|done]. intros code s. apply y_close_read.
Qed.

(** ** OpenStream of the yamux connection

    A call starts a goroutine in the session's [OpenStream], which opens the stream and
    puts it into a one-slot channel, and waits for the channel or its context.  The
    call states are those of [AcceptStream]; [os_open] are the session's open streams. *)
Record opener := mkOpener { os_next : Z; os_open : gset Z; os_calls : gmap Z acall }.

Definition new_opener : opener := mkOpener 1 ∅ ∅.

Inductive os_step : opener -> opener -> Prop :=
| Open_call n o cs k : cs !! k = None -> os_step (mkOpener n o cs) (mkOpener n o (<[k := Waiting]> cs))
| Open_done n o cs k : cs !! k = Some Waiting ->
    os_step (mkOpener n o cs) (mkOpener (n + 2) ({[n]} ∪ o) (<[k := Ready (Ok n)]> cs))
| Open_done_late n o cs k : cs !! k = Some Cancelled ->
    os_step (mkOpener n o cs) (mkOpener (n + 2) ({[n]} ∪ o) (<[k := Stranded (Ok n)]> cs))
| Open_failed n o cs k e : cs !! k = Some Waiting ->
    os_step (mkOpener n o cs) (mkOpener n o (<[k := Ready (Err e)]> cs))
| Open_failed_late n o cs k e : cs !! k = Some Cancelled ->
    os_step (mkOpener n o cs) (mkOpener n o (<[k := Stranded (Err e)]> cs))
| Open_return n o cs k r : cs !! k = Some (Ready r) ->
    os_step (mkOpener n o cs) (mkOpener n o (<[k := Returned r]> cs))
| Open_cancel n o cs k : cs !! k = Some Waiting ->
    os_step (mkOpener n o cs) (mkOpener n o (<[k := Cancelled]> cs))
| Open_cancel_ready n o cs k r : cs !! k = Some (Ready r) ->
    os_step (mkOpener n o cs) (mkOpener n o (<[k := Stranded r]> cs))
| Open_close n o cs k s : cs !! k = Some (Returned (Ok s)) ->  (** the caller closes its stream *)
    os_step (mkOpener n o cs) (mkOpener n (o ∖ {[s]}) cs).

(** Streams in calls have been opened before, each in one call; a stream nobody was
    given is still open. *)
Record os_inv (x : opener) : Prop := {
  oi_old : forall k c s, os_calls x !! k = Some c -> holds c s -> s < os_next x;
  oi_one : forall k1 k2 c1 c2 s, os_calls x !! k1 = Some c1 -> os_calls x !! k2 = Some c2 ->
    holds c1 s -> holds c2 s -> k1 = k2;
  oi_open : forall k c s, os_calls x !! k = Some c -> c = Ready (Ok s) \/ c = Stranded (Ok s) -> s ∈ os_open x
}.

(** A call moves on with the stream it holds, or none. *)
Lemma os_inv_update n o cs k c c' :
  os_inv (mkOpener n o cs) -> cs !! k = Some c -> (forall s, holds c' s -> holds c s) ->
  (forall s, c' = Ready (Ok s) \/ c' = Stranded (Ok s) -> s ∈ o) ->
  os_inv (mkOpener n o (<[k := c']> cs)).
Proof.
  intros [H1 H2 H3] Hk Hh Ho. simpl in *.
  assert (Hold : forall k0 c0 s, <[k := c']> cs !! k0 = Some c0 -> holds c0 s -> exists c1, cs !! k0 = Some c1 /\ holds c1 s).
  { intros k0 c0 s. destruct (decide (k0 = k)) as [->|].
    - rewrite lookup_insert_eq. intros [= <-] Hs. eauto.
    - rewrite lookup_insert_ne by done. eauto. }
  split; simpl.
  - intros k0 c0 s Hc Hs. destruct (Hold _ _ _ Hc Hs) as (c1 & ? & ?). eauto.
  - intros k1 k2 c1 c2 s Hc1 Hc2 Hs1 Hs2.
    destruct (Hold _ _ _ Hc1 Hs1) as (d1 & ? & ?), (Hold _ _ _ Hc2 Hs2) as (d2 & ? & ?). eauto.
  - intros k0 c0 s. destruct (decide (k0 = k)) as [->|]; [|rewrite lookup_insert_ne by done; apply H3].
    rewrite lookup_insert_eq. intros [= <-]. apply Ho.
Qed.

(** The goroutine of [k] opens stream [n]. *)
Lemma os_inv_open n o cs k c c' :
  os_inv (mkOpener n o cs) -> cs !! k = Some c -> (forall s, holds c' s -> s = n) ->
  os_inv (mkOpener (n + 2) ({[n]} ∪ o) (<[k := c']> cs)).
Proof.
  intros [H1 H2 H3] Hk Hh. simpl in *.
  assert (Hnew : forall k0 c0 s, <[k := c']> cs !! k0 = Some c0 -> holds c0 s ->
    (k0 = k /\ s = n) \/ (k0 <> k /\ cs !! k0 = Some c0 /\ s < n)).
  { intros k0 c0 s. destruct (decide (k0 = k)) as [->|].
    - rewrite lookup_insert_eq. intros [= <-] Hs. left. auto.
    - rewrite lookup_insert_ne by done. intros Hc Hs. right. eauto. }
  split; simpl.
  - intros k0 c0 s Hc Hs. destruct (Hnew _ _ _ Hc Hs) as [[_ ->]|(_ & _ & ?)]; lia.
  - intros k1 k2 c1 c2 s Hc1 Hc2 Hs1 Hs2.
    destruct (Hnew _ _ _ Hc1 Hs1) as [[-> ->]|(? & ? & ?)], (Hnew _ _ _ Hc2 Hs2) as [[-> ?]|(? & ? & ?)];
      try done; try lia. eauto.
  - intros k0 c0 s Hc Hs. assert (Hh0 : holds c0 s) by (destruct Hs as [-> | ->]; unfold holds; auto).
    destruct (Hnew _ _ _ Hc Hh0) as [[_ ->]|(Hne & ? & _)]; [set_solver|]. apply elem_of_union. right. eauto.
Qed.

Lemma os_step_inv x y : os_step x y -> os_inv x -> os_inv y.
Proof.
  destruct 1 as [n o cs k Hk|n o cs k Hk|n o cs k Hk|n o cs k e Hk|n o cs k e Hk|n o cs k r Hk|n o cs k Hk
    |n o cs k r Hk|n o cs k s Hk]; intros Hi.
  - destruct Hi as [H1 H2 H3]. simpl in *. split; simpl.
    + intros k0 c s. destruct (decide (k0 = k)) as [->|]; [|rewrite lookup_insert_ne by done; apply H1].
      rewrite lookup_insert_eq. by intros [= <-] [?|[?|?]].
    + intros k1 k2 c1 c2 s. destruct (decide (k1 = k)) as [->|], (decide (k2 = k)) as [->|]; try done;
        rewrite ?lookup_insert_eq, ?lookup_insert_ne by done; [by intros [= <-] _ [?|[?|?]]|by intros _ [= <-] _ [?|[?|?]]|apply H2].
    + intros k0 c s. destruct (decide (k0 = k)) as [->|]; [|rewrite lookup_insert_ne by done; apply H3].
      rewrite lookup_insert_eq. by intros [= <-] [?|?].
  - eapply os_inv_open; [done|done|]. intros s [?|[?|?]]; congruence.
  - eapply os_inv_open; [done|done|]. intros s [?|[?|?]]; congruence.
  - eapply os_inv_update; [done|done|by intros s [?|[?|?]]|by intros s [?|?]].
  - eapply os_inv_update; [done|done|by intros s [?|[?|?]]|by intros s [?|?]].
  - eapply os_inv_update; [done|done| |by intros s [?|?]].
    intros s [?|[?|?]]; simplify_eq; by left.
  - eapply os_inv_update; [done|done|by intros s [?|[?|?]]|by intros s [?|?]].
  - eapply os_inv_update; [done|done| |].
    + intros s [?|[?|?]]; simplify_eq; by left.
    + intros s [?|?]; simplify_eq. eapply (oi_open _ Hi); [exact Hk|by left].
  - destruct Hi as [H1 H2 H3]. simpl in *. split; simpl; [done|done|]. intros k0 c s0 Hc Hs.
    apply elem_of_difference. split; [by eapply H3|]. intros ->%elem_of_singleton.
    assert (k0 = k) as ->; [|by rewrite Hk in Hc; injection Hc as <-; destruct Hs].
    eapply H2; [exact Hc|exact Hk| |right; by left]. destruct Hs as [-> | ->]; unfold holds; auto.
Qed.

Lemma os_steps_inv x y : rtc os_step x y -> os_inv x -> os_inv y.
Proof. induction 1 as [|x y z Hs _ IH]; [done|]. intros Hi. apply IH. by eapply os_step_inv. Qed.

Lemma new_opener_inv : os_inv new_opener.
Proof. split; simpl; intros *; by rewrite lookup_empty. Qed.

(** Open streams have numbers below the next one. *)
Lemma os_steps_old x y : rtc os_step x y ->
  (forall s, s ∈ os_open x -> s < os_next x) -> forall s, s ∈ os_open y -> s < os_next y.
Proof.
  induction 1 as [|x y z Hstep _ IH]; [done|]. intros Hx. apply IH. intros s Hin.
  destruct Hstep; simpl in *; try (by apply Hx).
  - apply elem_of_union in Hin as [->%elem_of_singleton|Hin]; [lia|]. specialize (Hx s Hin). lia.
  - apply elem_of_union in Hin as [->%elem_of_singleton|Hin]; [lia|]. specialize (Hx s Hin). lia.
  - apply Hx. set_solver.
Qed.

Lemma os_stranded_stays x y k r :
  rtc os_step x y -> os_calls x !! k = Some (Stranded r) -> os_calls y !! k = Some (Stranded r).
Proof.
  induction 1 as [|x y z Hstep _ IH]; [done|]. intros Hk. apply IH.
  destruct Hstep; simpl in *; try done; (rewrite lookup_insert_ne; [done|congruence]).
Qed.

(** ** Properties *)

(** All dialers keep the interface's promise, so code that takes a [Dialer] gets it from
    any of them: without a TLS configuration the network is not touched, and every
    handshake any dialer starts offers ORP's protocol and all of the caller's; a
    connection comes from exactly one handshake. *)
Theorem dialers_agree {Q T D} `{DialerLaws Q T D} (d : D) (nw : network) (addr : string)
    (tlsConf : option (tls_Config T)) (q : option (quic_Config Q)) :
  match tlsConf with
  | None => Dial d nw addr tlsConf q = (Err ErrTLSRequired, [])
  | Some t =>
    (forall c, In c (omap handshake_conf (snd (Dial d nw addr tlsConf q))) ->
       In ALPN (NextProtos c) /\ exists l, NextProtos c = NextProtos t ++ l) /\
    (forall c, fst (Dial d nw addr tlsConf q) = Ok c ->
       length (omap handshake_conf (snd (Dial d nw addr tlsConf q))) = 1%nat)
  end.
Proof.
  destruct tlsConf as [t|]; [|apply dial_no_tls]. split.
  - intros c Hin. pose proof (dial_handshakes d nw addr t q) as Hall. rewrite List.Forall_forall in Hall.
    rewrite (Hall c Hin). apply ensureALPN_protos.
  - intros c Hc. destruct (Dial d nw addr (Some t) q) as [r calls] eqn:E. simpl in Hc. subst r.
    cbn [snd]. by rewrite (dial_ok _ _ _ _ _ _ _ E).
Qed.

(** A cancelled [OpenStream] leaks a stream: in every reachable state with a cancelled
    call the abandoned goroutine may still open a stream, and from then on the stream
    stays open in the session, no call returns it and nothing closes it. *)
Theorem cancelled_open_leaks (x : opener) (k : Z) :
  rtc os_step new_opener x -> os_calls x !! k = Some Cancelled ->
  exists x' s, os_step x x' /\ s ∉ os_open x /\
  forall y, rtc os_step x' y ->
    s ∈ os_open y /\ forall k', os_calls y !! k' <> Some (Returned (Ok s)).
Proof.
  intros Hr Hk. destruct x as [n o cs]. simpl in *.
  assert (Hstep : os_step (mkOpener n o cs) (mkOpener (n + 2) ({[n]} ∪ o) (<[k := Stranded (Ok n)]> cs)))
    by (by apply Open_done_late).
  eexists _, n. split; [exact Hstep|]. split.
  { pose proof (os_steps_old _ _ Hr) as Hlt.
    intros Hin. specialize (Hlt ltac:(set_solver) n Hin). simpl in Hlt. lia. }
  intros y Hy. assert (Hky : os_calls y !! k = Some (Stranded (Ok n))).
  { eapply os_stranded_stays; [exact Hy|]. simpl. by rewrite lookup_insert_eq. }
  assert (Hi : os_inv y).
  { eapply os_steps_inv; [|apply new_opener_inv]. eapply rtc_trans; [exact Hr|]. by eapply rtc_l. }
  split.
  - eapply (oi_open _ Hi); [exact Hky|by right].
  - intros k' Hk'. assert (k = k') as <-; [|congruence].
    eapply (oi_one _ Hi); [exact Hky|exact Hk'|right; by right|right; by left].
Qed.

Lemma cancelled_open_leaks_witness :
  exists x' s, os_step (mkOpener 1 ∅ (<[7 := Cancelled]> (<[7 := Waiting]> ∅))) x' /\ s ∉ (∅ : gset Z) /\
  forall y, rtc os_step x' y -> s ∈ os_open y /\ forall k', os_calls y !! k' <> Some (Returned (Ok s)).
Proof.
  apply (cancelled_open_leaks (mkOpener 1 ∅ (<[7 := Cancelled]> (<[7 := Waiting]> ∅))) 7); [|reflexivity].
  eapply rtc_l; [apply Open_call with (k := 7); reflexivity|].
  eapply rtc_l; [apply Open_cancel with (k := 7); reflexivity|apply rtc_refl].
Defined.

Lemma dialers_agree_witness :
  let nw := mkNetwork (fun _ => Ok 1) (fun _ _ _ => Ok 5) (fun _ _ _ => Ok 5) (fun _ => None) (fun _ => None) None in
  (forall c, In c (omap handshake_conf (snd (Dial (QOther := unit) mkTCPDialer nw "relay:443" (Some (mkTConf ["h2"%string] tt)) None))) ->
     In ALPN (NextProtos c) /\ exists l, NextProtos c = ["h2"%string] ++ l) /\
  (forall c, fst (Dial (QOther := unit) mkTCPDialer nw "relay:443" (Some (mkTConf ["h2"%string] tt)) None) = Ok c ->
     length (omap handshake_conf (snd (Dial (QOther := unit) mkTCPDialer nw "relay:443" (Some (mkTConf ["h2"%string] tt)) None))) = 1%nat).
Proof.
  exact (dialers_agree mkTCPDialer (mkNetwork (fun _ => Ok 1) (fun _ _ _ => Ok 5) (fun _ _ _ => Ok 5)
    (fun _ => None) (fun _ => None) None) "relay:443" (Some (mkTConf ["h2"%string] tt)) None).
Defined.

(** [CancelRead] means different things on the two carriers: both end reading, but on
    QUIC the write side goes on as before, while over TCP every later write fails. *)
Theorem CancelRead_carriers {Q Y} `{QuicStreamLaws Q} `{YamuxStreamLaws Y} (code : Z) (q : Q) (y : Y)
    (b : list byte) :
  read_fails (CancelRead code q) /\ read_fails (CancelRead code y) /\
  fst (Write b (CancelRead code q)) = fst (Write b q) /\ write_fails (CancelRead code y).
Proof.
  split; [apply cancel_stops_reads|]. split; [apply cancel_stops_reads|].
  split; [apply q_cancel_write|]. intros b'. apply y_close_write.
Qed.

(** A stream that is two flags, read side and write side open. *)
Definition flag_op {A} (open : bool) (a : A) (s : bool * bool) : res Z A * (bool * bool) :=
  (if open then Ok a else Err 1, s).

#[local] Instance flag_quic : QuicStream (bool * bool) := {
  q_Read s := flag_op (fst s) [] s;
  q_Write b s := flag_op (snd s) (zlen b) s;
  q_Close s := (fst s, false);
  q_CancelRead _ s := (false, snd s);
  q_StreamID _ := 0
}.
#[local] Instance flag_yamux : YamuxStream (bool * bool) := {
  y_Read s := flag_op (fst s) [] s;
  y_Write b s := flag_op (snd s) (zlen b) s;
  y_Close _ := (false, false);
  y_StreamID _ := 0
}.
#[local] Instance flag_quic_laws : QuicStreamLaws (bool * bool).
Proof. split; intros; simpl; eauto. Qed.
#[local] Instance flag_yamux_laws : YamuxStreamLaws (bool * bool).
Proof. split; intros; simpl; unfold flag_op; simpl; eauto. Qed.

Lemma CancelRead_carriers_witness :
  read_fails (S := bool * bool) (H := quicStream) (CancelRead (Stream := quicStream) 9 (true, true)) /\
  read_fails (S := bool * bool) (H := yamuxStream) (CancelRead (Stream := yamuxStream) 9 (true, true)) /\
  fst (Write (Stream := quicStream) [] (CancelRead (Stream := quicStream) 9 (true, true))) =
    fst (Write (Stream := quicStream) [] (true, true)) /\
  write_fails (S := bool * bool) (H := yamuxStream) (CancelRead (Stream := yamuxStream) 9 (true, true)).
Proof. exact (CancelRead_carriers 9 (true, true) (true, true) []). Defined.
