(* ===== verification/GoPath.v ===== *)
(** * Slash-separated paths

    Go's path.Clean (filepath.Clean on Unix is the same function), filepath.Join of two
    elements and the path normalisation of net/http's ServeMux, on byte strings.
    [Clean] is written on the list of path elements with a stack. *)

From Stdlib Require Import Lia Ascii.
From stdpp Require Import base tactics list strings.
From S2P Require Import Prelude Identity.

Local Open Scope string_scope.

(** ** Definitions *)
Definition join (l : list string) : string := String.concat "/" l.

(** The stack holds the elements kept so far, the last one first. *)
Fixpoint clean_go (rooted : bool) (st elems : list string) : list string :=
  match elems with
  | [] => st
  | e :: es =>
    if String.eqb e "" || String.eqb e "." then clean_go rooted st es
    else if String.eqb e ".." then
      match st with
      | top :: st' => if String.eqb top ".." then clean_go rooted (e :: st) es else clean_go rooted st' es
      | [] => if rooted then clean_go rooted [] es else clean_go rooted [e] es
      end
    else clean_go rooted (e :: st) es
  end.

Definition rooted (s : string) : bool :=
  match s with String c _ => Ascii.eqb c "/" | EmptyString => false end.

(** What a stack of elements is written as. *)
Definition render (r : bool) (st : list string) : string :=
  let body := join (rev st) in
  if r then String "/" body else if String.eqb body "" then "." else body.

Definition Clean (s : string) : string :=
  if String.eqb s "" then "." else render (rooted s) (clean_go (rooted s) [] (split_on "/" s)).

(** [filepath.Join(dir, name)]: empty elements are ignored. *)
Definition Join2 (dir name : string) : string :=
  if String.eqb dir "" then (if String.eqb name "" then "" else Clean name)
  else if String.eqb name "" then Clean dir else Clean (dir ++ "/" ++ name).

Fixpoint ends_slash (s : string) : bool :=
  match s with
  | EmptyString => false
  | String c EmptyString => Ascii.eqb c "/"
  | String _ s' => ends_slash s'
  end.

(** [cleanPath] of net/http: a rooted path, a trailing slash kept. *)
Definition cleanPath (p : string) : string :=
  if String.eqb p "" then "/"
  else
    let p := if rooted p then p else String "/" p in
    let np := Clean p in
    if ends_slash p && negb (String.eqb np "/") then np ++ "/" else np.

(** ** Splitting and joining *)
Lemma split_on_ne c s : split_on c s <> [].
Proof. destruct s as [|a s]; simpl; [done|]. destruct (Ascii.eqb a c); [done|]. by destruct (split_on c s). Qed.

Lemma split_on_app c s1 s2 : split_on c (s1 ++ String c s2) = (split_on c s1 ++ split_on c s2)%list.
Proof.
  induction s1 as [|a s1 IH]; simpl; [by rewrite Ascii.eqb_refl|].
  destruct (Ascii.eqb a c); [by rewrite IH|]. rewrite IH.
  destruct (split_on c s1) as [|x xs] eqn:E; [by destruct (split_on_ne c s1)|done].
Qed.

Lemma split_on_no c s : Forall (fun e => has_char c e = false) (split_on c s).
Proof.
  induction s as [|a s IH]; simpl; [by repeat constructor|].
  destruct (Ascii.eqb a c) eqn:Ea; [by constructor|].
  destruct (split_on c s) as [|x xs]; [by repeat constructor; simpl; rewrite Ea|].
  inversion IH as [|?? Hx Hxs]; subst. constructor; [|done]. simpl. by rewrite Ea.
Qed.

Lemma join_cons e es : es <> [] -> join (e :: es) = e ++ String "/" (join es).
Proof. by destruct es. Qed.

Lemma split_join l : l <> [] -> Forall (fun e => has_char "/" e = false) l -> split_on "/" (join l) = l.
Proof.
  induction l as [|e l IH]; intros Hne Hl; [done|]. inversion Hl as [|?? He Hl']; subst.
  destruct l as [|e' l]; [by apply split_on_none|]. rewrite join_cons by done.
  rewrite split_on_app, IH by done. by rewrite split_on_none.
Qed.

(** ** Clean stacks: plain elements on top of dot-dots, the latter only in a relative path *)
Fixpoint all_dotdot (st : list string) : bool :=
  match st with [] => true | e :: st' => String.eqb e ".." && all_dotdot st' end.

Fixpoint stack_ok (r : bool) (st : list string) : bool :=
  match st with
  | [] => true
  | e :: st' =>
    negb (String.eqb e "") && negb (String.eqb e ".") && negb (has_char "/" e) &&
    (if String.eqb e ".." then negb r && all_dotdot st' && stack_ok r st' else stack_ok r st')
  end.

Lemma stack_ok_tail r e st : stack_ok r (e :: st) = true -> stack_ok r st = true.
Proof. simpl. destruct (String.eqb e ".."); intros; bool_split; done. Qed.

Lemma stack_ok_app r l st : stack_ok r (l ++ st)%list = true -> stack_ok r st = true.
Proof. induction l as [|e l IH]; [done|]. intros H. apply IH. by eapply stack_ok_tail. Qed.

Lemma stack_ok_noslash r st : stack_ok r st = true -> Forall (fun e => has_char "/" e = false) st.
Proof.
  induction st as [|e st IH]; intros H; constructor.
  - simpl in H. by bool_split.
  - apply IH. by eapply stack_ok_tail.
Qed.

Lemma clean_go_ok r st es :
  stack_ok r st = true -> Forall (fun e => has_char "/" e = false) es -> stack_ok r (clean_go r st es) = true.
Proof.
  revert st. induction es as [|e es IH]; intros st Hst Hes; [done|]. inversion Hes as [|?? He Hes']; subst.
  cbn [clean_go]. destruct (String.eqb e "" || String.eqb e ".") eqn:E1; [by apply IH|].
  apply orb_false_iff in E1 as [E1 E2]. destruct (String.eqb e "..") eqn:E3.
  - destruct st as [|top st].
    + destruct r; [by apply IH|]. apply IH; [|done]. simpl. by rewrite E1, E2, E3, He.
    + destruct (String.eqb top "..") eqn:E4.
      * apply IH; [|done]. apply String.eqb_eq in E3, E4. subst. simpl in *.
        by destruct r, (all_dotdot st), (stack_ok _ st).
      * apply IH; [|done]. by eapply stack_ok_tail.
  - apply IH; [|done]. cbn [stack_ok]. by rewrite E1, E2, E3, He, Hst.
Qed.

(** A clean list of elements is kept as it is. *)
Lemma clean_go_fix r st es : stack_ok r (rev es ++ st)%list = true -> clean_go r st es = (rev es ++ st)%list.
Proof.
  revert st. induction es as [|e es IH]; intros st H; [done|].
  cbn [rev] in *. rewrite <- app_assoc in *. simpl in *.
  pose proof (stack_ok_app _ _ _ H) as Hst. cbn [stack_ok] in Hst.
  destruct (String.eqb e ""), (String.eqb e "."); try done. simpl in *.
  destruct (String.eqb e "..") eqn:E; [|by apply IH]. apply String.eqb_eq in E. subst e.
  destruct st as [|top st]; simpl in *.
  - destruct r; [done|]. by apply IH.
  - destruct (String.eqb top ".."); [by apply IH|]. by rewrite !andb_false_r in Hst.
Qed.

Lemma clean_go_app r st es1 es2 : clean_go r st (es1 ++ es2)%list = clean_go r (clean_go r st es1) es2.
Proof.
  revert st. induction es1 as [|e es1 IH]; intros st; [done|]. simpl.
  repeat case_match; apply IH.
Qed.

(** The elements of a rendered stack. *)
Lemma split_render r st : stack_ok r st = true ->
  render r st <> "" /\ rooted (render r st) = r /\ clean_go r [] (split_on "/" (render r st)) = st.
Proof.
  intros Hst. pose proof (stack_ok_noslash r st Hst) as Hns. unfold render.
  destruct (decide (st = [])) as [->|Hne]; [by destruct r|].
  assert (Hr : rev st <> []) by (intros H; apply Hne; by rewrite <- (rev_involutive st), H).
  assert (Hs : split_on "/" (join (rev st)) = rev st) by (apply split_join; [done|by apply Forall_rev]).
  assert (Hc : clean_go r [] (rev st) = st).
  { rewrite clean_go_fix; rewrite rev_involutive, app_nil_r; done. }
  destruct r.
  - split; [done|]. split; [done|]. change (String "/" (join (rev st))) with ("" ++ String "/" (join (rev st))).
    rewrite split_on_app, Hs. done.
  - destruct (rev st) as [|e l] eqn:El; [done|].
    assert (He : In e st) by (apply in_rev; rewrite El; by left).
    assert (Hex : exists a e', e = String a e' /\ Ascii.eqb a "/" = false).
    { clear -He Hst. induction st as [|x st IH]; [done|]. destruct He as [->|He].
      - apply stack_ok_noslash in Hst as Hn. inversion Hn as [|?? Hn' _]; subst.
        destruct e as [|a e']; [done|]. exists a, e'. split; [done|]. simpl in Hn'.
        by apply orb_false_iff in Hn' as [? _].
      - apply IH; [by eapply stack_ok_tail|done]. }
    destruct Hex as (a & e' & -> & Ha).
    assert (Hj : exists t, join (String a e' :: l) = String a t) by (destruct l; by eexists).
    destruct Hj as [t Hj]. cbv zeta. rewrite Hj. change (String.eqb (String a t) "") with false. cbv iota.
    split; [done|]. split; [done|]. rewrite <- Hj. congruence.
Qed.

Lemma Clean_shape s : exists st, stack_ok (rooted s) st = true /\ Clean s = render (rooted s) st.
Proof.
  unfold Clean. destruct (String.eqb_spec s "") as [->|Hs]; [by exists []|].
  eexists. split; [|done]. apply clean_go_ok; [done|apply split_on_no].
Qed.

Lemma Clean_render r st : stack_ok r st = true -> Clean (render r st) = render r st.
Proof.
  intros Hst. destruct (split_render r st Hst) as (Hne & Hr & Hc). unfold Clean.
  rewrite (proj2 (String.eqb_neq _ _) Hne), Hr, Hc. done.
Qed.

Lemma Clean_idem s : Clean (Clean s) = Clean s.
Proof. destruct (Clean_shape s) as (st & Hst & ->). by apply Clean_render. Qed.

(** A file name in a directory: the path is the clean directory, then the name. *)
Definition plain (name : string) : bool :=
  negb (String.eqb name "") && negb (String.eqb name ".") && negb (String.eqb name "..") && negb (has_char "/" name).

Lemma Join2_plain dir name : plain name = true ->
  exists st, stack_ok (rooted dir) st = true /\ Clean dir = render (rooted dir) st /\
    Join2 dir name = render (rooted dir) (name :: st).
Proof.
  intros Hp. unfold plain in Hp. bool_split. unfold Join2.
  assert (Hname : forall r st, clean_go r st (split_on "/" name) = name :: st).
  { intros r st. rewrite split_on_none by done. simpl. by rewrite !(proj2 (String.eqb_neq _ _)). }
  destruct (String.eqb_spec dir "") as [->|Hd].
  - exists []. split; [done|]. split; [done|]. rewrite (proj2 (String.eqb_neq name "")) by done.
    unfold Clean. rewrite (proj2 (String.eqb_neq name "")) by done.
    assert (rooted name = false) as ->; [|by rewrite Hname].
    destruct name as [|a name]; [done|]. simpl in *. by destruct (Ascii.eqb a "/").
  - rewrite (proj2 (String.eqb_neq name "")) by done.
    exists (clean_go (rooted dir) [] (split_on "/" dir)). split; [apply clean_go_ok; [done|apply split_on_no]|].
    unfold Clean. rewrite (proj2 (String.eqb_neq dir "") Hd). split; [done|].
    assert (rooted (dir ++ "/" ++ name) = rooted dir) as Hr by (by destruct dir).
    rewrite Hr, (proj2 (String.eqb_neq (dir ++ _) "")); [|by destruct dir].
    change ("/" ++ name) with (String "/" name). by rewrite split_on_app, clean_go_app, Hname.
Qed.

(** Two names in a directory are two paths. *)
Lemma Join2_inj dir a b : plain a = true -> plain b = true -> Join2 dir a = Join2 dir b -> a = b.
Proof.
  assert (Hok : forall n st, plain n = true -> stack_ok (rooted dir) st = true ->
    stack_ok (rooted dir) (n :: st) = true).
  { intros n st Hn Hst. unfold plain in Hn. bool_split. simpl. rewrite Hst.
    do 3 rewrite (proj2 (String.eqb_neq _ _)) by done. apply andb_true_iff. split; [|done].
    by apply negb_true_iff. }
  intros Ha Hb. destruct (Join2_plain dir a Ha) as (st & Hst & _ & ->).
  destruct (Join2_plain dir b Hb) as (st' & Hst' & _ & ->). intros E.
  destruct (split_render _ _ (Hok a st Ha Hst)) as (_ & _ & Hra).
  destruct (split_render _ _ (Hok b st' Hb Hst')) as (_ & _ & Hrb). congruence.
Qed.

(** ** Trailing slashes *)
Lemma ends_slash_app s t : t <> "" -> ends_slash (s ++ t) = ends_slash t.
Proof.
  intros Ht. induction s as [|a s IH]; [done|]. simpl. destruct (s ++ t) eqn:E; [|done].
  destruct s; [by simpl in E; subst|done].
Qed.

Lemma ends_slash_no s : has_char "/" s = false -> ends_slash s = false.
Proof.
  induction s as [|a s IH]; [done|]. simpl. intros [Ha Hs]%orb_false_iff. destruct s; [done|by apply IH].
Qed.

Lemma ends_slash_join l e : e <> "" -> has_char "/" e = false -> ends_slash (join (l ++ [e])%list) = false.
Proof.
  intros He Hn. induction l as [|x l IH]; [by apply ends_slash_no|]. simpl app. rewrite join_cons by (by destruct l).
  rewrite ends_slash_app by done. simpl. destruct (join (l ++ [e])%list) eqn:E; [|done].
  exfalso. destruct l as [|y l]; [done|]. destruct l; simpl in E; destruct y; simpl in E; try done.
Qed.

Lemma ends_slash_render st : stack_ok true st = true -> st <> [] -> ends_slash (render true st) = false.
Proof.
  intros Hst Hne. destruct st as [|e st]; [done|]. cbn [stack_ok] in Hst. bool_split. unfold render. simpl rev.
  change (String "/" (join (rev st ++ [e])%list)) with ("/" ++ join (rev st ++ [e])%list).
  assert (Hj : join (rev st ++ [e])%list <> "").
  { intros Habs. destruct (rev st) as [|x l]; [done|].
    change (join ((x :: l) ++ [e])%list) with (join (x :: (l ++ [e]))%list) in Habs.
    rewrite join_cons in Habs by (by destruct l). by destruct x. }
  rewrite ends_slash_app by done. by apply ends_slash_join.
Qed.

Lemma cleanPath_idem p : cleanPath (cleanPath p) = cleanPath p.
Proof.
  unfold cleanPath at 2 3. destruct (String.eqb_spec p "") as [->|Hp]; [done|].
  set (q := if rooted p then p else String "/" p). cbv zeta.
  assert (Hq : rooted q = true) by (unfold q; by destruct (rooted p) eqn:E).
  destruct (Clean_shape q) as (st & Hst & Hc). rewrite Hq in Hst, Hc. rewrite Hc.
  destruct (decide (st = [])) as [->|Hne]; [by rewrite andb_false_r|].
  pose proof (ends_slash_render st Hst Hne) as Hes. destruct (split_render true st Hst) as (Hne' & Hr & Hcl).
  assert (Hnr : String.eqb (render true st) "/" = false).
  { apply String.eqb_neq. intros H. by rewrite H in Hes. }
  rewrite Hnr, andb_true_r. destruct (ends_slash q).
  - assert (Hrs : rooted (render true st ++ "/") = true) by (by destruct (render true st)).
    assert (Hne2 : render true st ++ "/" <> "") by (by destruct (render true st)).
    unfold cleanPath. rewrite (proj2 (String.eqb_neq _ _) Hne2), Hrs. cbv zeta.
    unfold Clean. rewrite (proj2 (String.eqb_neq _ _) Hne2), Hrs.
    rewrite (split_on_app "/" (render true st) ""), clean_go_app, Hcl. simpl clean_go.
    rewrite ends_slash_app by done. by rewrite Hnr.
  - unfold cleanPath. rewrite (proj2 (String.eqb_neq _ _) Hne'), Hr. cbv zeta.
    by rewrite Clean_render, Hes by done.
Qed.
