(* ===== verification/DebugHttp.v ===== *)
(** * The debug endpoint: lib/observe/http.go

    [DebugMux] is a table of patterns; requests are routed the way net/http's ServeMux
    routes literal patterns (paths without percent escapes, methods other than
    CONNECT).  [ServeDebug] is a state machine: listening, the goroutine that calls
    [Shutdown] when the context is cancelled, and [Serve], which returns as soon as
    [Shutdown] is called. *)

From Stdlib Require Import ZArith Lia Strings.Byte.
From stdpp Require Import base tactics list strings gmap sets.
From S2P Require Import Prelude Identity GoPath Observe.

Local Open Scope Z_scope.

(** ** Routing *)
Inductive handler := Metrics | PprofIndex | PprofCmdline | PprofProfile | PprofSymbol | PprofTrace.

Definition ServeMux : Type := list (string * handler).

(** [DebugMux]: the registered patterns. *)
Definition DebugMux : ServeMux :=
  [("/debug/metrics", Metrics); ("/debug/pprof/", PprofIndex); ("/debug/pprof/cmdline", PprofCmdline);
   ("/debug/pprof/profile", PprofProfile); ("/debug/pprof/symbol", PprofSymbol);
   ("/debug/pprof/trace", PprofTrace)]%string.

(** A pattern that ends in a slash matches the paths below it. *)
Definition pat_matches (path : string) (pat : string * handler) : bool :=
  String.eqb (fst pat) path ||
  (ends_slash (fst pat) && match strip_prefix (fst pat) path with Some _ => true | None => false end).

Definition longer (a b : string * handler) : bool := (String.length (fst b) <? String.length (fst a))%nat.

(** The longest matching pattern. *)
Fixpoint mux_match (pats : ServeMux) (path : string) : option (string * handler) :=
  match pats with
  | [] => None
  | p :: pats' =>
    let rest := mux_match pats' path in
    if pat_matches path p
    then match rest with Some q => if longer q p then Some q else Some p | None => Some p end
    else rest
  end.

Definition exact (path : string) (m : option (string * handler)) : bool :=
  match m with Some p => String.eqb (fst p) path | None => false end.

Inductive response := Serve (h : handler) | Redirect (path : string) | NotFound.

Definition mux_route (pats : ServeMux) (raw : string) : response :=
  let path := cleanPath raw in
  let m := mux_match pats path in
  if negb (exact path m) && negb (ends_slash path) &&
     exact (path ++ "/") (mux_match pats (path ++ "/")) then Redirect (path ++ "/")
  else if negb (String.eqb path raw) then Redirect path
  else match m with Some p => Serve (snd p) | None => NotFound end.

(** The metrics handler: content type and body. *)
Definition metrics_response (encode : RegSnapshot -> list byte) (now : Z) (reg : Registry) : string * list byte :=
  ("application/json"%string, encode (Snapshot now reg)).

(** ** ServeDebug *)
Record debug := mkDebug {
  dg_cancelled : bool;
  dg_shutdown : bool;             (** [Shutdown] was called *)
  dg_inflight : gset Z;           (** requests being served *)
  dg_returned : option (option Z) (** [ServeDebug] returned, with this error *)
}.

(** Up to [srv.Serve]; [listen] is the outcome of binding the address. *)
Definition serve_start (addr : string) (listen : option Z) : debug :=
  if String.eqb addr "" then mkDebug false false ∅ (Some None)
  else match listen with
       | Some e => mkDebug false false ∅ (Some (Some e))
       | None => mkDebug false false ∅ None
       end.

Inductive debug_event :=
| Cancel                 (** the context is cancelled *)
| CallShutdown           (** the goroutine runs *)
| ServeClosed            (** [Serve] returns [http.ErrServerClosed] *)
| AcceptError (e : Z)    (** [Serve] returns another error *)
| ReqStart (id : Z)
| ReqEnd (id : Z).

Definition debug_step (s : debug) (e : debug_event) : debug :=
  let '(mkDebug c sh fl ret) := s in
  match e with
  | Cancel => mkDebug true sh fl ret
  | CallShutdown => if c then mkDebug c true fl ret else s
  | ServeClosed =>
    match ret with None => if sh then mkDebug c sh fl (Some None) else s | Some _ => s end
  | AcceptError e =>
    match ret with None => if sh then s else mkDebug c sh fl (Some (Some e)) | Some _ => s end
  | ReqStart id =>
    match ret with None => if sh then s else mkDebug c sh ({[id]} ∪ fl) ret | Some _ => s end
  | ReqEnd id => mkDebug c sh (fl ∖ {[id]}) ret
  end.

Definition debug_run (es : list debug_event) (s : debug) : debug := fold_left debug_step es s.

(** ** Lemmas *)
Lemma mux_match_sound pats path p :
  mux_match pats path = Some p -> In p pats /\ pat_matches path p = true.
Proof.
  revert p. induction pats as [|q pats IH]; intros p; simpl; [done|].
  destruct (pat_matches path q) eqn:E; [|intros H; destruct (IH p H); auto].
  destruct (mux_match pats path) as [r|]; [|intros [= <-]; auto].
  destruct (longer r q); intros [= <-]; [|auto]. destruct (IH r eq_refl). auto.
Qed.

(** The pattern that answers a path. *)
Lemma mux_match_debug path :
  mux_match DebugMux path =
    (if String.eqb path "/debug/metrics" then Some ("/debug/metrics", Metrics)
     else if String.eqb path "/debug/pprof/cmdline" then Some ("/debug/pprof/cmdline", PprofCmdline)
     else if String.eqb path "/debug/pprof/profile" then Some ("/debug/pprof/profile", PprofProfile)
     else if String.eqb path "/debug/pprof/symbol" then Some ("/debug/pprof/symbol", PprofSymbol)
     else if String.eqb path "/debug/pprof/trace" then Some ("/debug/pprof/trace", PprofTrace)
     else if strip_prefix "/debug/pprof/" path then Some ("/debug/pprof/", PprofIndex)
     else None)%string.
Proof.
  repeat match goal with |- _ = (if String.eqb path ?l then _ else _) =>
    destruct (String.eqb_spec path l) as [->|?]; [reflexivity|] end.
  cbn [mux_match DebugMux]. unfold pat_matches. cbn [fst snd].
  rewrite !(String.eqb_sym _ path).
  repeat match goal with H : path <> _ |- _ => rewrite (proj2 (String.eqb_neq _ _) H) end.
  change (ends_slash "/debug/pprof/") with true. cbn [orb andb].
  destruct (String.eqb_spec path "/debug/pprof/") as [->|Hne]; [reflexivity|]. cbn [orb].
  by destruct (strip_prefix "/debug/pprof/" path).
Qed.

Lemma append_slash_inj a b : (a ++ "/" = b ++ "/" -> a = b)%string.
Proof.
  revert b. induction a as [|c a IH]; intros [|c' b] E; [done|by destruct b|by destruct a|].
  injection E as -> E. f_equal. by apply IH.
Qed.

(** The only path that gets a slash appended. *)
Lemma slash_redirect path :
  negb (exact path (mux_match DebugMux path)) && negb (ends_slash path) &&
    exact (path ++ "/") (mux_match DebugMux (path ++ "/")) = String.eqb path "/debug/pprof".
Proof.
  destruct (String.eqb_spec path "/debug/pprof") as [->|Hne]; [reflexivity|].
  apply andb_false_intro2. unfold exact.
  destruct (mux_match DebugMux (path ++ "/")) as [[pt h]|] eqn:Em; [|done].
  apply mux_match_sound in Em as [Hin _]. apply String.eqb_neq. cbn [fst]. intros E.
  assert (Hs : ends_slash pt = true) by (by rewrite E, ends_slash_app).
  simpl in Hin. repeat destruct Hin as [[= <- <-]|Hin]; try done.
  apply Hne. apply append_slash_inj. by rewrite <- E.
Qed.

(** No redirect is answered with a second one. *)
Lemma route_settles pats path :
  negb (exact path (mux_match pats path)) && negb (ends_slash path) &&
    exact (path ++ "/") (mux_match pats (path ++ "/")) = false ->
  cleanPath path = path -> forall q, mux_route pats path <> Redirect q.
Proof.
  intros H Hc q. unfold mux_route. rewrite Hc, H, String.eqb_refl. simpl.
  by destruct (mux_match pats path).
Qed.

(** ** Properties *)

(** C22. What the debug listener answers, for every path: the metrics and the four named
    profiles at their documented paths, the pprof index at the other clean paths below
    /debug/pprof/, a redirect for /debug/pprof and for a path that is not in clean form,
    and not found everywhere else; a redirected client is never redirected again. *)
Theorem debug_routes (p : string) :
  mux_route DebugMux p =
    (if String.eqb (cleanPath p) "/debug/pprof" then Redirect "/debug/pprof/"
     else if negb (String.eqb (cleanPath p) p) then Redirect (cleanPath p)
     else if String.eqb p "/debug/metrics" then Serve Metrics
     else if String.eqb p "/debug/pprof/cmdline" then Serve PprofCmdline
     else if String.eqb p "/debug/pprof/profile" then Serve PprofProfile
     else if String.eqb p "/debug/pprof/symbol" then Serve PprofSymbol
     else if String.eqb p "/debug/pprof/trace" then Serve PprofTrace
     else if strip_prefix "/debug/pprof/" p then Serve PprofIndex
     else NotFound) /\
  forall q, mux_route DebugMux p = Redirect q -> forall q', mux_route DebugMux q <> Redirect q'.
Proof.
  split.
  - unfold mux_route. rewrite slash_redirect.
    destruct (String.eqb_spec (cleanPath p) "/debug/pprof") as [->|_]; [reflexivity|].
    destruct (String.eqb_spec (cleanPath p) p) as [->|_]; [|done]. cbn [negb].
    rewrite mux_match_debug. by repeat case_match; simplify_eq.
  - intros q Hq. unfold mux_route in Hq. rewrite slash_redirect in Hq.
    destruct (String.eqb_spec (cleanPath p) "/debug/pprof") as [E|Hne].
    + injection Hq as <-. rewrite E. by vm_compute.
    + destruct (String.eqb_spec (cleanPath p) p) as [_|_]; cbn [negb] in Hq; [by destruct (mux_match _ _)|].
      injection Hq as <-. apply route_settles; [|apply cleanPath_idem].
      rewrite slash_redirect. by apply String.eqb_neq.
Qed.

(** How [ServeDebug] ends: without an error only when there is no address or the
    context was cancelled, with an error only the listener's; after the context is
    cancelled and [Serve] has noticed, it has returned. *)
Theorem ServeDebug_returns (addr : string) (listen : option Z) (es : list debug_event) :
  let s := debug_run es (serve_start addr listen) in
  (forall r, dg_returned s = Some r ->
     match r with
     | None => addr = ""%string \/ dg_cancelled s = true
     | Some e => addr <> ""%string /\ (listen = Some e \/ AcceptError e ∈ es)
     end) /\
  is_Some (dg_returned (debug_run (es ++ [Cancel; CallShutdown; ServeClosed]) (serve_start addr listen))).
Proof.
  intros s.
  assert (Hinv : (dg_shutdown s = true -> dg_cancelled s = true) /\
    forall r, dg_returned s = Some r ->
     match r with
     | None => addr = ""%string \/ dg_cancelled s = true
     | Some e => addr <> ""%string /\ (listen = Some e \/ AcceptError e ∈ es)
     end).
  { unfold s. clear s. induction es as [|e es IH] using rev_ind.
    - unfold serve_start. destruct (String.eqb_spec addr "") as [->|Ha]; simpl.
      + split; [done|]. intros r [= <-]. by left.
      + destruct listen as [e|]; simpl; split; try done. intros r [= <-]. by auto.
    - unfold debug_run in *. rewrite fold_left_app. simpl.
      destruct (fold_left debug_step es (serve_start addr listen)) as [c sh fl ret] eqn:Ef.
      assert (Hin : dg_returned (fold_left debug_step es (serve_start addr listen)) = None -> addr <> ""%string).
      { intros Hr ->. clear -Hr. unfold serve_start in Hr. simpl in Hr.
        assert (G : forall es d, dg_returned d <> None -> dg_returned (fold_left debug_step es d) <> None).
        { clear. induction es as [|e es IH]; intros d Hd; [done|]. apply IH. destruct d as [c sh fl [r|]]; [|done].
          destruct e; simpl; repeat case_match; done. }
        by apply (G es) in Hr. }
      rewrite Ef in Hin. simpl in *. destruct IH as [IH1 IH2].
      assert (Hold : forall r, ret = Some r -> match r with
        | None => addr = ""%string \/ c = true
        | Some e' => addr <> ""%string /\ (listen = Some e' \/ AcceptError e' ∈ es ++ [e])
        end).
      { intros r Hr. specialize (IH2 r Hr). destruct r as [e'|]; [|done]. destruct IH2 as [? [?|?]]; [by auto|].
        split; [done|]. right. apply elem_of_app. by left. }
      destruct e; simpl; repeat case_match; simpl; split; try done; intros r Hr; try (by apply Hold).
      + specialize (Hold r Hr). destruct r; [done|by right].
      + by injection Hr as <-; right; apply IH1.
      + injection Hr as <-. split; [by apply Hin|]. right. apply elem_of_app. right. by left. }
  split; [apply Hinv|]. unfold debug_run. rewrite fold_left_app. fold (debug_run es (serve_start addr listen)). fold s.
  destruct s as [c sh fl [r|]]; simpl; by eexists.
Qed.

Lemma ServeDebug_returns_witness :
  is_Some (dg_returned (debug_run ([ReqStart 1] ++ [Cancel; CallShutdown; ServeClosed])
    (serve_start "127.0.0.1:9101" None))).
Proof. exact (proj2 (ServeDebug_returns "127.0.0.1:9101" None [ReqStart 1])). Defined.

(** [ServeDebug] does not wait for the shutdown it starts: from every state in which
    it is serving with requests in flight, the cancellation of the context lets it
    return without an error while all these requests are still being served, inside
    the grace period its goroutine asks [Shutdown] for. *)
Theorem ServeDebug_returns_before_drain (addr : string) (es : list debug_event) :
  let s := debug_run es (serve_start addr None) in
  dg_returned s = None -> dg_inflight s <> ∅ ->
  let s' := debug_run [Cancel; CallShutdown; ServeClosed] s in
  dg_returned s' = Some None /\ dg_inflight s' = dg_inflight s /\ dg_inflight s' <> ∅.
Proof.
  intros s Hr Hf. destruct s as [c sh fl ret]. simpl in *. subst ret. by destruct sh.
Qed.

Lemma ServeDebug_returns_before_drain_witness :
  let s' := debug_run [Cancel; CallShutdown; ServeClosed] (debug_run [ReqStart 1] (serve_start ":9101" None)) in
  dg_returned s' = Some None /\ dg_inflight s' = dg_inflight (debug_run [ReqStart 1] (serve_start ":9101" None)) /\
  dg_inflight s' <> ∅.
Proof. apply (ServeDebug_returns_before_drain ":9101" [ReqStart 1]); [reflexivity|done]. Defined.
