(* ===== verification/GoFlag.v ===== *)
(** * Command line flags

    The commands of the repository read their arguments with Go's package flag.
    This file has what they use of it and of the parsers of flag values:
    strconv.ParseBool and ParseInt with base 0, and time.ParseDuration, whose
    fractions are computed in binary64.  Loops that do not recurse on the structure
    of their input have fuel; [ErrFuel] is proved never to be the answer. *)

From Stdlib Require Import ZArith Lia Ascii SpecFloat.
From stdpp Require Import base tactics list strings gmap pretty.
From S2P Require Import Prelude Observe Identity.

Local Open Scope go_scope.
Local Open Scope Z_scope.

(** Why a flag, or its value, is not accepted. *)
Inductive parse_err := ErrHelp | ErrFlag | ErrFuel.

Definition str_len (s : string) : nat := String.length s.

(** ** Numbers *)
Definition ParseBool (s : string) : option bool :=
  if existsb (String.eqb s) ["1"; "t"; "T"; "TRUE"; "true"; "True"]%string then Some true
  else if existsb (String.eqb s) ["0"; "f"; "F"; "FALSE"; "false"; "False"]%string then Some false
  else None.

Definition zcode (c : ascii) : Z := Z.of_N (code c).
(** [c | ('x' - 'X')]. *)
Definition lower_code (c : ascii) : Z := Z.lor (zcode c) 32.

Definition digit_value (c : ascii) : option Z :=
  if is_digit c then Some (zcode c - 48)
  else if (97 <=? lower_code c) && (lower_code c <=? 122) then Some (lower_code c - 97 + 10)
  else None.

(** The digits of a number in [base], underscores skipped; the flag says whether
    there was one. *)
Fixpoint digits (base n : Z) (under : bool) (s : string) : option (Z * bool) :=
  match s with
  | EmptyString => Some (n, under)
  | String c s' =>
    if Ascii.eqb c "_" then digits base n true s'
    else d ← digit_value c;
         if base <=? d then None else digits base (n * base + d) under s'
  end.

(** The base prefix of a literal, and what follows it. *)
Definition base_prefix (s : string) : Z * string :=
  match s with
  | String "0" s1 =>
    match s1 with
    | String c (String _ _ as s2) =>
      if lower_code c =? 98 then (2, s2)
      else if lower_code c =? 111 then (8, s2)
      else if lower_code c =? 120 then (16, s2)
      else (8, s1)
    | _ => (8, s1)
    end
  | _ => (10, s)
  end.

(** The class of the last character read. *)
Inductive seen := SeenNone | SeenDigit | SeenUnder | SeenOther.

Fixpoint underscores_ok (hex : bool) (i : seen) (s : string) : bool :=
  match s with
  | EmptyString => match i with SeenUnder => false | _ => true end
  | String c s' =>
    if is_digit c || (hex && (97 <=? lower_code c) && (lower_code c <=? 102))
    then underscores_ok hex SeenDigit s'
    else if Ascii.eqb c "_"
    then match i with SeenDigit => underscores_ok hex SeenUnder s' | _ => false end
    else match i with SeenUnder => false | _ => underscores_ok hex SeenOther s' end
  end.

(** [underscoreOK] on a literal without its sign. *)
Definition underscoreOK (s : string) : bool :=
  match s with
  | String "0" (String c s2) =>
    let k := lower_code c in
    if (k =? 98) || (k =? 111) || (k =? 120) then underscores_ok (k =? 120) SeenDigit s2
    else underscores_ok false SeenNone s
  | _ => underscores_ok false SeenNone s
  end.

(** [ParseUint] with base 0, before the range is checked. *)
Definition parse_magnitude (s : string) : option Z :=
  match s with
  | EmptyString => None
  | _ =>
    let '(base, rest) := base_prefix s in
    '(n, under) ← digits base 0 false rest;
    if under && negb (underscoreOK s) then None else Some n
  end.

(** Remove a sign; [true] is a minus. *)
Definition sign (s : string) : bool * string :=
  match s with
  | String c s' => if Ascii.eqb c "-" then (true, s') else if Ascii.eqb c "+" then (false, s') else (false, s)
  | _ => (false, s)
  end.

(** [ParseInt] with base 0 and 64 bits. *)
Definition ParseInt (s : string) : option Z :=
  let '(neg, rest) := sign s in
  n ← parse_magnitude rest;
  if neg then (if 9223372036854775808 <? n then None else Some (- n))
  else if 9223372036854775808 <=? n then None else Some n.

(** ** Durations *)
Definition max63 : Z := 9223372036854775808.

(** [leadingInt]: [None] is an overflow. *)
Fixpoint leadingInt (x : Z) (s : string) : option (Z * string) :=
  match s with
  | String c s' =>
    if is_digit c then
      if max63 / 10 <? x then None
      else let x' := x * 10 + (zcode c - 48) in if max63 <? x' then None else leadingInt x' s'
    else Some (x, s)
  | EmptyString => Some (x, s)
  end.

(** [leadingFraction]: digits past an overflow are read and ignored. *)
Fixpoint leadingFraction (x : Z) (scale : spec_float) (overflow : bool) (s : string)
  : Z * spec_float * string :=
  match s with
  | String c s' =>
    if is_digit c then
      if overflow then leadingFraction x scale overflow s'
      else if (max63 - 1) / 10 <? x then leadingFraction x scale true s'
      else let y := x * 10 + (zcode c - 48) in
           if max63 <? y then leadingFraction x scale true s'
           else leadingFraction y (f64_mul scale (f64_of_int 10)) false s'
    else (x, scale, s)
  | EmptyString => (x, scale, s)
  end.

Definition num_char (c : ascii) : bool := Ascii.eqb c "." || is_digit c.

(** A unit: the characters before the next digit or period. *)
Fixpoint take_unit (s : string) : string * string :=
  match s with
  | String c s' => if num_char c then (EmptyString, s) else let '(u, r) := take_unit s' in (String c u, r)
  | EmptyString => (EmptyString, s)
  end.

Definition byte_char (n : BinNums.N) : ascii := ascii_of_N n.
(** Micro sign and Greek mu, in UTF-8. *)
Definition micro1 : string := String (byte_char 0xC2) (String (byte_char 0xB5) "s").
Definition micro2 : string := String (byte_char 0xCE) (String (byte_char 0xBC) "s").

Definition unitMap (u : string) : option Z :=
  if String.eqb u "ns" then Some 1
  else if String.eqb u "us" || String.eqb u micro1 || String.eqb u micro2 then Some 1000
  else if String.eqb u "ms" then Some 1000000
  else if String.eqb u "s" then Some 1000000000
  else if String.eqb u "m" then Some 60000000000
  else if String.eqb u "h" then Some 3600000000000
  else None.

Definition f64_div : spec_float -> spec_float -> spec_float := SFdiv f64_prec f64_emax.

(** [uint64(float64(f) * (float64(unit) / scale))], at most an hour. *)
Definition fraction_ns (f unit : Z) (scale : spec_float) : Z :=
  f64_to_i64 0 (f64_mul (f64_of_int f) (f64_div (f64_of_int unit) scale)).

(** A period and the digits after it; the flag says whether there were digits. *)
Definition fraction_part (s : string) : Z * spec_float * string * bool :=
  match s with
  | String "." s' =>
    let '(f, scale, rest) := leadingFraction 0 (f64_of_int 1) false s' in
    (f, scale, rest, negb (Nat.eqb (str_len rest) (str_len s')))
  | _ => (0, f64_of_int 1, s, false)
  end.

(** One turn of the loop of [ParseDuration]: a number with its unit, in
    nanoseconds. *)
Definition duration_part (s : string) : option (Z * string) :=
  match s with
  | String c _ =>
    if num_char c then
      '(v, s1) ← leadingInt 0 s;
      let pre := negb (Nat.eqb (str_len s1) (str_len s)) in
      let '(f, scale, s2, post) := fraction_part s1 in
      if negb pre && negb post then None
      else
        let '(u, s3) := take_unit s2 in
        if String.eqb u "" then None
        else unit ← unitMap u;
             if max63 / unit <? v then None
             else
               let v1 := v * unit in
               let v2 := if 0 <? f then u64 (v1 + fraction_ns f unit scale) else v1 in
               if (0 <? f) && (max63 <? v2) then None else Some (v2, s3)
    else None
  | EmptyString => None
  end.

(** The loop: [d] is a [uint64]. *)
Fixpoint duration_loop (fuel : nat) (d : Z) (s : string) : res parse_err Z :=
  match s with
  | EmptyString => Ok d
  | _ =>
    match fuel with
    | O => Err ErrFuel
    | S n =>
      match duration_part s with
      | None => Err ErrFlag
      | Some (v, s') => let d' := u64 (d + v) in if max63 <? d' then Err ErrFlag else duration_loop n d' s'
      end
    end
  end.

(** Fuel: every turn reads at least a unit. *)
Definition ParseDuration (s : string) : res parse_err Z :=
  let '(neg, rest) := sign s in
  if String.eqb rest "0" then Ok 0
  else if String.eqb rest "" then Err ErrFlag
  else d <-? duration_loop (str_len rest) 0 rest;;
       if neg then Ok (i64 (- i64 d)) else if max63 - 1 <? d then Err ErrFlag else Ok d.

(** ** Flag sets: names with their values, at first the defaults *)
Inductive fvalue :=
| FString (s : string)
| FBool (b : bool)
| FInt (z : Z)
| FDuration (ns : Z).

Definition FlagSet : Type := gmap string fvalue.

Definition get_string (n : string) (fs : FlagSet) : string :=
  match fs !! n with Some (FString s) => s | _ => "" end.
Definition get_bool (n : string) (fs : FlagSet) : bool :=
  match fs !! n with Some (FBool b) => b | _ => false end.
Definition get_int (n : string) (fs : FlagSet) : Z :=
  match fs !! n with Some (FInt z) => z | _ => 0 end.
Definition get_duration (n : string) (fs : FlagSet) : Z :=
  match fs !! n with Some (FDuration z) => z | _ => 0 end.

Definition of_option {A} (o : option A) : res parse_err A :=
  match o with Some a => Ok a | None => Err ErrFlag end.

(** [flag.Value.Set]. *)
Definition fv_set (v : fvalue) (s : string) : res parse_err fvalue :=
  match v with
  | FString _ => Ok (FString s)
  | FBool _ => b <-? of_option (ParseBool s);; Ok (FBool b)
  | FInt _ => z <-? of_option (ParseInt s);; Ok (FInt z)
  | FDuration _ => d <-? ParseDuration s;; Ok (FDuration d)
  end.

(** What an argument is: an ordinary argument, the terminator, a flag without and
    with an inline value, or bad syntax. *)
Inductive arg_kind :=
| Positional
| Terminator
| FlagArg (name : string) (value : option string)
| BadSyntax.

Definition split_value (name : string) : arg_kind :=
  match name with
  | EmptyString => BadSyntax
  | String c _ =>
    if Ascii.eqb c "-" || Ascii.eqb c "=" then BadSyntax
    else let '(n, v, found) := cut "=" name in FlagArg n (if found then Some v else None)
  end.

Definition arg_of (s : string) : arg_kind :=
  match s with
  | String "-" (String "-" EmptyString) => Terminator
  | String "-" (String "-" name) => split_value name
  | String "-" (String c name) => split_value (String c name)
  | _ => Positional
  end.

(** [parseOne]: whether a flag was seen, the flag set, the arguments left. *)
Definition parseOne (fs : FlagSet) (args : list string)
  : res parse_err (bool * FlagSet * list string) :=
  match args with
  | [] => Ok (false, fs, args)
  | s :: rest =>
    match arg_of s with
    | Positional => Ok (false, fs, args)
    | Terminator => Ok (false, fs, rest)
    | BadSyntax => Err ErrFlag
    | FlagArg name value =>
      match fs !! name with
      | None => Err (if String.eqb name "help" || String.eqb name "h" then ErrHelp else ErrFlag)
      | Some (FBool b) =>
        v <-? fv_set (FBool b) (default "true"%string value);; Ok (true, <[name := v]> fs, rest)
      | Some old =>
        match value, rest with
        | Some x, _ => v <-? fv_set old x;; Ok (true, <[name := v]> fs, rest)
        | None, x :: rest' => v <-? fv_set old x;; Ok (true, <[name := v]> fs, rest')
        | None, [] => Err ErrFlag
        end
      end
    end
  end.

(** The loop of [FlagSet.Parse]. *)
Fixpoint parse_loop (fuel : nat) (fs : FlagSet) (args : list string)
  : res parse_err (FlagSet * list string) :=
  match fuel with
  | O => Err ErrFuel
  | S n =>
    r <-? parseOne fs args;;
    match r with
    | (true, fs', args') => parse_loop n fs' args'
    | (false, fs', args') => Ok (fs', args')
    end
  end.

(** Fuel: every turn but the last removes an argument. *)
Definition Parse (fs : FlagSet) (args : list string) : res parse_err (FlagSet * list string) :=
  parse_loop (S (length args)) fs args.

(** Under [flag.ExitOnError]: [inl] is the exit status; -1, the status of no process,
    would be a loop cut short. *)
Definition Parse_or_exit (fs : FlagSet) (args : list string) : Z + FlagSet * list string :=
  match Parse fs args with
  | Ok r => inr r
  | Err ErrHelp => inl 0
  | Err ErrFlag => inl 2
  | Err ErrFuel => inl (-1)
  end.

(** ** The loops end *)
Lemma take_unit_length s u r : take_unit s = (u, r) -> (str_len r + str_len u = str_len s)%nat.
Proof.
  revert u r. induction s as [|c s IH]; simpl; intros u r; [by intros [= <- <-]|].
  destruct (num_char c); [by intros [= <- <-]; simpl; lia|].
  destruct (take_unit s) as [u' r']. intros [= <- <-]. specialize (IH _ _ eq_refl). unfold str_len in *. simpl. lia.
Qed.

Lemma leadingInt_length x s v r : leadingInt x s = Some (v, r) -> (str_len r <= str_len s)%nat.
Proof.
  revert x. induction s as [|c s IH]; simpl; intros x; [by intros [= <- <-]|].
  destruct (is_digit c); [|by intros [= <- <-]]. destruct (_ <? x); [done|].
  destruct (_ <? _); [done|]. intros H%IH. unfold str_len in *. simpl. lia.
Qed.

Lemma leadingFraction_length x sc o s v sc' r :
  leadingFraction x sc o s = (v, sc', r) -> (str_len r <= str_len s)%nat.
Proof.
  revert x sc o. induction s as [|c s IH]; simpl; intros x sc o; [by intros [= <- <- <-]|].
  destruct (is_digit c); [|by intros [= <- <- <-]].
  repeat case_match; intros H'%IH; unfold str_len in *; simpl; lia.
Qed.

Lemma fraction_part_length s f sc r b : fraction_part s = (f, sc, r, b) -> (str_len r <= str_len s)%nat.
Proof.
  unfold fraction_part. destruct s as [|k s]; [by intros [= <- <- <- <-]|].
  destruct k as [[] [] [] [] [] [] [] []]; try (by intros [= <- <- <- <-]).
  destruct (leadingFraction 0 (f64_of_int 1) false s) as [[f' sc'] s'] eqn:E.
  intros [= <- <- <- <-]. apply leadingFraction_length in E. unfold str_len in *. simpl. lia.
Qed.

Lemma duration_part_length s v r : duration_part s = Some (v, r) -> (str_len r < str_len s)%nat.
Proof.
  unfold duration_part. destruct s as [|c s]; [done|]. destruct (num_char c); [|done].
  destruct (leadingInt 0 (String c s)) as [[v1 s1]|] eqn:E1; [|done]. cbn [mbind option_bind].
  apply leadingInt_length in E1. set (n := str_len (String c s)) in *.
  destruct (fraction_part s1) as [[[f sc] s2] post] eqn:E2. apply fraction_part_length in E2.
  destruct (_ && _); [done|]. destruct (take_unit s2) as [u s3] eqn:E3.
  apply take_unit_length in E3. destruct (String.eqb_spec u "") as [|Hu]; [done|].
  assert (Hu1 : (1 <= str_len u)%nat) by (destruct u; [done|unfold str_len; simpl; lia]).
  destruct (unitMap u) as [unit|]; [|done]. cbn [mbind option_bind].
  destruct (_ <? _); [done|]. destruct (_ && _); [done|]. intros [= _ <-]. lia.
Qed.

Lemma duration_loop_fuel n d s : (str_len s <= n)%nat -> duration_loop n d s <> Err ErrFuel.
Proof.
  revert d s. induction n as [|n IH]; intros d [|c s] Hn; try done; [unfold str_len in Hn; simpl in Hn; lia|].
  cbn [duration_loop]. destruct (duration_part (String c s)) as [[v r]|] eqn:E; [|done].
  apply duration_part_length in E. destruct (_ <? _); [done|]. apply IH. lia.
Qed.

Lemma ParseDuration_fuel s : ParseDuration s <> Err ErrFuel.
Proof.
  unfold ParseDuration. destruct (sign s) as [neg rest].
  destruct (String.eqb rest "0"), (String.eqb rest ""); try done.
  pose proof (duration_loop_fuel (str_len rest) 0 rest (Nat.le_refl _)) as H.
  destruct (duration_loop _ _ _) as [d|e]; simpl; [|naive_solver].
  destruct neg; [done|]. by destruct (_ <? _).
Qed.

Lemma fv_set_fuel v s : fv_set v s <> Err ErrFuel.
Proof.
  destruct v; simpl; [done|by destruct (ParseBool s)|by destruct (ParseInt s)|].
  pose proof (ParseDuration_fuel s) as H. destruct (ParseDuration s) as [d|e]; simpl; [done|naive_solver].
Qed.

Lemma parseOne_cases fs args :
  parseOne fs args <> Err ErrFuel /\
  forall fs' args', parseOne fs args = Ok (true, fs', args') -> (length args' < length args)%nat.
Proof.
  destruct args as [|s rest]; [done|]. cbn [parseOne length].
  destruct (arg_of s) as [| |name value|]; try done.
  destruct (fs !! name) as [v|]; [|by destruct (_ || _)].
  assert (Hset : forall w x (args' : list string), (length args' <= length rest)%nat ->
    (v <-? fv_set w x;; Ok (true, <[name:=v]> fs, args')) <> Err ErrFuel /\
    (forall fs' args'', (v <-? fv_set w x;; Ok (true, <[name:=v]> fs, args')) = Ok (true, fs', args'') ->
      (length args'' < S (length rest))%nat)).
  { intros w x args' Hl. pose proof (fv_set_fuel w x) as Hf.
    destruct (fv_set w x) as [v'|e]; simpl; [|by split; [congruence|]].
    split; [done|]. intros fs' args'' [= <- <-]. lia. }
  assert (Hgen : let r := match value, rest with
      | Some x, _ => v <-? fv_set v x;; Ok (true, <[name := v]> fs, rest)
      | None, x :: rest' => v <-? fv_set v x;; Ok (true, <[name := v]> fs, rest')
      | None, [] => Err ErrFlag
      end in r <> Err ErrFuel /\ forall fs' args', r = Ok (true, fs', args') -> (length args' < S (length rest))%nat).
  { destruct value as [x|]; [by apply Hset|]. destruct rest as [|x rest]; [done|]. apply Hset. simpl. lia. }
  destruct v; [exact Hgen|by apply Hset|exact Hgen|exact Hgen].
Qed.

Lemma parse_loop_fuel n fs args : (length args < n)%nat -> parse_loop n fs args <> Err ErrFuel.
Proof.
  revert fs args. induction n as [|n IH]; intros fs args Hn; [lia|]. simpl.
  destruct (parseOne_cases fs args) as [H1 H2].
  destruct (parseOne fs args) as [[[[] fs'] args']|e]; simpl; [|done|naive_solver].
  apply IH. specialize (H2 _ _ eq_refl). lia.
Qed.

Lemma Parse_fuel fs args : Parse fs args <> Err ErrFuel.
Proof. apply parse_loop_fuel. lia. Qed.

(** ** Values in range *)
Lemma duration_loop_nonneg n d s v : 0 <= d -> duration_loop n d s = Ok v -> 0 <= v.
Proof.
  revert d s. induction n as [|n IH]; intros d [|c s] Hd E; try (by injection E as <-); [done|].
  cbn [duration_loop] in E. destruct (duration_part (String c s)) as [[v' r]|]; [|done].
  destruct (_ <? _); [done|]. eapply IH; [|exact E]. unfold u64. by apply Z.mod_pos_bound.
Qed.

Lemma ParseDuration_range s d : ParseDuration s = Ok d -> is_i64 d.
Proof.
  unfold ParseDuration. destruct (sign s) as [neg rest].
  destruct (String.eqb rest "0"); [by intros [= <-]|]. destruct (String.eqb rest ""); [done|].
  destruct (duration_loop (str_len rest) 0 rest) as [v|e] eqn:El; cbn [res_bind]; [|done].
  apply duration_loop_nonneg in El; [|done].
  destruct neg; [intros [= <-]; apply i64_range|].
  destruct (Z.ltb_spec (max63 - 1) v); [done|]. intros [= <-]. unfold is_i64, max63 in *. lia.
Qed.

#[local] Ltac Zify.zify_post_hook ::= Z.to_euclidean_division_equations.

(** ** Durations written in nanoseconds

    The decimal form of a duration with the unit ns reads back exactly. *)
Definition nanos (d : Z) : string :=
  ((if (d <? 0)%Z then "-" else "") ++ pretty (Z.to_N (Z.abs d)) ++ "ns")%string.

Lemma digit_char (x : BinNums.N) :
  (x < 10)%N -> is_digit (pretty_N_char x) = true /\ zcode (pretty_N_char x) - 48 = Z.of_N x.
Proof.
  intros Hx. assert (Hi : In x (map N.of_nat (seq 0 10))).
  { apply in_map_iff. exists (N.to_nat x). split; [lia|]. apply in_seq. lia. }
  revert Hi. simpl. intros H. repeat destruct H as [<-|H]; try done.
Qed.

Lemma leadingInt_go (x : BinNums.N) s :
  (Z.of_N x <= max63) -> leadingInt 0 (pretty_N_go x s) = leadingInt (Z.of_N x) s.
Proof.
  revert s. induction (N.lt_wf_0 x) as [x _ IH]. intros s Hx.
  destruct (N.eq_0_gt_0_cases x) as [->|Hpos]; [by rewrite pretty_N_go_0|].
  rewrite pretty_N_go_step by done. rewrite IH; [|lia|unfold max63 in *; lia].
  destruct (digit_char (x `mod` 10)) as [Hd Hv]; [lia|]. cbn [leadingInt]. rewrite Hd, Hv.
  destruct (Z.ltb_spec (max63 / 10) (Z.of_N (x / 10))); [unfold max63 in *; lia|].
  assert (Z.of_N (x / 10) * 10 + Z.of_N (x `mod` 10) = Z.of_N x) as -> by lia.
  destruct (Z.ltb_spec max63 (Z.of_N x)); [lia|done].
Qed.

Lemma pretty_go_head (x : BinNums.N) s : (0 < x)%N ->
  exists c s', pretty_N_go x s = String c s' /\ is_digit c = true /\ (str_len s <= str_len s')%nat.
Proof.
  revert s. induction (N.lt_wf_0 x) as [x _ IH]. intros s Hx. rewrite pretty_N_go_step by done.
  destruct (digit_char (x `mod` 10)) as [Hd _]; [lia|].
  destruct (N.eq_0_gt_0_cases (x / 10)) as [->|Hpos].
  - rewrite pretty_N_go_0. by eexists _, _.
  - destruct (IH (x / 10)%N ltac:(lia) (String (pretty_N_char (x `mod` 10)) s) Hpos) as (c & s' & -> & Hc & Hl).
    exists c, s'. split; [done|]. split; [done|]. unfold str_len in *. simpl in Hl. lia.
Qed.

Lemma pretty_go_app (x : BinNums.N) s r : (pretty_N_go x s ++ r = pretty_N_go x (s ++ r))%string.
Proof.
  revert s. induction (N.lt_wf_0 x) as [x _ IH]. intros s.
  destruct (N.eq_0_gt_0_cases x) as [->|Hpos]; [by rewrite !pretty_N_go_0|].
  rewrite !(pretty_N_go_step x) by done. rewrite IH by lia. done.
Qed.

Lemma duration_part_nanos y : 0 < y <= max63 ->
  exists c s, pretty_N_go (Z.to_N y) "ns" = String c s /\ is_digit c = true /\ (2 <= str_len s)%nat /\
    duration_part (String c s) = Some (y, ""%string).
Proof.
  intros Hy. destruct (pretty_go_head (Z.to_N y) "ns" ltac:(lia)) as (c & s & He & Hd & Hl).
  exists c, s. split; [done|]. split; [done|]. split; [done|].
  pose proof (leadingInt_go (Z.to_N y) "ns" ltac:(lia)) as Hi. rewrite He in Hi.
  change (leadingInt (Z.of_N (Z.to_N y)) "ns") with (Some (Z.of_N (Z.to_N y), "ns"%string)) in Hi.
  rewrite Z2N.id in Hi by lia. unfold duration_part. unfold num_char at 1. rewrite Hd, orb_true_r, Hi.
  cbn [mbind option_bind]. change (fraction_part "ns") with (0, f64_of_int 1, "ns"%string, false).
  replace (Nat.eqb _ _) with false by (symmetry; apply Nat.eqb_neq; unfold str_len in *; simpl in *; lia).
  cbn [negb andb]. change (take_unit "ns") with ("ns"%string, ""%string). cbv iota beta.
  change (String.eqb "ns" "") with false. change (unitMap "ns") with (Some 1). cbn [mbind option_bind].
  rewrite Z.div_1_r. destruct (Z.ltb_spec max63 y); [lia|]. simpl. by rewrite Z.mul_1_r.
Qed.

Lemma duration_loop_nanos y : 0 < y <= max63 ->
  duration_loop (str_len (pretty_N_go (Z.to_N y) "ns")) 0 (pretty_N_go (Z.to_N y) "ns") = Ok y.
Proof.
  intros Hy. destruct (duration_part_nanos y Hy) as (c & s & -> & _ & Hl & Hp).
  change (str_len (String c s)) with (S (str_len s)). cbn [duration_loop]. rewrite Hp.
  unfold u64. rewrite Z.mod_small by (unfold max63 in *; lia).
  rewrite Z.add_0_l. destruct (Z.ltb_spec max63 y); [lia|]. by destruct (str_len s).
Qed.

Lemma ParseDuration_nanos d : is_i64 d -> ParseDuration (nanos d) = Ok d.
Proof.
  intros Hd. destruct (Z.eq_dec d 0) as [->|Hz]; [by vm_compute|].
  unfold nanos, pretty, pretty_N. rewrite decide_False by lia. rewrite pretty_go_app.
  change ("" ++ "ns")%string with "ns"%string.
  assert (Hy : 0 < Z.abs d <= max63) by (unfold is_i64, max63 in *; lia).
  pose proof (duration_loop_nanos _ Hy) as Hl. destruct (duration_part_nanos _ Hy) as (c & s & He & Hc & Hlen & _).
  assert (Hne : forall n, (str_len n < 3)%nat -> String.eqb (String c s) n = false).
  { intros n Hn. apply String.eqb_neq. intros <-. unfold str_len in *. simpl in *. lia. }
  assert (Hsig : Ascii.eqb c "-" = false /\ Ascii.eqb c "+" = false).
  { split; apply Ascii.eqb_neq; intros ->; done. }
  rewrite He in *. destruct (Z.ltb_spec d 0).
  - unfold ParseDuration. change (sign ("-" ++ String c s)%string) with (true, String c s). cbv iota beta.
    rewrite !Hne by (unfold str_len; simpl; lia). rewrite Hl. cbn [res_bind]. f_equal.
    unfold is_i64, max63, i64 in *. lia.
  - unfold ParseDuration. change ("" ++ String c s)%string with (String c s).
    assert (sign (String c s) = (false, String c s)) as -> by (unfold sign; by destruct Hsig as [-> ->]).
    rewrite !Hne by (unfold str_len; simpl; lia). rewrite Hl. cbn [res_bind].
    destruct (Z.ltb_spec (max63 - 1) (Z.abs d)); [unfold is_i64, max63 in *; lia|]. f_equal. lia.
Qed.

(** ** Parsing whole command lines *)
Lemma parse_loop_more n k fs args r : parse_loop n fs args = Ok r -> parse_loop (n + k) fs args = Ok r.
Proof.
  revert fs args. induction n as [|n IH]; intros fs args; simpl; [done|].
  destruct (parseOne fs args) as [[[[] fs'] args']|e]; simpl; [apply IH|done|done].
Qed.

Lemma Parse_of_loop n fs args r : parse_loop n fs args = Ok r -> Parse fs args = Ok r.
Proof.
  intros H. unfold Parse. pose proof (parse_loop_more _ (S (length args)) _ _ _ H) as H1.
  pose proof (parse_loop_fuel (S (length args)) fs args (Nat.lt_succ_diag_r _)) as Hf.
  assert (Hdet : forall k j fs args e, parse_loop k fs args = Err e -> e <> ErrFuel ->
    parse_loop (k + j) fs args = Err e).
  { clear. induction k as [|k IH]; intros j fs args e; simpl; [by intros [= <-]|].
    destruct (parseOne fs args) as [[[[] fs'] args']|e']; simpl; [apply IH|done|done]. }
  destruct (parse_loop (S (length args)) fs args) as [r'|e] eqn:E.
  - apply (parse_loop_more _ n) in E. rewrite Nat.add_comm in E. congruence.
  - apply (Hdet _ n) in E; [|congruence]. rewrite Nat.add_comm in E. congruence.
Qed.

(** The first argument that is not a flag ends the parsing. *)
Lemma parseOne_app fs args b fs1 args1 pos rest :
  parseOne fs args = Ok (b, fs1, args1) -> arg_of pos = Positional -> (b = false -> args1 = []) ->
  parseOne fs (args ++ pos :: rest) = Ok (b, fs1, args1 ++ pos :: rest).
Proof.
  intros E Hp Hb. destruct args as [|s args]; cbn [parseOne app] in *.
  { injection E as <- <- <-. by rewrite Hp. }
  destruct (arg_of s) as [| |name value|].
  - injection E as <- <- <-. by specialize (Hb eq_refl).
  - by injection E as <- <- <-.
  - destruct (fs !! name) as [v|]; [|done].
    assert (Hset : forall w x l, (v <-? fv_set w x;; Ok (true, <[name:=v]> fs, l)) = Ok (b, fs1, args1) ->
      (v <-? fv_set w x;; Ok (true, <[name:=v]> fs, l ++ pos :: rest)) = Ok (b, fs1, args1 ++ pos :: rest)).
    { intros w x l. destruct (fv_set w x); simpl; [|done]. by intros [= <- <- <-]. }
    destruct v; [|apply Hset, E|..]; (destruct value; [apply Hset, E|]); (destruct args; [done|apply Hset, E]).
  - done.
Qed.

Lemma parse_loop_app n fs args fs' pos rest :
  parse_loop n fs args = Ok (fs', []) -> arg_of pos = Positional ->
  parse_loop n fs (args ++ pos :: rest) = Ok (fs', pos :: rest).
Proof.
  intros E Hp. revert fs args E. induction n as [|n IH]; intros fs args; simpl; [done|].
  destruct (parseOne fs args) as [[[b fs1] args1]|e] eqn:E1; simpl; [|done].
  intros E. rewrite (parseOne_app fs args b fs1 args1 pos rest E1 Hp).
  - simpl. destruct b; [by apply IH|]. injection E as -> ->. done.
  - intros ->. by injection E as -> ->.
Qed.

Lemma Parse_trailing fs args fs' pos rest :
  Parse fs args = Ok (fs', []) -> arg_of pos = Positional ->
  Parse fs (args ++ pos :: rest) = Ok (fs', pos :: rest).
Proof. intros E Hp. eapply Parse_of_loop. by apply parse_loop_app. Qed.

(** Flags given as two arguments, name and value. *)
Definition flag_args (nx : string * string) : list string := [("--" ++ fst nx)%string; snd nx].

Fixpoint set_flags (fs : FlagSet) (l : list (string * string)) : option FlagSet :=
  match l with
  | [] => Some fs
  | (n, x) :: l' =>
    match arg_of ("--" ++ n), fs !! n with
    | FlagArg m None, Some (FBool _) => None
    | FlagArg m None, Some old =>
      if String.eqb m n
      then match fv_set old x with Ok v => set_flags (<[n := v]> fs) l' | Err _ => None end
      else None
    | _, _ => None
    end
  end.

Lemma Parse_pairs fs l fs' : set_flags fs l = Some fs' -> Parse fs (flat_map flag_args l) = Ok (fs', []).
Proof.
  intros H. apply (Parse_of_loop (S (length l))). revert fs H. induction l as [|[n x] l IH]; intros fs H.
  - by injection H as <-.
  - cbn [set_flags] in H. cbn [flat_map flag_args fst snd app length parse_loop]. unfold parseOne at 1.
    destruct (arg_of _) as [| |m value|]; try done. destruct value; [done|].
    destruct (fs !! n) as [old|] eqn:En; [|done].
    assert (Hm : m = n) by (destruct old; try done; by destruct (String.eqb_spec m n)).
    subst m. rewrite En. destruct old; try done; rewrite String.eqb_refl in H;
      destruct (fv_set _ x) as [v|] eqn:Ev; try done; simpl; apply IH, H.
Qed.

Lemma Parse_or_exit_status fs args st : Parse_or_exit fs args = inl st -> st = 0 \/ st = 2.
Proof.
  unfold Parse_or_exit. pose proof (Parse_fuel fs args) as Hf.
  destruct (Parse fs args) as [r|[]]; try done; intros [= <-]; auto.
Qed.

Lemma set_flags_cons fs n x l old v :
  arg_of ("--" ++ n) = FlagArg n None -> fs !! n = Some old ->
  match old with FBool _ => False | _ => True end -> fv_set old x = Ok v ->
  set_flags fs ((n, x) :: l) = set_flags (<[n := v]> fs) l.
Proof.
  intros Ha Hl Ho Hv. cbn [set_flags]. rewrite Ha, Hl, String.eqb_refl, Hv. by destruct old.
Qed.

(** [set_flag] gives the first of a list of flags its value, up to [fv_set]. *)
Ltac set_flag := erewrite set_flags_cons; [|reflexivity|reflexivity|exact I|].
