(* ===== verification/Controller.v ===== *)
(** * The controller process: cmd/outrelay-controller/main.go

    One process serves the registry, the policy and the audit service over one
    database.  The file composes the three servers: each is used through the
    interface [Service], which says that a request never panics, keeps the schema
    constraints and writes only the tables of its service, so what is proved of one
    server holds while the others run.  Then the process itself: the command line,
    the ways start-up fails, and shutdown as a state machine. *)

From Stdlib Require Import ZArith Lia.
From stdpp Require Import base tactics list strings gmap sets.
From S2P Require Import Prelude Store Hub Registry Policy Observe AuditLog GoFlag.

Local Open Scope Z_scope.

(** ** Services over a shared database *)
Class Service (S C : Type) := {
  sv_db : S -> db;
  sv_put : db -> S -> S;
  sv_step : S -> C -> option S;
  (** what the service may read but does not write *)
  sv_foreign : db -> db;
  sv_ok : S -> Prop
}.

Class ServiceLaws (S C : Type) `{Service S C} := {
  sv_put_db : forall d s, sv_db (sv_put d s) = d;
  sv_ok_wf : forall s, sv_ok s -> db_wf (sv_db s);
  sv_ok_put : forall d s, sv_ok s -> db_wf d -> sv_ok (sv_put d s);
  sv_step_ok : forall s c, sv_ok s -> exists s', sv_step s c = Some s' /\ sv_ok s';
  sv_step_frame : forall s c s', sv_ok s -> sv_step s c = Some s' -> sv_foreign (sv_db s') = sv_foreign (sv_db s)
}.

#[export] Instance registry_service : Service Registry.Server Registry.call := {
  sv_db := Registry.srv_db;
  sv_put := Registry.set_db;
  sv_step := Registry.srv_step;
  sv_foreign d := mkDb [] [] [] (db_policies d) (db_audit d);
  sv_ok := Registry.srv_ok
}.

#[export] Instance policy_service : Service Policy.Server Policy.call := {
  sv_db := Policy.srv_db;
  sv_put := Policy.set_db;
  sv_step := Policy.srv_step;
  sv_foreign d := mkDb (db_agents d) (db_services d) (db_relays d) [] (db_audit d);
  sv_ok := Policy.srv_ok
}.

(** A request to the audit service that changes its state. *)
Record audit_call := mkRecord { rc_fault : fault; rc_now : Z; rc_event : option pbAuditEvent }.

#[export] Instance audit_service : Service AuditLog.Server audit_call := {
  sv_db := au_db;
  sv_put d s := AuditLog.mkServer d (au_eventsCnt s);
  sv_step s c := Some (snd (AuditRecord (rc_fault c) (rc_now c) (rc_event c) s));
  sv_foreign d := mkDb (db_agents d) (db_services d) (db_relays d) (db_policies d) [];
  sv_ok s := db_wf (au_db s)
}.

(** ** The process: [store.Open] once, three servers over it *)
Record Controller := mkController {
  ct_db : db;
  ct_registry : exec_state Registry.watch_conf WatchEvent * Z;
  ct_policy : exec_state Policy.watch_conf PolicyEvent * Z;
  ct_events : option Z
}.

(** The servers, each holding the shared database. *)
Definition registry_of (c : Controller) : Registry.Server :=
  Registry.mkServer (ct_db c) (fst (ct_registry c)) (snd (ct_registry c)).
Definition policy_of (c : Controller) : Policy.Server :=
  Policy.mkServer (ct_db c) (fst (ct_policy c)) (snd (ct_policy c)).
Definition audit_of (c : Controller) : AuditLog.Server := AuditLog.mkServer (ct_db c) (ct_events c).

Definition put_registry (s : Registry.Server) (c : Controller) : Controller :=
  mkController (Registry.srv_db s) (Registry.srv_hub s, Registry.srv_nextWatch s) (ct_policy c) (ct_events c).
Definition put_policy (s : Policy.Server) (c : Controller) : Controller :=
  mkController (Policy.srv_db s) (ct_registry c) (Policy.srv_hub s, Policy.srv_nextWatch s) (ct_events c).
Definition put_audit (s : AuditLog.Server) (c : Controller) : Controller :=
  mkController (au_db s) (ct_registry c) (ct_policy c) (au_eventsCnt s).

(** What [main] builds after it opened the database. *)
Definition new_controller (d : db) : Controller :=
  let r := Registry.New d in let p := Policy.New d in let a := AuditLog.New d true in
  mkController d (Registry.srv_hub r, Registry.srv_nextWatch r) (Policy.srv_hub p, Policy.srv_nextWatch p)
    (au_eventsCnt a).

Inductive request :=
| OnRegistry (c : Registry.call)
| OnPolicy (c : Policy.call)
| OnAudit (c : audit_call).

Definition handle (r : request) (c : Controller) : option Controller :=
  match r with
  | OnRegistry k => s ← sv_step (registry_of c) k; Some (put_registry s c)
  | OnPolicy k => s ← sv_step (policy_of c) k; Some (put_policy s c)
  | OnAudit k => s ← sv_step (audit_of c) k; Some (put_audit s c)
  end.

Fixpoint handle_all (rs : list request) (c : Controller) : option Controller :=
  match rs with
  | [] => Some c
  | r :: rs' => c' ← handle r c; handle_all rs' c'
  end.

(** ** The servers implement the interface *)
Lemma registry_store_frame op d :
  match op with
  | OpUpsertAgent _ _ _ _ | OpUpsertRelay _ _ _ _ _ | OpRegister _ _ _ | OpDeregister _ _ _ _ _ _ => True
  | _ => False
  end ->
  db_policies (db_step d op) = db_policies d /\ db_audit (db_step d op) = db_audit d.
Proof.
  destruct op as [f ? ? ?|f ? ? ? ?|f now svc|fq fr fd t a r| | | |]; try done; intros _; simpl.
  - unfold UpsertAgent, Store.exec. by destruct f.
  - unfold Store.UpsertRelay, Store.exec. by destruct f.
  - unfold Store.RegisterService, Store.exec, insert_service. destruct f; [done|]. by repeat case_match; simplify_eq/=.
  - unfold Store.DeregisterAgent, dereg_delete, Store.exec.
    destruct (dereg_select fq fr t a r d), fd; done.
Qed.

Lemma srv_broadcast_db ev tn s s' : srv_broadcast ev tn s = Some s' -> Registry.srv_db s' = Registry.srv_db s.
Proof. unfold srv_broadcast. destruct (hub_step _ _); [|done]. by intros [= <-]. Qed.

Lemma broadcast_removed_db removed tn s s' :
  broadcast_removed removed tn s = Some s' -> Registry.srv_db s' = Registry.srv_db s.
Proof.
  revert s. induction removed as [|v removed IH]; intros s; simpl; [by intros [= <-]|].
  destruct (srv_broadcast _ _ s) as [s1|] eqn:E; [|done]. intros H%IH. rewrite H. by eapply srv_broadcast_db.
Qed.

Lemma registry_step_frame s c s' :
  Registry.srv_step s c = Some s' ->
  db_policies (Registry.srv_db s') = db_policies (Registry.srv_db s) /\
  db_audit (Registry.srv_db s') = db_audit (Registry.srv_db s).
Proof.
  destruct c as [st req|fq fr fd req|f now req|q req|q|q]; simpl.
  - unfold Registry.RegisterService. destruct (_ || _ || _ || _); [by intros [= <-]|].
    pose proof (registry_store_frame (OpUpsertAgent (st_f1 st) (st_now1 st) (rq_Tenant req) (rq_AgentUri req))
      (Registry.srv_db s) I) as H1. simpl in H1.
    destruct (UpsertAgent _ _ _ _ _) as [[[]|e] d1]; simpl in H1; [|by intros [= <-]].
    set (svc := mkService _ _ _ _ _ _ _ _ _).
    pose proof (registry_store_frame (OpRegister (st_f2 st) (st_now2 st) svc) d1 I) as H2. simpl in H2.
    destruct (Store.RegisterService _ _ svc d1) as [[id|e] d2]; simpl in H2.
    + destruct (srv_broadcast _ _ _) as [s2|] eqn:E; [|done]. intros [= <-].
      apply srv_broadcast_db in E. rewrite E. simpl. destruct H1, H2. split; congruence.
    + intros [= <-]. simpl. destruct H1, H2. split; congruence.
  - unfold Registry.DeregisterAgent.
    pose proof (registry_store_frame (OpDeregister fq fr fd (dq_Tenant req) (dq_AgentUri req) (dq_RelayId req))
      (Registry.srv_db s) I) as H1. simpl in H1.
    destruct (Store.DeregisterAgent _ _ _ _ _ _ _) as [[removed|e] d]; simpl in H1; [|by intros [= <-]].
    destruct (broadcast_removed _ _ _) as [s2|] eqn:E; [|done]. intros [= <-].
    apply broadcast_removed_db in E. by rewrite E.
  - unfold Registry.UpsertRelay. destruct (_ || _); [by intros [= <-]|].
    pose proof (registry_store_frame (OpUpsertRelay f now (uq_Id req) (uq_Region req) (uq_Endpoint req))
      (Registry.srv_db s) I) as H1. simpl in H1.
    destruct (Store.UpsertRelay _ _ _ _ _ _) as [[] d]; simpl in H1; by intros [= <-].
  - unfold Watch_start. destruct (hub_step _ _); [|done]. by intros [= <-].
  - unfold Registry.hub_only. destruct (hub_step _ _); [|done]. by intros [= <-].
  - unfold Registry.hub_only. destruct (hub_step _ _); [|done]. by intros [= <-].
Qed.

#[export] Instance registry_laws : ServiceLaws Registry.Server Registry.call.
Proof.
  split; simpl; try done.
  - by intros s [? _].
  - intros d s. apply set_db_ok.
  - apply Registry.srv_step_ok.
  - intros s c s' _ [-> ->]%registry_step_frame. done.
Qed.

Lemma policy_hub_only_ok op s : Policy.srv_ok s -> exists s', Policy.hub_only op s = Some s' /\
  Policy.srv_ok s' /\ Policy.srv_db s' = Policy.srv_db s.
Proof.
  intros [Hwf Hok]. destruct (hub_step_ok _ op Hok) as (x & He & Hx).
  unfold Policy.hub_only. rewrite He. by eexists.
Qed.

(** A policy handler never panics, keeps the schema and writes only its table. *)
Lemma policy_step_ok s c : Policy.srv_ok s ->
  exists s', Policy.srv_step s c = Some s' /\ Policy.srv_ok s' /\
    sv_foreign (Service := policy_service) (Policy.srv_db s') =
    sv_foreign (Service := policy_service) (Policy.srv_db s).
Proof.
  intros Hs. assert (Hput : forall d, db_wf d -> Policy.srv_ok (Policy.set_db d s)) by (by destruct Hs).
  assert (Hid := Hput _ (proj1 Hs)).
  destruct c as [f now uuid rule|f tn id|q tn|q|q]; simpl.
  - unfold Policy.AddPolicy, AddPolicy_store. destruct rule as [r|]; [|eexists; split; [done|]; by auto].
    destruct (_ || _ || _); [eexists; split; [done|]; by auto|].
    destruct (r_Decision r =? _); [eexists; split; [done|]; by auto|].
    set (id := if String.eqb (r_Id r) "" then uuid else r_Id r).
    pose proof (db_step_wf _ (OpAddPolicy f now (rule_row id r)) (proj1 Hs)) as Hwf. simpl in Hwf.
    assert (Hfr : sv_foreign (Service := policy_service) (snd (Store.AddPolicy f now (rule_row id r) (Policy.srv_db s))) =
      sv_foreign (Service := policy_service) (Policy.srv_db s)).
    { unfold Store.AddPolicy, Store.exec, insert_policy. destruct f; [done|]. by repeat case_match; simplify_eq/=. }
    simpl in Hfr. destruct (Store.AddPolicy _ _ _ _) as [[[]|e] d]; simpl in *; [|eexists; by auto].
    destruct (policy_hub_only_ok (OpBroadcast (added_event (with_id id r)) (r_Tenant r)) (Policy.set_db d s))
      as (s' & -> & Hs' & Hdb); [by destruct Hs|]. exists s'. simpl. by rewrite Hdb.
  - unfold Policy.RemovePolicy.
    pose proof (db_step_wf _ (OpRemovePolicy f tn id) (proj1 Hs)) as Hwf. simpl in Hwf.
    assert (Hfr : sv_foreign (Service := policy_service) (snd (Store.RemovePolicy f tn id (Policy.srv_db s))) =
      sv_foreign (Service := policy_service) (Policy.srv_db s)).
    { unfold Store.RemovePolicy, Store.exec. by destruct f. }
    simpl in Hfr. destruct (Store.RemovePolicy _ _ _ _) as [[[]|e] d]; simpl in *; try (eexists; by auto).
    destruct (policy_hub_only_ok (OpBroadcast (removed_event id) tn) (Policy.set_db d s))
      as (s' & -> & Hs' & Hdb); [by destruct Hs|]. exists s'. simpl. by rewrite Hdb.
  - destruct (policy_hub_only_ok (Hub.OpAdd q (Policy.mkConf (u64 (Policy.srv_nextWatch s + 1)) tn))
      (Policy.mkServer (Policy.srv_db s) (Policy.srv_hub s) (u64 (Policy.srv_nextWatch s + 1))) Hs)
      as (s' & He & Hs' & Hdb). exists s'. unfold Watch_register. rewrite He, Hdb. done.
  - destruct (policy_hub_only_ok (Hub.OpRecv q) s Hs) as (s' & He & Hs' & Hdb). exists s'. by rewrite He, Hdb.
  - destruct (policy_hub_only_ok (Hub.OpRemove q) s Hs) as (s' & He & Hs' & Hdb). exists s'. by rewrite He, Hdb.
Qed.

#[export] Instance policy_laws : ServiceLaws Policy.Server Policy.call.
Proof.
  split; try done.
  - by intros s [? _].
  - by intros d s [_ ?] ?.
  - intros s c Hs. destruct (policy_step_ok s c Hs) as (s' & He & Hs' & _). by exists s'.
  - intros s c s' Hs. destruct (policy_step_ok s c Hs) as (s1 & He & _ & Hfr). simpl in *.
    rewrite He. by intros [= <-].
Qed.

#[export] Instance audit_laws : ServiceLaws AuditLog.Server audit_call.
Proof.
  split; try done.
  - intros s [f now [ev|]] Hs; simpl; [|by exists s].
    pose proof (db_step_wf _ (OpRecordAudit f now (to_row ev)) Hs) as Hwf. simpl in Hwf.
    eexists. split; [done|]. simpl. by destruct (RecordAudit _ _ _ _) as [[] d].
  - intros s [f now [ev|]] s' _; simpl; [|by intros [= <-]].
    unfold RecordAudit, Store.exec. by destruct f; intros [= <-].
Qed.

(** ** The composed server *)
Definition ctl_ok (c : Controller) : Prop :=
  sv_ok (registry_of c) /\ sv_ok (policy_of c) /\ sv_ok (audit_of c).

Lemma new_controller_ok d : db_wf d -> ctl_ok (new_controller d).
Proof. intros Hd. split; [|split; [|done]]; (split; [done|apply new_exec_ok]). Qed.

Lemma handle_ok r c : ctl_ok c -> exists c', handle r c = Some c' /\ ctl_ok c'.
Proof.
  intros (Hr & Hp & Ha). destruct r as [k|k|k]; cbn [handle].
  - destruct (sv_step_ok _ k Hr) as (s & -> & Hs). eexists. split; [done|].
    pose proof (sv_ok_wf _ Hs) as Hwf. split; [by destruct s|]. split; [|done]. exact (sv_ok_put (S := Policy.Server) (C := Policy.call) _ _ Hp Hwf).
  - destruct (sv_step_ok _ k Hp) as (s & -> & Hs). eexists. split; [done|].
    pose proof (sv_ok_wf _ Hs) as Hwf. split; [exact (sv_ok_put (S := Registry.Server) (C := Registry.call) _ _ Hr Hwf)|]. split; [by destruct s|done].
  - destruct (sv_step_ok _ k Ha) as (s & -> & Hs). eexists. split; [done|].
    pose proof (sv_ok_wf _ Hs) as Hwf. split; [exact (sv_ok_put (S := Registry.Server) (C := Registry.call) _ _ Hr Hwf)|].
    split; [exact (sv_ok_put (S := Policy.Server) (C := Policy.call) _ _ Hp Hwf)|done].
Qed.

Lemma handle_all_ok rs c : ctl_ok c -> exists c', handle_all rs c = Some c' /\ ctl_ok c'.
Proof.
  revert c. induction rs as [|r rs IH]; intros c Hc; [by exists c|].
  destruct (handle_ok r c Hc) as (c1 & He & Hc1). simpl. rewrite He. by apply IH.
Qed.

(** Each server's watchers stay exact while any service handles a request. *)
Lemma handle_registry_follow t p F m r c c' :
  t <> ""%string -> ctl_ok c -> handle r c = Some c' ->
  Registry.follows t p F m (registry_of c) -> Registry.follows t p F m (registry_of c').
Proof.
  intros Ht Hc He Hr. destruct (handle_ok r c Hc) as (c1 & He1 & Hc'). rewrite He in He1.
  injection He1 as <-. pose proof (sv_ok_wf _ (proj1 Hc')) as Hwf. destruct Hc as (Hcr & Hcp & Hca).
  destruct r as [k|k|k]; cbn [handle] in He.
  - destruct (srv_step_follows t p F m _ k Ht Hr) as (s & E & Hs). simpl in He. rewrite E in He.
    injection He as <-. by destruct s.
  - destruct (sv_step (policy_of c) k) as [s|] eqn:E; [|done]. injection He as <-.
    pose proof (sv_step_frame _ _ _ Hcp E) as Hfr. injection Hfr as _ Hsvc _ _.
    by apply (follows_set_db t p F m (registry_of c)).
  - destruct (sv_step (audit_of c) k) as [s|] eqn:E; [|done]. injection He as <-.
    pose proof (sv_step_frame _ _ _ Hca E) as Hfr. injection Hfr as _ Hsvc _ _.
    by apply (follows_set_db t p F m (registry_of c)).
Qed.

Lemma handle_policy_follow u q sent r c c' :
  u <> ""%string -> ctl_ok c -> handle r c = Some c' ->
  Policy.follows u q sent (policy_of c) -> Policy.follows u q sent (policy_of c').
Proof.
  intros Hu Hc He Hp. destruct (handle_ok r c Hc) as (c1 & He1 & Hc'). rewrite He in He1.
  injection He1 as <-. pose proof (sv_ok_wf _ (proj1 Hc')) as Hwf. destruct Hc as (Hcr & Hcp & Hca).
  destruct r as [k|k|k]; cbn [handle] in He.
  - destruct (sv_step (registry_of c) k) as [s|] eqn:E; [|done]. injection He as <-.
    pose proof (sv_step_frame _ _ _ Hcr E) as Hfr. injection Hfr as Hpol _.
    by apply (policy_follows_set_db u q sent (policy_of c)).
  - destruct (policy_srv_step_follows u q sent _ k Hu Hp) as (s & E & Hs). simpl in He. rewrite E in He.
    injection He as <-. by destruct s.
  - destruct (sv_step (audit_of c) k) as [s|] eqn:E; [|done]. injection He as <-.
    pose proof (sv_step_frame _ _ _ Hca E) as Hfr. injection Hfr as _ _ _ Hpol.
    by apply (policy_follows_set_db u q sent (policy_of c)).
Qed.

(** An invariant of single requests holds over all of them. *)
Lemma handle_all_inv (P : Controller -> Prop) rs c c' :
  (forall r c c', ctl_ok c -> handle r c = Some c' -> P c -> P c') ->
  ctl_ok c -> handle_all rs c = Some c' -> P c -> P c'.
Proof.
  intros HP. revert c. induction rs as [|r rs IH]; intros c Hc; simpl; [by intros [= <-]|].
  destruct (handle_ok r c Hc) as (c1 & He & Hc1). rewrite He. simpl. intros H Hp. eauto.
Qed.

Lemma Watch_open_db `{OrderBy} p t errs s s1 sent :
  Policy.srv_ok s -> Watch_open None None p t errs s = Some (inl (s1, sent)) ->
  Policy.srv_db s1 = Policy.srv_db s /\ Policy.srv_ok s1.
Proof.
  intros Hs. unfold Watch_open, Watch_id, Watch_register. cbv zeta beta.
  destruct (Watch_list _ _ _ _) as [rows|e]; [|done].
  destruct (policy_hub_only_ok (Hub.OpAdd p (Policy.mkConf (u64 (Policy.srv_nextWatch s + 1)) t))
    (Policy.mkServer (Policy.srv_db s) (Policy.srv_hub s) (u64 (Policy.srv_nextWatch s + 1))) Hs)
    as (s' & -> & Hs' & Hdb). cbn [mbind option_bind].
  destruct (send_all _ errs) as [sent' [e|]]; [by destruct (Policy.hub_only _ s')|].
  by intros [= <- <-].
Qed.

(** ** Properties of the composed server *)

(** C13. Replicas of both kinds stay exact in one process, for requests handled one at a
    time: after any requests to the three services on any database that satisfies the
    schema, let one client start a registry watch of a tenant, for some names or all,
    then, after any further requests, a relay open its policy watch of a tenant with no
    request in between.  However requests to the registry, the policy and the audit
    service follow each other afterwards, no handler panics, and as long as the watchers
    are registered the registry events give exactly the tenant's bindings of the names
    asked for, and the policy events give the tenant's rules up to [same_rule]: equal but
    for the creation time and for numbers the protocol does not name. *)
Theorem controller_watchers_exact `{OrderByLaws} (d : db) (rs0 rs1 rs2 : list request)
    (t u : string) (names : list string) (p q : ptr) (errs : list (option Z)) (c0 c1 c2 : Controller)
    (s : Policy.Server) (sent : list PolicyEvent) :
  db_wf d -> t <> ""%string -> u <> ""%string ->
  handle_all rs0 (new_controller d) = Some c0 ->
  h_mem (x_hub (fst (ct_registry c0))) !! p = None ->
  handle (OnRegistry (Registry.CallWatch p (mkWatchReq t names))) c0 = Some c1 ->
  handle_all rs1 c1 = Some c2 ->
  h_mem (x_hub (fst (ct_policy c2))) !! q = None ->
  Watch_open None None q u errs (policy_of c2) = Some (inl (s, sent)) ->
  exists c3, handle_all rs2 (put_policy s c2) = Some c3 /\
    (forall w n, h_mem (x_hub (fst (ct_registry c3))) !! p = Some w ->
       p ∈ h_watchers (x_hub (fst (ct_registry c3))) -> names = [] \/ n ∈ names ->
       Registry.replay (fun n => bound t n (ct_db c0)) (x_got (fst (ct_registry c3)) p ++ w_ch w) n =
         bound t n (ct_db c3)) /\
    (forall w id, h_mem (x_hub (fst (ct_policy c3))) !! q = Some w ->
       q ∈ h_watchers (x_hub (fst (ct_policy c3))) ->
       option_Forall2 same_rule (Policy.replay (sent ++ x_got (fst (ct_policy c3)) q ++ w_ch w) id)
         (stored u (ct_db c3) id)).
Proof.
  intros Hd Ht Hu R0 Hp R1 R2 Hq Ho.
  destruct (handle_all_ok rs0 _ (new_controller_ok d Hd)) as (c0' & R0' & Hc0).
  rewrite R0 in R0'. injection R0' as <-.
  destruct (handle_ok (OnRegistry (Registry.CallWatch p (mkWatchReq t names))) c0 Hc0) as (c1' & R1' & Hc1).
  rewrite R1 in R1'. injection R1' as <-.
  assert (Hr1 : Registry.follows t p (nameSet names) (fun n => bound t n (ct_db c0)) (registry_of c1)).
  { cbn [handle] in R1. destruct (sv_step (registry_of c0) _) as [s1|] eqn:E; [|done]. injection R1 as <-.
    destruct (Watch_start_follows p t names (registry_of c0) s1 (proj1 Hc0) Hp E) as [Hf _]. by destruct s1. }
  destruct (handle_all_ok rs1 c1 Hc1) as (c2' & R2' & Hc2). rewrite R2 in R2'. injection R2' as <-.
  assert (Hr2 := handle_all_inv _ rs1 c1 c2 (fun r c c' => handle_registry_follow t p _ _ r c c' Ht) Hc1 R2 Hr1).
  pose proof (Watch_open_follows q u errs (policy_of c2) s sent (proj1 (proj2 Hc2)) Hq Ho) as Hp3.
  destruct (Watch_open_db q u errs _ s sent (proj1 (proj2 Hc2)) Ho) as [Hdb Hs].
  assert (Hc3 : ctl_ok (put_policy s c2)).
  { destruct Hc2 as (Hcr & _ & Hca). split; [|split]; [|by destruct s|by apply Hs]. split; [apply Hs|apply Hcr]. }
  destruct (handle_all_ok rs2 _ Hc3) as (c3 & R3 & Hok3). exists c3. split; [done|]. split.
  - assert (Hr3 : Registry.follows t p (nameSet names) (fun n => bound t n (ct_db c0)) (registry_of (put_policy s c2))).
    { apply (follows_set_db t p _ _ (registry_of c2) (Policy.srv_db s)); [done|apply Hs|]. by rewrite Hdb. }
    destruct (handle_all_inv _ rs2 _ c3 (fun r c c' => handle_registry_follow t p _ _ r c c' Ht) Hc3 R3 Hr3)
      as [_ [[_ Hok] _ Hv]].
    intros w n Hw Hreg Hn. destruct (Hok p w Hw) as [_ [(_ & _ & Hl)|(? & _)]]; [|done]. simpl in Hl. rewrite Hl.
    by apply Hv, sees_names.
  - assert (Hp3' : Policy.follows u q sent (policy_of (put_policy s c2))) by (by destruct s).
    destruct (handle_all_inv _ rs2 _ c3 (fun r c c' => handle_policy_follow u q sent r c c' Hu) Hc3 R3 Hp3')
      as (_ & k & log & Htr & Hv).
    intros w id Hw Hreg. pose proof (tracks_delivered _ _ _ _ w Htr Hw Hreg) as Hl. simpl in Hl. by rewrite Hl.
Qed.

(** A registration before the watches, one after, a rule and an audit event. *)
Lemma controller_watchers_exact_witness :
  exists c1 s c3,
    handle (OnRegistry (Registry.CallWatch 1%positive (mkWatchReq "acme" []))) (new_controller empty_db) = Some c1 /\
    Watch_open None None 2%positive "acme" [] (policy_of c1) = Some (inl (s, [snapshot_end])) /\
    handle_all [OnRegistry (CallRegister plain_stmts (mkRegisterReq "acme" "db" "a1" "r1" ""));
      OnPolicy (CallAdd None 5 "u" (Some (demo_rule "" "acme")));
      OnAudit (mkRecord None 6 (Some (mkPbAudit 0 "acme" "c" "db" "" 1 "" "")))] (put_policy s c1) = Some c3 /\
    (forall w n, h_mem (x_hub (fst (ct_registry c3))) !! 1%positive = Some w ->
       1%positive ∈ h_watchers (x_hub (fst (ct_registry c3))) -> @nil string = [] \/ n ∈ @nil string ->
       Registry.replay (fun n => bound "acme" n empty_db) (x_got (fst (ct_registry c3)) 1%positive ++ w_ch w) n =
         bound "acme" n (ct_db c3)).
Proof.
  destruct (handle_ok (OnRegistry (Registry.CallWatch 1%positive (mkWatchReq "acme" []))) (new_controller empty_db)
    (new_controller_ok empty_db empty_db_wf)) as (c1 & H1 & Hc1).
  assert (Hq : (fun c => h_mem (x_hub (fst (ct_policy c))) !! 2%positive) <$>
    handle (OnRegistry (Registry.CallWatch 1%positive (mkWatchReq "acme" []))) (new_controller empty_db) = Some None)
    by (vm_compute; reflexivity).
  rewrite H1 in Hq. injection Hq as Hq.
  assert (Hw : (fun c => match Watch_open None None 2%positive "acme" [] (policy_of c) with
      | Some (inl (_, sent)) => sent | _ => [] end) <$>
    handle (OnRegistry (Registry.CallWatch 1%positive (mkWatchReq "acme" []))) (new_controller empty_db) =
      Some [snapshot_end]) by (vm_compute; reflexivity).
  rewrite H1 in Hw. cbn [fmap option_fmap option_map] in Hw. injection Hw as Hw.
  destruct (Watch_open None None 2%positive "acme" [] (policy_of c1)) as [[[s sent]|]|] eqn:Ho; try discriminate Hw.
  subst sent.
  destruct (controller_watchers_exact empty_db [] []
    [OnRegistry (CallRegister plain_stmts (mkRegisterReq "acme" "db" "a1" "r1" ""));
     OnPolicy (CallAdd None 5 "u" (Some (demo_rule "" "acme")));
     OnAudit (mkRecord None 6 (Some (mkPbAudit 0 "acme" "c" "db" "" 1 "" "")))]
    "acme" "acme" [] 1%positive 2%positive [] (new_controller empty_db) c1 c1 s [snapshot_end] empty_db_wf
    ltac:(discriminate) ltac:(discriminate) eq_refl eq_refl H1 eq_refl Hq Ho) as (c3 & H3 & Hr & _).
  exists c1, s, c3. split; [exact H1|]. split; [exact Ho|]. split; [exact H3|exact Hr].
Defined.

(** The events counter of the metrics registry counts the audit rows written since the
    process started: no other service writes that table, and a record that is refused
    or fails is not counted. *)
Theorem events_counter_exact (d : db) (rs : list request) (c : Controller) :
  db_wf d -> handle_all rs (new_controller d) = Some c ->
  exists new, db_audit (ct_db c) = db_audit d ++ new /\ ct_events c = Some (i64 (zlen new)).
Proof.
  intros Hd Hrun. refine (handle_all_inv (fun c => exists new, db_audit (ct_db c) = db_audit d ++ new /\
    ct_events c = Some (i64 (zlen new))) rs (new_controller d) c _ (new_controller_ok d Hd) Hrun _).
  - clear. intros r c c' (Hcr & Hcp & Hca) He (new & Hdb & Hev). destruct r as [k|k|k]; cbn [handle] in He.
    + destruct (sv_step (registry_of c) k) as [s|] eqn:E; [|done]. injection He as <-.
      pose proof (sv_step_frame _ _ _ Hcr E) as Hfr. injection Hfr as _ Haud. exists new. simpl in *.
      by rewrite Haud.
    + destruct (sv_step (policy_of c) k) as [s|] eqn:E; [|done]. injection He as <-.
      pose proof (sv_step_frame _ _ _ Hcp E) as Hfr. injection Hfr as _ _ _ Haud. exists new. simpl in *.
      by rewrite Haud.
    + destruct k as [f now [ev|]]; [|injection He as <-; by exists new].
      cbn in He. unfold RecordAudit, Store.exec in He. destruct f as [e|]; injection He as <-; [by exists new|].
      eexists (new ++ [_]). simpl. rewrite Hdb, <- app_assoc. split; [done|]. rewrite Hev. simpl. f_equal.
      unfold Counter_Inc, Counter_Add. rewrite zlen_app. unfold zlen at 2. simpl. apply i64_add_l.
  - exists []. by rewrite app_nil_r.
Qed.

Lemma events_counter_exact_witness :
  exists c new, handle_all [OnAudit (mkRecord None 6 (Some (mkPbAudit 0 "acme" "c" "db" "" 1 "" "")));
      OnAudit (mkRecord None 7 None)] (new_controller empty_db) = Some c /\
    db_audit (ct_db c) = db_audit empty_db ++ new /\ ct_events c = Some (i64 (zlen new)).
Proof.
  eexists. destruct (events_counter_exact empty_db
    [OnAudit (mkRecord None 6 (Some (mkPbAudit 0 "acme" "c" "db" "" 1 "" "")));
     OnAudit (mkRecord None 7 None)] _ empty_db_wf eq_refl) as (new & H1 & H2).
  exists new. split; [reflexivity|]. split; [exact H1|exact H2].
Defined.

(** ** Start-up *)
Inductive log_level := LevelDebug | LevelInfo | LevelWarn | LevelError.

Definition parseLogLevel (s : string) : log_level :=
  if String.eqb s "debug" then LevelDebug
  else if String.eqb s "warn" then LevelWarn
  else if String.eqb s "error" then LevelError
  else LevelInfo.

Inductive log_handler := JSONHandler (l : log_level) | TextHandler (l : log_level).

Definition newLogger (format level : string) : log_handler :=
  if String.eqb format "json" then JSONHandler (parseLogLevel level)
  else TextHandler (parseLogLevel level).

(** The flags of [main] with their defaults. *)
Definition controller_flags : FlagSet :=
  {[ "listen" := FString "127.0.0.1:7444"; "db" := FString "outrelay-controller.db";
     "debug-listen" := FString "127.0.0.1:9101"; "log-format" := FString "text";
     "log-level" := FString "info"; "version" := FBool false ]}%string.

(** What [main] runs with: the log handler, the database, the debug listener's
    address if there is one, the address served. *)
Record serving := mkServing {
  sg_log : log_handler;
  sg_debug : option string;
  sg_listen : string;
  sg_controller : Controller
}.

(** What the driver does with a DSN: its errors for opening and for the schema, and the
    tables it finds. *)
Record driver := mkDriver { dr_open : fault; dr_schema : fault; dr_file : option db }.

(** [main] up to [srv.Serve]; [inl] is the exit status.  [listen] tells whether the
    address can be bound. *)
Definition controller_main (drv : string -> driver) (listen : string -> bool) (args : list string)
  : Z + serving :=
  match Parse_or_exit controller_flags args with
  | inl status => inl status
  | inr (fs, _) =>
    if get_bool "version" fs then inl 0
    else
      let dr := drv (get_string "db" fs) in
      match Open (dr_open dr) (dr_schema dr) (dr_file dr) with
      | Err _ => inl 1
      | Ok d =>
        if listen (get_string "listen" fs) then
          inr (mkServing (newLogger (get_string "log-format" fs) (get_string "log-level" fs))
                 (if String.eqb (get_string "debug-listen" fs) "" then None
                  else Some (get_string "debug-listen" fs))
                 (get_string "listen" fs) (new_controller d))
        else inl 1
      end
  end.

(** The command line that gives every string flag a value. *)
Definition controller_args (listen db debug format level : string) : list string :=
  flat_map flag_args [("listen", listen); ("db", db); ("debug-listen", debug); ("log-format", format);
    ("log-level", level)]%string.

(** Start-up on any command line: the process exits with status 0, 1 or 2, or serves
    on an address that could be bound, with a controller whose invariants hold and never
    a debug listener on the empty address.  With the flags given, it serves with exactly
    the given settings on the tables found under the DSN, none if there are none, and
    exits with status 1 when the database cannot be opened, the schema not applied or
    the address not bound. *)
Theorem controller_start (drv : string -> driver) (listen : string -> bool) :
  (forall dsn d, dr_file (drv dsn) = Some d -> db_wf d) ->
  (forall args,
     match controller_main drv listen args with
     | inl status => status = 0 \/ status = 1 \/ status = 2
     | inr sg => ctl_ok (sg_controller sg) /\ listen (sg_listen sg) = true /\ sg_debug sg <> Some ""%string
     end) /\
  (forall addr dsn debug format level,
     controller_main drv listen (controller_args addr dsn debug format level) =
     if decide (dr_open (drv dsn) = None /\ dr_schema (drv dsn) = None /\ listen addr = true)
     then inr (mkServing (newLogger format level) (if String.eqb debug "" then None else Some debug) addr
                 (new_controller (default empty_db (dr_file (drv dsn)))))
     else inl 1).
Proof.
  intros Hwf. split.
  - intros args. unfold controller_main. destruct (Parse_or_exit controller_flags args) as [st|[fs rest]] eqn:E.
    + apply Parse_or_exit_status in E. naive_solver.
    + destruct (get_bool "version" fs); [auto|]. cbv zeta. unfold Open.
      destruct (dr_open _); [auto|]. destruct (dr_schema _); [auto|].
      destruct (listen _) eqn:El; [|auto]. split; [|split; [done|]].
      * apply new_controller_ok. destruct (dr_file _) as [d|] eqn:Ef; [by eapply Hwf|apply empty_db_wf].
      * simpl. destruct (String.eqb_spec (get_string "debug-listen" fs) ""); congruence.
  - intros addr dsn debug format level. unfold controller_main, Parse_or_exit, controller_args.
    erewrite Parse_pairs by (do 5 (set_flag; [|reflexivity]); reflexivity).
    change (get_string "db" _) with dsn. change (get_string "listen" _) with addr. cbn -[decide]. unfold Open.
    destruct (dr_open (drv dsn)); [by rewrite decide_False by naive_solver|].
    destruct (dr_schema (drv dsn)); [by rewrite decide_False by naive_solver|].
    destruct (listen addr); [by rewrite decide_True|by rewrite decide_False by naive_solver].
Qed.

Lemma controller_start_witness :
  controller_main (fun _ => mkDriver None None None) (fun _ => true)
    (controller_args ":7444" ":memory:" "" "json" "warn") =
  inr (mkServing (JSONHandler LevelWarn) None ":7444" (new_controller empty_db)).
Proof.
  refine (proj2 (controller_start (fun _ => mkDriver None None None) (fun _ => true) _) _ _ _ _ _).
  intros dsn d [=].
Defined.
