(* ===== verification/Process.v ===== *)
(** * Signals and shutdown of the controller: cmd/outrelay-controller/main.go

    Three goroutines after start-up: [main] calls [srv.Serve] and turns its result into
    the exit status; the goroutine of [signalContext] takes one signal from a channel with
    room for one and cancels the context; a third one waits for the context and calls
    [srv.GracefulStop].  The gRPC server is a parameter: the class [GrpcServer] has the
    calls the code makes, [GrpcLaws] what the package documents about them.  The
    theorems quantify over all interleavings of the goroutines, of signals and of
    whatever the server does by itself. *)

From Stdlib Require Import ZArith Lia.
From stdpp Require Import base tactics list gmap sets.
From S2P Require Import Prelude.

Local Open Scope Z_scope.

(** ** The gRPC server *)
Class GrpcServer (G : Type) := {
  g_new : G;
  g_serve : G -> G;             (** [Serve] is called *)
  g_stop : G -> G;              (** [GracefulStop] is called *)
  g_turn : G -> Z -> G;         (** the server, its connections or its listener do something *)
  g_served : G -> option (option Z); (** whether [Serve] has returned, and its error *)
  g_pending : G -> bool         (** requests are in flight or connections being closed *)
}.

(** The states of a server on which [Serve] and [GracefulStop] were called, or not. *)
Inductive g_run {G} `{GrpcServer G} : bool -> bool -> G -> Prop :=
| run_new : g_run false false g_new
| run_serve stopped g : g_run false stopped g -> g_run true stopped (g_serve g)
| run_stop served g : g_run served false g -> g_run served true (g_stop g)
| run_turn served stopped g x : g_run served stopped g -> g_run served stopped (g_turn g x).

Class GrpcLaws (G : Type) `{GrpcServer G} := {
  (** non-nil error unless Stop or GracefulStop is called *)
  serve_nil : forall g, g_run true false g -> g_served g <> Some None;
  (** ErrServerStopped when called after GracefulStop *)
  serve_stopped : forall g, g_run false true g -> exists e, g_served (g_serve g) = Some (Some e);
  (** after GracefulStop, once nothing is pending, [Serve] has returned *)
  stop_returns : forall g, g_run true true g -> g_pending g = false -> g_served g <> None
}.

Section Process.
Context {G : Type} `{GrpcLaws G}.

Inductive main_at := BeforeServe | InServe | Exited (status : Z).

Record process := mkProcess {
  pr_sigC : bool;      (** a signal in the channel *)
  pr_notified : bool;  (** the goroutine of [signalContext] has taken its signal *)
  pr_cancelled : bool; (** the context *)
  pr_stopping : bool;  (** the third goroutine has called [GracefulStop] *)
  pr_main : main_at;
  pr_grpc : G
}.

Definition new_process : process := mkProcess false false false false BeforeServe g_new.

Inductive pr_event :=
| Signal          (** SIGINT or SIGTERM arrives *)
| TakeSignal      (** the goroutine of [signalContext] gets a turn *)
| CallStop        (** the goroutine waiting for the context gets a turn *)
| CallServe       (** [main] gets to [Serve] *)
| ServeReturns    (** [main] gets a turn in [Serve] *)
| Grpc (x : Z).   (** the server does something *)

(** One event; a goroutine that cannot go on stays where it is, and nothing happens
    after the exit. *)
Definition pr_step (p : process) (e : pr_event) : process :=
  let '(mkProcess sigC notified cancelled stopping main g) := p in
  match main with
  | Exited _ => p
  | _ =>
    match e with
    | Signal => mkProcess true notified cancelled stopping main g
    | TakeSignal => if sigC && negb notified then mkProcess false true true stopping main g else p
    | CallStop =>
      if cancelled && negb stopping then mkProcess sigC notified cancelled true main (g_stop g) else p
    | CallServe =>
      match main with
      | BeforeServe => mkProcess sigC notified cancelled stopping InServe (g_serve g)
      | _ => p
      end
    | ServeReturns =>
      match main, g_served g with
      | InServe, Some None => mkProcess sigC notified cancelled stopping (Exited 0) g
      | InServe, Some (Some _) => mkProcess sigC notified cancelled stopping (Exited 1) g
      | _, _ => p
      end
    | Grpc x => mkProcess sigC notified cancelled stopping main (g_turn g x)
    end
  end.

Definition pr_run (es : list pr_event) (p : process) : process := fold_left pr_step es p.

Definition exited (p : process) : bool := match pr_main p with Exited _ => true | _ => false end.

(** ** Invariant *)
Definition in_serve (m : main_at) : bool := match m with BeforeServe => false | _ => true end.

Record process_ok (signalled : bool) (p : process) : Prop := {
  po_grpc : g_run (in_serve (pr_main p)) (pr_stopping p) (pr_grpc p);
  po_notified : pr_notified p = pr_cancelled p;
  po_stopping : pr_stopping p = true -> pr_cancelled p = true;
  po_signal : pr_sigC p || pr_cancelled p = true -> signalled = true;
  po_arrived : exited p = false -> signalled = true -> pr_sigC p || pr_cancelled p = true;
  po_exit : forall st, pr_main p = Exited st ->
    (st = 0 /\ g_served (pr_grpc p) = Some None) \/ (st = 1 /\ exists e, g_served (pr_grpc p) = Some (Some e))
}.

Definition is_signal (e : pr_event) : bool := match e with Signal => true | _ => false end.

Lemma new_process_ok : process_ok false new_process.
Proof. split; simpl; try done. apply run_new. Qed.

Lemma pr_step_ok b p e : process_ok b p -> process_ok (b || is_signal e) (pr_step p e).
Proof.
  intros [Hg Hn Hs Hb Ha Hx]. destruct p as [sigC notified cancelled stopping main g]. simpl in *. subst notified.
  assert (Hsame : forall b', (b = true -> b' = true) -> (exited (mkProcess sigC cancelled cancelled stopping main g) = true \/ b' = b) ->
    process_ok b' (mkProcess sigC cancelled cancelled stopping main g)).
  { intros b' Hbb Hor. split; simpl; auto. intros He. destruct Hor as [Hor| ->]; [congruence|auto]. }
  destruct main as [| |st]; [| |apply Hsame; [intros ->; done|by left]].
  - destruct e as [| | | | |x]; simpl; rewrite ?orb_true_r, ?orb_false_r; try (by apply Hsame; auto).
    + by split.
    + destruct (sigC && negb cancelled) eqn:E; [|by apply Hsame; auto]. bool_split. subst sigC.
      split; simpl; auto; done.
    + destruct (cancelled && negb stopping) eqn:E; [|by apply Hsame; auto]. bool_split.
      subst. split; simpl; auto; try done. by apply run_stop.
    + split; simpl; auto; try done. by apply run_serve.
    + split; simpl; auto; try done. by apply run_turn.
  - destruct e as [| | | | |x]; simpl; rewrite ?orb_true_r, ?orb_false_r; try (by apply Hsame; auto).
    + by split.
    + destruct (sigC && negb cancelled) eqn:E; [|by apply Hsame; auto]. bool_split. subst sigC.
      split; simpl; auto; done.
    + destruct (cancelled && negb stopping) eqn:E; [|by apply Hsame; auto]. bool_split.
      subst. split; simpl; auto; try done. by apply run_stop.
    + destruct (g_served g) as [[e|]|] eqn:E; [| |by apply Hsame; auto]; split; simpl; auto; try done.
      * intros st [= <-]. right. eauto.
      * intros st [= <-]. left. auto.
    + split; simpl; auto; try done. by apply run_turn.
Qed.


Lemma pr_run_ok es b p : process_ok b p -> process_ok (b || existsb is_signal es) (pr_run es p).
Proof.
  revert b p. induction es as [|e es IH]; intros b p Hp; simpl; [by rewrite orb_false_r|].
  rewrite orb_assoc. apply IH. by apply pr_step_ok.
Qed.

Lemma reachable_ok es : process_ok (existsb is_signal es) (pr_run es new_process).
Proof. apply (pr_run_ok es false), new_process_ok. Qed.

(** ** Progress: facts that, once true, stay true, and the turns that make them true *)
Definition stable (P : process -> Prop) : Prop := forall p e, P p -> P (pr_step p e).



Definition cancelled (p : process) : Prop := exited p = true \/ pr_cancelled p = true.
Definition stopping (p : process) : Prop := exited p = true \/ pr_stopping p = true.









(** ** Signals after the first *)
Definition drop_signals (es : list pr_event) : list pr_event :=
  List.filter (fun e => match e with Signal | TakeSignal => false | _ => true end) es.

(** Everything but what is left in the channel. *)
Definition observe (p : process) : process :=
  mkProcess false (pr_notified p) (pr_cancelled p) (pr_stopping p) (pr_main p) (pr_grpc p).

Lemma observe_step p e : observe (pr_step (observe p) e) = observe (pr_step p e) \/ e = TakeSignal.
Proof.
  destruct p as [sigC notified canc stop main g]. unfold observe. simpl.
  destruct main as [| |st], e; simpl; repeat case_match; auto.
Qed.

Lemma notified_stable : stable (fun p => pr_notified p = true).
Proof.
  intros [sigC notified canc stop main g] e. simpl. intros ->.
  destruct main as [| |st], e; simpl; repeat case_match; simpl in *; simplify_eq; auto.
Qed.

Lemma signal_unobserved p e : pr_notified p = true -> drop_signals [e] = [] -> observe (pr_step p e) = observe p.
Proof.
  destruct p as [sigC notified canc stop main g]. simpl. intros -> He.
  destruct e; try discriminate He; destruct main; simpl; rewrite ?andb_false_r; done.
Qed.

Lemma observe_run es p q : pr_notified p = true -> observe p = observe q ->
  observe (pr_run es p) = observe (pr_run (drop_signals es) q).
Proof.
  revert p q. induction es as [|e es IH]; intros p q Hn Hpq; [done|].
  change (pr_run (e :: es) p) with (pr_run es (pr_step p e)).
  assert (Hq : pr_notified q = true) by (destruct p, q; unfold observe in Hpq; simpl in *; congruence).
  destruct (drop_signals [e]) as [|e' l] eqn:E.
  - assert (drop_signals (e :: es) = drop_signals es) as -> by (destruct e; done).
    apply IH; [by apply notified_stable|]. by rewrite signal_unobserved.
  - assert (drop_signals (e :: es) = e :: drop_signals es) as -> by (destruct e; done).
    change (pr_run (e :: drop_signals es) q) with (pr_run (drop_signals es) (pr_step q e)).
    apply IH; [by apply notified_stable|].
    destruct (observe_step p e) as [<-| ->]; [|done]. destruct (observe_step q e) as [<-| ->]; [|done].
    by rewrite Hpq.
Qed.

(** ** Properties *)


(** C15. Signals after the first change nothing: once the context is cancelled, leaving out
    every further signal, and the turns of the goroutine that would take it, from what
    happens next gives the same process at every point, so a shutdown that waits for a
    request cannot be cut short by a second signal; only the return of [Serve] ends it. *)
Theorem later_signals_ignored (es es' : list pr_event) :
  let p := pr_run es new_process in
  pr_cancelled p = true ->
  observe (pr_run es' p) = observe (pr_run (drop_signals es') p) /\
  (exited (pr_run es' p) = true -> g_served (pr_grpc (pr_run es' p)) <> None).
Proof.
  intros p Hc. pose proof (reachable_ok es) as Hok. fold p in Hok. split.
  - apply observe_run; [|done]. by rewrite (po_notified _ _ Hok).
  - intros Hx. pose proof (pr_run_ok es' _ _ Hok) as [_ _ _ _ _ He]. unfold exited in Hx.
    destruct (pr_main _) as [| |st]; try done. by destruct (He st eq_refl) as [[_ ->]|[_ [e ->]]].
Qed.
End Process.

(** ** A server that has the laws, for the instances below

    A positive number starts the request of that number, a negative one ends it, zero
    makes the listener fail. *)
Record toy := mkToy { ty_serving : bool; ty_stopped : bool; ty_failed : option Z; ty_inflight : gset Z }.

#[local] Instance toy_grpc : GrpcServer toy := {
  g_new := mkToy false false None ∅;
  g_serve g := mkToy true (ty_stopped g) (if ty_stopped g then Some 1 else ty_failed g) (ty_inflight g);
  g_stop g := mkToy (ty_serving g) true (ty_failed g) (ty_inflight g);
  g_turn g x :=
    if 0 <? x then
      if ty_serving g && negb (ty_stopped g)
      then mkToy true (ty_stopped g) (ty_failed g) ({[x]} ∪ ty_inflight g) else g
    else if x <? 0 then mkToy (ty_serving g) (ty_stopped g) (ty_failed g) (ty_inflight g ∖ {[- x]})
    else if ty_serving g && negb (ty_stopped g) then mkToy true false (Some 2) (ty_inflight g) else g;
  g_served g :=
    match ty_failed g with
    | Some e => Some (Some e)
    | None => if ty_serving g && ty_stopped g && bool_decide (ty_inflight g = ∅) then Some None else None
    end;
  g_pending g := bool_decide (ty_inflight g <> ∅)
}.

Lemma toy_flags sv st g : g_run sv st g -> ty_serving g = sv /\ ty_stopped g = st.
Proof.
  induction 1 as [|st g _ [IH1 IH2]|sv g _ [IH1 IH2]|sv st g x _ [IH1 IH2]]; simpl; [done|done|done|].
  repeat case_match; simpl in *; bool_split; subst; done.
Qed.

#[local] Instance toy_laws : GrpcLaws toy.
Proof.
  split.
  - intros g [Hs Ht]%toy_flags. simpl. rewrite Ht, andb_false_r. by destruct (ty_failed g).
  - intros g [Hs Ht]%toy_flags. simpl. rewrite Ht. by exists 1.
  - intros g [Hs Ht]%toy_flags. simpl. rewrite Hs, Ht. intros Hp%bool_decide_eq_false.
    destruct (ty_failed g); [done|]. rewrite bool_decide_eq_true_2; [done|]. by apply dec_stable.
Qed.


Lemma later_signals_ignored_witness :
  observe (pr_run [CallStop; Signal; Signal; TakeSignal; ServeReturns]
     (pr_run [CallServe; Grpc 7; Signal; TakeSignal] (new_process (G := toy)))) =
  observe (pr_run [CallStop; ServeReturns]
     (pr_run [CallServe; Grpc 7; Signal; TakeSignal] (new_process (G := toy)))).
Proof.
  refine (proj1 (later_signals_ignored (G := toy) [CallServe; Grpc 7; Signal; TakeSignal]
    [CallStop; Signal; Signal; TakeSignal; ServeReturns] _)). reflexivity.
Defined.
