(* ===== verification/Cli.v ===== *)
(** * Operator commands: cmd/outrelay-cli/main.go

    Every command from its arguments to its exit status: the flags, what is sent to
    the controller, what the controller does, what is printed.  What the
    network does with an answer or a message of a stream is a [delivery]: it arrives, the
    connection breaks, or nothing ever happens; the commands wait under the deadlines of
    their contexts ([wait]).  [%q], RFC 3339 times in the local zone and the client's
    dialling are arguments ([client]).  Strings are byte strings; the lower-casing and
    trimming of mode words follow Go's Unicode rules as far as a comparison with an ASCII
    word can see them: only the Kelvin sign and the dotted capital I lower to
    ASCII letters. *)

From Stdlib Require Import ZArith Lia Ascii Strings.Byte.
From stdpp Require Import base tactics list strings gmap.
From S2P Require Import Prelude Store Hub Observe Policy AuditLog GoFlag Controller.

Local Open Scope Z_scope.

(** ** Mode words *)
Definition bytes_of (l : list Z) : list byte := map byte_of l.

(** The encodings of the space characters [strings.TrimSpace] removes. *)
Definition space_seqs : list (list byte) :=
  map bytes_of ([[9]; [10]; [11]; [12]; [13]; [32]; [0xC2; 0x85]; [0xC2; 0xA0]; [0xE1; 0x9A; 0x80];
    [0xE2; 0x80; 0xA8]; [0xE2; 0x80; 0xA9]; [0xE2; 0x80; 0xAF]; [0xE2; 0x81; 0x9F]; [0xE3; 0x80; 0x80]] ++
    map (fun i => [0xE2; 0x80; 0x80 + i]) [0; 1; 2; 3; 4; 5; 6; 7; 8; 9; 10]).

Fixpoint strip (p l : list byte) : option (list byte) :=
  match p, l with
  | [], _ => Some l
  | a :: p', b :: l' => if Byte.eqb a b then strip p' l' else None
  | _ :: _, [] => None
  end.

(** Remove one leading space, if there is one. *)
Fixpoint strip_any (ps : list (list byte)) (l : list byte) : option (list byte) :=
  match ps with
  | [] => None
  | p :: ps' => match strip p l with Some r => Some r | None => strip_any ps' l end
  end.

(** Fuel: the length, since every removal shortens the string. *)
Fixpoint trim_left (fuel : nat) (ps : list (list byte)) (l : list byte) : list byte :=
  match fuel with
  | O => l
  | S n => match strip_any ps l with Some r => trim_left n ps r | None => l end
  end.

Definition TrimSpace (l : list byte) : list byte :=
  let l1 := trim_left (length l) space_seqs l in
  rev (trim_left (length l1) (map (@rev byte) space_seqs) (rev l1)).

Definition lower_byte (b : byte) : byte :=
  let v := byte_val b in if (65 <=? v) && (v <=? 90) then byte_of (v + 32) else b.

(** Lower-casing of ASCII letters, the dotted capital I and the Kelvin sign. *)
Fixpoint ToLower (fuel : nat) (l : list byte) : list byte :=
  match fuel with
  | O => l
  | S n =>
    match strip (bytes_of [0xC4; 0xB0]) l, strip (bytes_of [0xE2; 0x84; 0xAA]) l, l with
    | Some r, _, _ => byte_of 105 :: ToLower n r
    | _, Some r, _ => byte_of 107 :: ToLower n r
    | _, _, b :: r => lower_byte b :: ToLower n r
    | _, _, [] => []
    end
  end.

Definition mode_word (s : string) : list byte :=
  let t := TrimSpace (str_bytes s) in ToLower (length t) t.

Definition word_in (w : list byte) (ws : list string) : bool :=
  existsb (fun x => bool_decide (str_bytes x = w)) ws.

Definition parseP2PMode (s : string) : Z * bool :=
  let w := mode_word s in
  if word_in w [""; "allowed"; "allow"; "p2p_allowed"] then (P2P_ALLOWED, true)
  else if word_in w ["forbidden"; "forbid"; "deny"; "p2p_forbidden"] then (P2P_FORBIDDEN, true)
  else if word_in w ["required"; "require"; "p2p_required"] then (P2P_REQUIRED, true)
  else (P2P_ALLOWED, false).

Definition parseRelayMode (s : string) : Z * bool :=
  let w := mode_word s in
  if word_in w [""; "splice"; "relay_mode_splice"] then (RELAY_MODE_SPLICE, true)
  else if word_in w ["forward"; "relay_mode_forward"] then (RELAY_MODE_FORWARD, true)
  else (RELAY_MODE_SPLICE, false).

(** [strings.EqualFold] with the word deny, whose letters fold only to ASCII. *)
Definition EqualFold_deny (s : string) : bool :=
  bool_decide (map lower_byte (str_bytes s) = str_bytes "deny").

(** ** The client's side of a call

    What a call waits for, an answer or the next message of a stream, arrives some
    time after the command has started the call, or the connection breaks, or nothing
    happens.  All times are in nanoseconds from that start. *)
Inductive delivery := Arrives (at_ns : Z) | Breaks (at_ns : Z) | Stalls.

(** How the wait ends under a context that expires, or never does: with what was
    awaited, with an error, or not at all. *)
Inductive waited := Got (at_ns : Z) | Failed (at_ns : Z) | Forever.

Definition wait (expires : option Z) (d : delivery) : waited :=
  match d, expires with
  | Arrives a, Some t => if a <? t then Got a else Failed t
  | Arrives a, None => Got a
  | Breaks a, Some t => Failed (Z.min a t)
  | Breaks a, None => Failed a
  | Stalls, Some t => Failed t
  | Stalls, None => Forever
  end.

(** [context.WithTimeout(context.Background(), d)] *)
Definition WithTimeout (d : Z) : option Z := Some d.

Record client := mkClient {
  cl_dial : string -> bool;      (** whether [grpc.NewClient] accepts the address *)
  cl_handled : bool;             (** a call without an answer reached the controller *)
  cl_reply : delivery;           (** the answer, or the opening of a stream *)
  cl_messages : list delivery;   (** the messages of a stream in turn; later ones stall *)
  cl_now_ns : Z;                 (** the client's clock *)
  cl_quote : string -> string;   (** [%q] *)
  cl_time : Z -> string          (** milliseconds since 1970 in RFC 3339, local zone *)
}.

(** The controller's side of a call: driver faults, its clock, the id it generates. *)
Record server_env := mkServerEnv {
  se_f1 : fault;
  se_f2 : fault;
  se_now_ms : Z;
  se_uuid : string;
  se_errs : list (option Z)
}.

(** A unary call: its result, [None] for an error, and when it is there; [inr] when the
    call never returns. *)
Definition call_policy {A} (expires : option Z) (cl : client)
    (h : Policy.Server -> option (res policy_err A * Policy.Server)) (c : Controller)
  : option ((option A * Z + unit) * Controller) :=
  let reached := match cl_reply cl with Arrives _ => true | _ => cl_handled cl end in
  '(r, c') ← (if reached then '(r, s) ← h (policy_of c); Some (Some r, put_policy s c) else Some (None, c));
  Some (match wait expires (cl_reply cl) with
        | Got t => inl (match r with Some (Ok a) => Some a | _ => None end, t)
        | Failed t => inl (None, t)
        | Forever => inr tt
        end, c').

(** How a command ends: exit status, lines on standard output, the controller, and how
    long it waited; or it waits for ever.  [None] is a panic of the controller. *)
Inductive outcome :=
| Exit (status : Z) (out : list string) (c : Controller) (at_ns : Z)
| Hang (out : list string) (c : Controller).

(** [os.Exit] before any call. *)
Definition exit (status : Z) (c : Controller) : option outcome := Some (Exit status [] c 0).

(** A unary call and what the command does with its result. *)
Definition after_call {A} (expires : option Z) (cl : client)
    (h : Policy.Server -> option (res policy_err A * Policy.Server)) (c : Controller)
    (k : option A -> Z * list string) : option outcome :=
  '(r, c') ← call_policy expires cl h c;
  Some (match r with
        | inl (a, t) => let '(status, out) := k a in Exit status out c' t
        | inr _ => Hang [] c'
        end).

(** [dial] exits when the address is not accepted. *)
Definition dial (cl : client) (fs : FlagSet) (c : Controller) (k : option outcome) : option outcome :=
  if cl_dial cl (get_string "controller" fs) then k else exit 1 c.

Definition default_addr : fvalue := FString "127.0.0.1:7444".

(** ** policy add *)
Record add_flags := mkAddFlags {
  fl_tenant : string;
  fl_caller : string;
  fl_target : string;
  fl_method : string;
  fl_decision : string;
  fl_expires : Z;
  fl_p2pMode : string;
  fl_relayMode : string
}.

(** [inl status]: the command exits; [inr rule]: the rule it sends. *)
Definition policyAdd_request (now_ns : Z) (fl : add_flags) : Z + PolicyRule :=
  if String.eqb (fl_tenant fl) "" || String.eqb (fl_caller fl) "" ||
     String.eqb (fl_target fl) "" || String.eqb (fl_decision fl) "" then inl 2
  else
    let dec := if EqualFold_deny (fl_decision fl) then DECISION_DENY else DECISION_ALLOW in
    let '(p2p, ok1) := parseP2PMode (fl_p2pMode fl) in
    if negb ok1 then inl 2
    else
      let '(rm, ok2) := parseRelayMode (fl_relayMode fl) in
      if negb ok2 then inl 2
      else
        let expiresMs := if 0 <? fl_expires fl then (now_ns + fl_expires fl) / Millisecond else 0 in
        inr (mkRule "" (fl_tenant fl) (fl_caller fl) (fl_target fl) (fl_method fl) dec expiresMs 0 p2p rm).

Definition add_flagset : FlagSet :=
  {[ "controller" := default_addr; "tenant" := FString ""; "caller" := FString ""; "target" := FString "";
     "method" := FString ""; "decision" := FString ""; "expires" := FDuration 0; "p2p-mode" := FString "";
     "relay-mode" := FString "" ]}%string.

Definition add_flags_of (fs : FlagSet) : add_flags :=
  mkAddFlags (get_string "tenant" fs) (get_string "caller" fs) (get_string "target" fs)
    (get_string "method" fs) (get_string "decision" fs) (get_duration "expires" fs)
    (get_string "p2p-mode" fs) (get_string "relay-mode" fs).

(** After the flags are read. *)
Definition policyAdd_run (cl : client) (se : server_env) (fs : FlagSet) (c : Controller) : option outcome :=
  match policyAdd_request (cl_now_ns cl) (add_flags_of fs) with
  | inl status => exit status c
  | inr rule =>
    dial cl fs c (
      after_call (WithTimeout (5 * Second)) cl
        (Policy.AddPolicy (se_f1 se) (se_now_ms se) (se_uuid se) (Some rule)) c
        (fun r => match r with Some id => (0, [id]) | None => (1, []) end))
  end.

Definition policyAdd (cl : client) (se : server_env) (args : list string) (c : Controller) : option outcome :=
  match Parse_or_exit add_flagset args with
  | inl status => exit status c
  | inr (fs, _) => policyAdd_run cl se fs c
  end.

(** ** policy list *)
Definition cli_p2pModeString (m : Z) : string :=
  if m =? P2P_FORBIDDEN then "forbidden" else if m =? P2P_REQUIRED then "required" else "allowed".
Definition cli_relayModeString (m : Z) : string :=
  if m =? RELAY_MODE_FORWARD then "forward" else "splice".

Definition tab : string := String (ascii_of_N 9) "".

Definition policy_line (cl : client) (r : PolicyRule) : string :=
  (r_Id r ++ tab ++ r_CallerPattern r ++ " -> " ++ r_TargetPattern r ++
   " (" ++ (if (r_Decision r =? DECISION_DENY)%Z then "deny" else "allow") ++ ")" ++ tab ++
   "method=" ++ cl_quote cl (r_MethodPattern r) ++ tab ++
   "p2p=" ++ cli_p2pModeString (r_P2PMode r) ++ tab ++ "relay=" ++ cli_relayModeString (r_RelayMode r) ++ tab ++
   "expires=" ++ (if (0 <? r_ExpiresUnixMs r)%Z then cl_time cl (r_ExpiresUnixMs r) else "-"))%string.

Definition list_flagset : FlagSet := {[ "controller" := default_addr; "tenant" := FString "" ]}%string.

Definition policyList `{OrderBy} (cl : client) (se : server_env) (args : list string) (c : Controller)
  : option outcome :=
  match Parse_or_exit list_flagset args with
  | inl status => exit status c
  | inr (fs, _) =>
    if String.eqb (get_string "tenant" fs) "" then exit 2 c
    else dial cl fs c (
      after_call (WithTimeout (5 * Second)) cl
        (fun s => Some (Policy.ListPolicies (se_f1 se) (se_f2 se) (get_string "tenant" fs) s, s)) c
        (fun r => match r with Some rules => (0, map (policy_line cl) rules) | None => (1, []) end))
  end.

(** ** policy remove *)
Definition remove_flagset : FlagSet :=
  {[ "controller" := default_addr; "tenant" := FString ""; "id" := FString "" ]}%string.

Definition policyRemove (cl : client) (se : server_env) (args : list string) (c : Controller) : option outcome :=
  match Parse_or_exit remove_flagset args with
  | inl status => exit status c
  | inr (fs, _) =>
    if String.eqb (get_string "tenant" fs) "" || String.eqb (get_string "id" fs) "" then exit 2 c
    else dial cl fs c (
      after_call (WithTimeout (5 * Second)) cl
        (Policy.RemovePolicy (se_f1 se) (get_string "tenant" fs) (get_string "id" fs)) c
        (fun r => match r with
                  | Some true => (0, ["removed"%string])
                  | Some false => (1, [])
                  | None => (1, [])
                  end))
  end.

(** ** audit query *)
Definition auditQuery_request (now_ns : Z) (tenant caller target : string) (since limit : Z)
  : QueryAuditRequest :=
  let sinceMs := if 0 <? since then (now_ns - since) / Millisecond else 0 in
  mkQueryReq tenant caller target sinceMs (i32 (Z.min limit 2147483647)).

Definition audit_line (cl : client) (ev : pbAuditEvent) : string :=
  (cl_time cl (e_TsUnixMs ev) ++ tab ++ (if (e_Decision ev =? DECISION_DENY)%Z then "deny" else "allow") ++ tab ++
   e_Caller ev ++ " -> " ++ e_Target ev ++ " " ++ cl_quote cl (e_Method ev) ++ tab ++ e_Reason ev)%string.

Definition query_flagset : FlagSet :=
  {[ "controller" := default_addr; "tenant" := FString ""; "caller" := FString ""; "target" := FString "";
     "since" := FDuration 0; "limit" := FInt 100 ]}%string.

(** The receiving loop: [Recv] waits for the next of the events the handler sends, then
    for the end of the stream, which is io.EOF or the handler's error.  Under the same
    context every wait ends by the same time; a message that came while an earlier one
    was awaited is there at once. *)
Fixpoint receive (expires : option Z) (cl : client) (now : Z) (messages : list delivery)
    (events : list pbAuditEvent) (err : bool) (c : Controller) (out : list string) : outcome :=
  match wait expires (default Stalls (head messages)) with
  | Failed t => Exit 1 out c (Z.max now t)
  | Forever => Hang out c
  | Got t =>
    match events with
    | [] => Exit (if err then 1 else 0) out c (Z.max now t)
    | ev :: events' =>
      receive expires cl (Z.max now t) (tail messages) events' err c (out ++ [audit_line cl ev])
    end
  end.

Definition auditMain `{OrderBy} (cl : client) (se : server_env) (args : list string) (c : Controller)
  : option outcome :=
  match args with
  | cmd :: args' =>
    if negb (String.eqb cmd "query") then exit 2 c
    else
      match Parse_or_exit query_flagset args' with
      | inl status => exit status c
      | inr (fs, _) =>
        if String.eqb (get_string "tenant" fs) "" then exit 2 c
        else dial cl fs c (
          let '(events, err) := AuditLog.Query (se_f1 se) (se_f2 se) (se_errs se)
            (auditQuery_request (cl_now_ns cl) (get_string "tenant" fs) (get_string "caller" fs)
               (get_string "target" fs) (get_duration "since" fs) (get_int "limit" fs)) (audit_of c) in
          let expires := WithTimeout (10 * Second) in
          Some (match wait expires (cl_reply cl) with
                | Failed t => Exit 1 [] c t
                | Forever => Hang [] c
                | Got t => receive expires cl t (cl_messages cl) events
                             (match err with Some _ => true | None => false end) c []
                end))
      end
  | [] => exit 2 c
  end.

(** ** Command dispatch *)
Definition policyMain `{OrderBy} (cl : client) (se : server_env) (args : list string) (c : Controller)
  : option outcome :=
  match args with
  | [] => exit 2 c
  | a :: rest =>
    if String.eqb a "add" then policyAdd cl se rest c
    else if String.eqb a "list" then policyList cl se rest c
    else if String.eqb a "remove" then policyRemove cl se rest c
    else exit 2 c
  end.

(** [main] after the program name; the version is what the linker stamped. *)
Definition cli_main `{OrderBy} (version : string) (cl : client) (se : server_env) (args : list string)
    (c : Controller) : option outcome :=
  match args with
  | [] => exit 2 c
  | cmd :: rest =>
    if String.eqb cmd "policy" then policyMain cl se rest c
    else if String.eqb cmd "audit" then auditMain cl se rest c
    else if one_of cmd ["version"; "--version"; "-v"] then Some (Exit 0 [version] c 0)
    else if one_of cmd ["-h"; "--help"; "help"] then exit 0 c
    else exit 2 c
  end.

(** ** Lemmas *)
Lemma put_policy_ok s c : ctl_ok c -> Policy.srv_ok s -> ctl_ok (put_policy s c).
Proof.
  intros (Hr & _ & Ha) Hs. split; [|split]; [split; [apply Hs|apply Hr]|by destruct s|apply Hs].
Qed.

Lemma call_policy_ok {A} expires cl (h : Policy.Server -> option (res policy_err A * Policy.Server)) c :
  ctl_ok c ->
  (forall s, Policy.srv_ok s -> exists r s', h s = Some (r, s') /\ Policy.srv_ok s') ->
  exists o c', ctl_ok c' /\
    call_policy expires cl h c = Some (match wait expires (cl_reply cl) with
      | Got t => inl (o, t) | Failed t => inl (None, t) | Forever => inr tt end, c').
Proof.
  intros Hc Hh. destruct (Hh (policy_of c) (proj1 (proj2 Hc))) as (r & s & E & Hs).
  pose proof (put_policy_ok s c Hc Hs) as Hput. unfold call_policy.
  destruct (match cl_reply cl with Arrives _ => true | _ => cl_handled cl end).
  - rewrite E. simpl. eexists _, _. split; [exact Hput|]. done.
  - simpl. eexists None, c. split; [done|]. by destruct (wait _ _).
Qed.

Lemma AddPolicy_srv_ok f now uuid rule s : Policy.srv_ok s ->
  exists r s', Policy.AddPolicy f now uuid rule s = Some (r, s') /\ Policy.srv_ok s'.
Proof.
  intros Hs. destruct (policy_step_ok s (Policy.CallAdd f now uuid rule) Hs) as (s' & He & Hs' & _).
  simpl in He. destruct (Policy.AddPolicy f now uuid rule s) as [[r s1]|]; [|done]. injection He as ->. by eexists _, _.
Qed.

Lemma RemovePolicy_srv_ok f t id s : Policy.srv_ok s ->
  exists r s', Policy.RemovePolicy f t id s = Some (r, s') /\ Policy.srv_ok s'.
Proof.
  intros Hs. destruct (policy_step_ok s (Policy.CallRemove f t id) Hs) as (s' & He & Hs' & _).
  simpl in He. destruct (Policy.RemovePolicy f t id s) as [[r s1]|]; [|done]. injection He as ->. by eexists _, _.
Qed.

(** A command returned within [limit], with the status of an operator command. *)
Definition ends (limit : Z) (r : option outcome) : Prop :=
  exists st out c t, r = Some (Exit st out c t) /\ (st = 0 \/ st = 1 \/ st = 2) /\ ctl_ok c /\ t <= limit.

Lemma ends_now limit st c : ctl_ok c -> st = 0 \/ st = 1 \/ st = 2 -> 0 <= limit -> ends limit (exit st c).
Proof. intros Hc Hst Hl. by exists st, [], c, 0. Qed.

Lemma dial_ends limit cl fs c k : ctl_ok c -> 0 <= limit -> ends limit k -> ends limit (dial cl fs c k).
Proof. intros Hc Hl Hk. unfold dial. destruct (cl_dial _ _); [done|]. apply ends_now; auto. Qed.

Lemma parsed_ends limit fset args c k : ctl_ok c -> 0 <= limit -> (forall r, ends limit (k r)) ->
  ends limit (match Parse_or_exit fset args with inl st => exit st c | inr r => k r end).
Proof.
  intros Hc Hl Hk. destruct (Parse_or_exit fset args) as [st|r] eqn:E; [|apply Hk].
  apply Parse_or_exit_status in E. apply ends_now; [done| |done]. destruct E; auto.
Qed.

(** Under a context that expires no wait is longer than that. *)
Lemma wait_expires limit d :
  (exists t, wait (Some limit) d = Got t /\ t <= limit) \/ (exists t, wait (Some limit) d = Failed t /\ t <= limit).
Proof.
  destruct d as [a|a|]; simpl; [|right; eexists; split; [done|lia]..].
  destruct (Z.ltb_spec a limit); [left|right]; eexists; split; try done; lia.
Qed.

Lemma call_ends {A} limit cl (h : Policy.Server -> option (res policy_err A * Policy.Server)) c
    (k : option A -> Z * list string) :
  ctl_ok c -> (forall s, Policy.srv_ok s -> exists r s', h s = Some (r, s') /\ Policy.srv_ok s') ->
  (forall r, let st := fst (k r) in st = 0 \/ st = 1 \/ st = 2) ->
  ends limit (after_call (WithTimeout limit) cl h c k).
Proof.
  intros Hc Hh Hk. unfold after_call.
  destruct (call_policy_ok (WithTimeout limit) cl h c Hc Hh) as (o & c' & Hc' & ->). cbn [mbind option_bind].
  unfold WithTimeout. destruct (wait_expires limit (cl_reply cl)) as [(t & -> & Ht)|(t & -> & Ht)]; [specialize (Hk o)|specialize (Hk None)];
    destruct (k _) as [st out]; by exists st, out, c', t.
Qed.

Lemma receive_ends limit cl now messages events err c out :
  ctl_ok c -> now <= limit -> ends limit (Some (receive (Some limit) cl now messages events err c out)).
Proof.
  intros Hc. revert now messages out. induction events as [|ev events IH]; intros now messages out Hn; simpl;
    (destruct (wait_expires limit (default Stalls (head messages))) as [(t & -> & Ht)|(t & -> & Ht)]);
    try (apply IH; lia); eexists _, _, _, _; (split; [done|]; split; [destruct err; auto|split; [done|lia]]).
Qed.

Lemma policyAdd_request_status now fl st : policyAdd_request now fl = inl st -> st = 2.
Proof. unfold policyAdd_request. repeat case_match; intros; by simplify_eq. Qed.

(** Steps of these proofs: a guard that exits, and the flags. *)
Ltac ends_simple := apply ends_now; [assumption|auto|done].

Lemma policyAdd_ends cl se args c : ctl_ok c -> ends (5 * Second) (policyAdd cl se args c).
Proof.
  intros Hc. unfold policyAdd. apply parsed_ends; [done|done|]. intros [fs rest]. unfold policyAdd_run.
  destruct (policyAdd_request _ _) as [st|rule] eqn:E.
  - apply policyAdd_request_status in E as ->. ends_simple.
  - apply dial_ends; [done|done|]. apply call_ends; [done|intros s; apply AddPolicy_srv_ok|].
    intros [id|]; simpl; auto.
Qed.

Lemma policyList_ends `{OrderBy} cl se args c : ctl_ok c -> ends (5 * Second) (policyList cl se args c).
Proof.
  intros Hc. unfold policyList. apply parsed_ends; [done|done|]. intros [fs rest].
  destruct (String.eqb _ _); [ends_simple|].
  apply dial_ends; [done|done|]. apply call_ends; [done|intros s Hs; by eexists _, _|].
  intros [rules|]; simpl; auto.
Qed.

Lemma policyRemove_ends cl se args c : ctl_ok c -> ends (5 * Second) (policyRemove cl se args c).
Proof.
  intros Hc. unfold policyRemove. apply parsed_ends; [done|done|]. intros [fs rest].
  destruct (_ || _); [ends_simple|].
  apply dial_ends; [done|done|]. apply call_ends; [done|intros s; apply RemovePolicy_srv_ok|].
  intros [[]|]; simpl; auto.
Qed.

Lemma policyMain_ends `{OrderBy} cl se args c : ctl_ok c -> ends (5 * Second) (policyMain cl se args c).
Proof.
  intros Hc. unfold policyMain. destruct args as [|a rest]; [ends_simple|].
  destruct (String.eqb a "add"); [by apply policyAdd_ends|].
  destruct (String.eqb a "list"); [by apply policyList_ends|].
  destruct (String.eqb a "remove"); [by apply policyRemove_ends|ends_simple].
Qed.

Lemma auditMain_ends `{OrderBy} cl se args c : ctl_ok c -> ends (10 * Second) (auditMain cl se args c).
Proof.
  intros Hc. unfold auditMain. destruct args as [|cmd args]; [ends_simple|].
  destruct (negb _); [ends_simple|]. apply parsed_ends; [done|done|]. intros [fs rest].
  destruct (String.eqb _ _); [ends_simple|]. apply dial_ends; [done|done|].
  destruct (AuditLog.Query _ _ _ _ _) as [events err]. unfold WithTimeout. cbv zeta.
  destruct (wait_expires (10 * Second) (cl_reply cl)) as [(t & -> & Ht)|(t & -> & Ht)].
  - by apply receive_ends.
  - eexists _, _, _, _. split; [done|]. auto.
Qed.

(** ** Properties *)

(** C16. No command waits for ever: whatever the arguments, whatever the network does with
    the calls and the messages of a stream (a connection that stays silent included),
    whatever the database faults and the controller's state, the command returns with
    exit status 0, 1 or 2, after at most 10 seconds of waiting for the network, 5 for a
    policy command, and the controller does not panic and keeps its invariants. *)
Theorem cli_terminates `{OrderBy} (version : string) (cl : client) (se : server_env)
    (args : list string) (c : Controller) :
  ctl_ok c ->
  exists st out c' t, cli_main version cl se args c = Some (Exit st out c' t) /\
    (st = 0 \/ st = 1 \/ st = 2) /\ ctl_ok c' /\
    t <= (if decide (head args = Some "policy"%string) then 5 else 10) * Second.
Proof.
  intros Hc. change (ends ((if decide (head args = Some "policy"%string) then 5 else 10) * Second)
    (cli_main version cl se args c)).
  unfold cli_main. destruct args as [|cmd rest]; [ends_simple|]. cbn [head].
  destruct (String.eqb_spec cmd "policy") as [->|Hne].
  - rewrite decide_True by done. by apply policyMain_ends.
  - rewrite decide_False by congruence.
    destruct (String.eqb cmd "audit"); [by apply auditMain_ends|].
    destruct (one_of _ _); [exists 0, [version], c, 0; split_and!; auto; done|]. destruct (one_of _ _); ends_simple.
Qed.

(** A client on a working network: everything arrives after one second. *)
Definition demo_client : client :=
  mkClient (fun _ => true) true (Arrives Second) (replicate 9 (Arrives Second)) 0 (fun s => s) (fun _ => ""%string).
Definition demo_env (uuid : string) : server_env := mkServerEnv None None 5 uuid [].

(** The same client when the controller stays silent. *)
Definition silent_client : client := mkClient (fun _ => true) true Stalls [] 0 (fun s => s) (fun _ => ""%string).

Lemma cli_terminates_witness :
  exists st out c' t, cli_main "dev" silent_client (demo_env "u1")
      ["policy"; "add"; "--tenant=acme"; "--caller"; "*"; "--target"; "db"; "--decision"; "deny";
       "--expires"; "1h30m"]%string (new_controller empty_db) = Some (Exit st out c' t) /\
    (st = 0 \/ st = 1 \/ st = 2) /\ ctl_ok c' /\ t <= 5 * Second.
Proof.
  exact (cli_terminates "dev" silent_client (demo_env "u1") ["policy"; "add"; "--tenant=acme"; "--caller"; "*";
    "--target"; "db"; "--decision"; "deny"; "--expires"; "1h30m"]%string (new_controller empty_db)
    (new_controller_ok _ empty_db_wf)).
Defined.

(** The command line that gives every flag of [policy add] a value. *)
Definition add_args (fl : add_flags) : list string :=
  flat_map flag_args
    [("tenant", fl_tenant fl); ("caller", fl_caller fl); ("target", fl_target fl); ("method", fl_method fl);
     ("decision", fl_decision fl); ("expires", nanos (fl_expires fl)); ("p2p-mode", fl_p2pMode fl);
     ("relay-mode", fl_relayMode fl)]%string.

Lemma add_args_parse fl : is_i64 (fl_expires fl) ->
  exists fs, Parse_or_exit add_flagset (add_args fl) = inr (fs, []) /\ add_flags_of fs = fl /\
    get_string "controller" fs = "127.0.0.1:7444"%string.
Proof.
  intros Hx. eexists. unfold Parse_or_exit, add_args. erewrite Parse_pairs.
  - split; [reflexivity|]. instantiate (1 := <["relay-mode" := FString (fl_relayMode fl)]>
      (<["p2p-mode" := FString (fl_p2pMode fl)]> (<["expires" := FDuration (fl_expires fl)]>
      (<["decision" := FString (fl_decision fl)]> (<["method" := FString (fl_method fl)]>
      (<["target" := FString (fl_target fl)]> (<["caller" := FString (fl_caller fl)]>
      (<["tenant" := FString (fl_tenant fl)]> add_flagset)))))))). by destruct fl.
  - do 5 (set_flag; [|reflexivity]). set_flag; [|cbn [fv_set]; rewrite ParseDuration_nanos by done; reflexivity].
    do 2 (set_flag; [|reflexivity]). reflexivity.
Qed.

(** Every setting of the flags of [policy add] can be given on the command line and is
    what the command works with: any strings, also ones that look like flags, and any
    duration, negative ones included. *)
Theorem add_flags_roundtrip `{OrderBy} (version : string) (cl : client) (se : server_env) (fl : add_flags)
    (c : Controller) :
  is_i64 (fl_expires fl) ->
  exists fs, add_flags_of fs = fl /\ get_string "controller" fs = "127.0.0.1:7444"%string /\
    cli_main version cl se ("policy" :: "add" :: add_args fl)%string c = policyAdd_run cl se fs c.
Proof.
  intros Hx. destruct (add_args_parse fl Hx) as (fs & Hp & Hfl & Hc). exists fs. split; [done|]. split; [done|].
  change (policyAdd cl se (add_args fl) c = policyAdd_run cl se fs c). unfold policyAdd. by rewrite Hp.
Qed.

Lemma add_flags_roundtrip_witness :
  exists fs, add_flags_of fs = mkAddFlags "acme" "--caller" "*" "" "deny" (-5) "" "forward" /\
    get_string "controller" fs = "127.0.0.1:7444"%string /\
    cli_main "dev" demo_client (demo_env "u1")
      ("policy" :: "add" :: add_args (mkAddFlags "acme" "--caller" "*" "" "deny" (-5) "" "forward"))%string
      (new_controller empty_db) = policyAdd_run demo_client (demo_env "u1") fs (new_controller empty_db).
Proof. apply add_flags_roundtrip. unfold is_i64. simpl. lia. Defined.

(** C23. Arguments after the flags are ignored, and so are the flags after them: a command
    whose flags are complete does the same with any further argument that is not a
    flag, followed by anything.  In particular a filter or an expiry given after a
    stray word has no effect and is not reported. *)
Theorem trailing_arguments_ignored `{OrderBy} (version : string) (cl : client) (se : server_env)
    (args rest : list string) (pos : string) (c : Controller) :
  arg_of pos = Positional ->
  ((exists fs, Parse add_flagset args = Ok (fs, [])) ->
   cli_main version cl se ("policy" :: "add" :: args ++ pos :: rest)%string c =
   cli_main version cl se ("policy" :: "add" :: args)%string c) /\
  ((exists fs, Parse query_flagset args = Ok (fs, [])) ->
   cli_main version cl se ("audit" :: "query" :: args ++ pos :: rest)%string c =
   cli_main version cl se ("audit" :: "query" :: args)%string c).
Proof.
  intros Hp. split; intros [fs E].
  - change (policyAdd cl se (args ++ pos :: rest) c = policyAdd cl se args c).
    unfold policyAdd, Parse_or_exit. by rewrite (Parse_trailing _ _ _ _ rest E Hp), E.
  - change (auditMain cl se ("query" :: args ++ pos :: rest)%string c = auditMain cl se ("query" :: args)%string c).
    unfold auditMain, Parse_or_exit. by rewrite (Parse_trailing _ _ _ _ rest E Hp), E.
Qed.

Lemma trailing_arguments_ignored_witness :
  cli_main "dev" demo_client (demo_env "u1")
    ["audit"; "query"; "--tenant"; "acme"; "by"; "--caller"; "alice"]%string (new_controller empty_db) =
  cli_main "dev" demo_client (demo_env "u1") ["audit"; "query"; "--tenant"; "acme"]%string (new_controller empty_db).
Proof.
  refine (proj2 (trailing_arguments_ignored "dev" demo_client (demo_env "u1") ["--tenant"; "acme"]%string
    ["--caller"; "alice"]%string "by" (new_controller empty_db) eq_refl) _).
  exists (<["tenant"%string := FString "acme"]> query_flagset). reflexivity.
Defined.

(** A client whose answers arrive after [t], within the time the commands wait, talking
    to a controller without faults. *)
Definition working (t : Z) (cl : client) (se : server_env) : Prop :=
  cl_reply cl = Arrives t /\ t < 5 * Second /\ (forall a, cl_dial cl a = true) /\
  se_f1 se = None /\ se_f2 se = None.

Lemma after_call_working {A} t cl se (h : Policy.Server -> option (res policy_err A * Policy.Server)) c a s k :
  working t cl se -> h (policy_of c) = Some (Ok a, s) ->
  after_call (WithTimeout (5 * Second)) cl h c k =
    Some (let '(status, out) := k (Some a) in Exit status out (put_policy s c) t).
Proof.
  intros (Hr & Ht & _) Hh. unfold after_call, call_policy. rewrite Hr, Hh. cbn [mbind option_bind wait WithTimeout].
  rewrite (proj2 (Z.ltb_lt t (5 * Second)) Ht). done.
Qed.

Lemma put_policy_of c : put_policy (policy_of c) c = c.
Proof. by destruct c as [d [rh rn] [ph pn] e]. Qed.

Lemma list_command `{OrderBy} version at_ns cl se t c :
  working at_ns cl se -> t <> ""%string ->
  exists rows, Store.ListPolicies None None t (ct_db c) = Ok rows /\
    cli_main version cl se ["policy"; "list"; "--tenant"; t]%string c =
      Some (Exit 0 (map (fun r => policy_line cl (toPB r)) rows) c at_ns).
Proof.
  intros Hw Ht. eexists. split; [done|]. pose proof Hw as (_ & _ & Hd & H1 & H2).
  change (policyList cl se (flat_map flag_args [("tenant", t)])%string c = Some (Exit 0
    (map (fun r => policy_line cl (toPB r)) (order_by created_leb
      (List.filter (fun p => String.eqb (p_Tenant p) t) (db_policies (ct_db c))))) c at_ns)).
  unfold policyList, Parse_or_exit. erewrite Parse_pairs by (set_flag; [|reflexivity]; reflexivity).
  change (get_string "tenant" (<["tenant"%string := FString t]> list_flagset)) with t.
  rewrite (proj2 (String.eqb_neq t "") Ht). unfold dial. rewrite Hd, H1, H2.
  erewrite after_call_working by (exact Hw || reflexivity). by rewrite put_policy_of, map_map.
Qed.

Lemma remove_command `{OrderBy} version at_ns cl se t id c s :
  working at_ns cl se -> t <> ""%string -> id <> ""%string ->
  Policy.RemovePolicy None t id (policy_of c) = Some (Ok true, s) ->
  cli_main version cl se ["policy"; "remove"; "--tenant"; t; "--id"; id]%string c =
    Some (Exit 0 ["removed"%string] (put_policy s c) at_ns).
Proof.
  intros Hw Ht Hi Hr. pose proof Hw as (_ & _ & Hd & H1 & H2).
  change (policyRemove cl se (flat_map flag_args [("tenant", t); ("id", id)])%string c =
    Some (Exit 0 ["removed"%string] (put_policy s c) at_ns)).
  unfold policyRemove, Parse_or_exit.
  erewrite Parse_pairs by (do 2 (set_flag; [|reflexivity]); reflexivity).
  change (get_string "tenant" (<["id"%string := FString id]> (<["tenant"%string := FString t]> remove_flagset))) with t.
  change (get_string "id" (<["id"%string := FString id]> (<["tenant"%string := FString t]> remove_flagset))) with id.
  rewrite (proj2 (String.eqb_neq t "") Ht), (proj2 (String.eqb_neq id "") Hi). cbn [orb].
  unfold dial. rewrite Hd, H1. by erewrite after_call_working by (exact Hw || exact Hr).
Qed.

Lemma policyAdd_request_rule now fl rule : policyAdd_request now fl = inr rule ->
  r_Id rule = ""%string /\ r_Tenant rule = fl_tenant fl /\ r_Tenant rule <> ""%string /\
  r_TargetPattern rule <> ""%string /\ r_CallerPattern rule <> ""%string /\
  (r_Decision rule = DECISION_ALLOW \/ r_Decision rule = DECISION_DENY).
Proof.
  unfold policyAdd_request. destruct (_ || _ || _ || _) eqn:E; [done|]. bool_split.
  destruct (parseP2PMode _) as [p2p []], (parseRelayMode _) as [rm []]; try done. simpl.
  intros [= <-]. simpl. split_and!; try done. destruct (EqualFold_deny _); auto.
Qed.

(** What the list prints for a stored rule is what the request said. *)
Lemma policy_line_stored cl uuid now rule :
  (r_Decision rule = DECISION_ALLOW \/ r_Decision rule = DECISION_DENY) ->
  policy_line cl (toPB (policy_defaults now (rule_row uuid rule))) = policy_line cl (with_id uuid rule).
Proof.
  intros Hd. unfold policy_line. simpl.
  assert ((Policy.decisionPB (Policy.decisionString (r_Decision rule)) =? DECISION_DENY) = (r_Decision rule =? DECISION_DENY)) as ->
    by (by destruct Hd as [-> | ->]).
  assert (forall m, cli_p2pModeString (p2pModePB (if String.eqb (p2pModeString m) "" then "allowed" else p2pModeString m)) =
    cli_p2pModeString m) as ->.
  { intros m. unfold cli_p2pModeString, p2pModeString. by repeat case_match. }
  assert (forall m, cli_relayModeString (relayModePB (if String.eqb (relayModeString m) "" then "splice" else relayModeString m)) =
    cli_relayModeString m) as ->; [|done].
  intros m. unfold cli_relayModeString, relayModeString. by repeat case_match.
Qed.

Lemma add_command `{OrderBy} version at_ns cl se fl rule c :
  working at_ns cl se -> ctl_ok c -> is_i64 (fl_expires fl) -> policyAdd_request (cl_now_ns cl) fl = inr rule ->
  existsb (fun q => String.eqb (p_ID q) (se_uuid se)) (db_policies (ct_db c)) = false ->
  exists s, Store.AddPolicy None (se_now_ms se) (rule_row (se_uuid se) rule) (ct_db c) = (Ok tt, Policy.srv_db s) /\
    Policy.srv_ok s /\
    cli_main version cl se ("policy" :: "add" :: add_args fl)%string c =
      Some (Exit 0 [se_uuid se] (put_policy s c) at_ns).
Proof.
  intros Hw Hc Hx Hreq Hfresh. destruct (policyAdd_request_rule _ _ _ Hreq) as (Hid & _ & Ht & Hg & Hk & Hdec).
  destruct (add_args_parse fl Hx) as (fs & Hp & Hfl & _).
  change (cli_main version cl se ("policy" :: "add" :: add_args fl)%string c) with (policyAdd cl se (add_args fl) c).
  pose proof Hw as (_ & _ & Hd & H1 & H2).
  unfold policyAdd. rewrite Hp. unfold policyAdd_run. rewrite Hfl, Hreq. unfold dial. rewrite Hd, H1.
  destruct (AddPolicy_srv_ok None (se_now_ms se) (se_uuid se) (Some rule) (policy_of c)
    (proj1 (proj2 Hc))) as (r & s & Ha & Hs). pose proof Ha as Ha0. unfold Policy.AddPolicy in Ha.
  assert (Hst : AddPolicy_store None (se_now_ms se) (se_uuid se) (Some rule) (ct_db c) =
    let '(res, d') := Store.AddPolicy None (se_now_ms se) (rule_row (se_uuid se) rule) (ct_db c) in
    match res with Err e => (Err (Policy.ErrStore e), d') | Ok _ => (Ok (with_id (se_uuid se) rule), d') end).
  { unfold AddPolicy_store. rewrite (proj2 (String.eqb_neq _ _) Ht), (proj2 (String.eqb_neq _ _) Hg),
      (proj2 (String.eqb_neq _ _) Hk), Hid. simpl.
    assert ((r_Decision rule =? DECISION_UNSPECIFIED) = false) as -> by (by destruct Hdec as [-> | ->]). done. }
  change (Policy.srv_db (policy_of c)) with (ct_db c) in Ha.
  destruct (Store.AddPolicy None (se_now_ms se) (rule_row (se_uuid se) rule) (ct_db c)) as [[[]|e] d] eqn:E.
  - rewrite Hst in Ha. destruct (Policy.hub_only _ _) as [s1|] eqn:Eh; [|done]. injection Ha as <- <-.
    exists s1. split; [|split; [done|by erewrite after_call_working by (exact Hw || exact Ha0)]].
    unfold Policy.hub_only in Eh. destruct (hub_step _ _); [|done]. by injection Eh as <-.
  - exfalso. unfold Store.AddPolicy, Store.exec, insert_policy in E. rewrite rule_row_checks in E. simpl in E.
    rewrite Hfresh in E. done.
Qed.

(** C17. From the command line to the database and back: a rule added with [policy add],
    with any accepted settings of its flags, is printed by the next [policy list] of
    the tenant with exactly the given patterns, decision, modes and expiry, next to
    the lines printed before; [policy remove] with the printed id then restores the
    database. *)
Theorem cli_add_list_remove `{OrderByLaws} (version : string) (t : Z) (cl : client) (se : server_env) (fl : add_flags)
    (rule : PolicyRule) (c : Controller) :
  working t cl se -> ctl_ok c -> is_i64 (fl_expires fl) -> policyAdd_request (cl_now_ns cl) fl = inr rule ->
  se_uuid se <> ""%string -> existsb (fun q => String.eqb (p_ID q) (se_uuid se)) (db_policies (ct_db c)) = false ->
  exists c1 c2 l l1,
    cli_main version cl se ("policy" :: "add" :: add_args fl)%string c = Some (Exit 0 [se_uuid se] c1 t) /\
    cli_main version cl se ["policy"; "list"; "--tenant"; fl_tenant fl]%string c = Some (Exit 0 l c t) /\
    cli_main version cl se ["policy"; "list"; "--tenant"; fl_tenant fl]%string c1 = Some (Exit 0 l1 c1 t) /\
    Permutation l1 (policy_line cl (with_id (se_uuid se) rule) :: l) /\
    cli_main version cl se ["policy"; "remove"; "--tenant"; fl_tenant fl; "--id"; se_uuid se]%string c1 =
      Some (Exit 0 ["removed"%string] c2 t) /\
    ct_db c2 = ct_db c.
Proof.
  intros Hw Hc Hx Hreq Hu Hfresh. destruct (policyAdd_request_rule _ _ _ Hreq) as (_ & Ht & Htne & _ & _ & Hdec).
  rewrite Ht in Htne. destruct (add_command version t cl se fl rule c Hw Hc Hx Hreq Hfresh) as (s & Ea & Hs & Hadd).
  destruct (list_command version t cl se (fl_tenant fl) c Hw Htne) as (rows & Er & Hl).
  destruct (list_command version t cl se (fl_tenant fl) (put_policy s c) Hw Htne) as (rows1 & Er1 & Hl1).
  destruct (ListPolicies_added _ _ _ _ _ Ea) as (l & l1 & E1 & E2 & Hperm & _).
  cbn [p_Tenant rule_row] in E1, E2. cbn [ct_db put_policy] in Er1.
  rewrite Ht in E1, E2. rewrite E1 in Er. rewrite E2 in Er1. injection Er as <-. injection Er1 as <-.
  pose proof (RemovePolicy_added _ _ _ _ _ Ea) as Hrm. cbn [p_Tenant p_ID rule_row] in Hrm. rewrite Ht in Hrm.
  destruct (policy_hub_only_ok (OpBroadcast (removed_event (se_uuid se)) (fl_tenant fl)) (Policy.set_db (ct_db c) s))
    as (s2 & Eh & _ & Hdb2); [split; [apply (sv_ok_wf _ (proj1 Hc))|apply Hs]|].
  assert (Hrem : Policy.RemovePolicy None (fl_tenant fl) (se_uuid se) (policy_of (put_policy s c)) = Some (Ok true, s2)).
  { unfold Policy.RemovePolicy. cbn [Policy.srv_db policy_of put_policy ct_db]. rewrite Hrm.
    destruct s as [d h k]. unfold Policy.set_db in *. simpl in *. by rewrite Eh. }
  exists (put_policy s c), (put_policy s2 (put_policy s c)), (map (fun r => policy_line cl (toPB r)) l),
    (map (fun r => policy_line cl (toPB r)) l1).
  split; [done|]. split; [done|]. split; [done|]. split; [|split].
  - rewrite Hperm. simpl. by rewrite policy_line_stored.
  - by apply remove_command.
  - done.
Qed.

Lemma cli_add_list_remove_witness :
  let fl := mkAddFlags "acme" "*" "db" "" "Deny" 3600000000000 "required" "" in
  exists c1 c2 l l1,
    cli_main "dev" demo_client (demo_env "u1") ("policy" :: "add" :: add_args fl)%string (new_controller empty_db) =
      Some (Exit 0 ["u1"%string] c1 Second) /\
    cli_main "dev" demo_client (demo_env "u1") ["policy"; "list"; "--tenant"; "acme"]%string (new_controller empty_db) =
      Some (Exit 0 l (new_controller empty_db) Second) /\
    cli_main "dev" demo_client (demo_env "u1") ["policy"; "list"; "--tenant"; "acme"]%string c1 = Some (Exit 0 l1 c1 Second) /\
    Permutation l1 (policy_line demo_client
      (with_id "u1" (mkRule "" "acme" "*" "db" "" DECISION_DENY 3600000 0 P2P_REQUIRED RELAY_MODE_SPLICE)) :: l) /\
    cli_main "dev" demo_client (demo_env "u1")
      ["policy"; "remove"; "--tenant"; "acme"; "--id"; "u1"]%string c1 = Some (Exit 0 ["removed"%string] c2 Second) /\
    ct_db c2 = ct_db (new_controller empty_db).
Proof.
  apply (cli_add_list_remove "dev" Second demo_client (demo_env "u1")
    (mkAddFlags "acme" "*" "db" "" "Deny" 3600000000000 "required" "")).
  - by repeat split.
  - apply new_controller_ok, empty_db_wf.
  - unfold is_i64. simpl. lia.
  - vm_compute. reflexivity.
  - discriminate.
  - reflexivity.
Defined.

(** The client whose answers get lost after the controller has handled the call. *)
Definition losing (cl : client) : client :=
  mkClient (cl_dial cl) true Stalls (cl_messages cl) (cl_now_ns cl) (cl_quote cl) (cl_time cl).

(** Retrying a failed [policy add] can add the rule twice: a command whose answer was
    lost prints nothing and exits with status 1 although the rule is stored, and the
    same command run again succeeds and stores a second rule with the same content
    under another id, since the command never sends an id of its own. *)
Theorem add_retry_duplicates `{OrderBy} (version : string) (t : Z) (cl : client) (se se' : server_env) (fl : add_flags)
    (rule : PolicyRule) (c : Controller) :
  working t cl se -> working t cl se' -> ctl_ok c -> is_i64 (fl_expires fl) ->
  policyAdd_request (cl_now_ns cl) fl = inr rule -> se_uuid se <> se_uuid se' ->
  existsb (fun q => String.eqb (p_ID q) (se_uuid se)) (db_policies (ct_db c)) = false ->
  existsb (fun q => String.eqb (p_ID q) (se_uuid se')) (db_policies (ct_db c)) = false ->
  exists c1 c2,
    cli_main version (losing cl) se ("policy" :: "add" :: add_args fl)%string c =
      Some (Exit 1 [] c1 (5 * Second)) /\
    cli_main version cl se' ("policy" :: "add" :: add_args fl)%string c1 = Some (Exit 0 [se_uuid se'] c2 t) /\
    db_policies (ct_db c2) = db_policies (ct_db c) ++
      [policy_defaults (se_now_ms se) (rule_row (se_uuid se) rule);
       policy_defaults (se_now_ms se') (rule_row (se_uuid se') rule)].
Proof.
  intros Hw Hw' Hc Hx Hreq Hne Hf Hf'.
  destruct (add_command version t cl se fl rule c Hw Hc Hx Hreq Hf) as (s & Ea & Hs & Hadd).
  pose proof (put_policy_ok s c Hc Hs) as Hc1.
  apply AddPolicy_ok in Ea as [Ea _].
  assert (Hf1 : existsb (fun q => String.eqb (p_ID q) (se_uuid se')) (db_policies (ct_db (put_policy s c))) = false).
  { cbn [ct_db put_policy]. rewrite Ea. cbn [db_policies with_policies]. rewrite existsb_app, Hf'. simpl.
    by rewrite (proj2 (String.eqb_neq _ _) Hne). }
  destruct (add_command version t cl se' fl rule (put_policy s c) Hw' Hc1 Hx Hreq Hf1) as (s' & Ea' & _ & Hadd').
  exists (put_policy s c), (put_policy s' (put_policy s c)). split; [|split; [done|]].
  - change (policyAdd cl se (add_args fl) c = Some (Exit 0 [se_uuid se] (put_policy s c) t)) in Hadd.
    change (policyAdd (losing cl) se (add_args fl) c = Some (Exit 1 [] (put_policy s c) (5 * Second))).
    revert Hadd. unfold policyAdd, policyAdd_run, dial. change (cl_now_ns (losing cl)) with (cl_now_ns cl).
    change (cl_dial (losing cl)) with (cl_dial cl). destruct Hw as (Hr & Ht & _).
    destruct (Parse_or_exit _ _) as [|[fs rest]]; [done|]. destruct (policyAdd_request _ (add_flags_of fs)) as [|r]; [done|].
    destruct (cl_dial cl _); [|done]. unfold after_call, call_policy. rewrite Hr. cbn [cl_reply cl_handled losing].
    destruct (Policy.AddPolicy _ _ _ _ _) as [[[id|e] s1]|]; cbn [mbind option_bind wait WithTimeout];
      rewrite ?(proj2 (Z.ltb_lt t (5 * Second)) Ht); [|done|done]. intros Heq.
    by assert (put_policy s1 c = put_policy s c) as -> by congruence.
  - apply AddPolicy_ok in Ea' as [Ea' _]. cbn [ct_db put_policy] in *. rewrite Ea'. cbn [db_policies with_policies].
    rewrite Ea. cbn [db_policies with_policies]. by rewrite <- app_assoc.
Qed.

Lemma add_retry_duplicates_witness :
  let fl := mkAddFlags "acme" "*" "db" "" "allow" 0 "" "" in
  exists c1 c2,
    cli_main "dev" (losing demo_client) (demo_env "u1") ("policy" :: "add" :: add_args fl)%string
      (new_controller empty_db) = Some (Exit 1 [] c1 (5 * Second)) /\
    cli_main "dev" demo_client (demo_env "u2") ("policy" :: "add" :: add_args fl)%string c1 =
      Some (Exit 0 ["u2"%string] c2 Second) /\
    db_policies (ct_db c2) = db_policies empty_db ++
      map (fun u => policy_defaults 5
        (rule_row u (mkRule "" "acme" "*" "db" "" DECISION_ALLOW 0 0 P2P_ALLOWED RELAY_MODE_SPLICE)))
        ["u1"; "u2"]%string.
Proof.
  apply (add_retry_duplicates "dev" Second demo_client (demo_env "u1") (demo_env "u2")
    (mkAddFlags "acme" "*" "db" "" "allow" 0 "" "")).
  - by repeat split.
  - by repeat split.
  - apply new_controller_ok, empty_db_wf.
  - unfold is_i64. simpl. lia.
  - vm_compute. reflexivity.
  - discriminate.
  - reflexivity.
  - reflexivity.
Defined.

(** A mode word the command accepts survives the whole path: the string the
    controller stores for the parsed mode is accepted again and parses to the same
    mode, for both mode flags. *)
Theorem mode_words_roundtrip (s : string) :
  parseP2PMode (p2pModeString (fst (parseP2PMode s))) = (fst (parseP2PMode s), true) /\
  parseRelayMode (relayModeString (fst (parseRelayMode s))) = (fst (parseRelayMode s), true).
Proof.
  split; [unfold parseP2PMode at 2 3|unfold parseRelayMode at 2 3]; cbv zeta;
    repeat case_match; vm_compute; reflexivity.
Qed.

(** Any decision flag other than deny, misspelt or not, adds an allow rule: the
    command refuses only an empty decision. *)
Theorem policyAdd_allows_unless_deny (now_ns : Z) (fl : add_flags) :
  fl_tenant fl <> ""%string -> fl_caller fl <> ""%string -> fl_target fl <> ""%string ->
  fl_decision fl <> ""%string -> EqualFold_deny (fl_decision fl) = false ->
  snd (parseP2PMode (fl_p2pMode fl)) = true -> snd (parseRelayMode (fl_relayMode fl)) = true ->
  exists rule, policyAdd_request now_ns fl = inr rule /\ r_Decision rule = DECISION_ALLOW.
Proof.
  intros Ht Hc Hg Hd Hdeny H1 H2. unfold policyAdd_request.
  rewrite !(proj2 (String.eqb_neq _ _)) by done. simpl. rewrite Hdeny.
  destruct (parseP2PMode (fl_p2pMode fl)) as [p2p ok1]. simpl in H1. subst ok1.
  destruct (parseRelayMode (fl_relayMode fl)) as [rm ok2]. simpl in H2. subst ok2. simpl.
  eexists. split; [done|]. done.
Qed.

Lemma policyAdd_allows_unless_deny_witness :
  exists rule,
    policyAdd_request 0 (mkAddFlags "acme" "*" "db" "" "dney" 0 "" "") = inr rule /\
    r_Decision rule = DECISION_ALLOW.
Proof.
  apply policyAdd_allows_unless_deny; try discriminate; vm_compute; reflexivity.
Defined.
