(* ===== verification/Correlate.v ===== *)
(** * Log correlation: tools/correlate/main.go

    The tool reads lines of several files, keeps the records that carry a stream
    id and a timestamp, groups them by id and prints each group in time order.
    [encoding/json] is a parameter: [decode] turns a line into an object whose
    two fields of interest are kept with their JSON type.  [bufio.Scanner] stops
    for good at a line longer than its buffer. *)

From Stdlib Require Import ZArith Lia Sorted SpecFloat Strings.Byte.
From stdpp Require Import base tactics list strings gmap.
From S2P Require Import Prelude Observe.

Local Open Scope Z_scope.

(** JSON values as [json.Unmarshal] into [any] produces them: numbers are
    [float64]. *)
Inductive json_val :=
| JString (s : string)
| JNumber (f : spec_float)
| JOther.

Record raw_obj := mkRaw {
  raw_stream_id : option json_val;
  raw_ts : option json_val;
  raw_source_file : option string;
  raw_body : list byte
}.

Record record := mkRecord {
  StreamID : string;
  TsUnixMs : Z;
  Source : string;
  Raw : raw_obj
}.

(** [sc.Buffer(..., 1024*1024)]: the longest line that still fits. *)
Definition max_line : Z := 1024 * 1024 - 1.

Section Correlate.
Context (undef : Z) (decode : list byte -> option raw_obj).

(** [numField]: other integer types never occur in a decoded object. *)
Definition numField (v : option json_val) : Z * bool :=
  match v with
  | Some (JNumber f) => (f64_to_i64 undef f, true)
  | _ => (0, false)
  end.

Definition stringField (v : option json_val) : string :=
  match v with Some (JString s) => s | _ => "" end.

(** The lines [Scan] delivers. *)
Fixpoint scan (lines : list (list byte)) : list (list byte) :=
  match lines with
  | [] => []
  | l :: lines' => if max_line <? zlen l then [] else l :: scan lines'
  end.

(** The loop body for one line. *)
Definition read_line (wantID path : string) (line : list byte) : option record :=
  match decode line with
  | None => None
  | Some raw =>
    let id := stringField (raw_stream_id raw) in
    let '(ts, _) := numField (raw_ts raw) in
    if String.eqb id "" || (ts =? 0) then None
    else if negb (String.eqb wantID "") && negb (String.eqb id wantID) then None
    else Some (mkRecord id ts path raw)
  end.

(** One file: [None] when it cannot be opened. *)
Definition read_file (wantID : string) (file : string * option (list (list byte))) : list record :=
  match file with
  | (path, Some lines) => omap (read_line wantID path) (scan lines)
  | (_, None) => []
  end.

(** [byID[id] = append(byID[id], r)]. *)
Definition add_record (m : gmap string (list record)) (r : record) : gmap string (list record) :=
  <[StreamID r := default [] (m !! StreamID r) ++ [r]]> m.

Definition ts_leb (a b : record) : bool := TsUnixMs a <=? TsUnixMs b.

Definition mark (r : record) : raw_obj :=
  mkRaw (raw_stream_id (Raw r)) (raw_ts (Raw r)) (Some (Source r)) (raw_body (Raw r)).

(** The printed groups; [None] is the usage error (exit status 2). *)
Definition correlate (wantID : string) (files : list (string * option (list (list byte))))
  : option (list (string * list raw_obj)) :=
  if zlen files =? 0 then None
  else
    let byID := fold_left add_record (flat_map (read_file wantID) files) ∅ in
    Some (map (fun id =>
      let group := stable_sort ts_leb (default [] (byID !! id)) in
      (id, map mark group)) (sortedKeys byID)).

(** ** Lemmas *)
Definition of_id (id : string) (rs : list record) : list record :=
  List.filter (fun r => String.eqb (StreamID r) id) rs.

Lemma fold_add_record rs m id :
  fold_left add_record rs m !! id =
    match m !! id, of_id id rs with
    | None, [] => None
    | o, l => Some (default [] o ++ l)
    end.
Proof.
  revert m. induction rs as [|r rs IH]; intros m; simpl.
  { destruct (m !! id); simpl; [by rewrite app_nil_r|done]. }
  rewrite IH. unfold add_record. destruct (String.eqb_spec (StreamID r) id) as [<-|Hne].
  - rewrite lookup_insert_eq. unfold of_id. simpl.
    destruct (m !! StreamID r); simpl; by rewrite <- ?app_assoc.
  - by rewrite lookup_insert_ne.
Qed.

Lemma ts_leb_total x y : ts_leb x y = true \/ ts_leb y x = true.
Proof. unfold ts_leb. rewrite !Z.leb_le. lia. Qed.
Lemma ts_leb_trans x y z : ts_leb x y = true -> ts_leb y z = true -> ts_leb x z = true.
Proof. unfold ts_leb. rewrite !Z.leb_le. lia. Qed.

Lemma sortedKeys_elem {V} (m : gmap string V) id : id ∈ sortedKeys m <-> is_Some (m !! id).
Proof.
  unfold sortedKeys. rewrite stable_sort_perm.
  change (map fst) with (fmap (M:=list) (@fst string V)). rewrite list_elem_of_fmap. split.
  - intros ([k l] & -> & Hin%elem_of_map_to_list). by eexists.
  - intros [l Hl]. exists (id, l). split; [done|]. by apply elem_of_map_to_list.
Qed.

Lemma sortedKeys_NoDup {V} (m : gmap string V) : NoDup (sortedKeys m).
Proof.
  unfold sortedKeys. rewrite stable_sort_perm. apply NoDup_fst_map_to_list.
Qed.

(** The records read, over all files in order. *)
Definition all_records (wantID : string) (files : list (string * option (list (list byte)))) : list record :=
  flat_map (read_file wantID) files.

(** ** Properties *)

(** C39. Correlation is exact: every kept record is printed exactly once, in the group
    of its stream id; the groups are the ids that occur, each once; within a group
    the records are ordered by time, and records of equal time keep the order in
    which they were read. *)
Theorem correlate_exact (wantID : string) (files : list (string * option (list (list byte))))
    (out : list (string * list raw_obj)) :
  correlate wantID files = Some out ->
  NoDup (map fst out) /\
  (forall id, In id (map fst out) <-> exists r, In r (all_records wantID files) /\ StreamID r = id) /\
  forall id objs, In (id, objs) out ->
    exists group, objs = map mark group /\
      Permutation group (of_id id (all_records wantID files)) /\
      StronglySorted (fun a b => TsUnixMs a <= TsUnixMs b) group /\
      forall ts, List.filter (fun r => TsUnixMs r =? ts) group =
        List.filter (fun r => TsUnixMs r =? ts) (of_id id (all_records wantID files)).
Proof.
  unfold correlate. destruct (zlen files =? 0); [done|]. intros [= <-].
  fold (all_records wantID files). set (rs := all_records wantID files).
  set (m := fold_left add_record rs ∅).
  assert (Hm : forall id, m !! id = match of_id id rs with [] => None | l => Some l end).
  { intros id. unfold m. rewrite fold_add_record, lookup_empty. by destruct (of_id id rs). }
  rewrite map_map. simpl. rewrite map_id. split; [apply sortedKeys_NoDup|]. split.
  - intros id. rewrite <- list_elem_of_In, sortedKeys_elem, Hm. split.
    + destruct (of_id id rs) as [|r l] eqn:E; [by intros [? ?]|]. intros _. exists r.
      assert (In r (of_id id rs)) as Hin by (rewrite E; by left).
      apply filter_In in Hin as [Hin He]. split; [done|]. by apply String.eqb_eq.
    + intros (r & Hr & <-). destruct (of_id (StreamID r) rs) eqn:E; [|by eexists].
      assert (In r (of_id (StreamID r) rs)) as Hin by (apply filter_In; split; [done|apply String.eqb_refl]).
      rewrite E in Hin. done.
  - intros id objs (id' & [= -> <-] & Hin)%in_map_iff.
    exists (stable_sort ts_leb (default [] (m !! id))). split; [done|].
    assert (Hd : default [] (m !! id) = of_id id rs) by (rewrite Hm; by destruct (of_id id rs)).
    rewrite Hd. split; [apply stable_sort_perm|]. split.
    + assert (Hw : forall l, StronglySorted (fun x y => ts_leb x y = true) l ->
        StronglySorted (fun a b => TsUnixMs a <= TsUnixMs b) l).
      { induction 1 as [|x l _ IH Hx]; constructor; [done|]. eapply Forall_impl; [exact Hx|].
        intros y. unfold ts_leb. lia. }
      apply Hw, stable_sort_sorted; [apply ts_leb_total|apply ts_leb_trans].
    + intros ts. apply (stable_sort_stable ts_leb (fun r => TsUnixMs r =? ts)).
      intros y z Hy Hz. unfold ts_leb. bool_split. apply Z.leb_le. lia.
Qed.

(** A line that does not fit the scanner's buffer ends its file: nothing after it
    is read and no error is reported. *)
Theorem long_line_drops_rest (wantID path : string) (before after : list (list byte)) (line : list byte) :
  max_line < zlen line ->
  read_file wantID (path, Some (before ++ line :: after)) = read_file wantID (path, Some before).
Proof.
  intros Hl. unfold read_file. f_equal. induction before as [|b before IH]; simpl.
  - by rewrite (proj2 (Z.ltb_lt _ _)).
  - destruct (max_line <? zlen b); [done|]. by rewrite IH.
Qed.
End Correlate.

(** An object decoder for the witnesses: the first byte is the timestamp. *)
Definition demo_decode (l : list byte) : option raw_obj :=
  match l with
  | b :: _ => Some (mkRaw (Some (JString "s")) (Some (JNumber (f64_of_int (byte_val b)))) None l)
  | [] => None
  end.

Lemma correlate_exact_witness :
  NoDup (map fst [("s"%string, [mark (mkRecord "s" 1 "f" (default (mkRaw None None None []) (demo_decode [Byte.x01])));
                                mark (mkRecord "s" 2 "f" (default (mkRaw None None None []) (demo_decode [Byte.x02])))])]).
Proof.
  refine (proj1 (correlate_exact 0 demo_decode "" [("f"%string, Some [[Byte.x02]; [Byte.x01]])] _ _)).
  vm_compute. reflexivity.
Defined.

Lemma long_line_drops_rest_witness :
  read_file 0 demo_decode "" ("f"%string, Some ([[Byte.x01]] ++ replicate (Z.to_nat (1024 * 1024)) Byte.x02 :: [[Byte.x03]])) =
  read_file 0 demo_decode "" ("f"%string, Some [[Byte.x01]]).
Proof. apply long_line_drops_rest. unfold zlen, max_line. rewrite length_replicate, Z2Nat.id; lia. Defined.
